(** * Connection manager: a shallow embedding of con.c and signal.c

    The development follows the two C files of the connection manager:
    con.c (connection objects, close, polling interest, fd passing,
    listeners and the dialer) and signal.c (the self-pipe signal bridge).

    Conventions of the embedding.
    - A C [int] is a [Z]; booleans are [bool]; C strings are [string];
      a pointer that may be NULL is an [option].
    - A function that receives a [conmgr_fd_t *] takes the pointee as an
      argument and returns it (possibly updated) with its result.
    - Every call that leaves the two files (system calls, the poll
      controller, the work queue, the logger) is recorded as an [event] in
      the trace of the [world], newest first.  What such a call returns is
      read from an oracle ([os_t]) that sees the whole trace so far, so two
      calls with the same arguments may answer differently.
    - [fatal], [fatal_abort] and a failed [xassert] end the process: the
      outcome is [Fatal].  [xassert] is compiled out when [NDEBUG] is set.
    - The registry mutex is not modelled: the embedding is sequential and
      runs each function on its own.

    The filters of gres_select_util.c (select plugin) are pure functions
    over the GRES lists of a job and of a node; they come after the
    connection manager.  There a function that dereferences a NULL
    pointer or indexes outside an array has no result ([None]), and the
    fixed-width unsigned arithmetic of C is written out. *)

From Stdlib Require Import ZArith List String Bool Lia DecimalString.
Import ListNotations.
Local Open Scope string_scope.
Local Open Scope list_scope.
Local Open Scope Z_scope.

(* ===================================================================== *)
(** * Constants of the headers                                            *)
(* ===================================================================== *)

(** slurm/slurm_errno.h: the code relies on success being zero
    ([!rc], [rc ? SLURM_ERROR : SLURM_SUCCESS]). *)
Definition SLURM_SUCCESS : Z := 0.
Definition SLURM_ERROR : Z := -1.

(** con.c *)
Definition MAGIC_RECEIVE_FD : Z := 0xeba8bae0.
Definition MAGIC_SEND_FD : Z := 0xfbf8e2e0.

(** The remaining constants come from headers that are not among the
    sources at hand (<errno.h>, slurm_errno.h, mgr.h), so they are taken as
    a parameter.  POSIX makes the error numbers positive and pairwise
    distinct, apart from [EWOULDBLOCK], which may be [EAGAIN]; the Slurm
    error numbers live in a range of their own. *)
Class headers_t : Type := {
  NDEBUG : bool;
  MAGIC_CON_MGR_FD : Z;
  BUFFER_START_SIZE : Z;
  NO_VAL : Z;
  EPERM : Z;
  ENOENT : Z;
  EINTR : Z;
  EBADF : Z;
  EAGAIN : Z;
  EWOULDBLOCK : Z;
  EINVAL : Z;
  EPIPE : Z;
  EAFNOSUPPORT : Z;
  EINPROGRESS : Z;
  SLURM_COMMUNICATIONS_MISSING_SOCKET_ERROR : Z;
  errnos : list Z :=
    [EPERM; ENOENT; EINTR; EBADF; EAGAIN; EINVAL; EPIPE; EAFNOSUPPORT;
     EINPROGRESS; SLURM_COMMUNICATIONS_MISSING_SOCKET_ERROR];
  errnos_positive : Forall (fun e => 0 < e) errnos;
  errnos_distinct : NoDup errnos;
  EWOULDBLOCK_positive : 0 < EWOULDBLOCK;
  EWOULDBLOCK_alias : EWOULDBLOCK = EAGAIN \/ ~ In EWOULDBLOCK errnos
}.

(* ===================================================================== *)
(** * Data model                                                          *)
(* ===================================================================== *)

(** poll.h: the interest registered for one file descriptor. *)
Inductive pollctl_fd_type_t : Type :=
| PCTL_TYPE_INVALID
| PCTL_TYPE_UNSUPPORTED
| PCTL_TYPE_NONE
| PCTL_TYPE_CONNECTED
| PCTL_TYPE_READ_ONLY
| PCTL_TYPE_READ_WRITE
| PCTL_TYPE_WRITE_ONLY
| PCTL_TYPE_LISTEN
| PCTL_TYPE_INVALID_MAX.

Definition pollctl_fd_type_eqb (a b : pollctl_fd_type_t) : bool :=
  match a, b with
  | PCTL_TYPE_INVALID, PCTL_TYPE_INVALID
  | PCTL_TYPE_UNSUPPORTED, PCTL_TYPE_UNSUPPORTED
  | PCTL_TYPE_NONE, PCTL_TYPE_NONE
  | PCTL_TYPE_CONNECTED, PCTL_TYPE_CONNECTED
  | PCTL_TYPE_READ_ONLY, PCTL_TYPE_READ_ONLY
  | PCTL_TYPE_READ_WRITE, PCTL_TYPE_READ_WRITE
  | PCTL_TYPE_WRITE_ONLY, PCTL_TYPE_WRITE_ONLY
  | PCTL_TYPE_LISTEN, PCTL_TYPE_LISTEN
  | PCTL_TYPE_INVALID_MAX, PCTL_TYPE_INVALID_MAX => true
  | _, _ => false
  end.

(** conmgr.h: the two connection types and the bounds of the enum. *)
Inductive conmgr_con_type_t : Type :=
| CON_TYPE_INVALID
| CON_TYPE_RAW
| CON_TYPE_RPC
| CON_TYPE_MAX.

Definition conmgr_con_type_eqb (a b : conmgr_con_type_t) : bool :=
  match a, b with
  | CON_TYPE_INVALID, CON_TYPE_INVALID
  | CON_TYPE_RAW, CON_TYPE_RAW
  | CON_TYPE_RPC, CON_TYPE_RPC
  | CON_TYPE_MAX, CON_TYPE_MAX => true
  | _, _ => false
  end.

(** Status handed to a work callback. *)
Inductive conmgr_work_status_t : Type :=
| CONMGR_WORK_STATUS_RUN
| CONMGR_WORK_STATUS_CANCELLED.

(** Address families the code names; any other family keeps its number. *)
Inductive sa_family_t : Type :=
| AF_UNSPEC
| AF_UNIX
| AF_INET
| AF_INET6
| AF_other (n : Z).

(** [slurm_addr_t] is a [struct sockaddr_storage] read through the struct of
    its family: a family-tagged union.  Zeroed storage is [sockaddr_unspec]. *)
Inductive slurm_addr_t : Type :=
| sockaddr_unspec
| sockaddr_in (sin_port : Z) (s_addr : Z)
| sockaddr_in6 (sin6_port : Z) (sin6_flowinfo : Z) (s6_addr : list Z)
               (sin6_scope_id : Z)
| sockaddr_un (sun_path : string)
| sockaddr_other (n : Z).

Definition ss_family (a : slurm_addr_t) : sa_family_t :=
  match a with
  | sockaddr_unspec => AF_UNSPEC
  | sockaddr_in _ _ => AF_INET
  | sockaddr_in6 _ _ _ _ => AF_INET6
  | sockaddr_un _ => AF_UNIX
  | sockaddr_other n => AF_other n
  end.

Definition sa_family_eqb (a b : sa_family_t) : bool :=
  match a, b with
  | AF_UNSPEC, AF_UNSPEC | AF_UNIX, AF_UNIX
  | AF_INET, AF_INET | AF_INET6, AF_INET6 => true
  | AF_other n, AF_other m => n =? m
  | _, _ => false
  end.

(** ** The bytes of an address

    [memcpy] into a [slurm_addr_t] copies bytes: a copy shorter than the
    address leaves the rest of the storage as it was.  The layout is that
    of Linux on a little-endian machine.  The family is in bytes 0-1.  An
    IPv4 address has its port in bytes 2-3 and its address in bytes 4-7;
    an IPv6 address has its port in bytes 2-3, its flow information in
    bytes 4-7, its address in bytes 8-23 and its scope in bytes 24-27; a
    unix address has its path from byte 2 on. *)

(** sys/socket.h: the numbers of the families. *)
Definition sa_family_to_Z (f : sa_family_t) : Z :=
  match f with
  | AF_UNSPEC => 0
  | AF_UNIX => 1
  | AF_INET => 2
  | AF_INET6 => 10
  | AF_other n => n
  end.

Definition sa_family_of_Z (n : Z) : sa_family_t :=
  if n =? 0 then AF_UNSPEC
  else if n =? 1 then AF_UNIX
  else if n =? 2 then AF_INET
  else if n =? 10 then AF_INET6
  else AF_other n.

(** Zeroed storage but for the family. *)
Definition sockaddr_of_family (f : sa_family_t) : slurm_addr_t :=
  match f with
  | AF_UNSPEC => sockaddr_unspec
  | AF_UNIX => sockaddr_un EmptyString
  | AF_INET => sockaddr_in 0 0
  | AF_INET6 => sockaddr_in6 0 0 (repeat 0 16) 0
  | AF_other n => sockaddr_other n
  end.

(** A field of [width] bytes that holds [v], of which only the first [n]
    bytes are copied into zeroed storage: the first byte holds the
    low-order bits. *)
Definition field_prefix (width n v : Z) : Z :=
  if n <=? 0 then 0
  else if width <=? n then v
  else v mod 2 ^ (8 * n).

(** The same for an array of [width] bytes. *)
Definition bytes_prefix (width n : Z) (l : list Z) : list Z :=
  if n <=? 0 then repeat 0 (Z.to_nat width)
  else if width <=? n then l
  else firstn (Z.to_nat n) l ++ repeat 0 (Z.to_nat (width - n)).

(** The same for a string in a zeroed array: the string ends where the
    copy ends. *)
Definition string_prefix (n : Z) (s : string) : string :=
  String.substring 0 (Z.to_nat n) s.

(** [memcpy(&address, addr, n)] into zeroed storage [address].  A length
    beyond the storage is outside the defined behaviour of C and treated
    as a copy of the whole address. *)
Definition memcpy_slurm_addr_t (addr : slurm_addr_t) (n : Z) : slurm_addr_t :=
  if n <=? 0 then sockaddr_unspec
  else
    match addr with
    | sockaddr_unspec => sockaddr_unspec
    | sockaddr_in port a =>
        sockaddr_in (field_prefix 2 (n - 2) port) (field_prefix 4 (n - 4) a)
    | sockaddr_in6 port flowinfo a scope =>
        sockaddr_in6 (field_prefix 2 (n - 2) port)
                     (field_prefix 4 (n - 4) flowinfo)
                     (bytes_prefix 16 (n - 8) a)
                     (field_prefix 4 (n - 24) scope)
    | sockaddr_un path => sockaddr_un (string_prefix (n - 2) path)
    | sockaddr_other f =>
        if n =? 1 then sockaddr_of_family (sa_family_of_Z (f mod 256))
        else sockaddr_other f
    end.

(** The callbacks of a connection: a function pointer is its address, NULL
    is [None]. *)
Record conmgr_events_t : Type := {
  on_connection : option Z;
  on_data : option Z;
  on_msg : option Z;
  on_finish : option Z
}.

(** pack.h: a buffer with its read cursor. *)
Record buf_t : Type := {
  head : list Z;
  size : Z;
  processed : Z
}.

Definition create_buf (data : list Z) (sz : Z) : buf_t :=
  {| head := data; size := sz; processed := 0 |}.

Definition set_buf_offset (b : buf_t) (off : Z) : buf_t :=
  {| head := head b; size := size b; processed := off |}.

(** The arguments of the two fd-passing work items. *)
Record receive_fd_args_t : Type := {
  rfa_magic : Z;
  rfa_type : conmgr_con_type_t;
  rfa_events : conmgr_events_t;
  rfa_arg : Z
}.

Record send_fd_args_t : Type := {
  sfa_magic : Z;
  sfa_fd : Z
}.

(** The work callbacks con.c hands to the work queue. *)
Inductive work_func_t : Type :=
| work__receive_fd (args : receive_fd_args_t)
| work__send_fd (args : send_fd_args_t)
| work__deferred_close_fd.

(** mgr.h: one tracked connection. *)
Record conmgr_fd_t : Type := {
  magic : Z;
  name : string;
  input_fd : Z;
  output_fd : Z;
  type : conmgr_con_type_t;
  polling_input_fd : pollctl_fd_type_t;
  polling_output_fd : pollctl_fd_type_t;
  is_socket : bool;
  is_listen : bool;
  is_connected : bool;
  read_eof : bool;
  can_read : bool;
  work_active : bool;
  events : conmgr_events_t;
  mss : Z;
  unix_socket : option string;
  address : slurm_addr_t;
  in_buf : option buf_t;
  out : option (list buf_t);
  work : list work_func_t;
  write_complete_work : list work_func_t;
  new_arg : Z;
  arg : Z
}.

(** Field updates of a connection, one per field the code assigns. *)
Definition set_input_fd (c : conmgr_fd_t) (v : Z) : conmgr_fd_t :=
  {| magic := magic c; name := name c; input_fd := v;
     output_fd := output_fd c; type := type c;
     polling_input_fd := polling_input_fd c;
     polling_output_fd := polling_output_fd c;
     is_socket := is_socket c; is_listen := is_listen c;
     is_connected := is_connected c; read_eof := read_eof c;
     can_read := can_read c; work_active := work_active c;
     events := events c; mss := mss c; unix_socket := unix_socket c;
     address := address c; in_buf := in_buf c; out := out c;
     work := work c; write_complete_work := write_complete_work c;
     new_arg := new_arg c; arg := arg c |}.

Definition set_type (c : conmgr_fd_t) (v : conmgr_con_type_t) : conmgr_fd_t :=
  {| magic := magic c; name := name c; input_fd := input_fd c;
     output_fd := output_fd c; type := v;
     polling_input_fd := polling_input_fd c;
     polling_output_fd := polling_output_fd c;
     is_socket := is_socket c; is_listen := is_listen c;
     is_connected := is_connected c; read_eof := read_eof c;
     can_read := can_read c; work_active := work_active c;
     events := events c; mss := mss c; unix_socket := unix_socket c;
     address := address c; in_buf := in_buf c; out := out c;
     work := work c; write_complete_work := write_complete_work c;
     new_arg := new_arg c; arg := arg c |}.

Definition set_polling_input_fd (c : conmgr_fd_t) (v : pollctl_fd_type_t)
  : conmgr_fd_t :=
  {| magic := magic c; name := name c; input_fd := input_fd c;
     output_fd := output_fd c; type := type c;
     polling_input_fd := v;
     polling_output_fd := polling_output_fd c;
     is_socket := is_socket c; is_listen := is_listen c;
     is_connected := is_connected c; read_eof := read_eof c;
     can_read := can_read c; work_active := work_active c;
     events := events c; mss := mss c; unix_socket := unix_socket c;
     address := address c; in_buf := in_buf c; out := out c;
     work := work c; write_complete_work := write_complete_work c;
     new_arg := new_arg c; arg := arg c |}.

Definition set_polling_output_fd (c : conmgr_fd_t) (v : pollctl_fd_type_t)
  : conmgr_fd_t :=
  {| magic := magic c; name := name c; input_fd := input_fd c;
     output_fd := output_fd c; type := type c;
     polling_input_fd := polling_input_fd c;
     polling_output_fd := v;
     is_socket := is_socket c; is_listen := is_listen c;
     is_connected := is_connected c; read_eof := read_eof c;
     can_read := can_read c; work_active := work_active c;
     events := events c; mss := mss c; unix_socket := unix_socket c;
     address := address c; in_buf := in_buf c; out := out c;
     work := work c; write_complete_work := write_complete_work c;
     new_arg := new_arg c; arg := arg c |}.

Definition set_read_eof (c : conmgr_fd_t) (v : bool) : conmgr_fd_t :=
  {| magic := magic c; name := name c; input_fd := input_fd c;
     output_fd := output_fd c; type := type c;
     polling_input_fd := polling_input_fd c;
     polling_output_fd := polling_output_fd c;
     is_socket := is_socket c; is_listen := is_listen c;
     is_connected := is_connected c; read_eof := v;
     can_read := can_read c; work_active := work_active c;
     events := events c; mss := mss c; unix_socket := unix_socket c;
     address := address c; in_buf := in_buf c; out := out c;
     work := work c; write_complete_work := write_complete_work c;
     new_arg := new_arg c; arg := arg c |}.

Definition set_can_read (c : conmgr_fd_t) (v : bool) : conmgr_fd_t :=
  {| magic := magic c; name := name c; input_fd := input_fd c;
     output_fd := output_fd c; type := type c;
     polling_input_fd := polling_input_fd c;
     polling_output_fd := polling_output_fd c;
     is_socket := is_socket c; is_listen := is_listen c;
     is_connected := is_connected c; read_eof := read_eof c;
     can_read := v; work_active := work_active c;
     events := events c; mss := mss c; unix_socket := unix_socket c;
     address := address c; in_buf := in_buf c; out := out c;
     work := work c; write_complete_work := write_complete_work c;
     new_arg := new_arg c; arg := arg c |}.

Definition set_in_buf (c : conmgr_fd_t) (v : option buf_t) : conmgr_fd_t :=
  {| magic := magic c; name := name c; input_fd := input_fd c;
     output_fd := output_fd c; type := type c;
     polling_input_fd := polling_input_fd c;
     polling_output_fd := polling_output_fd c;
     is_socket := is_socket c; is_listen := is_listen c;
     is_connected := is_connected c; read_eof := read_eof c;
     can_read := can_read c; work_active := work_active c;
     events := events c; mss := mss c; unix_socket := unix_socket c;
     address := address c; in_buf := v; out := out c;
     work := work c; write_complete_work := write_complete_work c;
     new_arg := new_arg c; arg := arg c |}.

(* ===================================================================== *)
(** * The world outside the two files                                     *)
(* ===================================================================== *)

Inductive log_level_t : Type :=
| LOG_FLAG_CONMGR
| LOG_FLAG_NET
| LOG_VERBOSE
| LOG_WARNING
| LOG_ERROR.

(** One call that leaves con.c or signal.c, with what it returned. *)
Inductive event : Type :=
| ev_log (lvl : log_level_t) (func : string) (msg : string)
| ev_unlink (path : string) (ret : Z)
| ev_close (fd : Z) (ret : Z)
| ev_shutdown_rd (fd : Z) (ret : Z)
| ev_fd_close (fd : Z)
| ev_fd_set_nonblocking (fd : Z)
| ev_fd_set_oob (fd : Z) (value : Z)
| ev_net_set_keep_alive (fd : Z)
| ev_fstat (fd : Z) (ret : Z)
| ev_socket (family : sa_family_t) (ret : Z)
| ev_setsockopt_reuseaddr (fd : Z) (ret : Z)
| ev_bind (fd : Z) (addr : slurm_addr_t) (ret : Z)
| ev_listen (fd : Z) (ret : Z)
| ev_connect (fd : Z) (addr : slurm_addr_t) (ret : Z)
| ev_write (fd : Z) (signo : Z) (ret : Z)
| ev_send_fd_over_socket (sock : Z) (fd : Z)
| ev_pollctl_link_fd (fd : Z) (t : pollctl_fd_type_t) (ret : Z)
| ev_pollctl_relink_fd (fd : Z) (t : pollctl_fd_type_t)
| ev_pollctl_unlink_fd (fd : Z)
| ev_pollctl_interrupt
| ev_event_signal_watch_sleep
| ev_add_work (con : string) (func : work_func_t)
| ev_parse (listen_on : string)
| ev_xgetaddrinfo (host port : string)
| ev_free_parse.

(** mgr.h: the registry singleton. *)
Record mgr_t : Type := {
  initialized : bool;
  shutdown_requested : bool;
  connections : list conmgr_fd_t;
  listen_conns : list conmgr_fd_t
}.

(** The debug flags of [slurm_conf] that gate [log_flag]. *)
Record slurm_conf_t : Type := {
  DEBUG_FLAG_CONMGR : bool;
  DEBUG_FLAG_NET : bool
}.

(** signal.c: the static variables of the signal bridge. *)
Record signal_mgr_t : Type := {
  one_time_init : bool;
  signal_handlers : list Z;
  signal_handler_count : Z;
  signal_work : list Z;
  signal_work_count : Z;
  signal_fd : Z;
  signal_con : option conmgr_fd_t
}.

Record world : Type := {
  mgr : mgr_t;
  sig : signal_mgr_t;
  slurm_conf : slurm_conf_t;
  errno : Z;
  trace : list event
}.

(** What [fstat] tells about an open descriptor. *)
Record stat_t : Type := {
  S_ISSOCK : bool
}.

Record parsed_host_port_t : Type := {
  host : string;
  port : string
}.

(** One entry of the list [xgetaddrinfo] returns. *)
Record addrinfo : Type := {
  ai_family : sa_family_t;
  ai_socktype : Z;
  ai_protocol : Z;
  ai_addr : slurm_addr_t;
  ai_addrlen : Z
}.

(** The answers of the environment.  A system call answers with its return
    value and the [errno] it leaves when it fails. *)
Class os_t : Type := {
  os_unlink : list event -> string -> Z * Z;
  os_close : list event -> Z -> Z * Z;
  os_shutdown : list event -> Z -> Z * Z;
  os_fstat : list event -> Z -> Z * Z * stat_t;
  os_socket : list event -> sa_family_t -> Z * Z;
  os_setsockopt : list event -> Z -> Z * Z;
  os_bind : list event -> Z -> slurm_addr_t -> Z * Z;
  os_listen : list event -> Z -> Z * Z;
  os_connect : list event -> Z -> slurm_addr_t -> Z * Z;
  os_write : list event -> Z -> Z -> Z * Z;
  os_pollctl_link_fd : list event -> Z -> pollctl_fd_type_t -> Z;
  os_parse : list event -> string -> option parsed_host_port_t;
  os_xgetaddrinfo : list event -> string -> string -> list addrinfo;
  os_sockaddr_from_unix_path : string -> slurm_addr_t;
  os_connection_name : list event -> Z -> Z -> string
}.

(** How a run of a function ends: it returns, the process is aborted, or
    (for the two retry loops only) the fuel given to the run is used up
    while the loop is still retrying. *)
Inductive outcome (A : Type) : Type :=
| Ret (a : A) (w : world)
| Fatal (w : world)
| Spin (w : world).
Arguments Ret {A} a w.
Arguments Fatal {A} w.
Arguments Spin {A} w.

Definition M (A : Type) : Type := world -> outcome A.

Definition ret {A : Type} (a : A) : M A := fun w => Ret a w.

Definition bind {A B : Type} (m : M A) (k : A -> M B) : M B :=
  fun w =>
    match m w with
    | Ret a w' => k a w'
    | Fatal w' => Fatal w'
    | Spin w' => Spin w'
    end.

Declare Scope conmgr_scope.
Delimit Scope conmgr_scope with conmgr.
Notation "x <- m ;; k" := (bind m (fun x => k))
  (at level 61, m at next level, right associativity) : conmgr_scope.
Notation "m ;; k" := (bind m (fun _ => k))
  (at level 61, right associativity) : conmgr_scope.
Local Open Scope conmgr_scope.

Definition fatal {A : Type} : M A := fun w => Fatal w.

Definition emit (e : event) : M unit :=
  fun w => Ret tt {| mgr := mgr w; sig := sig w; slurm_conf := slurm_conf w;
                     errno := errno w; trace := e :: trace w |}.

Definition get_trace : M (list event) := fun w => Ret (trace w) w.
Definition get_errno : M Z := fun w => Ret (errno w) w.
Definition get_mgr : M mgr_t := fun w => Ret (mgr w) w.
Definition get_sig : M signal_mgr_t := fun w => Ret (sig w) w.
Definition get_slurm_conf : M slurm_conf_t := fun w => Ret (slurm_conf w) w.

Definition set_errno (e : Z) : M unit :=
  fun w => Ret tt {| mgr := mgr w; sig := sig w; slurm_conf := slurm_conf w;
                     errno := e; trace := trace w |}.

Definition set_mgr (m : mgr_t) : M unit :=
  fun w => Ret tt {| mgr := m; sig := sig w; slurm_conf := slurm_conf w;
                     errno := errno w; trace := trace w |}.

Definition set_sig (s : signal_mgr_t) : M unit :=
  fun w => Ret tt {| mgr := mgr w; sig := s; slurm_conf := slurm_conf w;
                     errno := errno w; trace := trace w |}.

(** A system call: the oracle's answer is recorded, and [errno] is set
    when the call fails. *)
Definition syscall (answer : list event -> Z * Z) (ev : Z -> event) : M Z :=
  t <- get_trace ;;
  let '(r, e) := answer t in
  emit (ev r) ;;
  (if r <? 0 then set_errno e else ret tt) ;;
  ret r.

Definition when (b : bool) (m : M unit) : M unit :=
  if b then m else ret tt.

(** Whether a message of this level is written: [log_flag] looks at the
    debug flag of its subsystem and evaluates its arguments only then. *)
Definition log_enabled (lvl : log_level_t) (conf : slurm_conf_t) : bool :=
  match lvl with
  | LOG_FLAG_CONMGR => DEBUG_FLAG_CONMGR conf
  | LOG_FLAG_NET => DEBUG_FLAG_NET conf
  | _ => true
  end.

Definition log_flag (lvl : log_level_t) (func msg : string) : M unit :=
  conf <- get_slurm_conf ;;
  when (log_enabled lvl conf) (emit (ev_log lvl func msg)).

(* ===================================================================== *)
(** * con.c                                                               *)
(* ===================================================================== *)

Section Con.
Context {HD : headers_t} {OS : os_t}.

(** xassert.h: checked in debug builds only. *)
Definition xassert (b : bool) : M unit :=
  if NDEBUG || b then ret tt else fatal.

Definition error (func msg : string) : M unit :=
  emit (ev_log LOG_ERROR func msg).

Definition verbose (func msg : string) : M unit :=
  emit (ev_log LOG_VERBOSE func msg).

Definition EVENT_SIGNAL_watch_sleep : M unit :=
  emit ev_event_signal_watch_sleep.

Definition unlink (path : string) : M Z :=
  syscall (fun t => os_unlink t path) (ev_unlink path).

Definition close (fd : Z) : M Z :=
  syscall (fun t => os_close t fd) (ev_close fd).

Definition shutdown_SHUT_RD (fd : Z) : M Z :=
  syscall (fun t => os_shutdown t fd) (ev_shutdown_rd fd).

(** fd.h: [fd_close(&fd)] on a local copy of a descriptor. *)
Definition fd_close (fd : Z) : M unit := emit (ev_fd_close fd).

Definition pollctl_unlink_fd (fd : Z) : M unit :=
  emit (ev_pollctl_unlink_fd fd).

Definition pollctl_relink_fd (fd : Z) (t : pollctl_fd_type_t) : M unit :=
  emit (ev_pollctl_relink_fd fd t).

Definition pollctl_link_fd (fd : Z) (t : pollctl_fd_type_t) : M Z :=
  tr <- get_trace ;;
  let rc := os_pollctl_link_fd tr fd t in
  emit (ev_pollctl_link_fd fd t rc) ;;
  ret rc.

Definition pollctl_interrupt : M unit := emit ev_pollctl_interrupt.

(** The enumerators of [pollctl_fd_type_t] in declaration order. *)
Definition pollctl_fd_type_to_Z (t : pollctl_fd_type_t) : Z :=
  match t with
  | PCTL_TYPE_INVALID => 0
  | PCTL_TYPE_UNSUPPORTED => 1
  | PCTL_TYPE_NONE => 2
  | PCTL_TYPE_CONNECTED => 3
  | PCTL_TYPE_READ_ONLY => 4
  | PCTL_TYPE_READ_WRITE => 5
  | PCTL_TYPE_WRITE_ONLY => 6
  | PCTL_TYPE_LISTEN => 7
  | PCTL_TYPE_INVALID_MAX => 8
  end.

Definition _validate_pctl_type (t : pollctl_fd_type_t) : M unit :=
  xassert (pollctl_fd_type_to_Z PCTL_TYPE_INVALID <? pollctl_fd_type_to_Z t) ;;
  xassert (pollctl_fd_type_to_Z t <? pollctl_fd_type_to_Z PCTL_TYPE_INVALID_MAX).

Definition _set_fd_polling (fd : Z) (old new : pollctl_fd_type_t)
    (con_name caller : string) : M pollctl_fd_type_t :=
  if pollctl_fd_type_eqb old PCTL_TYPE_UNSUPPORTED then
    ret PCTL_TYPE_UNSUPPORTED
  else if pollctl_fd_type_eqb old new then
    ret new
  else if pollctl_fd_type_eqb new PCTL_TYPE_NONE then
    when (negb (pollctl_fd_type_eqb old PCTL_TYPE_NONE))
         (pollctl_unlink_fd fd) ;;
    ret new
  else if negb (pollctl_fd_type_eqb old PCTL_TYPE_NONE) then
    pollctl_relink_fd fd new ;;
    ret new
  else
    rc <- pollctl_link_fd fd new ;;
    if rc =? 0 then ret new
    else if rc =? EPERM then ret PCTL_TYPE_UNSUPPORTED
    else fatal.

(** Only traces when the CONMGR debug flag is set; the text depends on the
    old and new types of the sides that are present. *)
Definition _log_set_polling (con : conmgr_fd_t) (has_in has_out : bool)
    (t in_type out_type : pollctl_fd_type_t) (caller : string) : M unit :=
  log_flag LOG_FLAG_CONMGR "con_set_polling" "polling".

(** The [switch] of [con_set_polling]: the interest asked for on the input
    and on the output side.  Both start as [PCTL_TYPE_NONE]. *)
Definition con_set_polling_switch (con : conmgr_fd_t) (is_same : bool)
    (t : pollctl_fd_type_t) : M (pollctl_fd_type_t * pollctl_fd_type_t) :=
  match t with
  | PCTL_TYPE_UNSUPPORTED => fatal
  | PCTL_TYPE_NONE => ret (PCTL_TYPE_NONE, PCTL_TYPE_NONE)
  | PCTL_TYPE_CONNECTED =>
      if is_same then ret (PCTL_TYPE_CONNECTED, PCTL_TYPE_NONE)
      else ret (PCTL_TYPE_CONNECTED, PCTL_TYPE_CONNECTED)
  | PCTL_TYPE_READ_ONLY => ret (PCTL_TYPE_READ_ONLY, PCTL_TYPE_NONE)
  | PCTL_TYPE_READ_WRITE =>
      if is_same then ret (PCTL_TYPE_READ_WRITE, PCTL_TYPE_NONE)
      else ret (PCTL_TYPE_READ_ONLY, PCTL_TYPE_WRITE_ONLY)
  | PCTL_TYPE_WRITE_ONLY =>
      if is_same then ret (PCTL_TYPE_WRITE_ONLY, PCTL_TYPE_NONE)
      else ret (PCTL_TYPE_NONE, PCTL_TYPE_WRITE_ONLY)
  | PCTL_TYPE_LISTEN =>
      xassert (is_listen con) ;;
      ret (PCTL_TYPE_LISTEN, PCTL_TYPE_NONE)
  | PCTL_TYPE_INVALID | PCTL_TYPE_INVALID_MAX => fatal
  end.

Definition con_set_polling (con : conmgr_fd_t) (t : pollctl_fd_type_t)
    (caller : string) : M conmgr_fd_t :=
  _validate_pctl_type t ;;
  _validate_pctl_type (polling_input_fd con) ;;
  _validate_pctl_type (polling_output_fd con) ;;
  let in_ := input_fd con in
  let has_in := 0 <=? in_ in
  let out_ := output_fd con in
  let has_out := 0 <=? out_ in
  let is_same := input_fd con =? output_fd con in
  xassert (has_in || has_out) ;;
  types <- con_set_polling_switch con is_same t ;;
  let out_type :=
    if pollctl_fd_type_eqb (polling_output_fd con) PCTL_TYPE_UNSUPPORTED
    then PCTL_TYPE_UNSUPPORTED else snd types in
  let in_type :=
    if pollctl_fd_type_eqb (polling_input_fd con) PCTL_TYPE_UNSUPPORTED
    then PCTL_TYPE_UNSUPPORTED else fst types in
  _log_set_polling con has_in has_out t in_type out_type caller ;;
  if is_same then
    (* same never link output_fd *)
    xassert (pollctl_fd_type_eqb (polling_output_fd con) PCTL_TYPE_NONE) ;;
    r <- _set_fd_polling in_ (polling_input_fd con) in_type (name con)
                         caller ;;
    ret (set_polling_input_fd con r)
  else
    con1 <- (if has_in then
               r <- _set_fd_polling in_ (polling_input_fd con) in_type
                                    (name con) caller ;;
               ret (set_polling_input_fd con r)
             else ret con) ;;
    if has_out then
      r <- _set_fd_polling out_ (polling_output_fd con1) out_type
                           (name con1) caller ;;
      ret (set_polling_output_fd con1 r)
    else ret con1.

(** Stop reading from the connection; the remaining output is still
    written and queued work still runs. *)
Definition close_con (locked : bool) (con : conmgr_fd_t) : M conmgr_fd_t :=
  if input_fd con <? 0 then
    xassert (read_eof con) ;;
    xassert (negb (can_read con)) ;;
    log_flag LOG_FLAG_CONMGR "close_con" "ignoring duplicate close request" ;;
    ret con
  else
    log_flag LOG_FLAG_CONMGR "close_con" "closing input" ;;
    (* unlink listener sockets to avoid leaving ghost socket *)
    (if is_listen con then
       match unix_socket con with
       | Some path =>
           r <- unlink path ;;
           when (r =? -1) (error "close_con" "unable to unlink")
       | None => ret tt
       end
     else ret tt) ;;
    con1 <- con_set_polling con PCTL_TYPE_NONE "close_con" ;;
    (* mark it as EOF even if it hasn't *)
    let con2 := set_can_read (set_read_eof con1 true) false in
    (* drop any unprocessed input buffer *)
    let con3 :=
      match in_buf con2 with
      | Some b => set_in_buf con2 (Some (set_buf_offset b 0))
      | None => con2
      end in
    (if is_listen con3 then
       r <- close (input_fd con3) ;;
       when (r =? -1)
            (log_flag LOG_FLAG_CONMGR "close_con"
                      "unable to close listen fd") ;;
       xassert (output_fd con3 <=? 0)
     else if negb (input_fd con3 =? output_fd con3) then
       (* different input FD, we can close it now *)
       r <- close (input_fd con3) ;;
       when (r =? -1)
            (log_flag LOG_FLAG_CONMGR "close_con"
                      "unable to close input fd")
     else if is_socket con3 then
       (* shutdown input on sockets *)
       r <- shutdown_SHUT_RD (input_fd con3) ;;
       when (r =? -1)
            (log_flag LOG_FLAG_CONMGR "close_con"
                      "unable to shutdown read")
     else ret tt) ;;
    (* forget the now invalid FD *)
    let con4 := set_input_fd con3 (-1) in
    EVENT_SIGNAL_watch_sleep ;;
    ret con4.


Definition conmgr_con_type_string (t : conmgr_con_type_t) : M string :=
  match t with
  | CON_TYPE_RAW => ret "CON_TYPE_RAW"
  | CON_TYPE_RPC => ret "CON_TYPE_RPC"
  | _ => fatal
  end.

Definition is_some {A : Type} (o : option A) : bool :=
  match o with Some _ => true | None => false end.

(** The whole body is under [#ifndef NDEBUG]. *)
Definition _check_con_type (con : conmgr_fd_t) (t : conmgr_con_type_t)
  : M unit :=
  if NDEBUG then ret tt
  else
    match t with
    | CON_TYPE_RAW =>
        (* must have on_data() defined *)
        xassert (is_some (on_data (events con)))
    | CON_TYPE_RPC =>
        (* must have on_msg() defined *)
        xassert (is_some (on_msg (events con)))
    | _ => fatal
    end.

(** The arguments of the second [log_flag] read [con->in] and [con->out]:
    where one of them is NULL the process crashes. *)
Definition fd_change_mode (con : conmgr_fd_t) (t : conmgr_con_type_t)
  : M (Z * conmgr_fd_t) :=
  xassert (magic con =? MAGIC_CON_MGR_FD) ;;
  _check_con_type con t ;;
  conf <- get_slurm_conf ;;
  if conmgr_con_type_eqb (type con) t then
    (if log_enabled LOG_FLAG_CONMGR conf then
       _ <- conmgr_con_type_string t ;;
       log_flag LOG_FLAG_CONMGR "fd_change_mode" "ignoring unchanged type"
     else ret tt) ;;
    ret (SLURM_SUCCESS, con)
  else
    (if log_enabled LOG_FLAG_CONMGR conf then
       _ <- conmgr_con_type_string (type con) ;;
       _ <- conmgr_con_type_string t ;;
       match in_buf con, out con with
       | Some _, Some _ =>
           log_flag LOG_FLAG_CONMGR "fd_change_mode" "changing type"
       | _, _ => fatal
       end
     else ret tt) ;;
    ret (SLURM_SUCCESS, set_type con t).

Definition conmgr_fd_change_mode (con : conmgr_fd_t) (t : conmgr_con_type_t)
  : M (Z * conmgr_fd_t) :=
  r <- fd_change_mode con t ;;
  (* wake up watch() to send along any pending data *)
  EVENT_SIGNAL_watch_sleep ;;
  ret r.

Definition fstat (fd : Z) : M (Z * stat_t) :=
  tr <- get_trace ;;
  let '(r, e, st) := os_fstat tr fd in
  emit (ev_fstat fd r) ;;
  (if r <? 0 then set_errno e else ret tt) ;;
  ret (r, st).

Definition zero_stat : stat_t := {| S_ISSOCK := false |}.

Definition fd_set_nonblocking (fd : Z) : M unit :=
  emit (ev_fd_set_nonblocking fd).

Definition net_set_keep_alive (fd : Z) : M unit :=
  emit (ev_net_set_keep_alive fd).

Definition fd_set_oob (fd value : Z) : M unit :=
  emit (ev_fd_set_oob fd value).

(** [_set_connection_name]: "INVALID" without any descriptor; otherwise the
    name is built from what the descriptors resolve to, which the
    environment supplies. *)
Definition _set_connection_name (in_fd out_fd : Z) : M string :=
  let has_in := 0 <=? in_fd in
  let has_out := 0 <=? out_fd in
  if negb has_in && negb has_out then ret "INVALID"
  else tr <- get_trace ;; ret (os_connection_name tr in_fd out_fd).

Definition list_append_connections (con : conmgr_fd_t) : M unit :=
  m <- get_mgr ;;
  set_mgr {| initialized := initialized m;
             shutdown_requested := shutdown_requested m;
             connections := connections m ++ [con];
             listen_conns := listen_conns m |}.

Definition list_append_listen_conns (con : conmgr_fd_t) : M unit :=
  m <- get_mgr ;;
  set_mgr {| initialized := initialized m;
             shutdown_requested := shutdown_requested m;
             connections := connections m;
             listen_conns := listen_conns m ++ [con] |}.

Definition add_connection (t : conmgr_con_type_t)
    (source : option conmgr_fd_t) (in_fd out_fd : Z)
    (ev : conmgr_events_t) (addr : option slurm_addr_t) (addrlen : Z)
    (listen : bool) (unix_socket_path : option string) (new_arg_ : Z)
  : M Z :=
  let has_in := 0 <=? in_fd in
  let has_out := 0 <=? out_fd in
  let is_same := in_fd =? out_fd in
  (* verify FD is valid and still open *)
  in_st <- (if has_in then fstat in_fd else ret (0, zero_stat)) ;;
  if negb (fst in_st =? 0) then
    log_flag LOG_FLAG_CONMGR "add_connection" "invalid fd" ;;
    ret SLURM_ERROR
  else
  out_st <- (if has_out then fstat out_fd else ret (0, zero_stat)) ;;
  if negb (fst out_st =? 0) then
    log_flag LOG_FLAG_CONMGR "add_connection" "invalid fd" ;;
    ret SLURM_ERROR
  else
  let in_stat := if fst in_st =? 0 then snd in_st else zero_stat in
  let out_stat := if fst out_st =? 0 then snd out_st else zero_stat in
  let socket_ := (has_in && S_ISSOCK in_stat)
                 || (has_out && S_ISSOCK out_stat) in
  let set_keep_alive :=
    negb (is_some unix_socket_path) && socket_ && negb listen in
  (* all connections are non-blocking *)
  when has_in
       (when set_keep_alive (net_set_keep_alive in_fd) ;;
        fd_set_nonblocking in_fd) ;;
  when (negb is_same && has_out)
       (fd_set_nonblocking out_fd ;;
        when set_keep_alive (net_set_keep_alive out_fd)) ;;
  (* listen on unix socket *)
  when (is_some unix_socket_path)
       (xassert socket_ ;;
        xassert (match addr with
                 | Some a => sa_family_eqb (ss_family a) AF_UNIX
                 | None => false
                 end)) ;;
  let source_unix_socket :=
    match source with Some s => unix_socket s | None => None end in
  when (negb NDEBUG)
       (match source_unix_socket, unix_socket_path with
        | Some a, Some b => xassert (String.eqb a b)
        | _, _ => ret tt
        end) ;;
  nm <- _set_connection_name in_fd out_fd ;;
  let con :=
    {| magic := MAGIC_CON_MGR_FD;
       name := nm;
       input_fd := in_fd;
       output_fd := out_fd;
       type := t;
       polling_input_fd := PCTL_TYPE_NONE;
       polling_output_fd := PCTL_TYPE_NONE;
       is_socket := socket_;
       is_listen := listen;
       is_connected := false;
       read_eof := negb has_in;
       can_read := false;
       work_active := false;
       events := ev;
       mss := NO_VAL;
       unix_socket :=
         match unix_socket_path with
         | Some p => Some p
         | None => source_unix_socket
         end;
       address :=
         match addr with
         | Some a =>
             if socket_ && (0 <? addrlen) then memcpy_slurm_addr_t a addrlen
             else sockaddr_unspec
         | None => sockaddr_unspec
         end;
       in_buf :=
         if listen then None
         else Some (create_buf (repeat 0 (Z.to_nat BUFFER_START_SIZE))
                               BUFFER_START_SIZE);
       out := if listen then None else Some [];
       work := [];
       write_complete_work := [];
       new_arg := new_arg_;
       arg := 0 |} in
  _check_con_type con t ;;
  log_flag LOG_FLAG_CONMGR "add_connection" "new connection" ;;
  (if listen then
     xassert (output_fd con <=? 0) ;;
     list_append_listen_conns con
   else list_append_connections con) ;;
  (* interrupt poll () and wake up watch() to examine new connection *)
  pollctl_interrupt ;;
  EVENT_SIGNAL_watch_sleep ;;
  ret SLURM_SUCCESS.

Definition conmgr_process_fd (t : conmgr_con_type_t) (in_fd out_fd : Z)
    (ev : conmgr_events_t) (addr : option slurm_addr_t) (addrlen : Z)
    (arg_ : Z) : M Z :=
  add_connection t None in_fd out_fd ev addr addrlen false None arg_.

Definition conmgr_process_fd_listen (fd : Z) (t : conmgr_con_type_t)
    (ev : conmgr_events_t) (addr : option slurm_addr_t) (addrlen : Z)
    (arg_ : Z) : M Z :=
  add_connection t None fd (-1) ev addr addrlen true None arg_.

Definition conmgr_process_fd_unix_listen (t : conmgr_con_type_t) (fd : Z)
    (ev : conmgr_events_t) (addr : option slurm_addr_t) (addrlen : Z)
    (path : string) (arg_ : Z) : M Z :=
  add_connection t None fd (-1) ev addr addrlen true (Some path) arg_.

(** work.h: both calls hand a callback to the work queue of [con]. *)
Definition add_work (locked : bool) (con : conmgr_fd_t)
    (func : work_func_t) (caller : string) : M unit :=
  emit (ev_add_work (name con) func).

Definition add_work_con_fifo (locked : bool) (con : conmgr_fd_t)
    (func : work_func_t) : M unit :=
  emit (ev_add_work (name con) func).

Definition conmgr_con_type_to_Z (t : conmgr_con_type_t) : Z :=
  match t with
  | CON_TYPE_INVALID => 0
  | CON_TYPE_RAW => 1
  | CON_TYPE_RPC => 2
  | CON_TYPE_MAX => 3
  end.

Definition conmgr_queue_receive_fd (src : conmgr_fd_t)
    (t : conmgr_con_type_t) (ev : conmgr_events_t) (arg_ : Z)
  : M (Z * conmgr_fd_t) :=
  xassert (magic src =? MAGIC_CON_MGR_FD) ;;
  xassert (conmgr_con_type_to_Z CON_TYPE_INVALID <? conmgr_con_type_to_Z t) ;;
  xassert (conmgr_con_type_to_Z t <? conmgr_con_type_to_Z CON_TYPE_MAX) ;;
  (* Reject obviously invalid states immediately *)
  if negb (is_socket src) then
    log_flag LOG_FLAG_CONMGR "conmgr_queue_receive_fd"
             "Unable to receive new file descriptor on non-socket" ;;
    ret (EAFNOSUPPORT, src)
  else if read_eof src then
    log_flag LOG_FLAG_CONMGR "conmgr_queue_receive_fd"
             "Unable to receive new file descriptor on SHUT_RD input_fd" ;;
    ret (SLURM_COMMUNICATIONS_MISSING_SOCKET_ERROR, src)
  else if input_fd src <? 0 then
    log_flag LOG_FLAG_CONMGR "conmgr_queue_receive_fd"
             "Unable to receive new file descriptor on invalid input_fd" ;;
    ret (SLURM_COMMUNICATIONS_MISSING_SOCKET_ERROR, src)
  else
    let args := {| rfa_magic := MAGIC_RECEIVE_FD; rfa_type := t;
                   rfa_events := ev; rfa_arg := arg_ |} in
    add_work true src (work__receive_fd args) "conmgr_queue_receive_fd" ;;
    ret (SLURM_SUCCESS, src).

Definition send_fd_over_socket (sock fd : Z) : M unit :=
  emit (ev_send_fd_over_socket sock fd).

(** The work item behind [conmgr_queue_send_fd]. *)
Definition _send_fd (status : conmgr_work_status_t) (con : conmgr_fd_t)
    (args : send_fd_args_t) : M conmgr_fd_t :=
  let fd := sfa_fd args in
  xassert (sfa_magic args =? MAGIC_SEND_FD) ;;
  xassert (magic con =? MAGIC_CON_MGR_FD) ;;
  (match status with
   | CONMGR_WORK_STATUS_CANCELLED =>
       log_flag LOG_FLAG_CONMGR "_send_fd"
                "Canceled sending file descriptor"
   | _ =>
       if output_fd con <? 0 then
         log_flag LOG_FLAG_CONMGR "_send_fd"
                  "Unable to send file descriptor over invalid output_fd"
       else
         send_fd_over_socket (output_fd con) fd ;;
         log_flag LOG_FLAG_CONMGR "_send_fd" "Sent file descriptor"
   end) ;;
  (* always close the file descriptor in this process to avoid leaking *)
  fd_close fd ;;
  ret con.

Definition conmgr_queue_send_fd (con : conmgr_fd_t) (fd : Z)
  : M (Z * conmgr_fd_t) :=
  xassert (magic con =? MAGIC_CON_MGR_FD) ;;
  if fd <? 0 then
    log_flag LOG_FLAG_CONMGR "conmgr_queue_send_fd"
             "Unable to send invalid file descriptor" ;;
    ret (EINVAL, con)
  else if negb (is_socket con) then
    log_flag LOG_FLAG_CONMGR "conmgr_queue_send_fd"
             "Unable to send file descriptor over non-socket" ;;
    ret (EAFNOSUPPORT, con)
  else if output_fd con <? 0 then
    log_flag LOG_FLAG_CONMGR "conmgr_queue_send_fd"
             "Unable to send file descriptor over invalid output_fd" ;;
    ret (SLURM_COMMUNICATIONS_MISSING_SOCKET_ERROR, con)
  else
    let args := {| sfa_magic := MAGIC_SEND_FD; sfa_fd := fd |} in
    add_work true con (work__send_fd args) "conmgr_queue_send_fd" ;;
    ret (SLURM_SUCCESS, con).

Definition conmgr_queue_close_fd (con : conmgr_fd_t) : M conmgr_fd_t :=
  xassert (magic con =? MAGIC_CON_MGR_FD) ;;
  if negb (work_active con) then
    (* Defer request to close connection until connection is no longer
       actively doing work as closing connection would change several
       variables guarenteed to not change while work is active. *)
    add_work_con_fifo true con work__deferred_close_fd ;;
    ret con
  else
    close_con true con.

Definition _deferred_close_fd (con : conmgr_fd_t) : M conmgr_fd_t :=
  if work_active con then
    conmgr_queue_close_fd con
  else
    close_con true con.

Fixpoint list_eqb (l1 l2 : list Z) : bool :=
  match l1, l2 with
  | [], [] => true
  | x :: t1, y :: t2 => (x =? y) && list_eqb t1 t2
  | _, _ => false
  end.

Definition bool_to_int (b : bool) : Z := if b then 1 else 0.

(** [x] is a listener, [key] the address asked for. *)
Definition _match_socket_address (x : conmgr_fd_t) (key : slurm_addr_t)
  : M Z :=
  let addr1 := key in
  let addr2 := address x in
  xassert (magic x =? MAGIC_CON_MGR_FD) ;;
  if negb (sa_family_eqb (ss_family addr1) (ss_family addr2)) then ret 0
  else
    match addr1, addr2 with
    | sockaddr_in port1 a1, sockaddr_in port2 a2 =>
        if negb (port1 =? port2) then ret 0
        else ret (bool_to_int (a1 =? a2))
    | sockaddr_in6 port1 _ a1 scope1, sockaddr_in6 port2 _ a2 scope2 =>
        if negb (port1 =? port2) then ret 0
        else if negb (scope1 =? scope2) then ret 0
        else ret (bool_to_int (list_eqb a1 a2))
    | sockaddr_un path1, sockaddr_un path2 =>
        ret (bool_to_int (String.eqb path1 path2))
    | _, _ => fatal
    end.

(** list.h: the first element the predicate accepts. *)
Fixpoint list_find_first_ro {A : Type} (l : list A) (f : A -> M Z)
  : M (option A) :=
  match l with
  | [] => ret None
  | x :: tl =>
      r <- f x ;;
      if negb (r =? 0) then ret (Some x) else list_find_first_ro tl f
  end.

(** The first [addrlen] bytes of the address are copied into zeroed
    storage, and the listeners are searched for that storage. *)
Definition _is_listening (addr : slurm_addr_t) (addrlen : Z) : M bool :=
  (* use address to ensure memory size is correct *)
  let address_ := memcpy_slurm_addr_t addr addrlen in
  m <- get_mgr ;;
  r <- list_find_first_ro (listen_conns m)
         (fun x => _match_socket_address x address_) ;;
  ret (is_some r).

Definition socket (family : sa_family_t) : M Z :=
  syscall (fun t => os_socket t family) (ev_socket family).

Definition setsockopt_SO_REUSEADDR (fd : Z) : M Z :=
  syscall (fun t => os_setsockopt t fd) (ev_setsockopt_reuseaddr fd).

Definition bind_ (fd : Z) (addr : slurm_addr_t) : M Z :=
  syscall (fun t => os_bind t fd addr) (ev_bind fd addr).

Definition listen_ (fd : Z) : M Z :=
  syscall (fun t => os_listen t fd) (ev_listen fd).

Definition connect (fd : Z) (addr : slurm_addr_t) : M Z :=
  syscall (fun t => os_connect t fd addr) (ev_connect fd addr).

Definition callbacks_parse (listen_on : string)
  : M (option parsed_host_port_t) :=
  tr <- get_trace ;;
  emit (ev_parse listen_on) ;;
  ret (os_parse tr listen_on).

Definition xgetaddrinfo (h p : string) : M (list addrinfo) :=
  tr <- get_trace ;;
  emit (ev_xgetaddrinfo h p) ;;
  ret (os_xgetaddrinfo tr h p).

(** xstring.h: the tail of [s] from the first occurrence of [needle]. *)
Definition xstrstr (s needle : string) : option string :=
  match String.index 0 needle s with
  | Some n => Some (String.substring n (String.length s - n) s)
  | None => None
  end.

(** The [for] loop of [conmgr_create_listen_socket]: one socket for every
    address returned, while [rc] stays zero. *)
Fixpoint conmgr_create_listen_socket_loop (t : conmgr_con_type_t)
    (ev : conmgr_events_t) (arg_ : Z) (addrlist : list addrinfo) (rc : Z)
  : M Z :=
  match addrlist with
  | [] => ret rc
  | addr :: ai_next =>
      if negb (rc =? 0) then ret rc
      else
        dup <- _is_listening (ai_addr addr) (ai_addrlen addr) ;;
        if dup then
          verbose "conmgr_create_listen_socket"
                  "ignoring duplicate listen request" ;;
          conmgr_create_listen_socket_loop t ev arg_ ai_next rc
        else
          fd <- socket (ai_family addr) ;;
          if fd <? 0 then fatal else
          (* activate socket reuse to avoid annoying timing issues with
             daemon restarts *)
          r <- setsockopt_SO_REUSEADDR fd ;;
          if negb (r =? 0) then fatal else
          r <- bind_ fd (ai_addr addr) ;;
          if negb (r =? 0) then fatal else
          fd_set_oob fd 0 ;;
          rc1 <- listen_ fd ;;
          if rc1 <? 0 then fatal else
          rc2 <- conmgr_process_fd_listen fd t ev (Some (ai_addr addr))
                                          (ai_addrlen addr) arg_ ;;
          conmgr_create_listen_socket_loop t ev arg_ ai_next rc2
  end.

Definition UNIX_PREFIX : string := "unix:".

(** [sizeof(slurm_addr_t)]: the size of [struct sockaddr_storage]. *)
Definition sizeof_slurm_addr_t : Z := 128.

Definition conmgr_create_listen_socket (t : conmgr_con_type_t)
    (listen_on : string) (ev : conmgr_events_t) (arg_ : Z) : M Z :=
  match xstrstr listen_on UNIX_PREFIX with
  | Some unixsock0 =>
      (* check for name local sockets *)
      fd <- socket AF_UNIX ;;
      if fd <? 0 then fatal else
      let unixsock :=
        String.substring (String.length UNIX_PREFIX)
          (String.length unixsock0 - String.length UNIX_PREFIX) unixsock0 in
      if String.eqb unixsock "" then fatal else
      let addr := os_sockaddr_from_unix_path unixsock in
      if negb (sa_family_eqb (ss_family addr) AF_UNIX) then fatal else
      log_flag LOG_FLAG_CONMGR "conmgr_create_listen_socket"
               "attempting to bind() and listen() UNIX socket" ;;
      r <- unlink unixsock ;;
      e <- get_errno ;;
      when (negb (r =? 0) && negb (e =? ENOENT))
           (error "conmgr_create_listen_socket" "Error unlink") ;;
      (* bind() will EINVAL if socklen=sizeof(addr) *)
      rc <- bind_ fd addr ;;
      if negb (rc =? 0) then fatal else
      fd_set_oob fd 0 ;;
      rc <- listen_ fd ;;
      if rc <? 0 then fatal else
      conmgr_process_fd_unix_listen t fd ev (Some addr) sizeof_slurm_addr_t
                                    unixsock arg_
  | None =>
      (* split up host and port *)
      parsed <- callbacks_parse listen_on ;;
      match parsed with
      | None => fatal
      | Some parsed_hp =>
          (* resolve out the host and port if provided *)
          addrlist <- xgetaddrinfo (host parsed_hp) (port parsed_hp) ;;
          match addrlist with
          | [] => fatal
          | _ =>
              rc <- conmgr_create_listen_socket_loop t ev arg_ addrlist
                      SLURM_SUCCESS ;;
              emit ev_free_parse ;;
              ret rc
          end
      end
  end.

(** The retry loop at [again:] of [conmgr_create_connect_socket].  [None]
    falls through to [add_connection]; [Some rc] returns [rc]. *)
Fixpoint conmgr_create_connect_socket_again (fuel : nat) (fd : Z)
    (addr : slurm_addr_t) : M (option Z) :=
  match fuel with
  | O => fun w => Spin w
  | S fuel' =>
      r <- connect fd addr ;;
      if negb (r =? 0) then
        rc <- get_errno ;;
        if rc =? EINTR then
          m <- get_mgr ;;
          xassert (initialized m) ;;
          if shutdown_requested m then
            log_flag LOG_FLAG_CONMGR "conmgr_create_connect_socket"
              "connect() interrupted during shutdown. Closing connection." ;;
            fd_close fd ;;
            ret (Some SLURM_SUCCESS)
          else
            log_flag LOG_FLAG_CONMGR "conmgr_create_connect_socket"
                     "connect() interrupted. Retrying." ;;
            conmgr_create_connect_socket_again fuel' fd addr
        else if negb (rc =? EINPROGRESS) && negb (rc =? EAGAIN)
                && negb (rc =? EWOULDBLOCK) then
          log_flag LOG_FLAG_NET "conmgr_create_connect_socket"
                   "connect() failed" ;;
          fd_close fd ;;
          ret (Some rc)
        else
          (* delayed connect() completion is expected *)
          ret None
      else ret None
  end.

Definition conmgr_create_connect_socket (fuel : nat)
    (t : conmgr_con_type_t) (addr : slurm_addr_t) (addrlen : Z)
    (ev : conmgr_events_t) (arg_ : Z) : M Z :=
  match ss_family addr with
  | AF_UNIX | AF_INET | AF_INET6 =>
      (* SOCK_STREAM | SOCK_CLOEXEC; IPPROTO_TCP for the two IP families *)
      fd <- socket (ss_family addr) ;;
      if fd <? 0 then
        rc <- get_errno ;;
        log_flag LOG_FLAG_NET "conmgr_create_connect_socket"
                 "socket() failed" ;;
        ret rc
      else
        (* Set socket as non-blocking to avoid connect() blocking *)
        fd_set_nonblocking fd ;;
        log_flag LOG_FLAG_CONMGR "conmgr_create_connect_socket"
                 "attempting to connect() new socket" ;;
        r <- conmgr_create_connect_socket_again fuel fd addr ;;
        match r with
        | Some rc => ret rc
        | None =>
            add_connection t None fd fd ev (Some addr) addrlen false None
                           arg_
        end
  | _ => ret EAFNOSUPPORT
  end.

End Con.

(* ===================================================================== *)
(** * signal.c                                                            *)
(* ===================================================================== *)

Section Signal.
Context {HD : headers_t} {OS : os_t}.

(** [sizeof(signo)]: an [int]. *)
Definition sizeof_signo : Z := 4.

Definition write (fd signo : Z) : M Z :=
  syscall (fun t => os_write t fd signo) (ev_write fd signo).

(** The loop at [try_again:] of [_signal_handler]. *)
Fixpoint _signal_handler_try_again (fuel : nat) (signo : Z) : M unit :=
  match fuel with
  | O => fun w => Spin w
  | S fuel' =>
      s <- get_sig ;;
      r <- write (signal_fd s) signo ;;
      if negb (r =? sizeof_signo) then
        e <- get_errno ;;
        if (e =? EPIPE) || (e =? EBADF) then
          (* write() after conmgr shutdown before reading that signal_fd
             was set to -1. Ignoring this race condition entirely. *)
          ret tt
        else if (e =? EAGAIN) || (e =? EWOULDBLOCK) || (e =? EINTR) then
          _signal_handler_try_again fuel' signo
        else fatal
      else ret tt
  end.

Definition _signal_handler (fuel : nat) (signo : Z) : M unit :=
  s <- get_sig ;;
  (* Gracefully ignore signals when signal_fd is -1 to avoid trying to
     write a non-existent file descriptor. *)
  if signal_fd s <? 0 then ret tt
  else _signal_handler_try_again fuel signo.

(** Force state to return to default state before it was initialized. *)
Definition _atfork_child : M unit :=
  set_sig {| one_time_init := false;
             signal_handlers := [];
             signal_handler_count := 0;
             signal_work := [];
             signal_work_count := 0;
             signal_fd := -1;
             signal_con := None |}.

End Signal.

(* ===================================================================== *)
(** * gres_select_util.c                                                  *)
(* ===================================================================== *)

(** The filters of the select plugin compute with the fixed-width unsigned
    integers of C.  A value of such a type is a [Z] in its range; the
    result of an operation is reduced to the range of its type.  A list
    that may be NULL is an [option]; a function that dereferences a NULL
    pointer has no result ([None]). *)

Definition uint16 (z : Z) : Z := z mod 2 ^ 16.
Definition uint32 (z : Z) : Z := z mod 2 ^ 32.
Definition uint64 (z : Z) : Z := z mod 2 ^ 64.

(** The conversion of an unsigned value to [int]. *)
Definition int32 (z : Z) : Z := (z + 2 ^ 31) mod 2 ^ 32 - 2 ^ 31.

(** macros.h: [(a) > (b) ? (a) : (b)] and [(a) < (b) ? (a) : (b)]. *)
Definition MAX (a b : Z) : Z := if a >? b then a else b.
Definition MIN (a b : Z) : Z := if a <? b then a else b.

(** gres.h: what a job asks of one generic resource.  The two CPU counts
    are [uint16_t], the other counts [uint64_t]. *)
Record gres_job_state_t : Type := {
  cpus_per_gres : Z;
  def_cpus_per_gres : Z;
  mem_per_gres : Z;
  def_mem_per_gres : Z;
  gres_per_job : Z;
  gres_per_node : Z;
  gres_per_socket : Z;
  gres_per_task : Z;
  gres_cnt_node_select : option (list Z)
}.

(** gres.h: one element of a job's GRES list. *)
Record gres_state_t : Type := {
  plugin_id : Z;
  gres_data : option gres_job_state_t
}.

(** gres.h: the GRES of one kind on the sockets of a node. *)
Record sock_gres_t : Type := {
  total_cnt : Z;
  job_specs : option gres_job_state_t
}.

Definition list_count {A : Type} (l : list A) : Z := Z.of_nat (List.length l).

Section Gres.
Context {HD : headers_t}.
(** slurm.h: the 16-bit "no value". *)
Variable NO_VAL16 : Z.
(** gres.h: the plugin id of a GRES name, a hash of the name. *)
Variable gres_build_id : string -> Z.

(** The two assignments of defaults; the 64-bit [cpu_per_gpu] is stored in
    a 16-bit field. *)
Definition set_def_per_gres (d : gres_job_state_t) (cpu_per_gpu mem_per_gpu : Z)
  : gres_job_state_t :=
  {| cpus_per_gres := cpus_per_gres d;
     def_cpus_per_gres := uint16 cpu_per_gpu;
     mem_per_gres := mem_per_gres d;
     def_mem_per_gres := mem_per_gpu;
     gres_per_job := gres_per_job d;
     gres_per_node := gres_per_node d;
     gres_per_socket := gres_per_socket d;
     gres_per_task := gres_per_task d;
     gres_cnt_node_select := gres_cnt_node_select d |}.

(** [xstrfmtcat(str, "gpu:%"PRIu64, v)] on a string that was just freed. *)
Definition gpu_tres_string (v : Z) : string :=
  "gpu:" ++ NilZero.string_of_uint (N.to_uint (Z.to_N v)).

(** The [while] loop of [gres_select_util_job_set_defs].  The state is the
    list as rewritten so far (in reverse), the two displayed strings and
    [*cpus_per_task]. *)
Fixpoint gres_select_util_job_set_defs_loop (id cpu_per_gpu mem_per_gpu : Z)
    (l : list gres_state_t) (cpus_per_tres mem_per_tres : option string)
    (cpus_per_task : Z)
  : list gres_state_t * option string * option string * Z :=
  match l with
  | [] => ([], cpus_per_tres, mem_per_tres, cpus_per_task)
  | gres_ptr :: rest =>
      if negb (plugin_id gres_ptr =? id) then
        let '(rest', c, m, t) :=
          gres_select_util_job_set_defs_loop id cpu_per_gpu mem_per_gpu rest
            cpus_per_tres mem_per_tres cpus_per_task in
        (gres_ptr :: rest', c, m, t)
      else
        match gres_data gres_ptr with
        | None =>
            let '(rest', c, m, t) :=
              gres_select_util_job_set_defs_loop id cpu_per_gpu mem_per_gpu
                rest cpus_per_tres mem_per_tres cpus_per_task in
            (gres_ptr :: rest', c, m, t)
        | Some job_gres_data =>
            let job_gres_data' :=
              set_def_per_gres job_gres_data cpu_per_gpu mem_per_gpu in
            let cpus_per_tres' :=
              if cpus_per_gres job_gres_data' =? 0 then
                if negb (cpu_per_gpu =? 0)
                then Some (gpu_tres_string cpu_per_gpu) else None
              else cpus_per_tres in
            let mem_per_tres' :=
              if mem_per_gres job_gres_data' =? 0 then
                if negb (mem_per_gpu =? 0)
                then Some (gpu_tres_string mem_per_gpu) else None
              else mem_per_tres in
            let cpus_per_task' :=
              if negb (cpu_per_gpu =? 0)
                 && negb (gres_per_task job_gres_data' =? 0)
              then uint16 (MAX cpus_per_task
                               (uint64 (gres_per_task job_gres_data'
                                        * cpu_per_gpu)))
              else cpus_per_task in
            let '(rest', c, m, t) :=
              gres_select_util_job_set_defs_loop id cpu_per_gpu mem_per_gpu
                rest cpus_per_tres' mem_per_tres' cpus_per_task' in
            ({| plugin_id := plugin_id gres_ptr;
                gres_data := Some job_gres_data' |} :: rest', c, m, t)
        end
  end.

(** Set job default parameters in the elements of the list whose plugin
    is [gres_name].  [None] stands for the failed assertion that the name
    is "gpu", in a debug build. *)
Definition gres_select_util_job_set_defs
    (job_gres_list : option (list gres_state_t)) (gres_name : string)
    (cpu_per_gpu mem_per_gpu : Z) (cpus_per_tres mem_per_tres : option string)
    (cpus_per_task : Z)
  : option (option (list gres_state_t) * option string * option string * Z) :=
  if negb NDEBUG && negb (String.eqb gres_name "gpu") then None
  else
    match job_gres_list with
    | None => Some (None, cpus_per_tres, mem_per_tres, cpus_per_task)
    | Some l =>
        let '(l', c, m, t) :=
          gres_select_util_job_set_defs_loop (gres_build_id gres_name)
            cpu_per_gpu mem_per_gpu l cpus_per_tres mem_per_tres
            cpus_per_task in
        Some (Some l', c, m, t)
    end.

(** The [while] loop of [gres_select_util_job_min_cpu_node]. *)
Fixpoint gres_select_util_job_min_cpu_node_loop
    (sockets_per_node tasks_per_node : Z) (l : list gres_state_t)
    (min_cpus : Z) : option Z :=
  match l with
  | [] => Some min_cpus
  | job_gres_ptr :: rest =>
      match gres_data job_gres_ptr with
      | None => None
      | Some job_data_ptr =>
          let cpus_per_gres_ :=
            if negb (cpus_per_gres job_data_ptr =? 0)
            then cpus_per_gres job_data_ptr
            else def_cpus_per_gres job_data_ptr in
          if cpus_per_gres_ =? 0 then
            gres_select_util_job_min_cpu_node_loop sockets_per_node
              tasks_per_node rest min_cpus
          else
            let total_gres :=
              if negb (gres_per_node job_data_ptr =? 0) then
                gres_per_node job_data_ptr
              else if negb (gres_per_socket job_data_ptr =? 0) then
                uint64 (gres_per_socket job_data_ptr * sockets_per_node)
              else if negb (gres_per_task job_data_ptr =? 0) then
                uint64 (gres_per_task job_data_ptr * tasks_per_node)
              else 1 in
            let tmp := int32 (uint64 (cpus_per_gres_ * total_gres)) in
            gres_select_util_job_min_cpu_node_loop sockets_per_node
              tasks_per_node rest (MAX min_cpus tmp)
      end
  end.

(** The minimum number of CPUs the job's GRES request needs on one node. *)
Definition gres_select_util_job_min_cpu_node
    (sockets_per_node tasks_per_node : Z)
    (job_gres_list : option (list gres_state_t)) : option Z :=
  match job_gres_list with
  | None => Some 0
  | Some l =>
      if list_count l =? 0 then Some 0
      else gres_select_util_job_min_cpu_node_loop sockets_per_node
             tasks_per_node l 0
  end.

(** The [while] loop of [gres_select_util_job_min_tasks]; [errors] counts
    the calls of [error]. *)
Fixpoint gres_select_util_job_min_tasks_loop
    (node_count sockets_per_node ntasks_per_tres id : Z)
    (l : list gres_state_t) (min_tasks : Z) (errors : nat)
  : option (Z * nat) :=
  match l with
  | [] => Some (min_tasks, errors)
  | gres_ptr :: rest =>
      (* Filter on GRES name, if specified *)
      if negb (id =? 0) && negb (id =? plugin_id gres_ptr) then
        gres_select_util_job_min_tasks_loop node_count sockets_per_node
          ntasks_per_tres id rest min_tasks errors
      else
        match gres_data gres_ptr with
        | None => None
        | Some gres_data_ =>
            let counted (total_gres : Z) (errors' : nat) :=
              let tmp := int32 (uint64 (ntasks_per_tres * total_gres)) in
              gres_select_util_job_min_tasks_loop node_count
                sockets_per_node ntasks_per_tres id rest
                (MAX min_tasks tmp) errors' in
            if negb (gres_per_job gres_data_ =? 0) then
              counted (gres_per_job gres_data_) errors
            else if negb (gres_per_node gres_data_ =? 0) then
              counted (uint64 (gres_per_node gres_data_ * node_count)) errors
            else if negb (gres_per_socket gres_data_ =? 0) then
              counted (uint64 (uint64 (gres_per_socket gres_data_
                                       * node_count)
                               * sockets_per_node)) errors
            else if negb (gres_per_task gres_data_ =? 0) then
              (* gres_per_task and ntasks_per_tres conflict *)
              counted 0 (S errors)
            else
              gres_select_util_job_min_tasks_loop node_count
                sockets_per_node ntasks_per_tres id rest min_tasks errors
        end
  end.

(** The minimum number of tasks the job's GRES request needs, zero without
    [ntasks_per_tres].  A NULL or empty [gres_name] checks all GRES. *)
Definition gres_select_util_job_min_tasks
    (node_count sockets_per_node ntasks_per_tres : Z)
    (gres_name : option string)
    (job_gres_list : option (list gres_state_t)) : option (Z * nat) :=
  if (ntasks_per_tres =? 0) || (ntasks_per_tres =? NO_VAL16) then Some (0, O)
  else
    match job_gres_list with
    | None => Some (0, O)
    | Some l =>
        if list_count l =? 0 then Some (0, O)
        else
          let id :=
            match gres_name with
            | Some nm =>
                if negb (String.eqb nm "") then uint32 (gres_build_id nm)
                else 0
            | None => 0
            end in
          gres_select_util_job_min_tasks_loop node_count sockets_per_node
            ntasks_per_tres id l 0 O
    end.

(** The [while] loop of [gres_select_util_job_min_cpus]. *)
Fixpoint gres_select_util_job_min_cpus_loop
    (node_count sockets_per_node task_count : Z) (l : list gres_state_t)
    (min_cpus : Z) : option Z :=
  match l with
  | [] => Some min_cpus
  | job_gres_ptr :: rest =>
      match gres_data job_gres_ptr with
      | None => None
      | Some job_data_ptr =>
          let cpus_per_gres_ :=
            if negb (cpus_per_gres job_data_ptr =? 0)
            then cpus_per_gres job_data_ptr
            else def_cpus_per_gres job_data_ptr in
          if cpus_per_gres_ =? 0 then
            gres_select_util_job_min_cpus_loop node_count sockets_per_node
              task_count rest min_cpus
          else
            let counted (total_gres : Z) :=
              let tmp := int32 (uint64 (cpus_per_gres_ * total_gres)) in
              gres_select_util_job_min_cpus_loop node_count sockets_per_node
                task_count rest (MAX min_cpus tmp) in
            if negb (gres_per_job job_data_ptr =? 0) then
              counted (gres_per_job job_data_ptr)
            else if negb (gres_per_node job_data_ptr =? 0) then
              counted (uint64 (gres_per_node job_data_ptr * node_count))
            else if negb (gres_per_socket job_data_ptr =? 0) then
              counted (uint64 (uint64 (gres_per_socket job_data_ptr
                                       * node_count)
                               * sockets_per_node))
            else if negb (gres_per_task job_data_ptr =? 0) then
              counted (uint64 (gres_per_task job_data_ptr * task_count))
            else
              gres_select_util_job_min_cpus_loop node_count
                sockets_per_node task_count rest min_cpus
      end
  end.

(** The minimum number of CPUs the job's GRES request needs. *)
Definition gres_select_util_job_min_cpus
    (node_count sockets_per_node task_count : Z)
    (job_gres_list : option (list gres_state_t)) : option Z :=
  match job_gres_list with
  | None => Some 0
  | Some l =>
      if list_count l =? 0 then Some 0
      else gres_select_util_job_min_cpus_loop node_count sockets_per_node
             task_count l 0
  end.

(** The [while] loop of [gres_select_util_job_mem_max]. *)
Fixpoint gres_select_util_job_mem_max_loop (l : list gres_state_t)
    (mem_max : Z) : option Z :=
  match l with
  | [] => Some mem_max
  | job_gres_ptr :: rest =>
      match gres_data job_gres_ptr with
      | None => None
      | Some job_data_ptr =>
          let mem_per_gres_ :=
            if negb (mem_per_gres job_data_ptr =? 0)
            then mem_per_gres job_data_ptr
            else def_mem_per_gres job_data_ptr in
          gres_select_util_job_mem_max_loop rest (MAX mem_max mem_per_gres_)
      end
  end.

(** The largest mem-per-tres specification of the job. *)
Definition gres_select_util_job_mem_max
    (job_gres_list : option (list gres_state_t)) : option Z :=
  match job_gres_list with
  | None => Some 0
  | Some l => gres_select_util_job_mem_max_loop l 0
  end.

(** The [while] loop of [gres_select_util_job_tres_per_task]; it leaves at
    the first element with a count per task. *)
Fixpoint gres_select_util_job_tres_per_task_loop (l : list gres_state_t)
  : option bool :=
  match l with
  | [] => Some false
  | job_gres_ptr :: rest =>
      match gres_data job_gres_ptr with
      | None => None
      | Some job_data_ptr =>
          if negb (gres_per_task job_data_ptr =? 0) then Some true
          else gres_select_util_job_tres_per_task_loop rest
      end
  end.

(** Whether a GRES of the job has a tres-per-task option. *)
Definition gres_select_util_job_tres_per_task
    (job_gres_list : option (list gres_state_t)) : option bool :=
  match job_gres_list with
  | None => Some false
  | Some l => gres_select_util_job_tres_per_task_loop l
  end.

(** The [while] loop of [gres_select_util_get_task_limit]. *)
Fixpoint gres_select_util_get_task_limit_loop (l : list sock_gres_t)
    (max_tasks : Z) : option Z :=
  match l with
  | [] => Some max_tasks
  | sock_gres :: rest =>
      match job_specs sock_gres with
      | None => None
      | Some specs =>
          if gres_per_task specs =? 0 then
            gres_select_util_get_task_limit_loop rest max_tasks
          else
            let task_limit := total_cnt sock_gres / gres_per_task specs in
            gres_select_util_get_task_limit_loop rest
              (uint32 (MIN max_tasks task_limit))
      end
  end.

(** The maximum number of tasks that can be started on a node with
    [sock_gres_list]. *)
Definition gres_select_util_get_task_limit (sock_gres_list : list sock_gres_t)
  : option Z :=
  gres_select_util_get_task_limit_loop sock_gres_list (uint32 NO_VAL).

End Gres.

(* ===================================================================== *)
(** * con.c and signal.c: the registry, work callbacks and registration   *)
(* ===================================================================== *)

(** Three more answers of the environment: the pending error of a socket
    (the return code and the error), the descriptor received over a
    socket, and the return code of [sigaction]. *)
Class os_calls_t : Type := {
  os_fd_get_socket_error : list event -> Z -> Z * Z;
  os_receive_fd_over_socket : list event -> Z -> Z;
  os_sigaction : list event -> Z -> Z
}.

Section Registry.
Context {HD : headers_t} {OS : os_t} {OC : os_calls_t}.

(** list.h: the first element the predicate accepts. *)
Fixpoint list_find_first {A : Type} (l : list A) (f : A -> Z) : option A :=
  match l with
  | [] => None
  | x :: tl => if negb (f x =? 0) then Some x else list_find_first tl f
  end.

(** list.h: [f] on each element in turn, until an answer is negative.  The
    elements are pointers to connections that [f] updates in place: the
    list afterwards holds the connections as [f] left them. *)
Fixpoint list_for_each (l : list conmgr_fd_t)
    (f : conmgr_fd_t -> M (Z * conmgr_fd_t)) : M (list conmgr_fd_t) :=
  match l with
  | [] => ret []
  | x :: tl =>
      r <- f x ;;
      if fst r <? 0 then ret (snd r :: tl)
      else
        tl' <- list_for_each tl f ;;
        ret (snd r :: tl')
  end.

Definition _close_con_for_each (x : conmgr_fd_t) : M (Z * conmgr_fd_t) :=
  con <- close_con true x ;;
  ret (1, con).

Definition close_all_connections : M unit :=
  (* close all connections *)
  m <- get_mgr ;;
  cs <- list_for_each (connections m) _close_con_for_each ;;
  m1 <- get_mgr ;;
  set_mgr {| initialized := initialized m1;
             shutdown_requested := shutdown_requested m1;
             connections := cs;
             listen_conns := listen_conns m1 |} ;;
  m2 <- get_mgr ;;
  ls <- list_for_each (listen_conns m2) _close_con_for_each ;;
  m3 <- get_mgr ;;
  set_mgr {| initialized := initialized m3;
             shutdown_requested := shutdown_requested m3;
             connections := connections m3;
             listen_conns := ls |}.

(** Find by matching fd to connection. *)
Definition _find_by_fd (x : conmgr_fd_t) (key : Z) : Z :=
  bool_to_int ((input_fd x =? key) || (output_fd x =? key)).

Definition con_find_by_fd (fd : Z) : M (option conmgr_fd_t) :=
  m <- get_mgr ;;
  match list_find_first (connections m) (fun x => _find_by_fd x fd) with
  | Some con => ret (Some con)
  | None =>
      match list_find_first (listen_conns m) (fun x => _find_by_fd x fd) with
      | Some con => ret (Some con)
      | None =>
          (* mgr.complete_conns don't have input_fd or output_fd *)
          ret None
      end
  end.

Definition con_close_on_poll_error (con : conmgr_fd_t) (fd : Z)
  : M conmgr_fd_t :=
  (if is_socket con then
     (* Ask kernel for socket error *)
     tr <- get_trace ;;
     let '(rc, err) := os_fd_get_socket_error tr fd in
     if negb (rc =? 0) then
       error "con_close_on_poll_error" "error while getting socket error"
     else if negb (err =? 0) then
       error "con_close_on_poll_error"
             "socket error encountered while polling"
     else ret tt
   else ret tt) ;;
  (* Socket must not continue to be considered valid to avoid a infinite
     calls to poll() which will immediately fail. *)
  close_con true con.

(** The work item behind [conmgr_queue_receive_fd]. *)
Definition _receive_fd (status : conmgr_work_status_t) (src : conmgr_fd_t)
    (args : receive_fd_args_t) : M conmgr_fd_t :=
  xassert (rfa_magic args =? MAGIC_RECEIVE_FD) ;;
  xassert (magic src =? MAGIC_CON_MGR_FD) ;;
  match status with
  | CONMGR_WORK_STATUS_CANCELLED =>
      log_flag LOG_FLAG_CONMGR "_receive_fd"
               "Canceled receive new file descriptor" ;;
      ret src
  | _ =>
      if read_eof src then
        log_flag LOG_FLAG_CONMGR "_receive_fd"
          "Unable to receive new file descriptor on SHUT_RD input_fd" ;;
        ret src
      else if input_fd src <? 0 then
        log_flag LOG_FLAG_CONMGR "_receive_fd"
          "Unable to receive new file descriptor on invalid input_fd" ;;
        ret src
      else
        tr <- get_trace ;;
        let fd := os_receive_fd_over_socket tr (input_fd src) in
        if fd <? 0 then
          log_flag LOG_FLAG_CONMGR "_receive_fd"
            "Unable to receive new file descriptor on input_fd" ;;
          (* Close source as receive_fd_over_socket() failed and connection
             is now in an unknown state *)
          close_con false src
        else
          (* Error already logged by add_connection() and there is no
             reason to assume that failing is due to the state of src. *)
          _ <- add_connection (rfa_type args) None fd fd (rfa_events args)
                 None 0 false None (rfa_arg args) ;;
          ret src
  end.

(** signal.c.  [signal_handlers] holds the signal of each registered
    handler and [signal_work] the signal each registered work waits for;
    an array that was never allocated is NULL and holds nothing. *)
Definition set_signal_handlers (s : signal_mgr_t) (hs : list Z) (n : Z)
  : signal_mgr_t :=
  {| one_time_init := one_time_init s;
     signal_handlers := hs;
     signal_handler_count := n;
     signal_work := signal_work s;
     signal_work_count := signal_work_count s;
     signal_fd := signal_fd s;
     signal_con := signal_con s |}.

Definition set_signal_con (s : signal_mgr_t) (c : option conmgr_fd_t)
  : signal_mgr_t :=
  {| one_time_init := one_time_init s;
     signal_handlers := signal_handlers s;
     signal_handler_count := signal_handler_count s;
     signal_work := signal_work s;
     signal_work_count := signal_work_count s;
     signal_fd := signal_fd s;
     signal_con := c |}.

(** The first [n] elements of an array. *)
Definition array_prefix (n : Z) (l : list Z) : list Z := firstn (Z.to_nat n) l.

(** caller must hold write lock *)
Definition _register_signal_handler (signal : Z) : M unit :=
  s <- get_sig ;;
  if existsb (fun h => h =? signal)
       (array_prefix (signal_handler_count s) (signal_handlers s))
  then ret tt
  else
    tr <- get_trace ;;
    if negb (os_sigaction tr signal =? 0) then
      (* unable to catch the signal *)
      fatal
    else
      log_flag LOG_FLAG_CONMGR "_register_signal_handler"
               "installed signal handler" ;;
      set_sig (set_signal_handlers s
                 (array_prefix (signal_handler_count s) (signal_handlers s)
                  ++ [signal])
                 (signal_handler_count s + 1)).

Fixpoint _init_signal_handler_loop (work : list Z) : M unit :=
  match work with
  | [] => ret tt
  | on_signal_number :: rest =>
      _register_signal_handler on_signal_number ;;
      _init_signal_handler_loop rest
  end.

(** caller must hold write lock *)
Definition _init_signal_handler : M unit :=
  s <- get_sig ;;
  match signal_handlers s with
  | _ :: _ => ret tt
  | [] =>
      _init_signal_handler_loop
        (array_prefix (signal_work_count s) (signal_work s))
  end.

Definition _on_connection (con : conmgr_fd_t) : M unit :=
  _init_signal_handler ;;
  s <- get_sig ;;
  set_sig (set_signal_con s (Some con)).

End Registry.

(* ===================================================================== *)
(** * gres_select_util.c: memory limits from GRES                         *)
(* ===================================================================== *)

(** gres.h: what a node has of one generic resource. *)
Record gres_node_state_t : Type := {
  gres_cnt_avail : Z
}.

(** One element of the GRES list of a node: a [gres_state_t] whose data is
    the state of the node. *)
Record node_gres_state_t : Type := {
  node_plugin_id : Z;
  node_gres_data : option gres_node_state_t
}.

(** The part of a node record the filters read. *)
Record node_record_t : Type := {
  gres_list : option (list node_gres_state_t)
}.

(** job_resources.h: the nodes of the job as a bitmap over the node
    table, and the memory allocated on each of them, in the order of the
    set bits. *)
Record job_resources_t : Type := {
  node_bitmap : list bool;
  whole_node : Z;
  memory_allocated : list Z
}.

Section GresMem.

(** The node table of the controller. *)
Variable node_record_table_ptr : list node_record_t.

(** bitstring.h: the first and the last set bit, -1 without any. *)
Fixpoint bit_ffs_from (b : list bool) (i : Z) : Z :=
  match b with
  | [] => -1
  | true :: _ => i
  | false :: rest => bit_ffs_from rest (i + 1)
  end.

Definition bit_ffs (b : list bool) : Z := bit_ffs_from b 0.

Fixpoint bit_fls_from (b : list bool) (i : Z) (last : Z) : Z :=
  match b with
  | [] => last
  | true :: rest => bit_fls_from rest (i + 1) i
  | false :: rest => bit_fls_from rest (i + 1) last
  end.

Definition bit_fls (b : list bool) : Z := bit_fls_from b 0 (-1).

Definition bit_test (b : list bool) (i : nat) : bool := nth i b false.

(** gres.c: the element of a GRES list with the plugin id. *)
Definition gres_find_id (x : node_gres_state_t) (key : Z) : Z :=
  bool_to_int (node_plugin_id x =? key).

(** An array with one element replaced; there is no result outside the
    array. *)
Fixpoint array_set (l : list Z) (n : nat) (v : Z) : option (list Z) :=
  match l, n with
  | [], _ => None
  | _ :: rest, O => Some (v :: rest)
  | x :: rest, S n' =>
      match array_set rest n' v with
      | Some rest' => Some (x :: rest')
      | None => None
      end
  end.

(** The [for] loop over the nodes, for one GRES of the job: [nodes] are
    the indices still to visit, [node_off] counts the nodes of the job
    seen so far. *)
Fixpoint gres_select_util_job_mem_set_nodes (job_gres_ptr : gres_state_t)
    (job_data_ptr : gres_job_state_t) (mem_per_gres_ : Z) (first_set : bool)
    (bitmap : list bool) (whole : Z) (nodes : list nat) (node_off : Z)
    (mem : list Z) : option (list Z) :=
  match nodes with
  | [] => Some mem
  | i :: rest =>
      if negb (bit_test bitmap i) then
        gres_select_util_job_mem_set_nodes job_gres_ptr job_data_ptr
          mem_per_gres_ first_set bitmap whole rest node_off mem
      else
        let node_off := node_off + 1 in
        let store (gres_cnt : Z) :=
          let mem_size := uint64 (mem_per_gres_ * gres_cnt) in
          match nth_error mem (Z.to_nat node_off) with
          | None => None
          | Some old =>
              match array_set mem (Z.to_nat node_off)
                      (if first_set then mem_size
                       else uint64 (old + mem_size)) with
              | None => None
              | Some mem' =>
                  gres_select_util_job_mem_set_nodes job_gres_ptr
                    job_data_ptr mem_per_gres_ first_set bitmap whole rest
                    node_off mem'
              end
          end in
        if whole =? 1 then
          match nth_error node_record_table_ptr i with
          | None => None
          | Some node =>
              match gres_list node with
              | None => None
              | Some gl =>
                  match list_find_first gl
                          (fun x => gres_find_id x (plugin_id job_gres_ptr))
                  with
                  | None =>
                      gres_select_util_job_mem_set_nodes job_gres_ptr
                        job_data_ptr mem_per_gres_ first_set bitmap whole
                        rest node_off mem
                  | Some node_gres_ptr =>
                      match node_gres_data node_gres_ptr with
                      | None => None
                      | Some node_state_ptr =>
                          store (gres_cnt_avail node_state_ptr)
                      end
                  end
              end
          end
        else
          match gres_cnt_node_select job_data_ptr with
          | None => None
          | Some cnt =>
              match nth_error cnt i with
              | None => None
              | Some gres_cnt => store gres_cnt
              end
          end
  end.

(** The [while] loop over the GRES of the job. *)
Fixpoint gres_select_util_job_mem_set_loop (l : list gres_state_t)
    (bitmap : list bool) (whole : Z) (i_first i_last : Z)
    (rc first_set : bool) (mem : list Z) : option (bool * list Z) :=
  match l with
  | [] => Some (rc, mem)
  | job_gres_ptr :: rest =>
      match gres_data job_gres_ptr with
      | None => None
      | Some job_data_ptr =>
          let mem_per_gres_ :=
            if negb (mem_per_gres job_data_ptr =? 0)
            then mem_per_gres job_data_ptr
            else def_mem_per_gres job_data_ptr in
          if (mem_per_gres_ =? 0)
             || negb (is_some (gres_cnt_node_select job_data_ptr)) then
            gres_select_util_job_mem_set_loop rest bitmap whole i_first
              i_last rc first_set mem
          else
            match
              gres_select_util_job_mem_set_nodes job_gres_ptr job_data_ptr
                mem_per_gres_ first_set bitmap whole
                (seq (Z.to_nat i_first) (Z.to_nat (i_last - i_first + 1)))
                (-1) mem
            with
            | None => None
            | Some mem' =>
                gres_select_util_job_mem_set_loop rest bitmap whole i_first
                  i_last true false mem'
            end
      end
  end.

(** Set per-node memory limits based upon GRES assignments; the result is
    whether a mem-per-tres specification was used, with the memory
    allocated afterwards. *)
Definition gres_select_util_job_mem_set
    (job_gres_list : option (list gres_state_t)) (job_res : job_resources_t)
  : option (bool * list Z) :=
  match job_gres_list with
  | None => Some (false, memory_allocated job_res)
  | Some l =>
      let i_first := bit_ffs (node_bitmap job_res) in
      if i_first <? 0 then Some (false, memory_allocated job_res)
      else
        let i_last := bit_fls (node_bitmap job_res) in
        gres_select_util_job_mem_set_loop l (node_bitmap job_res)
          (whole_node job_res) i_first i_last false true
          (memory_allocated job_res)
  end.

End GresMem.

(* ===================================================================== *)
(** * Concrete platforms, environments and connections                    *)
(* ===================================================================== *)

(** The numbers of Linux on x86-64, with [xassert] on or off. *)
Definition linux_headers (ndebug : bool) : headers_t.
Proof.
  refine {| NDEBUG := ndebug;
            MAGIC_CON_MGR_FD := 0xD23444EF;
            BUFFER_START_SIZE := 4096;
            NO_VAL := 0xfffffffe;
            EPERM := 1; ENOENT := 2; EINTR := 4; EBADF := 9; EAGAIN := 11;
            EWOULDBLOCK := 11; EINVAL := 22; EPIPE := 32;
            EAFNOSUPPORT := 97; EINPROGRESS := 115;
            SLURM_COMMUNICATIONS_MISSING_SOCKET_ERROR := 1013 |}.
  - repeat constructor.
  - repeat (constructor; [simpl; intuition lia|]). constructor.
  - reflexivity.
  - left. reflexivity.
Defined.

Definition count_connect (tr : list event) : nat :=
  List.length (filter (fun e => match e with
                                | ev_connect _ _ _ => true
                                | _ => false
                                end) tr).

Definition count_write (tr : list event) : nat :=
  List.length (filter (fun e => match e with
                                | ev_write _ _ _ => true
                                | _ => false
                                end) tr).

(** An environment in which every call succeeds, except that the first
    [k] calls of [connect] and of [write] fail with [busy] and the call
    after them answers [last]. *)
Definition scripted_os (k : nat) (busy : Z) (last : Z * Z) (link_rc : Z)
  : os_t :=
  {| os_unlink := fun _ _ => (0, 0);
     os_close := fun _ _ => (0, 0);
     os_shutdown := fun _ _ => (0, 0);
     os_fstat := fun _ _ => (0, 0, {| S_ISSOCK := true |});
     os_socket := fun _ _ => (7, 0);
     os_setsockopt := fun _ _ => (0, 0);
     os_bind := fun _ _ _ => (0, 0);
     os_listen := fun _ _ => (0, 0);
     os_connect := fun tr _ _ =>
       if (count_connect tr <? k)%nat then (-1, busy) else last;
     os_write := fun tr _ _ =>
       if (count_write tr <? k)%nat then (-1, busy) else last;
     os_pollctl_link_fd := fun _ _ _ => link_rc;
     os_parse := fun _ s => Some {| host := s; port := "6817" |};
     os_xgetaddrinfo := fun _ _ _ =>
       [{| ai_family := AF_INET; ai_socktype := 1; ai_protocol := 6;
           ai_addr := sockaddr_in 6817 2130706433; ai_addrlen := 16 |}];
     os_sockaddr_from_unix_path := fun p => sockaddr_un p;
     os_connection_name := fun _ _ _ => "con" |}.

Definition friendly_os : os_t := scripted_os 0 0 (0, 0) 0.

(** The same environment with a poll controller that refuses every
    registration with [EPERM], as epoll does for a regular file. *)
Definition refusing_os : os_t := scripted_os 0 0 (0, 0) 1.

(** An environment in which [connect] is still in progress when it
    returns, as it is for a non-blocking socket, with a given answer of
    [fstat]. *)
Definition dialing_os (fstat_answer : Z * Z * stat_t) : os_t :=
  {| os_unlink := fun _ _ => (0, 0);
     os_close := fun _ _ => (0, 0);
     os_shutdown := fun _ _ => (0, 0);
     os_fstat := fun _ _ => fstat_answer;
     os_socket := fun _ _ => (7, 0);
     os_setsockopt := fun _ _ => (0, 0);
     os_bind := fun _ _ _ => (0, 0);
     os_listen := fun _ _ => (0, 0);
     os_connect := fun _ _ _ => (-1, 115);
     os_write := fun _ _ _ => (4, 0);
     os_pollctl_link_fd := fun _ _ _ => 0;
     os_parse := fun _ s => Some {| host := s; port := "6817" |};
     os_xgetaddrinfo := fun _ _ _ => [];
     os_sockaddr_from_unix_path := fun p => sockaddr_un p;
     os_connection_name := fun _ _ _ => "con" |}.

(** An environment in which every call succeeds and whose resolver
    reports [len] bytes for the address 127.0.0.1:6817. *)
Definition resolving_os (len : Z) : os_t :=
  {| os_unlink := fun _ _ => (0, 0);
     os_close := fun _ _ => (0, 0);
     os_shutdown := fun _ _ => (0, 0);
     os_fstat := fun _ _ => (0, 0, {| S_ISSOCK := true |});
     os_socket := fun _ _ => (7, 0);
     os_setsockopt := fun _ _ => (0, 0);
     os_bind := fun _ _ _ => (0, 0);
     os_listen := fun _ _ => (0, 0);
     os_connect := fun _ _ _ => (0, 0);
     os_write := fun _ _ _ => (4, 0);
     os_pollctl_link_fd := fun _ _ _ => 0;
     os_parse := fun _ s => Some {| host := s; port := "6817" |};
     os_xgetaddrinfo := fun _ _ _ =>
       [{| ai_family := AF_INET; ai_socktype := 1; ai_protocol := 6;
           ai_addr := sockaddr_in 6817 2130706433; ai_addrlen := len |}];
     os_sockaddr_from_unix_path := fun p => sockaddr_un p;
     os_connection_name := fun _ _ _ => "con" |}.

Definition sample_events : conmgr_events_t :=
  {| on_connection := Some 4096; on_data := Some 4112;
     on_msg := Some 4128; on_finish := Some 4144 |}.

(** A connected stream socket: one descriptor for both directions. *)
Definition socket_con : conmgr_fd_t :=
  {| magic := 0xD23444EF; name := "127.0.0.1:6817(fd:5)";
     input_fd := 5; output_fd := 5; type := CON_TYPE_RAW;
     polling_input_fd := PCTL_TYPE_READ_ONLY;
     polling_output_fd := PCTL_TYPE_NONE;
     is_socket := true; is_listen := false; is_connected := true;
     read_eof := false; can_read := false; work_active := false;
     events := sample_events; mss := 0xfffffffe; unix_socket := None;
     address := sockaddr_in 6817 2130706433;
     in_buf := Some (create_buf [104; 105] 4096); out := Some [];
     work := []; write_complete_work := []; new_arg := 0; arg := 1 |}.

(** The read end of the self-pipe, as [signal_mgr_start] registers it:
    there is no output descriptor. *)
Definition pipe_con : conmgr_fd_t :=
  {| magic := 0xD23444EF; name := "pipe(fd:3)->()";
     input_fd := 3; output_fd := -1; type := CON_TYPE_RAW;
     polling_input_fd := PCTL_TYPE_NONE;
     polling_output_fd := PCTL_TYPE_NONE;
     is_socket := false; is_listen := false; is_connected := false;
     read_eof := false; can_read := false; work_active := false;
     events := sample_events; mss := 0xfffffffe; unix_socket := None;
     address := sockaddr_unspec;
     in_buf := Some (create_buf [] 4096); out := Some [];
     work := []; write_complete_work := []; new_arg := 0; arg := 0 |}.

(** A listener on the local-domain socket /tmp/x. *)
Definition unix_listener : conmgr_fd_t :=
  {| magic := 0xD23444EF; name := "unix:/tmp/x(fd:4)";
     input_fd := 4; output_fd := -1; type := CON_TYPE_RPC;
     polling_input_fd := PCTL_TYPE_LISTEN;
     polling_output_fd := PCTL_TYPE_NONE;
     is_socket := true; is_listen := true; is_connected := false;
     read_eof := false; can_read := false; work_active := false;
     events := sample_events; mss := 0xfffffffe;
     unix_socket := Some "/tmp/x";
     address := sockaddr_un "/tmp/x";
     in_buf := None; out := None;
     work := []; write_complete_work := []; new_arg := 0; arg := 0 |}.

(** A listener on 127.0.0.1:6817. *)
Definition inet_listener : conmgr_fd_t :=
  {| magic := 0xD23444EF; name := "127.0.0.1:6817(fd:6)";
     input_fd := 6; output_fd := -1; type := CON_TYPE_RPC;
     polling_input_fd := PCTL_TYPE_LISTEN;
     polling_output_fd := PCTL_TYPE_NONE;
     is_socket := true; is_listen := true; is_connected := false;
     read_eof := false; can_read := false; work_active := false;
     events := sample_events; mss := 0xfffffffe;
     unix_socket := None;
     address := sockaddr_in 6817 2130706433;
     in_buf := None; out := None;
     work := []; write_complete_work := []; new_arg := 0; arg := 0 |}.

Definition sample_world (listeners : list conmgr_fd_t) (stop : bool)
    (sfd : Z) : world :=
  {| mgr := {| initialized := true; shutdown_requested := stop;
               connections := []; listen_conns := listeners |};
     sig := {| one_time_init := true; signal_handlers := [15];
               signal_handler_count := 1; signal_work := [15];
               signal_work_count := 1; signal_fd := sfd;
               signal_con := None |};
     slurm_conf := {| DEBUG_FLAG_CONMGR := true; DEBUG_FLAG_NET := true |};
     errno := 0;
     trace := [] |}.

(** A descriptor pair whose input side the poll controller refused. *)
Definition file_con : conmgr_fd_t :=
  {| magic := 0xD23444EF; name := "/etc/hosts(fd:8)->pipe(fd:9)";
     input_fd := 8; output_fd := 9; type := CON_TYPE_RAW;
     polling_input_fd := PCTL_TYPE_UNSUPPORTED;
     polling_output_fd := PCTL_TYPE_NONE;
     is_socket := false; is_listen := false; is_connected := true;
     read_eof := false; can_read := false; work_active := false;
     events := sample_events; mss := 0xfffffffe; unix_socket := None;
     address := sockaddr_unspec;
     in_buf := Some (create_buf [] 4096); out := Some [];
     work := []; write_complete_work := []; new_arg := 0; arg := 1 |}.

(** The debug build and the release build on Linux. *)
Definition linux_debug : headers_t := linux_headers false.
Definition linux_release : headers_t := linux_headers true.

(** A world without listeners, not shutting down, before the signal bridge
    has opened its self-pipe. *)
Definition quiet_world : world := sample_world [] false (-1).

(** The connected socket while a worker runs one of its callbacks. *)
Definition busy_socket_con : conmgr_fd_t :=
  {| magic := 0xD23444EF; name := "127.0.0.1:6817(fd:5)";
     input_fd := 5; output_fd := 5; type := CON_TYPE_RAW;
     polling_input_fd := PCTL_TYPE_READ_ONLY;
     polling_output_fd := PCTL_TYPE_NONE;
     is_socket := true; is_listen := false; is_connected := true;
     read_eof := false; can_read := false; work_active := true;
     events := sample_events; mss := 0xfffffffe; unix_socket := None;
     address := sockaddr_in 6817 2130706433;
     in_buf := Some (create_buf [104; 105] 4096); out := Some [];
     work := []; write_complete_work := []; new_arg := 0; arg := 1 |}.

(** The connected socket after [close_con]: input is gone and marked as
    ended, output is still open. *)
Definition half_closed_con : conmgr_fd_t :=
  {| magic := 0xD23444EF; name := "127.0.0.1:6817(fd:5)";
     input_fd := -1; output_fd := 5; type := CON_TYPE_RAW;
     polling_input_fd := PCTL_TYPE_NONE;
     polling_output_fd := PCTL_TYPE_NONE;
     is_socket := true; is_listen := false; is_connected := true;
     read_eof := true; can_read := false; work_active := false;
     events := sample_events; mss := 0xfffffffe; unix_socket := None;
     address := sockaddr_in 6817 2130706433;
     in_buf := Some (create_buf [104; 105] 4096); out := Some [];
     work := []; write_complete_work := []; new_arg := 0; arg := 1 |}.

(** A job that asks for four GPUs per node, with defaults of two CPUs and
    1024 MB per GPU, and for two GPUs of one type per task with four CPUs
    and 2048 MB each; the two share the plugin id of "gpu". *)
Definition gpu_request : gres_job_state_t :=
  {| cpus_per_gres := 0; def_cpus_per_gres := 2;
     mem_per_gres := 0; def_mem_per_gres := 1024;
     gres_per_job := 0; gres_per_node := 4; gres_per_socket := 0;
     gres_per_task := 0; gres_cnt_node_select := None |}.

Definition task_request : gres_job_state_t :=
  {| cpus_per_gres := 4; def_cpus_per_gres := 0;
     mem_per_gres := 2048; def_mem_per_gres := 0;
     gres_per_job := 0; gres_per_node := 0; gres_per_socket := 0;
     gres_per_task := 2; gres_cnt_node_select := None |}.

Definition gpu_plugin_id : Z := 7696487.

Definition sample_gres_build_id (gres_name : string) : Z :=
  if String.eqb gres_name "gpu" then gpu_plugin_id else 6515053.

Definition gpu_gres : gres_state_t :=
  {| plugin_id := gpu_plugin_id; gres_data := Some gpu_request |}.

Definition gpu_task_gres : gres_state_t :=
  {| plugin_id := gpu_plugin_id; gres_data := Some task_request |}.

(** An element of another plugin that carries no request. *)
Definition empty_gres : gres_state_t :=
  {| plugin_id := 6515053; gres_data := None |}.

Definition sample_job_gres_list : list gres_state_t :=
  [gpu_gres; gpu_task_gres].

(** A node with eight GPUs of the type asked per task and three others. *)
Definition sample_sock_gres_list : list sock_gres_t :=
  [{| total_cnt := 8; job_specs := Some task_request |};
   {| total_cnt := 3; job_specs := Some gpu_request |}].

(** An environment whose sockets report error 104, hand over descriptor 9
    and whose [sigaction] accepts every handler. *)
Definition friendly_calls : os_calls_t :=
  {| os_fd_get_socket_error := fun _ _ => (0, 104);
     os_receive_fd_over_socket := fun _ _ => 9;
     os_sigaction := fun _ _ => 0 |}.

(** A registry with an open socket, a half-closed one and two listeners;
    three works wait for two signals and no handler is installed yet. *)
Definition crowded_world : world :=
  {| mgr := {| initialized := true; shutdown_requested := false;
               connections := [socket_con; half_closed_con];
               listen_conns := [inet_listener; unix_listener] |};
     sig := {| one_time_init := true; signal_handlers := [];
               signal_handler_count := 0; signal_work := [15; 2; 15];
               signal_work_count := 3; signal_fd := 11;
               signal_con := None |};
     slurm_conf := {| DEBUG_FLAG_CONMGR := true; DEBUG_FLAG_NET := false |};
     errno := 0;
     trace := [] |}.

Definition sample_receive_fd_args : receive_fd_args_t :=
  {| rfa_magic := 0xeba8bae0; rfa_type := CON_TYPE_RPC;
     rfa_events := sample_events; rfa_arg := 0 |}.

(** A job on nodes 1 and 3 of a table of four nodes, with two GPU
    requests: 1024 MB per GPU on two and one GPUs, 2048 MB per GPU on one
    and three GPUs. *)
Definition gpu_mem_request : gres_job_state_t :=
  {| cpus_per_gres := 0; def_cpus_per_gres := 2;
     mem_per_gres := 0; def_mem_per_gres := 1024;
     gres_per_job := 0; gres_per_node := 0; gres_per_socket := 0;
     gres_per_task := 0; gres_cnt_node_select := Some [0; 2; 0; 1] |}.

Definition tesla_mem_request : gres_job_state_t :=
  {| cpus_per_gres := 0; def_cpus_per_gres := 0;
     mem_per_gres := 2048; def_mem_per_gres := 0;
     gres_per_job := 0; gres_per_node := 0; gres_per_socket := 0;
     gres_per_task := 0; gres_cnt_node_select := Some [0; 1; 0; 3] |}.

Definition sample_mem_gres_list : list gres_state_t :=
  [{| plugin_id := gpu_plugin_id; gres_data := Some gpu_mem_request |};
   {| plugin_id := gpu_plugin_id; gres_data := Some tesla_mem_request |}].

Definition sample_job_res : job_resources_t :=
  {| node_bitmap := [false; true; false; true];
     whole_node := 0;
     memory_allocated := [7; 7; 7] |}.

(** A table of four nodes of which only node 1 has GPUs, four of them,
    and the same job allocated whole nodes. *)
Definition sample_node_table : list node_record_t :=
  [{| gres_list := Some [] |};
   {| gres_list :=
        Some [{| node_plugin_id := gpu_plugin_id;
                 node_gres_data := Some {| gres_cnt_avail := 4 |} |}] |};
   {| gres_list := Some [] |};
   {| gres_list := Some [] |}].

Definition whole_job_res : job_resources_t :=
  {| node_bitmap := [false; true; false; true];
     whole_node := 1;
     memory_allocated := [7; 7; 7] |}.

(* ===================================================================== *)
(** * Vocabulary of the statements                                        *)
(* ===================================================================== *)

Section Vocabulary.
Context {HD : headers_t} {OS : os_t}.

(** [log_flag] changes nothing but the trace, and never fails. *)
Definition logged (lvl : log_level_t) (func msg : string) (w : world)
  : world :=
  if log_enabled lvl (slurm_conf w)
  then {| mgr := mgr w; sig := sig w; slurm_conf := slurm_conf w;
          errno := errno w; trace := ev_log lvl func msg :: trace w |}
  else w.

(** The callback a connection type needs: [on_data] for RAW, [on_msg] for
    RPC. *)
Definition has_callback_for (ev : conmgr_events_t) (t : conmgr_con_type_t)
  : bool :=
  match t with
  | CON_TYPE_RAW => is_some (on_data ev)
  | CON_TYPE_RPC => is_some (on_msg ev)
  | _ => false
  end.

(** [returns m w Q]: run from [w], [m] returns, and its result and final
    world satisfy [Q]. *)
Definition returns {A : Type} (m : M A) (w : world)
    (Q : A -> world -> Prop) : Prop :=
  exists a w', m w = Ret a w' /\ Q a w'.

(** [on_return m w Q]: if [m] returns from [w], its result and final world
    satisfy [Q]. *)
Definition on_return {A : Type} (m : M A) (w : world)
    (Q : A -> world -> Prop) : Prop :=
  forall a w', m w = Ret a w' -> Q a w'.

(** The world after a system call that answered [(r, e)]. *)
Definition after_syscall (ev : event) (r e : Z) (w : world) : world :=
  {| mgr := mgr w; sig := sig w; slurm_conf := slurm_conf w;
     errno := if r <? 0 then e else errno w;
     trace := ev :: trace w |}.

(** What a returning [con_set_polling] can have done to the connection:
    only the two polling fields change, and an unsupported side stays
    unsupported. *)
Definition polling_update (c c' : conmgr_fd_t) : Prop :=
  c' = set_polling_output_fd (set_polling_input_fd c (polling_input_fd c'))
                             (polling_output_fd c') /\
  (polling_input_fd c = PCTL_TYPE_UNSUPPORTED ->
   polling_input_fd c' = PCTL_TYPE_UNSUPPORTED) /\
  (polling_output_fd c = PCTL_TYPE_UNSUPPORTED ->
   polling_output_fd c' = PCTL_TYPE_UNSUPPORTED).

(** The conditions [con_set_polling] asserts in a debug build. *)
Definition pctl_type_valid (t : pollctl_fd_type_t) : bool :=
  (pollctl_fd_type_to_Z PCTL_TYPE_INVALID <? pollctl_fd_type_to_Z t)
  && (pollctl_fd_type_to_Z t <? pollctl_fd_type_to_Z PCTL_TYPE_INVALID_MAX).

Definition con_set_polling_asserts (c : conmgr_fd_t)
    (t : pollctl_fd_type_t) : bool :=
  pctl_type_valid t
  && pctl_type_valid (polling_input_fd c)
  && pctl_type_valid (polling_output_fd c)
  && ((0 <=? input_fd c) || (0 <=? output_fd c))
  && match t with PCTL_TYPE_LISTEN => is_listen c | _ => true end
  && (if input_fd c =? output_fd c
      then pollctl_fd_type_eqb (polling_output_fd c) PCTL_TYPE_NONE
      else true).

(** The kinds a caller may ask for. *)
Definition pctl_type_requestable (t : pollctl_fd_type_t) : bool :=
  match t with
  | PCTL_TYPE_NONE | PCTL_TYPE_CONNECTED | PCTL_TYPE_READ_ONLY
  | PCTL_TYPE_READ_WRITE | PCTL_TYPE_WRITE_ONLY | PCTL_TYPE_LISTEN => true
  | _ => false
  end.

(** Section 4.9 of the specification, the column for one shared
    descriptor and the column for two descriptors: the interest asked for
    on the input side and on the output side. *)
Definition table_input (is_same : bool) (t : pollctl_fd_type_t)
  : pollctl_fd_type_t :=
  if is_same then t
  else match t with
       | PCTL_TYPE_WRITE_ONLY => PCTL_TYPE_NONE
       | PCTL_TYPE_READ_WRITE => PCTL_TYPE_READ_ONLY
       | _ => t
       end.

Definition table_output (is_same : bool) (t : pollctl_fd_type_t)
  : pollctl_fd_type_t :=
  if is_same then PCTL_TYPE_NONE
  else match t with
       | PCTL_TYPE_CONNECTED => PCTL_TYPE_CONNECTED
       | PCTL_TYPE_WRITE_ONLY | PCTL_TYPE_READ_WRITE => PCTL_TYPE_WRITE_ONLY
       | _ => PCTL_TYPE_NONE
       end.

(** The connection [con_set_polling] leaves behind when every side that
    is present gets the interest of the table: a side without a
    descriptor keeps its polling field. *)
Definition con_set_polling_expected (c : conmgr_fd_t)
    (t : pollctl_fd_type_t) : conmgr_fd_t :=
  if input_fd c =? output_fd c then
    set_polling_input_fd c (table_input true t)
  else
    set_polling_output_fd
      (set_polling_input_fd c
         (if 0 <=? input_fd c then table_input false t
          else polling_input_fd c))
      (if 0 <=? output_fd c then table_output false t
       else polling_output_fd c).

(** The conditions [close_con] asserts in a debug build, its own and those
    of the [con_set_polling] it calls. *)
Definition close_con_asserts (c : conmgr_fd_t) : bool :=
  if input_fd c <? 0 then read_eof c && negb (can_read c)
  else con_set_polling_asserts c PCTL_TYPE_NONE
       && (if is_listen c then output_fd c <=? 0 else true).

(** Requests for polling made one after the other on a connection. *)
Fixpoint con_set_polling_each (ts : list pollctl_fd_type_t)
    (c : conmgr_fd_t) (caller : string) : M conmgr_fd_t :=
  match ts with
  | [] => ret c
  | t :: rest =>
      c1 <- con_set_polling c t caller ;;
      con_set_polling_each rest c1 caller
  end.

(** [frame P w w']: from [w] to [w'] the registry, the signal bridge and
    the configuration are untouched, and the trace grew by events that
    satisfy [P]. *)
Definition frame (P : event -> bool) (w w' : world) : Prop :=
  mgr w' = mgr w /\ sig w' = sig w /\ slurm_conf w' = slurm_conf w /\
  exists evs, trace w' = evs ++ trace w /\ forallb P evs = true.

Definition ev_is_log (e : event) : bool :=
  match e with ev_log _ _ _ => true | _ => false end.

Definition ev_is_pollctl (e : event) : bool :=
  match e with
  | ev_pollctl_link_fd _ _ _ | ev_pollctl_relink_fd _ _
  | ev_pollctl_unlink_fd _ => true
  | _ => false
  end.

Definition ev_is_add_work (e : event) : bool :=
  match e with ev_add_work _ _ => true | _ => false end.

(** The events of [close_con]: traces, the poll controller, the calls
    that close, shut down or unlink, and the wake-up of the watch loop. *)
Definition ev_is_close_con (e : event) : bool :=
  match e with
  | ev_log _ _ _ | ev_pollctl_link_fd _ _ _ | ev_pollctl_relink_fd _ _
  | ev_pollctl_unlink_fd _ | ev_unlink _ _ | ev_close _ _
  | ev_shutdown_rd _ _ | ev_event_signal_watch_sleep => true
  | _ => false
  end.

(** The work handed to the work queue so far, newest first, each item with
    the name of its connection. *)
Fixpoint queued_work (tr : list event) : list (string * work_func_t) :=
  match tr with
  | [] => []
  | ev_add_work con func :: rest => (con, func) :: queued_work rest
  | _ :: rest => queued_work rest
  end.

(** The world after one more event. *)
Definition after_event (e : event) (w : world) : world :=
  {| mgr := mgr w; sig := sig w; slurm_conf := slurm_conf w;
     errno := errno w; trace := e :: trace w |}.

(** The events [_send_fd] may leave before it closes its copy of the
    descriptor: traces, and the one transfer of [fd] over [sock]. *)
Definition ev_is_send_fd (sock fd : Z) (e : event) : bool :=
  match e with
  | ev_log _ _ _ => true
  | ev_send_fd_over_socket s f => (s =? sock) && (f =? fd)
  | _ => false
  end.

(** The answer of the [i]-th further [write] of [signo] to the self-pipe,
    when all writes before it failed. *)
Definition nth_write_answer (w : world) (signo : Z) (i : nat) : Z * Z :=
  os_write (repeat (ev_write (signal_fd (sig w)) signo (-1)) i ++ trace w)
           (signal_fd (sig w)) signo.

(** An [errno] on which the signal handler writes again. *)
Definition errno_retries_write (e : Z) : Prop :=
  e = EINTR \/ e = EAGAIN \/ e = EWOULDBLOCK.

(** The families [conmgr_create_connect_socket] dials. *)
Definition family_supported (a : slurm_addr_t) : bool :=
  match ss_family a with
  | AF_UNIX | AF_INET | AF_INET6 => true
  | _ => false
  end.

(** An [errno] of [connect] that means the connection is being set up. *)
Definition errno_connect_pending (e : Z) : Prop :=
  e = EINPROGRESS \/ e = EAGAIN \/ e = EWOULDBLOCK.

(** The world in which the first [connect] is made: the socket exists and
    is non-blocking. *)
Definition connect_started (family : sa_family_t) (fd e : Z) (w : world)
  : world :=
  logged LOG_FLAG_CONMGR "conmgr_create_connect_socket"
         "attempting to connect() new socket"
    (after_event (ev_fd_set_nonblocking fd)
       (after_syscall (ev_socket family fd) fd e w)).

(** The world after a [connect] that was interrupted and is retried. *)
Definition connect_interrupted (fd : Z) (addr : slurm_addr_t) (w : world)
  : world :=
  logged LOG_FLAG_CONMGR "conmgr_create_connect_socket"
         "connect() interrupted. Retrying."
    (after_syscall (ev_connect fd addr (-1)) (-1) EINTR w).

(** The answer of the [i]-th further [connect], when all calls before it
    were interrupted. *)
Definition nth_connect_answer (fd : Z) (addr : slurm_addr_t) (w : world)
    (i : nat) : Z * Z :=
  os_connect (trace (Nat.iter i (connect_interrupted fd addr) w)) fd addr.

(** The memory and the CPUs per GRES in effect for a request: the job's own
    value, or the default when the job gave none. *)
Definition effective_mem_per_gres (d : gres_job_state_t) : Z :=
  if mem_per_gres d =? 0 then def_mem_per_gres d else mem_per_gres d.

Definition effective_cpus_per_gres (d : gres_job_state_t) : Z :=
  if cpus_per_gres d =? 0 then def_cpus_per_gres d else cpus_per_gres d.

(** The GRES requests of a job list, when no element has NULL data. *)
Fixpoint job_requests (l : list gres_state_t)
  : option (list gres_job_state_t) :=
  match l with
  | [] => Some []
  | g :: rest =>
      match gres_data g, job_requests rest with
      | Some d, Some ds => Some (d :: ds)
      | _, _ => None
      end
  end.

(** A per-socket record as the select plugin builds it: the job's request
    is attached and the counts are unsigned. *)
Definition sock_gres_valid (sg : sock_gres_t) : Prop :=
  exists specs, job_specs sg = Some specs /\
                0 <= total_cnt sg /\ 0 <= gres_per_task specs.

(** The tasks that fit the GRES of one per-socket record, when the job
    asks for GRES per task. *)
Definition tasks_that_fit (sg : sock_gres_t) (limit : Z) : Prop :=
  exists specs, job_specs sg = Some specs /\ gres_per_task specs <> 0 /\
                limit = total_cnt sg / gres_per_task specs.

(** The GRES a request amounts to over the whole job: the count per job,
    else per node, else per socket, else per task; nothing when the
    request has no count. *)
Definition job_total_gres (node_count sockets_per_node task_count : Z)
    (d : gres_job_state_t) : option Z :=
  if negb (gres_per_job d =? 0) then Some (gres_per_job d)
  else if negb (gres_per_node d =? 0) then
    Some (gres_per_node d * node_count)
  else if negb (gres_per_socket d =? 0) then
    Some (gres_per_socket d * node_count * sockets_per_node)
  else if negb (gres_per_task d =? 0) then
    Some (gres_per_task d * task_count)
  else None.

(** The GRES a request amounts to on one node: the count per node, else
    per socket, else per task, else one. *)
Definition node_total_gres (sockets_per_node tasks_per_node : Z)
    (d : gres_job_state_t) : Z :=
  if negb (gres_per_node d =? 0) then gres_per_node d
  else if negb (gres_per_socket d =? 0) then
    gres_per_socket d * sockets_per_node
  else if negb (gres_per_task d =? 0) then
    gres_per_task d * tasks_per_node
  else 1.

(** The CPUs a request needs: its CPUs per GRES in effect times its GRES;
    nothing when it binds no CPUs or counts no GRES. *)
Definition job_cpus_needed (node_count sockets_per_node task_count : Z)
    (d : gres_job_state_t) : option Z :=
  if effective_cpus_per_gres d =? 0 then None
  else
    match job_total_gres node_count sockets_per_node task_count d with
    | Some total => Some (effective_cpus_per_gres d * total)
    | None => None
    end.

Definition node_cpus_needed (sockets_per_node tasks_per_node : Z)
    (d : gres_job_state_t) : option Z :=
  if effective_cpus_per_gres d =? 0 then None
  else Some (effective_cpus_per_gres d
             * node_total_gres sockets_per_node tasks_per_node d).

(** The largest of the needs of the requests, starting from [acc]. *)
Definition max_need (need : gres_job_state_t -> option Z)
    (ds : list gres_job_state_t) (acc : Z) : Z :=
  fold_left (fun m d => match need d with
                        | Some c => Z.max m c
                        | None => m
                        end) ds acc.

(** Every need of the requests fits an [int]. *)
Definition needs_fit_int (need : gres_job_state_t -> option Z)
    (ds : list gres_job_state_t) : Prop :=
  forall d c, In d ds -> need d = Some c -> 0 <= c < 2 ^ 31.

(** [m] is the largest need of the requests, zero when none has a need. *)
Definition largest_need (need : gres_job_state_t -> option Z)
    (ds : list gres_job_state_t) (m : Z) : Prop :=
  0 <= m /\
  (forall d c, In d ds -> need d = Some c -> c <= m) /\
  (m = 0 \/ exists d, In d ds /\ need d = Some m).

(** A result that is present is not negative. *)
Definition not_negative (r : option Z) : Prop :=
  match r with
  | Some m => 0 <= m
  | None => True
  end.

(** The plugin id a GRES name filters on: zero, which lets every GRES
    through, for no name and for the empty name. *)
Definition filter_id (gres_build_id : string -> Z) (gres_name : option string)
  : Z :=
  match gres_name with
  | Some nm => if String.eqb nm "" then 0 else uint32 (gres_build_id nm)
  | None => 0
  end.

(** The elements of a job's list that a plugin id lets through. *)
Definition selected (id : Z) (l : list gres_state_t) : list gres_state_t :=
  filter (fun g => (id =? 0) || (id =? plugin_id g)) l.

(** The tasks a request needs over the whole job: the tasks per GRES times
    its GRES per job, else per node, else per socket. *)
Definition job_tasks_needed (node_count sockets_per_node ntasks_per_tres : Z)
    (d : gres_job_state_t) : option Z :=
  if negb (gres_per_job d =? 0) then Some (ntasks_per_tres * gres_per_job d)
  else if negb (gres_per_node d =? 0) then
    Some (ntasks_per_tres * (gres_per_node d * node_count))
  else if negb (gres_per_socket d =? 0) then
    Some (ntasks_per_tres
          * (gres_per_socket d * node_count * sockets_per_node))
  else None.

(** A request that counts its GRES per task only, which conflicts with a
    number of tasks per GRES. *)
Definition per_task_only (d : gres_job_state_t) : bool :=
  (gres_per_job d =? 0) && (gres_per_node d =? 0)
  && (gres_per_socket d =? 0) && negb (gres_per_task d =? 0).

Definition has_per_task (d : gres_job_state_t) : bool :=
  negb (gres_per_task d =? 0).

(** What [gres_select_util_job_set_defs] does to one element: the two
    defaults of a request of the plugin are replaced, nothing else. *)
Definition with_defs (id cpu_per_gpu mem_per_gpu : Z) (g : gres_state_t)
  : gres_state_t :=
  if plugin_id g =? id then
    match gres_data g with
    | Some d =>
        {| plugin_id := plugin_id g;
           gres_data := Some (set_def_per_gres d cpu_per_gpu mem_per_gpu) |}
    | None => g
    end
  else g.

(** The requests of a plugin in a job's list. *)
Definition requests_of (id : Z) (l : list gres_state_t)
  : list gres_job_state_t :=
  flat_map (fun g => if plugin_id g =? id
                     then match gres_data g with
                          | Some d => [d]
                          | None => []
                          end
                     else []) l.

(** A displayed string after the defaults are set: replaced, by the new
    default or by nothing when that is zero, as soon as a request of the
    plugin has no value of its own; kept otherwise. *)
Definition tres_after (own : gres_job_state_t -> Z) (v : Z)
    (ds : list gres_job_state_t) (s : option string) : option string :=
  if existsb (fun d => own d =? 0) ds then
    if negb (v =? 0) then Some (gpu_tres_string v) else None
  else s.

(** The CPUs per task after the requests were gone through, each result
    stored in 16 bits. *)
Definition cpus_per_task_after (cpu_per_gpu : Z) (ds : list gres_job_state_t)
    (t : Z) : Z :=
  fold_left (fun t d =>
               if negb (cpu_per_gpu =? 0) && negb (gres_per_task d =? 0)
               then uint16 (MAX t (uint64 (gres_per_task d * cpu_per_gpu)))
               else t) ds t.

(** The CPUs the tasks of a request need with a default of CPUs per GPU. *)
Definition task_cpus_needed (cpu_per_gpu : Z) (d : gres_job_state_t)
  : option Z :=
  if negb (cpu_per_gpu =? 0) && negb (gres_per_task d =? 0)
  then Some (gres_per_task d * cpu_per_gpu)
  else None.

(** The name passes the assertion of [gres_select_util_job_set_defs]. *)
Definition set_defs_name_ok {HD : headers_t} (gres_name : string) : Prop :=
  NDEBUG = true \/ gres_name = "gpu"%string.

(** The events of an [add_connection] that gives up: traces and [fstat]
    of its two descriptors. *)
Definition ev_is_fstat_of (in_fd out_fd : Z) (e : event) : bool :=
  match e with
  | ev_log _ _ _ => true
  | ev_fstat fd _ => (fd =? in_fd) || (fd =? out_fd)
  | _ => false
  end.

(** The events of [add_connection]: traces, calls on its two descriptors
    ([fstat], non-blocking mode, and keep-alive where [keep_alive] allows
    it), and the two wake-ups. *)
Definition ev_is_add_connection (in_fd out_fd : Z) (keep_alive : bool)
    (e : event) : bool :=
  match e with
  | ev_log _ _ _ | ev_pollctl_interrupt | ev_event_signal_watch_sleep => true
  | ev_fstat fd _ | ev_fd_set_nonblocking fd => (fd =? in_fd) || (fd =? out_fd)
  | ev_net_set_keep_alive fd =>
      keep_alive && ((fd =? in_fd) || (fd =? out_fd))
  | _ => false
  end.

(** The registry [m'] is [m] with [con] appended to the list of listeners
    or to the list of connections. *)
Definition registered (listen : bool) (con : conmgr_fd_t) (m m' : mgr_t)
  : Prop :=
  initialized m' = initialized m /\
  shutdown_requested m' = shutdown_requested m /\
  connections m' = (if listen then connections m else connections m ++ [con])
  /\
  listen_conns m' =
    (if listen then listen_conns m ++ [con] else listen_conns m).

(** A connection as [add_connection] creates it. *)
Definition new_connection (t : conmgr_con_type_t)
    (source : option conmgr_fd_t) (in_fd out_fd : Z) (ev : conmgr_events_t)
    (listen : bool) (unix_socket_path : option string) (new_arg_ : Z)
    (con : conmgr_fd_t) : Prop :=
  magic con = MAGIC_CON_MGR_FD /\
  input_fd con = in_fd /\ output_fd con = out_fd /\
  type con = t /\ events con = ev /\ is_listen con = listen /\
  polling_input_fd con = PCTL_TYPE_NONE /\
  polling_output_fd con = PCTL_TYPE_NONE /\
  read_eof con = (in_fd <? 0) /\
  can_read con = false /\ work_active con = false /\
  is_connected con = false /\ mss con = NO_VAL /\
  work con = [] /\ write_complete_work con = [] /\
  new_arg con = new_arg_ /\ arg con = 0 /\
  unix_socket con =
    match unix_socket_path, source with
    | Some p, _ => Some p
    | None, Some s => unix_socket s
    | None, None => None
    end /\
  (if listen then in_buf con = None /\ out con = None
   else (exists b, in_buf con = Some b /\ size b = BUFFER_START_SIZE /\
                   processed b = 0) /\
        out con = Some []).

(** What a run of [add_connection] leaves: the signal bridge and the
    configuration are untouched and the trace grew by events of the call;
    either the call gave up, and then it only looked at its descriptors and
    the registry is as it was, or the new connection is registered. *)
Definition add_connection_post (t : conmgr_con_type_t)
    (source : option conmgr_fd_t) (in_fd out_fd : Z) (ev : conmgr_events_t)
    (listen : bool) (unix_socket_path : option string) (new_arg_ : Z)
    (w : world) (rc : Z) (w' : world) : Prop :=
  sig w' = sig w /\ slurm_conf w' = slurm_conf w /\
  exists evs,
    trace w' = evs ++ trace w /\
    forallb (ev_is_add_connection in_fd out_fd
               (negb listen && negb (is_some unix_socket_path))) evs = true /\
    ((rc = SLURM_ERROR /\ mgr w' = mgr w /\
      forallb (ev_is_fstat_of in_fd out_fd) evs = true) \/
     (rc = SLURM_SUCCESS /\
      exists con,
        registered listen con (mgr w) (mgr w') /\
        new_connection t source in_fd out_fd ev listen unix_socket_path
          new_arg_ con)).

(** Conditions under which no assertion of [add_connection] fails in a
    debug build, for a call without a unix socket path: the callback of
    the type is there and a listener has no output descriptor. *)
Definition add_connection_asserts (t : conmgr_con_type_t) (out_fd : Z)
    (ev : conmgr_events_t) (listen : bool)
    (unix_socket_path : option string) : Prop :=
  unix_socket_path = None /\ has_callback_for ev t = true /\
  (listen = true -> out_fd <= 0).

(** The two addresses name the same endpoint: same family and same port
    and address (and scope, for IPv6) or same path.  The flow information
    of an IPv6 address does not count. *)
Definition same_endpoint (a b : slurm_addr_t) : Prop :=
  match a, b with
  | sockaddr_in port1 a1, sockaddr_in port2 a2 => port1 = port2 /\ a1 = a2
  | sockaddr_in6 port1 _ a1 scope1, sockaddr_in6 port2 _ a2 scope2 =>
      port1 = port2 /\ a1 = a2 /\ scope1 = scope2
  | sockaddr_un path1, sockaddr_un path2 => path1 = path2
  | _, _ => False
  end.

(** A connection uses the descriptor, for input or for output. *)
Definition uses_fd (fd : Z) (con : conmgr_fd_t) : Prop :=
  input_fd con = fd \/ output_fd con = fd.

(** All tracked connections, in the order [con_find_by_fd] searches. *)
Definition tracked (m : mgr_t) : list conmgr_fd_t :=
  connections m ++ listen_conns m.

(** [c'] is [c] after its input was closed: no input descriptor is left,
    and what identifies the connection and its output side is as before. *)
Definition closed_from (c c' : conmgr_fd_t) : Prop :=
  input_fd c' < 0 /\
  magic c' = magic c /\ name c' = name c /\ output_fd c' = output_fd c /\
  type c' = type c /\ is_socket c' = is_socket c /\
  is_listen c' = is_listen c /\ is_connected c' = is_connected c /\
  work_active c' = work_active c /\ events c' = events c /\
  unix_socket c' = unix_socket c /\ address c' = address c /\
  out c' = out c /\ work c' = work c /\
  write_complete_work c' = write_complete_work c /\
  new_arg c' = new_arg c /\ arg c' = arg c.

(** No assertion of [close_con] fails on the connection. *)
Definition close_con_ok {HD' : headers_t} (c : conmgr_fd_t) : Prop :=
  NDEBUG = true \/ close_con_asserts c = true.

(** No assertion of [_receive_fd] fails: the magic of the arguments and
    of the source are right, the source can be closed and the callback of
    the type asked for is there. *)
Definition _receive_fd_ok {HD' : headers_t} (src : conmgr_fd_t)
    (args : receive_fd_args_t) : Prop :=
  NDEBUG = true \/
  (rfa_magic args = MAGIC_RECEIVE_FD /\ magic src = MAGIC_CON_MGR_FD /\
   close_con_asserts src = true /\
   has_callback_for (rfa_events args) (rfa_type args) = true).

(** The source can not receive: the work was cancelled, the source is at
    end of input, or it has no input descriptor. *)
Definition can_not_receive (status : conmgr_work_status_t)
    (src : conmgr_fd_t) : Prop :=
  status = CONMGR_WORK_STATUS_CANCELLED \/ read_eof src = true \/
  input_fd src < 0.

(** The table of signal handlers is consistent: the count is its length
    and no signal has two handlers. *)
Definition handlers_ok (s : signal_mgr_t) : Prop :=
  signal_handler_count s = Z.of_nat (List.length (signal_handlers s)) /\
  NoDup (signal_handlers s).

(** [sigaction] accepts every handler. *)
Definition sigaction_succeeds {OC' : os_calls_t} : Prop :=
  forall tr signal, os_sigaction tr signal = 0.

(** From [s] to [s'] only the table of handlers changed. *)
Definition only_handlers_changed (s s' : signal_mgr_t) : Prop :=
  one_time_init s' = one_time_init s /\
  signal_work s' = signal_work s /\
  signal_work_count s' = signal_work_count s /\
  signal_fd s' = signal_fd s /\
  signal_con s' = signal_con s.

(** The verdict on two addresses: whether they name the same endpoint,
    and no verdict for two addresses of one family that is neither IPv4,
    IPv6 nor unix. *)
Definition endpoint_match (a b : slurm_addr_t) : option bool :=
  if negb (sa_family_eqb (ss_family a) (ss_family b)) then Some false
  else
    match a, b with
    | sockaddr_in port1 a1, sockaddr_in port2 a2 =>
        Some ((port1 =? port2) && (a1 =? a2))
    | sockaddr_in6 port1 _ a1 scope1, sockaddr_in6 port2 _ a2 scope2 =>
        Some ((port1 =? port2) && (scope1 =? scope2) && list_eqb a1 a2)
    | sockaddr_un path1, sockaddr_un path2 => Some (String.eqb path1 path2)
    | _, _ => None
    end.

(** The bytes of the storage that hold the fields of an address: a copy
    of that many bytes copies the address. *)
Definition sockaddr_len (a : slurm_addr_t) : Z :=
  match a with
  | sockaddr_unspec => 0
  | sockaddr_in _ _ => 8
  | sockaddr_in6 _ _ _ _ => 28
  | sockaddr_un path => 2 + Z.of_nat (String.length path)
  | sockaddr_other _ => 2
  end.

(** Every listener has the right magic, where that is checked. *)
Definition listeners_ok {HD' : headers_t} (m : mgr_t) : Prop :=
  NDEBUG = true \/
  forall x, In x (listen_conns m) -> magic x = MAGIC_CON_MGR_FD.

(** The nodes of a job: the indices of the set bits of its bitmap, in
    increasing order.  The memory of the [k]-th of them is entry [k] of
    [memory_allocated]. *)
Definition job_nodes (bitmap : list bool) : list nat :=
  filter (bit_test bitmap) (seq 0 (List.length bitmap)).

(** A request counts for the memory: it has a memory per GRES in effect
    and the GRES selected on each node are known. *)
Definition counts_memory (d : gres_job_state_t) : bool :=
  negb (effective_mem_per_gres d =? 0) && is_some (gres_cnt_node_select d).

(** The GRES of a request selected on node [i]. *)
Definition gres_on_node (d : gres_job_state_t) (i : nat) : option Z :=
  match gres_cnt_node_select d with
  | Some cnt => nth_error cnt i
  | None => None
  end.

(** The memory the requests need on node [i], on top of [acc]: for each
    request that counts, its memory per GRES times its GRES on the node. *)
Definition memory_on_node (ds : list gres_job_state_t) (i : nat) (acc : Z)
  : Z :=
  fold_left (fun a d =>
               if counts_memory d
               then a + effective_mem_per_gres d
                        * match gres_on_node d i with
                          | Some c => c
                          | None => 0
                          end
               else a) ds acc.

(** The selected GRES of every request that counts are known on every
    node of the job. *)
Definition selection_covers (bitmap : list bool)
    (ds : list gres_job_state_t) : Prop :=
  forall d i, In d ds -> counts_memory d = true ->
              In i (job_nodes bitmap) -> gres_on_node d i <> None.

(** The entry of a node after one request was added: the first request
    that counts overwrites the entry, the others add to it, in 64 bits. *)
Definition memory_entry (first_set : bool) (mem_per_gres_ gres_cnt old : Z)
  : Z :=
  if first_set then uint64 (mem_per_gres_ * gres_cnt)
  else uint64 (old + uint64 (mem_per_gres_ * gres_cnt)).

(** A polling field that stands for a registration with the poll
    controller. *)
Definition polls (t : pollctl_fd_type_t) : bool :=
  negb (pollctl_fd_type_eqb t PCTL_TYPE_NONE)
  && negb (pollctl_fd_type_eqb t PCTL_TYPE_UNSUPPORTED).

(** Whether the poll controller holds the descriptor, by the calls made
    so far (newest first): a link that succeeded registers it, an unlink
    drops it, a relink keeps it. *)
Fixpoint fd_linked (tr : list event) (fd : Z) : bool :=
  match tr with
  | [] => false
  | ev_pollctl_link_fd f _ rc :: rest =>
      if f =? fd then rc =? 0 else fd_linked rest fd
  | ev_pollctl_unlink_fd f :: rest =>
      if f =? fd then false else fd_linked rest fd
  | _ :: rest => fd_linked rest fd
  end.

(** The polling fields of a connection agree with the poll controller:
    each side that has a descriptor is registered exactly when its field
    says so; a connection with one descriptor for both sides uses the
    input field. *)
Definition polling_consistent (c : conmgr_fd_t) (tr : list event) : Prop :=
  (0 <= input_fd c ->
   fd_linked tr (input_fd c) = polls (polling_input_fd c)) /\
  (0 <= output_fd c -> input_fd c <> output_fd c ->
   fd_linked tr (output_fd c) = polls (polling_output_fd c)).

(** The calls [close_con] may make on a connection: traces, the poll
    controller and the wake-up of the watch loop; [unlink] of the path of
    a listening unix socket; [close] of the input descriptor of a
    listener or of a connection with two descriptors; [shutdown] of the
    reading side of a socket that is not a listener and has one descriptor
    for both sides. *)
Definition ev_is_close_con_of (c : conmgr_fd_t) (e : event) : bool :=
  match e with
  | ev_log _ _ _ | ev_pollctl_link_fd _ _ _ | ev_pollctl_relink_fd _ _
  | ev_pollctl_unlink_fd _ | ev_event_signal_watch_sleep => true
  | ev_unlink path _ =>
      is_listen c
      && match unix_socket c with
         | Some p => String.eqb p path
         | None => false
         end
  | ev_close fd _ =>
      (fd =? input_fd c)
      && (is_listen c || negb (input_fd c =? output_fd c))
  | ev_shutdown_rd fd _ =>
      (fd =? input_fd c) && negb (is_listen c)
      && (input_fd c =? output_fd c) && is_socket c
  | _ => false
  end.

(** What node [i] has of the plugin: nothing to read when the node, its
    GRES list or the state of the GRES is missing; otherwise the count
    available, if the node has the plugin at all. *)
Definition node_gres_avail (tbl : list node_record_t) (id : Z) (i : nat)
  : option (option Z) :=
  match nth_error tbl i with
  | None => None
  | Some node =>
      match gres_list node with
      | None => None
      | Some gl =>
          match list_find_first gl (fun x => gres_find_id x id) with
          | None => Some None
          | Some node_gres_ptr =>
              match node_gres_data node_gres_ptr with
              | None => None
              | Some node_state_ptr =>
                  Some (Some (gres_cnt_avail node_state_ptr))
              end
          end
      end
  end.

(** The entry of a whole node after one request: untouched when the node
    does not have the plugin. *)
Definition whole_node_entry (tbl : list node_record_t) (id : Z)
    (first_set : bool) (mem_per_gres_ : Z) (i : nat) (old : Z) : Z :=
  match node_gres_avail tbl id i with
  | Some (Some avail) => memory_entry first_set mem_per_gres_ avail old
  | _ => old
  end.

(** What [_set_fd_polling] leaves on a side whose polling field was
    [old], when asked for [want] on the descriptor [fd], in a run that
    made the calls [evs]: unsupported stays unsupported; any other side
    gets the interest asked for, unless it was not polled, an interest is
    asked for, and the run holds the registration of [fd] that the poll
    controller refused with [EPERM], which makes the side unsupported. *)
Definition side_follows (evs : list event) (fd : Z)
    (old want r : pollctl_fd_type_t) : Prop :=
  (old = PCTL_TYPE_UNSUPPORTED -> r = PCTL_TYPE_UNSUPPORTED) /\
  (old <> PCTL_TYPE_UNSUPPORTED ->
   (r = want /\ ~ In (ev_pollctl_link_fd fd want EPERM) evs) \/
   (r = PCTL_TYPE_UNSUPPORTED /\ old = PCTL_TYPE_NONE /\
    want <> PCTL_TYPE_NONE /\
    In (ev_pollctl_link_fd fd want EPERM) evs /\
    exists tr, os_pollctl_link_fd tr fd want = EPERM)).

(** The world after the [k]-th further [connect] has answered, when all
    calls before it were interrupted. *)
Definition connect_answered (fd : Z) (addr : slurm_addr_t) (w : world)
    (k : nat) : world :=
  after_syscall
    (ev_connect fd addr (fst (nth_connect_answer fd addr w k)))
    (fst (nth_connect_answer fd addr w k))
    (snd (nth_connect_answer fd addr w k))
    (Nat.iter k (connect_interrupted fd addr) w).

(** The trace of a refused duplicate. *)
Definition ev_duplicate : event :=
  ev_log LOG_VERBOSE "conmgr_create_listen_socket"
         "ignoring duplicate listen request".

(** A resolved address on which the registry listens already: the address
    [_is_listening] looks for, the first [ai_addrlen] bytes of [ai_addr],
    names the endpoint of some listener. *)
Definition listens_on (m : mgr_t) (a : addrinfo) : Prop :=
  exists x, In x (listen_conns m) /\
            same_endpoint (memcpy_slurm_addr_t (ai_addr a) (ai_addrlen a))
                          (address x).

End Vocabulary.

(* ===================================================================== *)
(** * Properties                                                          *)
(* ===================================================================== *)

Section Properties.
Context {HD : headers_t} {OS : os_t}.

(** ** The two enumerations decide equality *)

Lemma pollctl_fd_type_eqb_eq (a b : pollctl_fd_type_t) :
  pollctl_fd_type_eqb a b = true <-> a = b.
Proof. destruct a, b; simpl; split; congruence. Qed.

Lemma pollctl_fd_type_eqb_refl (a : pollctl_fd_type_t) :
  pollctl_fd_type_eqb a a = true.
Proof. destruct a; reflexivity. Qed.

Lemma pollctl_fd_type_eqb_neq (a b : pollctl_fd_type_t) :
  pollctl_fd_type_eqb a b = false <-> a <> b.
Proof. destruct a, b; simpl; split; congruence. Qed.

Lemma conmgr_con_type_eqb_eq (a b : conmgr_con_type_t) :
  conmgr_con_type_eqb a b = true <-> a = b.
Proof. destruct a, b; simpl; split; congruence. Qed.

Lemma conmgr_con_type_eqb_refl (a : conmgr_con_type_t) :
  conmgr_con_type_eqb a a = true.
Proof. destruct a; reflexivity. Qed.

(** ** Running the monad *)

Lemma bind_Ret {A B : Type} (m : M A) (k : A -> M B) (w w' : world) (a : A) :
  m w = Ret a w' -> bind m k w = k a w'.
Proof. unfold bind. intros ->. reflexivity. Qed.

Lemma bind_inv {A B : Type} (m : M A) (k : A -> M B) (w w' : world) (b : B) :
  bind m k w = Ret b w' ->
  exists a w1, m w = Ret a w1 /\ k a w1 = Ret b w'.
Proof.
  unfold bind. destruct (m w) as [a w1|w1|w1]; try discriminate.
  intros E. exists a, w1. split; [reflexivity|exact E].
Qed.

Lemma xassert_true (b : bool) (w : world) :
  NDEBUG = true \/ b = true -> xassert b w = Ret tt w.
Proof.
  unfold xassert. intros [E|E]; rewrite E; simpl; try reflexivity.
  rewrite orb_true_r. reflexivity.
Qed.

Lemma xassert_inv (b : bool) (w w' : world) (u : unit) :
  xassert b w = Ret u w' -> w' = w /\ (NDEBUG = true \/ b = true).
Proof.
  unfold xassert. destruct NDEBUG; simpl.
  - intros E. inversion E. auto.
  - destruct b; intros E; inversion E. auto.
Qed.

Lemma log_flag_run (lvl : log_level_t) (func msg : string) (w : world) :
  log_flag lvl func msg w = Ret tt (logged lvl func msg w).
Proof.
  unfold log_flag, logged, bind, get_slurm_conf, when, emit, ret.
  destruct (log_enabled lvl (slurm_conf w)); reflexivity.
Qed.

(** ** fd_change_mode *)

Lemma fd_change_mode_same (c : conmgr_fd_t) (t : conmgr_con_type_t)
    (w : world) :
  t = CON_TYPE_RAW \/ t = CON_TYPE_RPC ->
  type c = t ->
  NDEBUG = true \/
    (magic c = MAGIC_CON_MGR_FD /\ has_callback_for (events c) t = true) ->
  fd_change_mode c t w =
    Ret (SLURM_SUCCESS, c)
        (logged LOG_FLAG_CONMGR "fd_change_mode" "ignoring unchanged type" w).
Proof.
  intros Ht Hc Hok. unfold fd_change_mode.
  rewrite (bind_Ret _ _ w w tt).
  2:{ apply xassert_true. destruct Hok as [E|[E _]]; [auto|right].
      apply Z.eqb_eq. exact E. }
  assert (Hchk : _check_con_type c t w = Ret tt w).
  { unfold _check_con_type. destruct Hok as [E|[_ E]].
    - rewrite E. reflexivity.
    - destruct NDEBUG; [reflexivity|].
      destruct Ht as [-> | ->]; simpl in E; apply xassert_true; auto. }
  rewrite (bind_Ret _ _ w w tt Hchk).
  unfold get_slurm_conf at 1. unfold bind at 1.
  rewrite Hc, conmgr_con_type_eqb_refl.
  unfold logged. simpl.
  destruct (DEBUG_FLAG_CONMGR (slurm_conf w)) eqn:Ef.
  - unfold bind at 1. unfold bind at 1.
    destruct Ht as [-> | ->]; simpl; rewrite log_flag_run;
      unfold logged; simpl; rewrite Ef; reflexivity.
  - reflexivity.
Qed.

(** C10. For a connection [c] and a type [t] among RAW and RPC: if [c]
    already has type [t], [fd_change_mode c t] returns [SLURM_SUCCESS] and
    leaves [c] as it is (it only traces); and whenever a first call
    returns, it returns [SLURM_SUCCESS] with a connection of type [t] on
    which a second call with the same type returns [SLURM_SUCCESS] and
    the same connection again. *)
Theorem fd_change_mode_idempotent (c : conmgr_fd_t) (t : conmgr_con_type_t)
    (w : world) :
  t = CON_TYPE_RAW \/ t = CON_TYPE_RPC ->
  (type c = t ->
   NDEBUG = true \/
     (magic c = MAGIC_CON_MGR_FD /\ has_callback_for (events c) t = true) ->
   fd_change_mode c t w =
     Ret (SLURM_SUCCESS, c)
         (logged LOG_FLAG_CONMGR "fd_change_mode"
                 "ignoring unchanged type" w)) /\
  (forall (rc : Z) (c1 : conmgr_fd_t) (w1 : world),
     fd_change_mode c t w = Ret (rc, c1) w1 ->
     rc = SLURM_SUCCESS /\ type c1 = t /\
     (c1 = c \/ c1 = set_type c t) /\
     fd_change_mode c1 t w1 =
       Ret (SLURM_SUCCESS, c1)
           (logged LOG_FLAG_CONMGR "fd_change_mode"
                   "ignoring unchanged type" w1)).
Proof.
  intros Ht. split.
  - intros Hc Hok. apply fd_change_mode_same; assumption.
  - intros rc c1 w1 E.
    unfold fd_change_mode in E.
    apply bind_inv in E. destruct E as (u1 & wa & Ea & E).
    apply xassert_inv in Ea. destruct Ea as [-> Hmagic].
    apply bind_inv in E. destruct E as (u2 & wb & Eb & E).
    destruct u1, u2.
    assert (Hcb : wb = w /\
                  (NDEBUG = true \/ has_callback_for (events c) t = true)).
    { unfold _check_con_type in Eb. destruct NDEBUG eqn:En.
      - inversion Eb. auto.
      - destruct Ht as [-> | ->]; apply xassert_inv in Eb;
          destruct Eb as [-> [Hb|Hb]]; try congruence; auto. }
    destruct Hcb as [-> Hcb].
    assert (Hok : forall c', magic c' = magic c -> events c' = events c ->
                  NDEBUG = true \/
                  (magic c' = MAGIC_CON_MGR_FD /\
                   has_callback_for (events c') t = true)).
    { intros c' Hm He. destruct Hmagic as [En|Hm']; [auto|].
      destruct Hcb as [En|Hcb]; [auto|]. right. split.
      - rewrite Hm. apply Z.eqb_eq. exact Hm'.
      - unfold has_callback_for in *. rewrite He. exact Hcb. }
    unfold get_slurm_conf at 1 in E. unfold bind at 1 in E.
    destruct (conmgr_con_type_eqb (type c) t) eqn:Et.
    + apply conmgr_con_type_eqb_eq in Et.
      apply bind_inv in E. destruct E as (u3 & wc & Ec & E).
      unfold ret in E. inversion E; subst rc c1 w1.
      assert (Hw : wc = logged LOG_FLAG_CONMGR "fd_change_mode"
                              "ignoring unchanged type" w).
      { pose proof (fd_change_mode_same c t w Ht Et (Hok c eq_refl eq_refl))
          as F.
        unfold fd_change_mode in F.
        rewrite (bind_Ret _ _ w w tt) in F
          by (apply xassert_true; destruct Hmagic; auto).
        rewrite (bind_Ret _ _ w w tt Eb) in F.
        unfold get_slurm_conf at 1 in F. unfold bind at 1 in F.
        apply conmgr_con_type_eqb_eq in Et. rewrite Et in F.
        destruct u3.
        rewrite (bind_Ret _ _ _ _ _ Ec) in F. unfold ret in F.
        inversion F. reflexivity. }
      repeat split; auto.
      apply fd_change_mode_same; auto.
    + apply bind_inv in E. destruct E as (u3 & wc & Ec & E).
      unfold ret in E. inversion E; subst rc c1 w1.
      repeat split; auto.
      apply fd_change_mode_same; auto.
Qed.

(** ** Reasoning about runs *)

Ltac inv_bind E :=
  let a := fresh "a" in
  let w1 := fresh "w" in
  let E1 := fresh "E" in
  cbv beta zeta in E;
  apply bind_inv in E; destruct E as (a & w1 & E1 & E);
  cbv beta zeta in E.

#[local] Arguments returns {A} m w Q : simpl never.
#[local] Arguments on_return {A} m w Q : simpl never.

Lemma returns_ret {A : Type} (a : A) (w : world) (Q : A -> world -> Prop) :
  Q a w -> returns (ret a) w Q.
Proof. intros HQ. exists a, w. split; [reflexivity|exact HQ]. Qed.

Lemma returns_bind {A B : Type} (m : M A) (k : A -> M B) (w : world)
    (Q : B -> world -> Prop) :
  returns m w (fun a w1 => returns (k a) w1 Q) -> returns (bind m k) w Q.
Proof.
  intros (a & w1 & E & b & w2 & E2 & HQ). exists b, w2.
  rewrite (bind_Ret _ _ _ _ _ E). split; assumption.
Qed.

Lemma returns_weaken {A : Type} (m : M A) (w : world)
    (Q Q' : A -> world -> Prop) :
  returns m w Q -> (forall a w', Q a w' -> Q' a w') -> returns m w Q'.
Proof. intros (a & w' & E & HQ) HI. exists a, w'. split; auto. Qed.

Lemma returns_on_return {A : Type} (m : M A) (w : world)
    (Q Q' : A -> world -> Prop) :
  returns m w Q -> on_return m w Q' ->
  returns m w (fun a w' => Q a w' /\ Q' a w').
Proof.
  intros (a & w' & E & HQ) HR. exists a, w'. repeat split; auto.
Qed.

Lemma returns_emit (e : event) (w : world) (Q : unit -> world -> Prop) :
  Q tt {| mgr := mgr w; sig := sig w; slurm_conf := slurm_conf w;
          errno := errno w; trace := e :: trace w |} ->
  returns (emit e) w Q.
Proof. intros HQ. eexists; eexists. split; [reflexivity|exact HQ]. Qed.

Lemma returns_log_flag (lvl : log_level_t) (func msg : string) (w : world)
    (Q : unit -> world -> Prop) :
  Q tt (logged lvl func msg w) -> returns (log_flag lvl func msg) w Q.
Proof.
  intros HQ. eexists; eexists. split; [apply log_flag_run|exact HQ].
Qed.

Lemma returns_xassert (b : bool) (w : world) (Q : unit -> world -> Prop) :
  NDEBUG = true \/ b = true -> Q tt w -> returns (xassert b) w Q.
Proof.
  intros Hb HQ. exists tt, w. split; [apply xassert_true; exact Hb|exact HQ].
Qed.

Lemma syscall_run (answer : list event -> Z * Z) (ev : Z -> event)
    (w : world) :
  syscall answer ev w =
    Ret (fst (answer (trace w)))
        (after_syscall (ev (fst (answer (trace w))))
           (fst (answer (trace w))) (snd (answer (trace w))) w).
Proof.
  unfold syscall, after_syscall, bind, get_trace, emit, set_errno, ret.
  destruct (answer (trace w)) as [r e]. simpl.
  destruct (r <? 0); reflexivity.
Qed.

Lemma returns_syscall (answer : list event -> Z * Z) (ev : Z -> event)
    (w : world) (Q : Z -> world -> Prop) :
  (forall r e, answer (trace w) = (r, e) ->
               Q r (after_syscall (ev r) r e w)) ->
  returns (syscall answer ev) w Q.
Proof.
  intros HQ. eexists; eexists. split; [apply syscall_run|].
  apply HQ. destruct (answer (trace w)); reflexivity.
Qed.

Lemma on_return_ret {A : Type} (a : A) (w : world)
    (Q : A -> world -> Prop) :
  Q a w -> on_return (ret a) w Q.
Proof. intros HQ a' w' E. inversion E; subst. exact HQ. Qed.

Lemma on_return_bind {A B : Type} (m : M A) (k : A -> M B) (w : world)
    (Q : B -> world -> Prop) :
  on_return m w (fun a w1 => on_return (k a) w1 Q) ->
  on_return (bind m k) w Q.
Proof.
  intros Hm b w' E. apply bind_inv in E. destruct E as (a & w1 & E1 & E2).
  exact (Hm a w1 E1 b w' E2).
Qed.

Lemma on_return_fatal {A : Type} (w : world) (Q : A -> world -> Prop) :
  on_return fatal w Q.
Proof. intros a w' E. discriminate E. Qed.

Lemma on_return_emit (e : event) (w : world) (Q : unit -> world -> Prop) :
  Q tt {| mgr := mgr w; sig := sig w; slurm_conf := slurm_conf w;
          errno := errno w; trace := e :: trace w |} ->
  on_return (emit e) w Q.
Proof. intros HQ a w' E. inversion E; subst. exact HQ. Qed.

Lemma on_return_log_flag (lvl : log_level_t) (func msg : string)
    (w : world) (Q : unit -> world -> Prop) :
  Q tt (logged lvl func msg w) -> on_return (log_flag lvl func msg) w Q.
Proof.
  intros HQ a w' E. rewrite log_flag_run in E. inversion E; subst.
  exact HQ.
Qed.

Lemma on_return_xassert (b : bool) (w : world)
    (Q : unit -> world -> Prop) :
  (NDEBUG = true \/ b = true -> Q tt w) -> on_return (xassert b) w Q.
Proof.
  intros HQ a w' E. apply xassert_inv in E. destruct E as [-> Hb].
  destruct a. apply HQ. exact Hb.
Qed.

Lemma on_return_syscall (answer : list event -> Z * Z) (ev : Z -> event)
    (w : world) (Q : Z -> world -> Prop) :
  (forall r e, answer (trace w) = (r, e) ->
               Q r (after_syscall (ev r) r e w)) ->
  on_return (syscall answer ev) w Q.
Proof.
  intros HQ a w' E. rewrite syscall_run in E. inversion E; subst.
  apply HQ. destruct (answer (trace w)); reflexivity.
Qed.

Lemma on_return_any {A : Type} (m : M A) (w : world)
    (Q : A -> world -> Prop) :
  (forall a w', Q a w') -> on_return m w Q.
Proof. intros HQ a w' _. apply HQ. Qed.

Lemma on_return_weaken {A : Type} (m : M A) (w : world)
    (Q Q' : A -> world -> Prop) :
  on_return m w Q -> (forall a w', Q a w' -> Q' a w') -> on_return m w Q'.
Proof. intros Hm HI a w' E. apply HI. exact (Hm a w' E). Qed.

Lemma returns_total {A : Type} (m : M A) (w : world)
    (Q : A -> world -> Prop) :
  returns m w Q -> exists a w', m w = Ret a w'.
Proof. intros (a & w' & E & _). exists a, w'. exact E. Qed.

Lemma returns_get {A : Type} (f : world -> A) (w : world)
    (Q : A -> world -> Prop) :
  Q (f w) w -> returns (fun w0 => Ret (f w0) w0) w Q.
Proof. intros HQ. exists (f w), w. split; [reflexivity|exact HQ]. Qed.

Lemma on_return_get {A : Type} (f : world -> A) (w : world)
    (Q : A -> world -> Prop) :
  Q (f w) w -> on_return (fun w0 => Ret (f w0) w0) w Q.
Proof. intros HQ a w' E. inversion E; subst. exact HQ. Qed.

Create HintDb conmgr_calls.
#[local] Hint Unfold unlink close shutdown_SHUT_RD socket bind_ listen_
  connect setsockopt_SO_REUSEADDR write : conmgr_calls.
#[local] Hint Unfold error verbose EVENT_SIGNAL_watch_sleep fd_close
  pollctl_unlink_fd pollctl_relink_fd pollctl_interrupt fd_set_nonblocking
  net_set_keep_alive fd_set_oob send_fd_over_socket add_work
  add_work_con_fifo _log_set_polling : conmgr_calls.

(** One step of a run, for goals of either kind. *)
Ltac step :=
  cbv beta zeta;
  autounfold with conmgr_calls;
  match goal with
  | |- returns (bind _ _) _ _ => apply returns_bind
  | |- returns (ret _) _ _ => apply returns_ret
  | |- returns (emit _) _ _ => apply returns_emit
  | |- returns get_trace _ _ => apply (returns_get trace)
  | |- returns get_errno _ _ => apply (returns_get errno)
  | |- returns get_mgr _ _ => apply (returns_get mgr)
  | |- returns get_sig _ _ => apply (returns_get sig)
  | |- returns get_slurm_conf _ _ => apply (returns_get slurm_conf)
  | |- returns (log_flag _ _ _) _ _ => apply returns_log_flag
  | |- returns (syscall _ _) _ _ => apply returns_syscall; intros ? ? ?
  | |- returns (xassert _) _ _ => apply returns_xassert; [solve [auto]|]
  | |- returns (when ?b _) _ _ => destruct b eqn:?; unfold when
  | |- on_return (bind _ _) _ _ => apply on_return_bind
  | |- on_return (ret _) _ _ => apply on_return_ret
  | |- on_return (emit _) _ _ => apply on_return_emit
  | |- on_return get_trace _ _ => apply (on_return_get trace)
  | |- on_return get_errno _ _ => apply (on_return_get errno)
  | |- on_return get_mgr _ _ => apply (on_return_get mgr)
  | |- on_return get_sig _ _ => apply (on_return_get sig)
  | |- on_return get_slurm_conf _ _ => apply (on_return_get slurm_conf)
  | |- on_return (log_flag _ _ _) _ _ => apply on_return_log_flag
  | |- on_return (syscall _ _) _ _ => apply on_return_syscall; intros ? ? ?
  | |- on_return (xassert _) _ _ => apply on_return_xassert; intros ?
  | |- on_return (when ?b _) _ _ => destruct b eqn:?; unfold when
  | |- on_return fatal _ _ => apply on_return_fatal
  end.

Ltac step_case :=
  match goal with
  | |- returns (if ?b then _ else _) _ _ => destruct b eqn:?
  | |- returns (match ?o with Some _ => _ | None => _ end) _ _ =>
      destruct o eqn:?
  | |- on_return (if ?b then _ else _) _ _ => destruct b eqn:?
  | |- on_return (match ?o with Some _ => _ | None => _ end) _ _ =>
      destruct o eqn:?
  end.

Ltac steps := repeat (step || step_case).

Lemma returns_eq {A : Type} (m : M A) (w w1 : world) (a1 : A) :
  returns m w (fun a w' => a = a1 /\ w' = w1) -> m w = Ret a1 w1.
Proof. intros (a & w' & E & -> & ->). exact E. Qed.

Lemma on_return_elim {A : Type} (m : M A) (w w' : world) (a : A)
    (Q : A -> world -> Prop) :
  on_return m w Q -> m w = Ret a w' -> Q a w'.
Proof. intros Hm E. exact (Hm a w' E). Qed.

(** ** _set_fd_polling *)

(** Once a side is unsupported, [_set_fd_polling] answers unsupported for
    every request, without a call to the poll controller. *)
Lemma _set_fd_polling_UNSUPPORTED (fd : Z) (new : pollctl_fd_type_t)
    (nm caller : string) (w : world) :
  _set_fd_polling fd PCTL_TYPE_UNSUPPORTED new nm caller w =
    Ret PCTL_TYPE_UNSUPPORTED w.
Proof. reflexivity. Qed.

(** With a poll controller that accepts the registration, a side that is
    not unsupported gets the interest asked for. *)
Lemma returns__set_fd_polling (fd : Z) (old new : pollctl_fd_type_t)
    (nm caller : string) (w : world)
    (Q : pollctl_fd_type_t -> world -> Prop) :
  old <> PCTL_TYPE_UNSUPPORTED ->
  new = PCTL_TYPE_NONE \/ old <> PCTL_TYPE_NONE \/
    os_pollctl_link_fd (trace w) fd new = 0 ->
  (forall w', Q new w') ->
  returns (_set_fd_polling fd old new nm caller) w Q.
Proof.
  intros Ho Hl HQ. unfold _set_fd_polling.
  apply pollctl_fd_type_eqb_neq in Ho. rewrite Ho.
  destruct (pollctl_fd_type_eqb old new); [step; apply HQ|].
  destruct (pollctl_fd_type_eqb new PCTL_TYPE_NONE) eqn:En.
  { repeat step; apply HQ. }
  destruct (pollctl_fd_type_eqb old PCTL_TYPE_NONE) eqn:Eo; simpl.
  2:{ repeat step; apply HQ. }
  destruct Hl as [Hl|[Hl|Hl]].
  - apply pollctl_fd_type_eqb_neq in En. contradiction.
  - apply pollctl_fd_type_eqb_eq in Eo. contradiction.
  - unfold pollctl_link_fd. repeat step.
    rewrite Hl. simpl. step. apply HQ.
Qed.

(** Whatever the poll controller answers, a returning [_set_fd_polling]
    yields the interest asked for or unsupported, and keeps unsupported. *)
Lemma on_return__set_fd_polling (fd : Z) (old new : pollctl_fd_type_t)
    (nm caller : string) (w : world)
    (Q : pollctl_fd_type_t -> world -> Prop) :
  (forall r w', r = new \/ r = PCTL_TYPE_UNSUPPORTED ->
                (old = PCTL_TYPE_UNSUPPORTED -> r = PCTL_TYPE_UNSUPPORTED) ->
                Q r w') ->
  on_return (_set_fd_polling fd old new nm caller) w Q.
Proof.
  intros HQ. unfold _set_fd_polling.
  destruct (pollctl_fd_type_eqb old PCTL_TYPE_UNSUPPORTED) eqn:Eo.
  { step. apply HQ; auto. }
  apply pollctl_fd_type_eqb_neq in Eo.
  assert (Hn : forall w', Q new w') by (intros; apply HQ; tauto).
  destruct (pollctl_fd_type_eqb old new); [step; apply Hn|].
  destruct (pollctl_fd_type_eqb new PCTL_TYPE_NONE).
  { repeat step; apply Hn. }
  destruct (negb (pollctl_fd_type_eqb old PCTL_TYPE_NONE)).
  { repeat step; apply Hn. }
  unfold pollctl_link_fd. repeat step.
  destruct (os_pollctl_link_fd (trace w) fd new =? 0); [step; apply Hn|].
  destruct (os_pollctl_link_fd (trace w) fd new =? EPERM).
  - step. apply HQ; [auto|tauto].
  - step.
Qed.

(** Dropping the interest never reaches [pollctl_link_fd], so it cannot
    be fatal. *)
Lemma returns__set_fd_polling_quiet (fd : Z) (old new : pollctl_fd_type_t)
    (nm caller : string) (w : world)
    (Q : pollctl_fd_type_t -> world -> Prop) :
  new = PCTL_TYPE_NONE \/ old = PCTL_TYPE_UNSUPPORTED ->
  (forall r w', Q r w') ->
  returns (_set_fd_polling fd old new nm caller) w Q.
Proof.
  intros Hn HQ.
  destruct (pollctl_fd_type_eqb old PCTL_TYPE_UNSUPPORTED) eqn:Eo.
  - apply pollctl_fd_type_eqb_eq in Eo. subst old.
    exists PCTL_TYPE_UNSUPPORTED, w.
    split; [apply _set_fd_polling_UNSUPPORTED|apply HQ].
  - apply pollctl_fd_type_eqb_neq in Eo.
    destruct Hn as [Hn|Hn]; [|contradiction].
    apply returns__set_fd_polling; auto.
Qed.

(** ** con_set_polling *)

Lemma set_polling_eta (c : conmgr_fd_t) :
  set_polling_output_fd (set_polling_input_fd c (polling_input_fd c))
                        (polling_output_fd c) = c.
Proof. destruct c; reflexivity. Qed.

Lemma polling_update_refl (c : conmgr_fd_t) : polling_update c c.
Proof.
  unfold polling_update. rewrite set_polling_eta. auto.
Qed.

Lemma polling_update_input (c : conmgr_fd_t) (r : pollctl_fd_type_t) :
  (polling_input_fd c = PCTL_TYPE_UNSUPPORTED ->
   r = PCTL_TYPE_UNSUPPORTED) ->
  polling_update c (set_polling_input_fd c r).
Proof.
  intros Hr. unfold polling_update. destruct c; simpl in *. auto.
Qed.

Lemma polling_update_both (c : conmgr_fd_t) (r r' : pollctl_fd_type_t) :
  (polling_input_fd c = PCTL_TYPE_UNSUPPORTED ->
   r = PCTL_TYPE_UNSUPPORTED) ->
  (polling_output_fd c = PCTL_TYPE_UNSUPPORTED ->
   r' = PCTL_TYPE_UNSUPPORTED) ->
  polling_update c (set_polling_output_fd (set_polling_input_fd c r) r').
Proof.
  intros Hr Hr'. unfold polling_update. destruct c; simpl in *. auto.
Qed.

Lemma on_return_con_set_polling (c : conmgr_fd_t) (t : pollctl_fd_type_t)
    (caller : string) (w : world) (Q : conmgr_fd_t -> world -> Prop) :
  (forall c' w', polling_update c c' -> Q c' w') ->
  on_return (con_set_polling c t caller) w Q.
Proof.
  intros HQ. unfold con_set_polling, _validate_pctl_type.
  repeat step.
  apply on_return_any. intros types w1.
  step. step.
  destruct (input_fd c =? output_fd c).
  - step. step. step.
    apply on_return__set_fd_polling. intros r w' _ Hr. step.
    apply HQ. apply polling_update_input. exact Hr.
  - step.
    assert (Hin : on_return
              (if 0 <=? input_fd c
               then
                 bind (_set_fd_polling (input_fd c) (polling_input_fd c)
                         (if pollctl_fd_type_eqb (polling_input_fd c)
                               PCTL_TYPE_UNSUPPORTED
                          then PCTL_TYPE_UNSUPPORTED else fst types)
                         (name c) caller)
                      (fun r => ret (set_polling_input_fd c r))
               else ret c)
              (logged LOG_FLAG_CONMGR "con_set_polling" "polling" w1)
              (fun c1 _ =>
                 exists r, c1 = set_polling_input_fd c r /\
                   (polling_input_fd c = PCTL_TYPE_UNSUPPORTED ->
                    r = PCTL_TYPE_UNSUPPORTED))).
    { destruct (0 <=? input_fd c).
      - step. apply on_return__set_fd_polling. intros r w' _ Hr. step.
        exists r. auto.
      - step. exists (polling_input_fd c). split; [|auto].
        destruct c; reflexivity. }
    eapply on_return_weaken; [exact Hin|].
    intros c1 w2 (r & -> & Hr). cbv beta.
    destruct (0 <=? output_fd c).
    + step. apply on_return__set_fd_polling. intros r' w' _ Hr'. step.
      apply HQ. apply polling_update_both; assumption.
    + step. apply HQ. apply polling_update_input. exact Hr.
Qed.

Lemma con_set_polling_asserts_inv (c : conmgr_fd_t) (t : pollctl_fd_type_t) :
  NDEBUG = true \/ con_set_polling_asserts c t = true ->
  let ok (b : bool) := NDEBUG = true \/ b = true in
  ok (pollctl_fd_type_to_Z PCTL_TYPE_INVALID <? pollctl_fd_type_to_Z t) /\
  ok (pollctl_fd_type_to_Z t
        <? pollctl_fd_type_to_Z PCTL_TYPE_INVALID_MAX) /\
  ok (pollctl_fd_type_to_Z PCTL_TYPE_INVALID
        <? pollctl_fd_type_to_Z (polling_input_fd c)) /\
  ok (pollctl_fd_type_to_Z (polling_input_fd c)
        <? pollctl_fd_type_to_Z PCTL_TYPE_INVALID_MAX) /\
  ok (pollctl_fd_type_to_Z PCTL_TYPE_INVALID
        <? pollctl_fd_type_to_Z (polling_output_fd c)) /\
  ok (pollctl_fd_type_to_Z (polling_output_fd c)
        <? pollctl_fd_type_to_Z PCTL_TYPE_INVALID_MAX) /\
  ok ((0 <=? input_fd c) || (0 <=? output_fd c)) /\
  ok (match t with PCTL_TYPE_LISTEN => is_listen c | _ => true end) /\
  ok (if input_fd c =? output_fd c
      then pollctl_fd_type_eqb (polling_output_fd c) PCTL_TYPE_NONE
      else true).
Proof.
  intros [En|Ha]; cbv zeta; [repeat split; left; exact En|].
  unfold con_set_polling_asserts, pctl_type_valid in Ha.
  repeat rewrite andb_true_iff in Ha.
  repeat split; right; tauto.
Qed.

Lemma con_set_polling_switch_table (c : conmgr_fd_t) (is_same : bool)
    (t : pollctl_fd_type_t) (w : world)
    (Q : pollctl_fd_type_t * pollctl_fd_type_t -> world -> Prop) :
  pctl_type_requestable t = true ->
  NDEBUG = true \/
    match t with PCTL_TYPE_LISTEN => is_listen c | _ => true end = true ->
  Q (table_input is_same t, table_output is_same t) w ->
  returns (con_set_polling_switch c is_same t) w Q.
Proof.
  intros Ht Hl HQ.
  destruct t; try discriminate Ht; destruct is_same; simpl in *;
    repeat step; exact HQ.
Qed.

Lemma set_polling_input_fd_same (c : conmgr_fd_t) :
  set_polling_input_fd c (polling_input_fd c) = c.
Proof. destruct c; reflexivity. Qed.

Lemma set_polling_output_fd_same (c : conmgr_fd_t) :
  set_polling_output_fd c (polling_output_fd c) = c.
Proof. destruct c; reflexivity. Qed.

(** With a poll controller that accepts every registration, and no side
    unsupported, [con_set_polling] returns the connection of the table. *)
Lemma returns_con_set_polling (c : conmgr_fd_t) (t : pollctl_fd_type_t)
    (caller : string) (w : world) (Q : conmgr_fd_t -> world -> Prop) :
  NDEBUG = true \/ con_set_polling_asserts c t = true ->
  pctl_type_requestable t = true ->
  polling_input_fd c <> PCTL_TYPE_UNSUPPORTED ->
  polling_output_fd c <> PCTL_TYPE_UNSUPPORTED ->
  (forall tr fd k, os_pollctl_link_fd tr fd k = 0) ->
  (forall w', Q (con_set_polling_expected c t) w') ->
  returns (con_set_polling c t caller) w Q.
Proof.
  intros Hok Ht Hi Ho Hlink HQ.
  apply con_set_polling_asserts_inv in Hok. cbv zeta in Hok.
  destruct Hok as (A1 & A2 & A3 & A4 & A5 & A6 & A7 & A8 & A9).
  unfold con_set_polling, _validate_pctl_type.
  repeat step.
  apply con_set_polling_switch_table; [exact Ht|exact A8|].
  cbv beta. unfold fst, snd.
  apply pollctl_fd_type_eqb_neq in Hi, Ho. rewrite Hi, Ho.
  apply pollctl_fd_type_eqb_neq in Hi, Ho.
  unfold con_set_polling_expected in HQ.
  step. step.
  destruct (input_fd c =? output_fd c).
  - step. step. step.
    apply returns__set_fd_polling; [exact Hi|right; right; apply Hlink|].
    intros w'. step. apply HQ.
  - step.
    destruct (0 <=? input_fd c), (0 <=? output_fd c).
    + step. apply returns__set_fd_polling;
        [exact Hi|right; right; apply Hlink|].
      intros w1. step. step.
      apply returns__set_fd_polling;
        [exact Ho|right; right; apply Hlink|].
      intros w2. step. apply HQ.
    + step. apply returns__set_fd_polling;
        [exact Hi|right; right; apply Hlink|].
      intros w1. step. step.
      rewrite <- (set_polling_output_fd_same (set_polling_input_fd c _)).
      apply HQ.
    + step. step.
      apply returns__set_fd_polling;
        [exact Ho|right; right; apply Hlink|].
      intros w2. step.
      rewrite <- (set_polling_input_fd_same c) at 1. apply HQ.
    + step. step.
      rewrite <- (set_polling_output_fd_same c) at 1.
      rewrite <- (set_polling_input_fd_same c) at 2. apply HQ.
Qed.

Lemma returns_con_set_polling_NONE (c : conmgr_fd_t) (caller : string)
    (w : world) (Q : conmgr_fd_t -> world -> Prop) :
  NDEBUG = true \/ con_set_polling_asserts c PCTL_TYPE_NONE = true ->
  (forall c' w', polling_update c c' -> Q c' w') ->
  returns (con_set_polling c PCTL_TYPE_NONE caller) w Q.
Proof.
  intros Hok HQ.
  apply returns_weaken
    with (Q := fun c' w' => True /\ polling_update c c').
  2:{ intros c' w' [_ Hu]. apply HQ. exact Hu. }
  apply returns_on_return;
    [|apply on_return_con_set_polling; intros; assumption].
  apply con_set_polling_asserts_inv in Hok. cbv zeta in Hok.
  destruct Hok as (A1 & A2 & A3 & A4 & A5 & A6 & A7 & A8 & A9).
  assert (Hq : forall old : pollctl_fd_type_t,
             (if pollctl_fd_type_eqb old PCTL_TYPE_UNSUPPORTED
              then PCTL_TYPE_UNSUPPORTED else PCTL_TYPE_NONE)
               = PCTL_TYPE_NONE \/ old = PCTL_TYPE_UNSUPPORTED).
  { intros old.
    destruct (pollctl_fd_type_eqb old PCTL_TYPE_UNSUPPORTED) eqn:E;
      [right; apply pollctl_fd_type_eqb_eq; exact E|left; reflexivity]. }
  unfold con_set_polling, _validate_pctl_type.
  repeat step. unfold con_set_polling_switch. step. unfold fst, snd.
  step. step.
  destruct (input_fd c =? output_fd c).
  - step. step. step.
    apply returns__set_fd_polling_quiet; [apply Hq|].
    intros r w'. step. exact I.
  - step.
    destruct (0 <=? input_fd c), (0 <=? output_fd c); step.
    + apply returns__set_fd_polling_quiet; [apply Hq|].
      intros r w1. step. step.
      apply returns__set_fd_polling_quiet;
        [destruct (Hq (polling_output_fd c)); auto|].
      intros r' w2. step. exact I.
    + apply returns__set_fd_polling_quiet; [apply Hq|].
      intros r w1. step. step. exact I.
    + step. apply returns__set_fd_polling_quiet; [apply Hq|].
      intros r w1. step. exact I.
    + step. exact I.
Qed.

(** ** close_con *)

Lemma close_con_duplicate (locked : bool) (c : conmgr_fd_t) (w : world) :
  input_fd c < 0 ->
  NDEBUG = true \/ (read_eof c = true /\ can_read c = false) ->
  close_con locked c w =
    Ret c (logged LOG_FLAG_CONMGR "close_con"
                  "ignoring duplicate close request" w).
Proof.
  intros Hfd Hok. apply returns_eq. unfold close_con.
  apply Z.ltb_lt in Hfd. rewrite Hfd.
  assert (H1 : NDEBUG = true \/ read_eof c = true) by tauto.
  assert (H2 : NDEBUG = true \/ negb (can_read c) = true).
  { destruct Hok as [E|[_ E]]; [auto|right; rewrite E; reflexivity]. }
  repeat step. auto.
Qed.

(** A returning [close_con] leaves the connection without input
    descriptor, at end of input and not readable. *)
Lemma on_return_close_con (locked : bool) (c : conmgr_fd_t) (w : world) :
  input_fd c = -1 \/ 0 <= input_fd c ->
  on_return (close_con locked c) w
    (fun c' _ =>
       input_fd c' = -1 /\
       (NDEBUG = true \/ (read_eof c' = true /\ can_read c' = false))).
Proof.
  intros Hfd. unfold close_con.
  destruct (input_fd c <? 0) eqn:El.
  - apply Z.ltb_lt in El.
    steps. split; [lia|].
    repeat match goal with
           | H : NDEBUG = true \/ _ |- _ => destruct H as [H|H]; [auto|]
           end.
    right. split; [assumption|].
    destruct (can_read c); [discriminate|reflexivity].
  - step. step. step.
    apply on_return_any. intros u w1. step.
    apply on_return_con_set_polling. intros c1 w2 Hu.
    step.
    apply on_return_any. intros u' w3. steps.
    destruct (in_buf (set_can_read (set_read_eof c1 true) false));
      simpl; auto.
Qed.

Lemma returns_close_con (locked : bool) (c : conmgr_fd_t) (w : world) :
  NDEBUG = true \/ close_con_asserts c = true ->
  returns (close_con locked c) w (fun _ _ => True).
Proof.
  intros Hok. unfold close_con.
  assert (Hdup : (input_fd c <? 0) = true ->
                 (NDEBUG = true \/ read_eof c = true) /\
                 (NDEBUG = true \/ negb (can_read c) = true)).
  { intros El. destruct Hok as [En|Ha]; [auto|].
    unfold close_con_asserts in Ha. rewrite El in Ha.
    apply andb_true_iff in Ha. tauto. }
  assert (Hopen : (input_fd c <? 0) = false ->
                  (NDEBUG = true \/
                   con_set_polling_asserts c PCTL_TYPE_NONE = true) /\
                  (is_listen c = true ->
                   NDEBUG = true \/ (output_fd c <=? 0) = true)).
  { intros El. destruct Hok as [En|Ha]; [auto|].
    unfold close_con_asserts in Ha. rewrite El in Ha.
    apply andb_true_iff in Ha. destruct Ha as [Ha Hb].
    split; [auto|]. intros Hl. rewrite Hl in Hb. auto. }
  destruct (input_fd c <? 0) eqn:El.
  - destruct (Hdup eq_refl) as [H1 H2]. steps. exact I.
  - destruct (Hopen eq_refl) as [H1 H2].
    step. step. step.
    apply returns_weaken with (Q := fun _ w1 =>
      returns (con_set_polling c PCTL_TYPE_NONE "close_con") w1
        (fun c1 w2 => polling_update c c1)).
    { steps; (apply returns_con_set_polling_NONE; [exact H1|auto]). }
    intros u w1 Hc. step.
    eapply returns_weaken; [exact Hc|].
    intros c1 w2 (Ec & _). cbv beta.
    assert (Hl : is_listen c1 = is_listen c) by (rewrite Ec; reflexivity).
    assert (Ho : output_fd c1 = output_fd c) by (rewrite Ec; reflexivity).
    step.
    apply returns_weaken with (Q := fun _ _ => True);
      [|intros; steps; exact I].
    destruct (in_buf (set_can_read (set_read_eof c1 true) false));
      simpl; rewrite Hl;
      destruct (is_listen c) eqn:Elisten;
      try (rewrite Ho; specialize (H2 eq_refl)); steps; exact I.
Qed.

(** C3. Let the input descriptor of [c] be -1 or a descriptor.  Then
    [close_con] returns whenever the assertions of a debug build hold (and
    always in a release build); when it returns, [input_fd] is -1 and a
    further [close_con] changes neither the connection nor the world,
    except for one trace message; and on any connection whose [input_fd]
    is already -1, [close_con] is that same no-op. *)
Theorem close_con_idempotent (locked locked' : bool) (c : conmgr_fd_t)
    (w : world) :
  input_fd c = -1 \/ 0 <= input_fd c ->
  (NDEBUG = true \/ close_con_asserts c = true ->
   exists c' w', close_con locked c w = Ret c' w') /\
  (forall c' w', close_con locked c w = Ret c' w' ->
     input_fd c' = -1 /\
     close_con locked' c' w' =
       Ret c' (logged LOG_FLAG_CONMGR "close_con"
                      "ignoring duplicate close request" w')) /\
  (input_fd c = -1 ->
   NDEBUG = true \/ (read_eof c = true /\ can_read c = false) ->
   close_con locked c w =
     Ret c (logged LOG_FLAG_CONMGR "close_con"
                   "ignoring duplicate close request" w)).
Proof.
  intros Hfd. split; [|split].
  - intros Hok. eapply returns_total. apply returns_close_con. exact Hok.
  - intros c' w' E.
    destruct (on_return_close_con locked c w Hfd c' w' E) as [H1 H2].
    split; [exact H1|].
    apply close_con_duplicate; [lia|exact H2].
  - intros E Hok. apply close_con_duplicate; [lia|exact Hok].
Qed.

(** ** The polling table *)

Lemma EPERM_nonzero : EPERM <> 0.
Proof.
  pose proof errnos_positive as Hp. unfold errnos in Hp.
  apply Forall_inv in Hp. lia.
Qed.

Lemma on_return__set_fd_polling_follows (fd : Z)
    (old new : pollctl_fd_type_t) (nm caller : string) (w : world)
    (Q : pollctl_fd_type_t -> world -> Prop) :
  (forall r w' evs,
     trace w' = evs ++ trace w ->
     side_follows evs fd old new r ->
     (forall fd' k rc, In (ev_pollctl_link_fd fd' k rc) evs -> fd' = fd) ->
     Q r w') ->
  on_return (_set_fd_polling fd old new nm caller) w Q.
Proof.
  intros HQ. unfold _set_fd_polling.
  destruct (pollctl_fd_type_eqb old PCTL_TYPE_UNSUPPORTED) eqn:Eo.
  { step. apply (HQ _ _ []); [reflexivity| |intros fd' k rc []].
    split; [reflexivity|].
    apply pollctl_fd_type_eqb_eq in Eo. intros Hne. contradiction. }
  apply pollctl_fd_type_eqb_neq in Eo.
  assert (Hn : forall w' evs,
             trace w' = evs ++ trace w ->
             ~ In (ev_pollctl_link_fd fd new EPERM) evs ->
             (forall fd' k rc,
                In (ev_pollctl_link_fd fd' k rc) evs -> fd' = fd) ->
             Q new w').
  { intros w' evs Et Hnot Hfd. apply (HQ _ _ evs Et); [|exact Hfd].
    split; [intros Hu; contradiction|].
    intros _. left. split; [reflexivity|exact Hnot]. }
  destruct (pollctl_fd_type_eqb old new).
  { step. apply (Hn _ []); [reflexivity|intros []|intros fd' k rc []]. }
  destruct (pollctl_fd_type_eqb new PCTL_TYPE_NONE) eqn:En.
  { destruct (negb (pollctl_fd_type_eqb old PCTL_TYPE_NONE)); unfold when.
    - repeat step.
      apply (Hn _ [ev_pollctl_unlink_fd fd]); [reflexivity| |];
        [intros [H|[]]|intros fd' k rc [H|[]]]; discriminate H.
    - repeat step.
      apply (Hn _ []); [reflexivity|intros []|intros fd' k rc []]. }
  destruct (pollctl_fd_type_eqb old PCTL_TYPE_NONE) eqn:Eold; simpl negb;
    cbv iota.
  2:{ repeat step.
      apply (Hn _ [ev_pollctl_relink_fd fd new]); [reflexivity| |];
        [intros [H|[]]|intros fd' k rc [H|[]]]; discriminate H. }
  unfold pollctl_link_fd. repeat step.
  set (rc0 := os_pollctl_link_fd (trace w) fd new).
  assert (Hfd : forall fd' k rc,
             In (ev_pollctl_link_fd fd' k rc)
                [ev_pollctl_link_fd fd new rc0] -> fd' = fd).
  { intros fd' k rc [H|[]]. inversion H. reflexivity. }
  destruct (rc0 =? 0) eqn:E0.
  - step. apply (Hn _ [ev_pollctl_link_fd fd new rc0]);
      [reflexivity| |exact Hfd].
    intros [H|[]]. inversion H as [Hrc]. apply Z.eqb_eq in E0.
    pose proof EPERM_nonzero. congruence.
  - destruct (rc0 =? EPERM) eqn:Ep; [|step].
    apply Z.eqb_eq in Ep.
    step. apply (HQ _ _ [ev_pollctl_link_fd fd new rc0]);
      [reflexivity| |exact Hfd].
    split; [intros Hu; contradiction|].
    intros _. right. split; [reflexivity|].
    split; [apply pollctl_fd_type_eqb_eq; exact Eold|].
    split; [apply pollctl_fd_type_eqb_neq; exact En|].
    split; [left; rewrite Ep; reflexivity|].
    exists (trace w). exact Ep.
Qed.

(** The interest asked for on a side is replaced by unsupported when the
    side is unsupported, which changes nothing to what the side gets. *)
Lemma side_follows_in_type (evs : list event) (fd : Z)
    (old want r : pollctl_fd_type_t) :
  side_follows evs fd old
    (if pollctl_fd_type_eqb old PCTL_TYPE_UNSUPPORTED
     then PCTL_TYPE_UNSUPPORTED else want) r ->
  side_follows evs fd old want r.
Proof.
  unfold side_follows. intros [Hu Hs]. split; [exact Hu|].
  intros Hne. specialize (Hs Hne).
  apply pollctl_fd_type_eqb_neq in Hne. rewrite Hne in Hs. exact Hs.
Qed.

(** Calls that are no registration of the descriptor change nothing to
    what the side got. *)
Lemma side_follows_among (pre evs post : list event) (fd : Z)
    (old want r : pollctl_fd_type_t) :
  (forall k rc, ~ In (ev_pollctl_link_fd fd k rc) pre) ->
  (forall k rc, ~ In (ev_pollctl_link_fd fd k rc) post) ->
  side_follows evs fd old want r ->
  side_follows (pre ++ evs ++ post) fd old want r.
Proof.
  intros Hpre Hpost [Hu Hs]. split; [exact Hu|].
  intros Hne. specialize (Hs Hne).
  specialize (Hpre want EPERM). specialize (Hpost want EPERM).
  rewrite !in_app_iff. tauto.
Qed.

Lemma trace_logged (lvl : log_level_t) (func msg : string) (w : world) :
  exists evs,
    trace (logged lvl func msg w) = evs ++ trace w /\
    forall fd k rc, ~ In (ev_pollctl_link_fd fd k rc) evs.
Proof.
  unfold logged. destruct (log_enabled lvl (slurm_conf w)).
  - exists [ev_log lvl func msg]. split; [reflexivity|].
    intros fd k rc [H|[]]. discriminate H.
  - exists []. split; [reflexivity|]. intros fd k rc [].
Qed.

(** With a poll controller that accepts a registration or refuses it with
    [EPERM], [_set_fd_polling] returns. *)
Lemma returns__set_fd_polling_or_refused (fd : Z)
    (old new : pollctl_fd_type_t) (nm caller : string) (w : world)
    (Q : pollctl_fd_type_t -> world -> Prop) :
  (forall tr fd k, os_pollctl_link_fd tr fd k = 0 \/
                   os_pollctl_link_fd tr fd k = EPERM) ->
  (forall r w', Q r w') ->
  returns (_set_fd_polling fd old new nm caller) w Q.
Proof.
  intros Hl HQ. unfold _set_fd_polling.
  destruct (pollctl_fd_type_eqb old PCTL_TYPE_UNSUPPORTED);
    [step; apply HQ|].
  destruct (pollctl_fd_type_eqb old new); [step; apply HQ|].
  destruct (pollctl_fd_type_eqb new PCTL_TYPE_NONE).
  { repeat step; apply HQ. }
  destruct (negb (pollctl_fd_type_eqb old PCTL_TYPE_NONE)).
  { repeat step; apply HQ. }
  unfold pollctl_link_fd. repeat step.
  destruct (Hl (trace w) fd new) as [E|E]; rewrite E.
  - simpl. step. apply HQ.
  - destruct (EPERM =? 0); [step; apply HQ|].
    rewrite Z.eqb_refl. step. apply HQ.
Qed.

Lemma on_return_con_set_polling_switch (c : conmgr_fd_t) (is_same : bool)
    (t : pollctl_fd_type_t) (w : world)
    (Q : pollctl_fd_type_t * pollctl_fd_type_t -> world -> Prop) :
  Q (table_input is_same t, table_output is_same t) w ->
  on_return (con_set_polling_switch c is_same t) w Q.
Proof.
  intros HQ. destruct t, is_same; simpl; repeat step; apply HQ.
Qed.

(** Whatever the poll controller answers, a returning [con_set_polling]
    has followed the table on every side it updates. *)
Lemma on_return_con_set_polling_follows (c : conmgr_fd_t)
    (t : pollctl_fd_type_t) (caller : string) (w : world) :
  on_return (con_set_polling c t caller) w
    (fun c' w' =>
       exists evs,
         trace w' = evs ++ trace w /\
         c' = set_polling_output_fd
                (set_polling_input_fd c (polling_input_fd c'))
                (polling_output_fd c') /\
         if input_fd c =? output_fd c then
           side_follows evs (input_fd c) (polling_input_fd c)
             (table_input true t) (polling_input_fd c') /\
           polling_output_fd c' = polling_output_fd c
         else
           (if 0 <=? input_fd c
            then side_follows evs (input_fd c) (polling_input_fd c)
                   (table_input false t) (polling_input_fd c')
            else polling_input_fd c' = polling_input_fd c) /\
           (if 0 <=? output_fd c
            then side_follows evs (output_fd c) (polling_output_fd c)
                   (table_output false t) (polling_output_fd c')
            else polling_output_fd c' = polling_output_fd c)).
Proof.
  unfold con_set_polling, _validate_pctl_type.
  repeat step.
  apply on_return_con_set_polling_switch.
  cbv beta. unfold fst, snd. step. step.
  destruct (trace_logged LOG_FLAG_CONMGR "con_set_polling" "polling" w)
    as (evl & El & Hl).
  set (wl := logged LOG_FLAG_CONMGR "con_set_polling" "polling" w) in *.
  clearbody wl.
  destruct (input_fd c =? output_fd c) eqn:Es.
  - step. step. step.
    apply on_return__set_fd_polling_follows. intros r w' evs Et Hr Hfd. step.
    apply side_follows_in_type in Hr.
    exists (evs ++ evl).
    split; [rewrite Et, El; apply app_assoc|].
    split; [destruct c; reflexivity|].
    split; [|destruct c; reflexivity].
    apply (side_follows_among [] evs evl);
      [intros k rc []|intros k rc; apply Hl|].
    destruct c; exact Hr.
  - apply Z.eqb_neq in Es. step.
    destruct (0 <=? input_fd c), (0 <=? output_fd c).
    + step. apply on_return__set_fd_polling_follows.
      intros r w2 evs Et Hr Hfd. step. step.
      apply on_return__set_fd_polling_follows.
      intros r' w3 evs' Et' Hr' Hfd'. step.
      apply side_follows_in_type in Hr, Hr'.
      exists (evs' ++ evs ++ evl).
      split; [rewrite Et', Et, El, <- !app_assoc; reflexivity|].
      split; [destruct c; reflexivity|].
      split.
      * apply (side_follows_among evs' evs evl);
          [|intros k rc; apply Hl|destruct c; exact Hr].
        intros k rc Hin. apply Hfd' in Hin.
        destruct c; simpl in *. congruence.
      * apply (side_follows_among [] evs' (evs ++ evl));
          [intros k rc []| |destruct c; exact Hr'].
        intros k rc Hin. apply in_app_iff in Hin.
        destruct Hin as [Hin|Hin]; [|exact (Hl _ _ _ Hin)].
        apply Hfd in Hin. destruct c; simpl in *. congruence.
    + step. apply on_return__set_fd_polling_follows.
      intros r w2 evs Et Hr Hfd. step. step.
      apply side_follows_in_type in Hr.
      exists (evs ++ evl).
      split; [rewrite Et, El; apply app_assoc|].
      split; [destruct c; reflexivity|].
      split; [|destruct c; reflexivity].
      apply (side_follows_among [] evs evl);
        [intros k rc []|intros k rc; apply Hl|destruct c; exact Hr].
    + step. step.
      apply on_return__set_fd_polling_follows.
      intros r' w3 evs' Et' Hr' Hfd'. step.
      apply side_follows_in_type in Hr'.
      exists (evs' ++ evl).
      split; [rewrite Et', El; apply app_assoc|].
      split; [destruct c; reflexivity|].
      split; [destruct c; reflexivity|].
      apply (side_follows_among [] evs' evl);
        [intros k rc []|intros k rc; apply Hl|destruct c; exact Hr'].
    + step. step. exists evl.
      split; [exact El|]. destruct c; simpl. auto.
Qed.

(** With a poll controller that accepts a registration or refuses it with
    [EPERM], [con_set_polling] returns when its assertions hold. *)
Lemma returns_con_set_polling_or_refused (c : conmgr_fd_t)
    (t : pollctl_fd_type_t) (caller : string) (w : world) :
  pctl_type_requestable t = true ->
  NDEBUG = true \/ con_set_polling_asserts c t = true ->
  (forall tr fd k, os_pollctl_link_fd tr fd k = 0 \/
                   os_pollctl_link_fd tr fd k = EPERM) ->
  returns (con_set_polling c t caller) w (fun _ _ => True).
Proof.
  intros Ht Hok Hlink.
  apply con_set_polling_asserts_inv in Hok. cbv zeta in Hok.
  destruct Hok as (A1 & A2 & A3 & A4 & A5 & A6 & A7 & A8 & A9).
  unfold con_set_polling, _validate_pctl_type.
  repeat step.
  apply con_set_polling_switch_table; [exact Ht|exact A8|].
  cbv beta. step. step.
  destruct (input_fd c =? output_fd c).
  - step. step. step.
    apply returns__set_fd_polling_or_refused; [exact Hlink|].
    intros r w'. step. exact I.
  - step.
    destruct (0 <=? input_fd c), (0 <=? output_fd c).
    + step. apply returns__set_fd_polling_or_refused; [exact Hlink|].
      intros r w1. step. step.
      apply returns__set_fd_polling_or_refused; [exact Hlink|].
      intros r' w2. step. exact I.
    + step. apply returns__set_fd_polling_or_refused; [exact Hlink|].
      intros r w1. step. step. exact I.
    + step. step.
      apply returns__set_fd_polling_or_refused; [exact Hlink|].
      intros r' w2. step. exact I.
    + step. step. exact I.
Qed.

(** C4 (amended). Whatever the poll controller answers, a
    [con_set_polling] that returns has changed only the two polling
    fields of the connection, and each side it updates follows the
    table: a side that was unsupported stays unsupported; any other side
    gets the kind of the table, unless it was not polled, the table asks
    for an interest and the poll controller refused the registration of
    its descriptor with EPERM in this call, which makes the side
    unsupported.  With one shared descriptor the input side is updated,
    its kind in the table being the kind asked for, and the output field
    is left alone.  With two descriptors a side is updated only if its
    descriptor is present: READ_WRITE gives input READ_ONLY and output
    WRITE_ONLY, WRITE_ONLY gives output WRITE_ONLY and input NONE,
    READ_ONLY gives input READ_ONLY and output NONE, CONNECTED gives both
    CONNECTED, NONE clears both; a side without descriptor keeps its
    polling field.  For every kind a caller may ask for the call returns,
    in a release build or when its assertions hold, provided the poll
    controller answers every registration with success or with EPERM. *)
Theorem con_set_polling_table (c : conmgr_fd_t) (t : pollctl_fd_type_t)
    (caller : string) (w : world) :
  (forall c' w',
     con_set_polling c t caller w = Ret c' w' ->
     exists evs,
       trace w' = evs ++ trace w /\
       c' = set_polling_output_fd
              (set_polling_input_fd c (polling_input_fd c'))
              (polling_output_fd c') /\
       (input_fd c = output_fd c ->
        side_follows evs (input_fd c) (polling_input_fd c) t
          (polling_input_fd c') /\
        polling_output_fd c' = polling_output_fd c) /\
       (input_fd c <> output_fd c ->
        (0 <= input_fd c ->
         side_follows evs (input_fd c) (polling_input_fd c)
           match t with
           | PCTL_TYPE_READ_WRITE => PCTL_TYPE_READ_ONLY
           | PCTL_TYPE_WRITE_ONLY => PCTL_TYPE_NONE
           | _ => t
           end
           (polling_input_fd c')) /\
        (input_fd c < 0 -> polling_input_fd c' = polling_input_fd c) /\
        (0 <= output_fd c ->
         side_follows evs (output_fd c) (polling_output_fd c)
           match t with
           | PCTL_TYPE_READ_WRITE | PCTL_TYPE_WRITE_ONLY =>
               PCTL_TYPE_WRITE_ONLY
           | PCTL_TYPE_CONNECTED => PCTL_TYPE_CONNECTED
           | _ => PCTL_TYPE_NONE
           end
           (polling_output_fd c')) /\
        (output_fd c < 0 ->
         polling_output_fd c' = polling_output_fd c))) /\
  (pctl_type_requestable t = true ->
   NDEBUG = true \/ con_set_polling_asserts c t = true ->
   (forall tr fd k, os_pollctl_link_fd tr fd k = 0 \/
                    os_pollctl_link_fd tr fd k = EPERM) ->
   exists c' w', con_set_polling c t caller w = Ret c' w').
Proof.
  split.
  - intros c' w' E.
    destruct (on_return_elim _ _ _ _ _
                (on_return_con_set_polling_follows c t caller w) E)
      as (evs & Et & Hshape & Hsides).
    exists evs. split; [exact Et|]. split; [exact Hshape|].
    destruct (input_fd c =? output_fd c) eqn:Es.
    + apply Z.eqb_eq in Es. split; [intros _; exact Hsides|].
      intros Hne. contradiction.
    + apply Z.eqb_neq in Es. split; [intros He; contradiction|].
      intros _. destruct Hsides as [Hin Hout].
      split; [|split; [|split]].
      * intros Hge. apply Z.leb_le in Hge. rewrite Hge in Hin. exact Hin.
      * intros Hlt. apply Z.leb_gt in Hlt. rewrite Hlt in Hin. exact Hin.
      * intros Hge. apply Z.leb_le in Hge. rewrite Hge in Hout. exact Hout.
      * intros Hlt. apply Z.leb_gt in Hlt. rewrite Hlt in Hout. exact Hout.
  - intros Ht Hok Hlink.
    apply (returns_total _ _ (fun _ _ => True)).
    apply returns_con_set_polling_or_refused; assumption.
Qed.

(** C5. Whatever kinds are asked for, one after the other, and whatever
    the poll controller answers: if the calls return, a side that was
    unsupported before them is unsupported after them; and
    [_set_fd_polling] on an unsupported side returns unsupported for every
    requested kind. *)
Theorem unsupported_is_sticky (ts : list pollctl_fd_type_t)
    (c c' : conmgr_fd_t) (caller : string) (w w' : world) :
  con_set_polling_each ts c caller w = Ret c' w' ->
  (polling_input_fd c = PCTL_TYPE_UNSUPPORTED ->
   polling_input_fd c' = PCTL_TYPE_UNSUPPORTED) /\
  (polling_output_fd c = PCTL_TYPE_UNSUPPORTED ->
   polling_output_fd c' = PCTL_TYPE_UNSUPPORTED) /\
  (forall fd new nm w0,
     _set_fd_polling fd PCTL_TYPE_UNSUPPORTED new nm caller w0 =
       Ret PCTL_TYPE_UNSUPPORTED w0).
Proof.
  intros E.
  assert (G : (polling_input_fd c = PCTL_TYPE_UNSUPPORTED ->
               polling_input_fd c' = PCTL_TYPE_UNSUPPORTED) /\
              (polling_output_fd c = PCTL_TYPE_UNSUPPORTED ->
               polling_output_fd c' = PCTL_TYPE_UNSUPPORTED)).
  { revert c w E. induction ts as [|t rest IH]; intros c w E.
    - simpl in E. inversion E; subst. auto.
    - simpl in E. apply bind_inv in E.
      destruct E as (c1 & w1 & E1 & E2).
      assert (Hu : polling_update c c1).
      { apply (on_return_elim _ _ _ _ _
                 (on_return_con_set_polling c t caller w
                    (fun c' _ => polling_update c c')
                    (fun c' _ Hc => Hc)) E1). }
      destruct Hu as (_ & Hi & Ho).
      destruct (IH c1 w1 E2) as [Hi' Ho']. split; auto. }
  destruct G as [Gi Go]. repeat split; auto.
Qed.

(** ** Frames *)

Lemma frame_refl (P : event -> bool) (w : world) : frame P w w.
Proof.
  unfold frame. repeat split. exists []. split; reflexivity.
Qed.

Lemma frame_trans (P : event -> bool) (w1 w2 w3 : world) :
  frame P w1 w2 -> frame P w2 w3 -> frame P w1 w3.
Proof.
  intros (M1 & S1 & C1 & e1 & T1 & F1) (M2 & S2 & C2 & e2 & T2 & F2).
  unfold frame. repeat split; try congruence.
  exists (e2 ++ e1). split.
  - rewrite T2, T1. apply app_assoc.
  - rewrite forallb_app, F1, F2. reflexivity.
Qed.

Lemma frame_weaken (P P' : event -> bool) (w w' : world) :
  (forall e, P e = true -> P' e = true) -> frame P w w' -> frame P' w w'.
Proof.
  intros HP (M1 & S1 & C1 & evs & T1 & F1).
  unfold frame. repeat split; try assumption.
  exists evs. split; [exact T1|].
  rewrite forallb_forall in *. auto.
Qed.

Lemma frame_emit (P : event -> bool) (e : event) (w w1 : world) :
  P e = true -> frame P w w1 ->
  frame P w {| mgr := mgr w1; sig := sig w1; slurm_conf := slurm_conf w1;
               errno := errno w1; trace := e :: trace w1 |}.
Proof.
  intros He (M1 & S1 & C1 & evs & T1 & F1).
  unfold frame; simpl. repeat split; try assumption.
  exists (e :: evs). split; [rewrite T1; reflexivity|].
  simpl. rewrite He, F1. reflexivity.
Qed.

Lemma frame_logged (P : event -> bool) (lvl : log_level_t)
    (func msg : string) (w w1 : world) :
  P (ev_log lvl func msg) = true -> frame P w w1 ->
  frame P w (logged lvl func msg w1).
Proof.
  intros He Hf. unfold logged.
  destruct (log_enabled lvl (slurm_conf w1)); [|exact Hf].
  apply frame_emit; assumption.
Qed.

Lemma frame_after_syscall (P : event -> bool) (e : event) (r err : Z)
    (w w1 : world) :
  P e = true -> frame P w w1 -> frame P w (after_syscall e r err w1).
Proof.
  intros He (M1 & S1 & C1 & evs & T1 & F1).
  unfold frame, after_syscall; simpl. repeat split; try assumption.
  exists (e :: evs). split; [rewrite T1; reflexivity|].
  simpl. rewrite He, F1. reflexivity.
Qed.

Lemma frame_queued_work (w w' : world) :
  frame (fun e => negb (ev_is_add_work e)) w w' ->
  queued_work (trace w') = queued_work (trace w).
Proof.
  intros (_ & _ & _ & evs & T & F). rewrite T. clear T.
  induction evs as [|e evs IH]; [reflexivity|].
  simpl in F. apply andb_true_iff in F. destruct F as [He F].
  destruct e; simpl in *; try discriminate; auto.
Qed.

(** Closes a frame goal whose final world is built from the initial one
    by the steps of a run, possibly through the frame of a callee. *)
Ltac frame_solve :=
  cbv beta in *;
  repeat first
    [ apply frame_refl
    | apply frame_logged; [reflexivity|]
    | apply frame_emit; [reflexivity|]
    | apply frame_after_syscall; [reflexivity|]
    | match goal with
      | H : frame ?P' ?w1 ?w2 |- frame ?P _ ?w2 =>
          apply (frame_trans P _ w1 w2);
          [|apply (frame_weaken P' P);
            [intros [] ?; simpl in *; (reflexivity || discriminate)
            |exact H]]
      end ].

Lemma frame__set_fd_polling (fd : Z) (old new : pollctl_fd_type_t)
    (nm caller : string) (w : world) :
  on_return (_set_fd_polling fd old new nm caller) w
    (fun _ w' => frame ev_is_pollctl w w').
Proof.
  unfold _set_fd_polling, pollctl_link_fd. steps; frame_solve.
Qed.

Lemma frame_con_set_polling (c : conmgr_fd_t) (t : pollctl_fd_type_t)
    (caller : string) (w : world) :
  on_return (con_set_polling c t caller) w
    (fun _ w' => frame (fun e => ev_is_log e || ev_is_pollctl e) w w').
Proof.
  unfold con_set_polling, _validate_pctl_type.
  repeat step.
  apply on_return_weaken with (Q := fun _ w' => w' = w).
  { unfold con_set_polling_switch. destruct t; steps; reflexivity. }
  intros types w1 ->.
  step. step.
  destruct (input_fd c =? output_fd c).
  - step. step. step.
    eapply on_return_weaken; [apply frame__set_fd_polling|].
    intros r w1 Hf. step. frame_solve.
  - step.
    apply on_return_weaken
      with (Q := fun _ w' =>
                   frame (fun e => ev_is_log e || ev_is_pollctl e) w w').
    { destruct (0 <=? input_fd c).
      - step. eapply on_return_weaken; [apply frame__set_fd_polling|].
        intros r w1 Hf. step. frame_solve.
      - step. frame_solve. }
    intros c1 w1 Hf1.
    destruct (0 <=? output_fd c).
    + step. eapply on_return_weaken; [apply frame__set_fd_polling|].
      intros r w2 Hf2. step. frame_solve.
    + step. exact Hf1.
Qed.

Lemma frame_close_con (locked : bool) (c : conmgr_fd_t) (w : world) :
  on_return (close_con locked c) w
    (fun _ w' => frame ev_is_close_con w w').
Proof.
  unfold close_con.
  destruct (input_fd c <? 0).
  { steps; frame_solve. }
  step. step. step.
  apply on_return_weaken
    with (Q := fun _ w' => frame ev_is_close_con w w').
  { steps; frame_solve. }
  intros u w1 Hf1. step.
  eapply on_return_weaken; [apply frame_con_set_polling|].
  intros c1 w2 Hf2. steps; frame_solve.
Qed.

(** ** Requests to close *)

(** C1 (what the code does). [conmgr_queue_close_fd] closes at once when
    [work_active] is set: it is [close_con], the input descriptor is gone
    when it returns, and nothing is handed to the work queue.  When
    [work_active] is clear it leaves the connection as it is and queues
    [_deferred_close_fd].  The queued [_deferred_close_fd] in turn ends in
    [close_con] whether [work_active] is set or not. *)
Theorem conmgr_queue_close_fd_polarity (c : conmgr_fd_t) (w : world) :
  NDEBUG = true \/ magic c = MAGIC_CON_MGR_FD ->
  (work_active c = true ->
   conmgr_queue_close_fd c w = close_con true c w /\
   forall c' w',
     conmgr_queue_close_fd c w = Ret c' w' ->
     (0 <= input_fd c -> input_fd c' = -1) /\
     queued_work (trace w') = queued_work (trace w)) /\
  (work_active c = false ->
   conmgr_queue_close_fd c w =
     Ret c (after_event (ev_add_work (name c) work__deferred_close_fd) w)) /\
  _deferred_close_fd c w = close_con true c w.
Proof.
  intros Hm.
  assert (Hx : xassert (magic c =? MAGIC_CON_MGR_FD) w = Ret tt w).
  { apply xassert_true. destruct Hm as [E|E]; [auto|right].
    apply Z.eqb_eq. exact E. }
  assert (Hq : work_active c = true ->
               conmgr_queue_close_fd c w = close_con true c w).
  { intros Ha. unfold conmgr_queue_close_fd.
    rewrite (bind_Ret _ _ _ _ _ Hx), Ha. reflexivity. }
  split; [|split].
  - intros Ha. split; [exact (Hq Ha)|].
    intros c' w' E. rewrite (Hq Ha) in E. split.
    + intros Hfd.
      apply (on_return_close_con true c w (or_intror Hfd) c' w' E).
    + apply frame_queued_work.
      apply (frame_weaken ev_is_close_con).
      * intros [] He; simpl in *; (reflexivity || discriminate).
      * apply (frame_close_con true c w c' w' E).
  - intros Ha. unfold conmgr_queue_close_fd.
    rewrite (bind_Ret _ _ _ _ _ Hx), Ha. reflexivity.
  - unfold _deferred_close_fd.
    destruct (work_active c) eqn:Ha; [exact (Hq eq_refl)|reflexivity].
Qed.

(** ** The numbers of the headers *)

Lemma errnos_pos :
  0 < EPERM /\ 0 < ENOENT /\ 0 < EINTR /\ 0 < EBADF /\ 0 < EAGAIN /\
  0 < EINVAL /\ 0 < EPIPE /\ 0 < EAFNOSUPPORT /\ 0 < EINPROGRESS /\
  0 < SLURM_COMMUNICATIONS_MISSING_SOCKET_ERROR.
Proof.
  pose proof errnos_positive as H1. unfold errnos in H1.
  repeat rewrite Forall_cons_iff in H1. tauto.
Qed.

Lemma errnos_neq :
  EINTR <> EINPROGRESS /\ EINTR <> EAGAIN /\ EINTR <> EWOULDBLOCK /\
  EPIPE <> EAGAIN /\ EPIPE <> EWOULDBLOCK /\ EPIPE <> EINTR /\
  EBADF <> EAGAIN /\ EBADF <> EWOULDBLOCK /\ EBADF <> EINTR.
Proof.
  pose proof errnos_distinct as H1. pose proof EWOULDBLOCK_alias as H2.
  unfold errnos in *. repeat rewrite NoDup_cons_iff in H1. simpl In in *.
  destruct H2 as [H2|H2]; [rewrite H2|]; intuition congruence.
Qed.

(** ** Passing descriptors *)

Lemma queued_work_logged (lvl : log_level_t) (func msg : string)
    (w : world) :
  queued_work (trace (logged lvl func msg w)) = queued_work (trace w).
Proof.
  unfold logged. destruct (log_enabled lvl (slurm_conf w)); reflexivity.
Qed.

Lemma returns_conmgr_queue_receive_fd (src : conmgr_fd_t)
    (t : conmgr_con_type_t) (ev : conmgr_events_t) (arg_ : Z) (w : world) :
  NDEBUG = true \/
    (magic src = MAGIC_CON_MGR_FD /\
     (t = CON_TYPE_RAW \/ t = CON_TYPE_RPC)) ->
  returns (conmgr_queue_receive_fd src t ev arg_) w
    (fun r w' =>
       snd r = src /\
       (is_socket src = false \/ read_eof src = true \/ input_fd src < 0 ->
        fst r <> SLURM_SUCCESS /\
        (fst r = EAFNOSUPPORT \/
         fst r = SLURM_COMMUNICATIONS_MISSING_SOCKET_ERROR) /\
        queued_work (trace w') = queued_work (trace w)) /\
       (is_socket src = true -> read_eof src = false ->
        0 <= input_fd src ->
        fst r = SLURM_SUCCESS /\
        queued_work (trace w') =
          (name src,
           work__receive_fd {| rfa_magic := MAGIC_RECEIVE_FD;
                               rfa_type := t; rfa_events := ev;
                               rfa_arg := arg_ |})
            :: queued_work (trace w))).
Proof.
  intros Hok. pose proof errnos_pos as Hpos.
  assert (H1 : NDEBUG = true \/ (magic src =? MAGIC_CON_MGR_FD) = true).
  { destruct Hok as [E|[E _]]; [auto|right]. apply Z.eqb_eq. exact E. }
  assert (H2 : NDEBUG = true \/
               (conmgr_con_type_to_Z CON_TYPE_INVALID
                  <? conmgr_con_type_to_Z t) = true).
  { destruct Hok as [E|[_ [-> | ->]]]; auto. }
  assert (H3 : NDEBUG = true \/
               (conmgr_con_type_to_Z t
                  <? conmgr_con_type_to_Z CON_TYPE_MAX) = true).
  { destruct Hok as [E|[_ [-> | ->]]]; auto. }
  unfold conmgr_queue_receive_fd, SLURM_SUCCESS.
  steps; simpl fst; simpl snd; (split; [reflexivity|]);
    repeat match goal with
           | H : negb _ = true |- _ => apply negb_true_iff in H
           | H : negb _ = false |- _ => apply negb_false_iff in H
           | H : (_ <? _) = true |- _ => apply Z.ltb_lt in H
           | H : (_ <? _) = false |- _ => apply Z.ltb_ge in H
           end;
    (split; [intros Hc|intros Hs He Hf]).
  - rewrite queued_work_logged. repeat split; [lia|auto].
  - congruence.
  - rewrite queued_work_logged. repeat split; [lia|auto].
  - discriminate.
  - rewrite queued_work_logged. repeat split; [lia|auto].
  - lia.
  - exfalso. destruct Hc as [Hc|[Hc|Hc]]; [congruence|discriminate|lia].
  - split; reflexivity.
Qed.

Lemma returns_conmgr_queue_send_fd (con : conmgr_fd_t) (fd : Z)
    (w : world) :
  NDEBUG = true \/ magic con = MAGIC_CON_MGR_FD ->
  returns (conmgr_queue_send_fd con fd) w
    (fun r w' =>
       snd r = con /\
       (fd < 0 \/ is_socket con = false \/ output_fd con < 0 ->
        fst r <> SLURM_SUCCESS /\
        (fst r = EINVAL \/ fst r = EAFNOSUPPORT \/
         fst r = SLURM_COMMUNICATIONS_MISSING_SOCKET_ERROR) /\
        queued_work (trace w') = queued_work (trace w)) /\
       (0 <= fd -> is_socket con = true -> 0 <= output_fd con ->
        fst r = SLURM_SUCCESS /\
        queued_work (trace w') =
          (name con,
           work__send_fd {| sfa_magic := MAGIC_SEND_FD; sfa_fd := fd |})
            :: queued_work (trace w))).
Proof.
  intros Hok. pose proof errnos_pos as Hpos.
  assert (H1 : NDEBUG = true \/ (magic con =? MAGIC_CON_MGR_FD) = true).
  { destruct Hok as [E|E]; [auto|right]. apply Z.eqb_eq. exact E. }
  unfold conmgr_queue_send_fd, SLURM_SUCCESS.
  steps; simpl fst; simpl snd; (split; [reflexivity|]);
    repeat match goal with
           | H : negb _ = true |- _ => apply negb_true_iff in H
           | H : negb _ = false |- _ => apply negb_false_iff in H
           | H : (_ <? _) = true |- _ => apply Z.ltb_lt in H
           | H : (_ <? _) = false |- _ => apply Z.ltb_ge in H
           end;
    (split; [intros Hc|intros Hs He Hf]).
  - rewrite queued_work_logged. repeat split; [lia|auto].
  - lia.
  - rewrite queued_work_logged. repeat split; [lia|auto].
  - congruence.
  - rewrite queued_work_logged. repeat split; [lia|auto].
  - lia.
  - exfalso. destruct Hc as [Hc|[Hc|Hc]]; [lia|congruence|lia].
  - split; reflexivity.
Qed.

(** C2 (amended). [conmgr_queue_receive_fd] rejects a source that is not a
    socket, has reached EOF or has no input descriptor: it returns
    [EAFNOSUPPORT] or the missing-socket error, neither of which is
    success, and queues nothing; otherwise it returns success and queues
    the receive work.  [conmgr_queue_send_fd] rejects a negative
    descriptor to send, a connection that is not a socket and a connection
    without output descriptor, in the same way with [EINVAL] as a third
    error; otherwise, whether or not the connection has reached EOF, it
    returns success and queues the send work.  Both leave the connection
    as it is. *)
Theorem queue_fd_passing_checks (src : conmgr_fd_t) (t : conmgr_con_type_t)
    (ev : conmgr_events_t) (arg_ fd : Z) (w : world) :
  NDEBUG = true \/
    (magic src = MAGIC_CON_MGR_FD /\
     (t = CON_TYPE_RAW \/ t = CON_TYPE_RPC)) ->
  exists rc_r w_r rc_s w_s,
    conmgr_queue_receive_fd src t ev arg_ w = Ret (rc_r, src) w_r /\
    conmgr_queue_send_fd src fd w = Ret (rc_s, src) w_s /\
    (is_socket src = false \/ read_eof src = true \/ input_fd src < 0 ->
     rc_r <> SLURM_SUCCESS /\
     (rc_r = EAFNOSUPPORT \/
      rc_r = SLURM_COMMUNICATIONS_MISSING_SOCKET_ERROR) /\
     queued_work (trace w_r) = queued_work (trace w)) /\
    (is_socket src = true -> read_eof src = false -> 0 <= input_fd src ->
     rc_r = SLURM_SUCCESS /\
     queued_work (trace w_r) =
       (name src,
        work__receive_fd {| rfa_magic := MAGIC_RECEIVE_FD; rfa_type := t;
                            rfa_events := ev; rfa_arg := arg_ |})
         :: queued_work (trace w)) /\
    (fd < 0 \/ is_socket src = false \/ output_fd src < 0 ->
     rc_s <> SLURM_SUCCESS /\
     (rc_s = EINVAL \/ rc_s = EAFNOSUPPORT \/
      rc_s = SLURM_COMMUNICATIONS_MISSING_SOCKET_ERROR) /\
     queued_work (trace w_s) = queued_work (trace w)) /\
    (0 <= fd -> is_socket src = true -> 0 <= output_fd src ->
     rc_s = SLURM_SUCCESS /\
     queued_work (trace w_s) =
       (name src,
        work__send_fd {| sfa_magic := MAGIC_SEND_FD; sfa_fd := fd |})
         :: queued_work (trace w)).
Proof.
  intros Hok.
  destruct (returns_conmgr_queue_receive_fd src t ev arg_ w Hok)
    as ([rc_r c_r] & w_r & Er & Hc_r & Hrej_r & Hacc_r).
  assert (Hok' : NDEBUG = true \/ magic src = MAGIC_CON_MGR_FD) by tauto.
  destruct (returns_conmgr_queue_send_fd src fd w Hok')
    as ([rc_s c_s] & w_s & Es & Hc_s & Hrej_s & Hacc_s).
  simpl in *. subst c_r c_s.
  exists rc_r, w_r, rc_s, w_s. repeat split; auto;
    try (apply Hrej_r; assumption); try (apply Hacc_r; assumption);
    try (apply Hrej_s; assumption); try (apply Hacc_s; assumption).
Qed.

(** C9. Whatever the status of the work and whether or not the connection
    still has an output descriptor, [_send_fd] returns the connection it
    was given, leaves the registry alone, and ends with closing its copy
    of the descriptor ([fd_close] is the newest event).  Before that it
    only traces and, when the work runs and the output descriptor is
    present, transfers the descriptor over [output_fd]; when the work is
    cancelled or the output descriptor is absent it only traces. *)
Theorem _send_fd_always_closes (status : conmgr_work_status_t)
    (con : conmgr_fd_t) (args : send_fd_args_t) (w : world) :
  NDEBUG = true \/
    (sfa_magic args = MAGIC_SEND_FD /\ magic con = MAGIC_CON_MGR_FD) ->
  exists w1,
    _send_fd status con args w =
      Ret con (after_event (ev_fd_close (sfa_fd args)) w1) /\
    frame (ev_is_send_fd (output_fd con) (sfa_fd args)) w w1 /\
    (status = CONMGR_WORK_STATUS_CANCELLED \/ output_fd con < 0 ->
     frame ev_is_log w w1) /\
    (status = CONMGR_WORK_STATUS_RUN -> 0 <= output_fd con ->
     In (ev_send_fd_over_socket (output_fd con) (sfa_fd args)) (trace w1)).
Proof.
  intros Hok.
  assert (H1 : NDEBUG = true \/ (sfa_magic args =? MAGIC_SEND_FD) = true).
  { destruct Hok as [E|[E _]]; [auto|right]. apply Z.eqb_eq. exact E. }
  assert (H2 : NDEBUG = true \/ (magic con =? MAGIC_CON_MGR_FD) = true).
  { destruct Hok as [E|[_ E]]; [auto|right]. apply Z.eqb_eq. exact E. }
  assert (Hsend : ev_is_send_fd (output_fd con) (sfa_fd args)
                    (ev_send_fd_over_socket (output_fd con) (sfa_fd args))
                  = true).
  { simpl. rewrite !Z.eqb_refl. reflexivity. }
  assert (R : returns (_send_fd status con args) w
                (fun c' w' =>
                   c' = con /\
                   exists w1,
                     w' = after_event (ev_fd_close (sfa_fd args)) w1 /\
                     frame (ev_is_send_fd (output_fd con) (sfa_fd args))
                           w w1 /\
                     (status = CONMGR_WORK_STATUS_CANCELLED \/
                      output_fd con < 0 -> frame ev_is_log w w1) /\
                     (status = CONMGR_WORK_STATUS_RUN ->
                      0 <= output_fd con ->
                      In (ev_send_fd_over_socket (output_fd con)
                                                 (sfa_fd args))
                         (trace w1)))).
  { unfold _send_fd. repeat step.
    destruct status.
    - destruct (output_fd con <? 0) eqn:Eo.
      + apply Z.ltb_lt in Eo. steps. split; [reflexivity|].
        eexists. split; [reflexivity|].
        split; [frame_solve|]. split; [intros _; frame_solve|].
        intros _ Hge. lia.
      + apply Z.ltb_ge in Eo. steps. split; [reflexivity|].
        eexists. split; [reflexivity|].
        split.
        * apply frame_logged; [reflexivity|].
          apply frame_emit; [exact Hsend|apply frame_refl].
        * split; [intros [Hc|Hc]; [discriminate|lia]|].
          intros _ _. unfold logged.
          destruct (log_enabled _ _); simpl; auto.
    - steps. split; [reflexivity|].
      eexists. split; [reflexivity|].
      split; [frame_solve|]. split; [intros _; frame_solve|].
      intros Hc. discriminate.
  }
  destruct R as (c' & w' & E & -> & w1 & -> & Hf & Hq & Hs).
  exists w1. auto.
Qed.

(** ** The signal handler *)

Lemma repeat_app_cons {A : Type} (x : A) (n : nat) (l : list A) :
  repeat x n ++ x :: l = repeat x (S n) ++ l.
Proof.
  induction n as [|n IH]; [reflexivity|].
  simpl. rewrite IH. reflexivity.
Qed.

(** One round of the loop at [try_again:]. *)
Lemma _signal_handler_try_again_step (fuel : nat) (signo : Z) (w : world) :
  let fd := signal_fd (sig w) in
  let r := fst (os_write (trace w) fd signo) in
  let e := snd (os_write (trace w) fd signo) in
  let w1 := after_syscall (ev_write fd signo r) r e w in
  _signal_handler_try_again (S fuel) signo w =
    if r =? sizeof_signo then Ret tt w1
    else if (errno w1 =? EPIPE) || (errno w1 =? EBADF) then Ret tt w1
    else if (errno w1 =? EAGAIN) || (errno w1 =? EWOULDBLOCK)
            || (errno w1 =? EINTR)
         then _signal_handler_try_again fuel signo w1
         else Fatal w1.
Proof.
  cbv zeta. simpl _signal_handler_try_again.
  unfold write, bind, get_sig, get_errno, ret, fatal.
  rewrite syscall_run. cbv beta iota.
  destruct (fst (os_write (trace w) (signal_fd (sig w)) signo)
              =? sizeof_signo); cbv beta iota delta [negb];
    [reflexivity|].
  destruct ((errno _ =? EPIPE) || (errno _ =? EBADF)); [reflexivity|].
  destruct ((errno _ =? EAGAIN) || (errno _ =? EWOULDBLOCK)
            || (errno _ =? EINTR)); reflexivity.
Qed.

Lemma errno_retries_write_eqb (e : Z) :
  errno_retries_write e ->
  (e =? EPIPE) || (e =? EBADF) = false /\
  (e =? EAGAIN) || (e =? EWOULDBLOCK) || (e =? EINTR) = true.
Proof.
  pose proof errnos_neq as N. unfold errno_retries_write.
  intros He. split.
  - apply orb_false_iff. split; apply Z.eqb_neq; intuition congruence.
  - destruct He as [-> | [-> | ->]]; rewrite Z.eqb_refl;
      repeat rewrite orb_true_r; reflexivity.
Qed.

(** After [k] failed writes that ask for a retry, the loop is where it
    started, [k] writes later. *)
Lemma _signal_handler_try_again_retries (signo : Z) (k : nat) :
  forall (fuel : nat) (w : world),
    (forall i, (i < k)%nat ->
       fst (nth_write_answer w signo i) = -1 /\
       errno_retries_write (snd (nth_write_answer w signo i))) ->
    exists wk,
      _signal_handler_try_again (k + fuel) signo w =
        _signal_handler_try_again fuel signo wk /\
      mgr wk = mgr w /\ sig wk = sig w /\ slurm_conf wk = slurm_conf w /\
      trace wk =
        repeat (ev_write (signal_fd (sig w)) signo (-1)) k ++ trace w.
Proof.
  induction k as [|k IH]; intros fuel w Hans.
  - exists w. repeat split; reflexivity.
  - destruct (Hans 0%nat) as [Hr He]; [lia|].
    unfold nth_write_answer in Hr, He. simpl in Hr, He.
    change (S k + fuel)%nat with (S (k + fuel)).
    rewrite _signal_handler_try_again_step. cbv zeta.
    rewrite Hr.
    change (-1 =? sizeof_signo) with false. cbv iota.
    set (w1 := after_syscall _ _ _ w).
    assert (Ee : errno w1 = snd (os_write (trace w) (signal_fd (sig w))
                                          signo)) by reflexivity.
    destruct (errno_retries_write_eqb _ He) as [E1 E2].
    rewrite Ee, E1, E2.
    destruct (IH fuel w1) as (wk & Ek & Hm & Hs & Hc & Ht).
    { intros i Hi. destruct (Hans (S i)) as [Hr' He']; [lia|].
      unfold nth_write_answer in *. subst w1. simpl sig. simpl trace.
      rewrite repeat_app_cons. split; assumption. }
    exists wk. split; [exact Ek|].
    repeat split; try assumption.
    rewrite Ht. subst w1. simpl sig. simpl trace.
    apply repeat_app_cons.
Qed.

(** C8. The signal handler returns without a write when the self-pipe is
    absent ([signal_fd] negative), as it is in a child after the fork
    hook has run.  Otherwise it writes the signal number to the self-pipe:
    after [k] writes that failed with EINTR, EAGAIN or EWOULDBLOCK it has
    written again each time, and at the next answer it returns when the
    whole number was written, returns silently when the write failed with
    EPIPE or EBADF, and aborts when it failed with any other error. *)
Theorem _signal_handler_outcome (signo : Z) (w : world) (k fuel : nat) :
  (signal_fd (sig w) < 0 -> _signal_handler fuel signo w = Ret tt w) /\
  (exists w1,
     _atfork_child w = Ret tt w1 /\ trace w1 = trace w /\
     _signal_handler fuel signo w1 = Ret tt w1) /\
  (0 <= signal_fd (sig w) ->
   (forall i, (i < k)%nat ->
      fst (nth_write_answer w signo i) = -1 /\
      errno_retries_write (snd (nth_write_answer w signo i))) ->
   (k < fuel)%nat ->
   let r := fst (nth_write_answer w signo k) in
   let e := snd (nth_write_answer w signo k) in
   let writes :=
     ev_write (signal_fd (sig w)) signo r
       :: repeat (ev_write (signal_fd (sig w)) signo (-1)) k ++ trace w in
   (r = sizeof_signo ->
    exists w', _signal_handler fuel signo w = Ret tt w' /\
               trace w' = writes) /\
   (r = -1 -> e = EPIPE \/ e = EBADF ->
    exists w', _signal_handler fuel signo w = Ret tt w' /\
               trace w' = writes) /\
   (r = -1 -> e <> EPIPE -> e <> EBADF -> ~ errno_retries_write e ->
    exists w', _signal_handler fuel signo w = Fatal w' /\
               trace w' = writes)).
Proof.
  split; [|split].
  - intros Hfd. unfold _signal_handler, bind, get_sig.
    apply Z.ltb_lt in Hfd. rewrite Hfd. reflexivity.
  - eexists. split; [reflexivity|]. split; reflexivity.
  - intros Hfd Hans Hfuel. cbv zeta.
    assert (Hopen : _signal_handler fuel signo w =
                    _signal_handler_try_again fuel signo w).
    { unfold _signal_handler, bind, get_sig.
      apply Z.ltb_ge in Hfd. rewrite Hfd. reflexivity. }
    rewrite Hopen.
    destruct (_signal_handler_try_again_retries signo k
                (fuel - k) w Hans)
      as (wk & Ek & Hm & Hs & Hc & Ht).
    replace (k + (fuel - k))%nat with fuel in Ek by lia.
    rewrite Ek.
    destruct (fuel - k)%nat as [|f] eqn:Ef; [lia|].
    rewrite _signal_handler_try_again_step. cbv zeta.
    assert (Ea : os_write (trace wk) (signal_fd (sig wk)) signo =
                 nth_write_answer w signo k).
    { unfold nth_write_answer. rewrite Ht, Hs. reflexivity. }
    rewrite Ea, Hs.
    set (r := fst (nth_write_answer w signo k)).
    set (e := snd (nth_write_answer w signo k)).
    assert (Htr : trace (after_syscall
                           (ev_write (signal_fd (sig w)) signo r) r e wk)
                  = ev_write (signal_fd (sig w)) signo r
                      :: repeat (ev_write (signal_fd (sig w)) signo (-1)) k
                      ++ trace w).
    { simpl. rewrite Ht. reflexivity. }
    split; [|split].
    + intros Hr.
      assert (Eq : (r =? sizeof_signo) = true)
        by (rewrite Hr; apply Z.eqb_refl).
      rewrite Eq. eexists. split; [reflexivity|exact Htr].
    + intros Hr He.
      assert (Ee : errno (after_syscall
                            (ev_write (signal_fd (sig w)) signo r) r e wk)
                   = e) by (simpl; rewrite Hr; reflexivity).
      assert (Eq : (r =? sizeof_signo) = false)
        by (rewrite Hr; reflexivity).
      rewrite Ee, Eq.
      assert (E1 : (e =? EPIPE) || (e =? EBADF) = true).
      { destruct He as [-> | ->]; rewrite Z.eqb_refl;
          [reflexivity|apply orb_true_r]. }
      rewrite E1. eexists. split; [reflexivity|exact Htr].
    + intros Hr Hp Hb Hn.
      assert (Ee : errno (after_syscall
                            (ev_write (signal_fd (sig w)) signo r) r e wk)
                   = e) by (simpl; rewrite Hr; reflexivity).
      assert (Eq : (r =? sizeof_signo) = false)
        by (rewrite Hr; reflexivity).
      rewrite Ee, Eq.
      apply Z.eqb_neq in Hp, Hb. rewrite Hp, Hb. simpl orb.
      assert (E2 : (e =? EAGAIN) || (e =? EWOULDBLOCK) || (e =? EINTR)
                   = false).
      { unfold errno_retries_write in Hn.
        repeat rewrite orb_false_iff. repeat split; apply Z.eqb_neq;
          intros Heq; apply Hn; auto. }
      rewrite E2. eexists. split; [reflexivity|exact Htr].
Qed.

(** ** The dialer *)

(** One round of the loop at [again:]. *)
Lemma conmgr_create_connect_socket_again_step (fuel : nat) (fd : Z)
    (addr : slurm_addr_t) (w : world) :
  NDEBUG = true \/ initialized (mgr w) = true ->
  let r := fst (os_connect (trace w) fd addr) in
  let e := snd (os_connect (trace w) fd addr) in
  let w1 := after_syscall (ev_connect fd addr r) r e w in
  conmgr_create_connect_socket_again (S fuel) fd addr w =
    if r =? 0 then Ret None w1
    else if errno w1 =? EINTR then
      if shutdown_requested (mgr w) then
        Ret (Some SLURM_SUCCESS)
            (after_event (ev_fd_close fd)
               (logged LOG_FLAG_CONMGR "conmgr_create_connect_socket"
                  "connect() interrupted during shutdown. Closing connection."
                  w1))
      else
        conmgr_create_connect_socket_again fuel fd addr
          (logged LOG_FLAG_CONMGR "conmgr_create_connect_socket"
                  "connect() interrupted. Retrying." w1)
    else if negb (errno w1 =? EINPROGRESS) && negb (errno w1 =? EAGAIN)
            && negb (errno w1 =? EWOULDBLOCK) then
      Ret (Some (errno w1))
          (after_event (ev_fd_close fd)
             (logged LOG_FLAG_NET "conmgr_create_connect_socket"
                     "connect() failed" w1))
    else Ret None w1.
Proof.
  intros Hinit. cbv zeta. simpl conmgr_create_connect_socket_again.
  assert (Hx : forall w1, mgr w1 = mgr w ->
                 xassert (initialized (mgr w1)) w1 = Ret tt w1).
  { intros w1 Hm. apply xassert_true. rewrite Hm. exact Hinit. }
  unfold connect, fd_close, bind, get_errno, get_mgr, ret.
  rewrite syscall_run. cbv beta iota.
  destruct (fst (os_connect (trace w) fd addr) =? 0);
    [change (negb true) with false|change (negb false) with true];
    cbv beta iota; [reflexivity|].
  set (w1 := after_syscall _ _ _ w).
  destruct (errno w1 =? EINTR).
  - rewrite (Hx w1 eq_refl). cbv beta iota.
    change (mgr w1) with (mgr w).
    destruct (shutdown_requested (mgr w));
      rewrite log_flag_run; reflexivity.
  - destruct (negb (errno w1 =? EINPROGRESS) && negb (errno w1 =? EAGAIN)
              && negb (errno w1 =? EWOULDBLOCK)); [|reflexivity].
    rewrite log_flag_run. reflexivity.
Qed.

Lemma logged_mgr (lvl : log_level_t) (func msg : string) (w : world) :
  mgr (logged lvl func msg w) = mgr w.
Proof.
  unfold logged. destruct (log_enabled lvl (slurm_conf w)); reflexivity.
Qed.

(** After [k] interrupted calls without a shutdown request, the loop is
    where it started, [k] calls later. *)
Lemma conmgr_create_connect_socket_again_retries (fd : Z)
    (addr : slurm_addr_t) (k : nat) :
  forall (fuel : nat) (w : world),
    NDEBUG = true \/ initialized (mgr w) = true ->
    shutdown_requested (mgr w) = false ->
    (forall i, (i < k)%nat -> nth_connect_answer fd addr w i = (-1, EINTR)) ->
    conmgr_create_connect_socket_again (k + fuel) fd addr w =
      conmgr_create_connect_socket_again fuel fd addr
        (Nat.iter k (connect_interrupted fd addr) w) /\
    mgr (Nat.iter k (connect_interrupted fd addr) w) = mgr w.
Proof.
  induction k as [|k IH]; intros fuel w Hinit Hstop Hans.
  - split; reflexivity.
  - pose proof (Hans 0%nat ltac:(lia)) as H0.
    unfold nth_connect_answer in H0. simpl in H0.
    change (S k + fuel)%nat with (S (k + fuel)).
    rewrite conmgr_create_connect_socket_again_step by exact Hinit.
    cbv zeta. rewrite H0. simpl fst. simpl snd.
    change (-1 =? 0) with false. cbv iota.
    change (errno (after_syscall (ev_connect fd addr (-1)) (-1) EINTR w))
      with EINTR.
    rewrite Z.eqb_refl, Hstop.
    fold (connect_interrupted fd addr w).
    assert (Hm : mgr (connect_interrupted fd addr w) = mgr w).
    { unfold connect_interrupted. rewrite logged_mgr. reflexivity. }
    destruct (IH fuel (connect_interrupted fd addr w)) as [E1 E2].
    + rewrite Hm. exact Hinit.
    + rewrite Hm. exact Hstop.
    + intros i Hi. pose proof (Hans (S i) ltac:(lia)) as Hs.
      unfold nth_connect_answer in *.
      rewrite Nat.iter_succ_r in Hs. exact Hs.
    + rewrite Nat.iter_succ_r. split; [exact E1|].
      rewrite E2. exact Hm.
Qed.

Lemma fstat_run (fd : Z) (w : world) :
  fstat fd w =
    Ret (fst (fst (os_fstat (trace w) fd)), snd (os_fstat (trace w) fd))
        (after_syscall (ev_fstat fd (fst (fst (os_fstat (trace w) fd))))
           (fst (fst (os_fstat (trace w) fd)))
           (snd (fst (os_fstat (trace w) fd))) w).
Proof.
  unfold fstat, after_syscall, bind, get_trace, emit, set_errno, ret.
  destruct (os_fstat (trace w) fd) as [[r e] st]. simpl.
  destruct (r <? 0); reflexivity.
Qed.

Lemma returns_fstat (fd : Z) (w : world) (Q : Z * stat_t -> world -> Prop) :
  (forall r e st, os_fstat (trace w) fd = (r, e, st) ->
                  Q (r, st) (after_syscall (ev_fstat fd r) r e w)) ->
  returns (fstat fd) w Q.
Proof.
  intros HQ. eexists; eexists. split; [apply fstat_run|].
  apply HQ. destruct (os_fstat (trace w) fd) as [[r e] st]. reflexivity.
Qed.

Lemma returns_set_mgr (m : mgr_t) (w : world) (Q : unit -> world -> Prop) :
  Q tt {| mgr := m; sig := sig w; slurm_conf := slurm_conf w;
          errno := errno w; trace := trace w |} ->
  returns (set_mgr m) w Q.
Proof. intros HQ. eexists; eexists. split; [reflexivity|exact HQ]. Qed.

(** ** gres_select_util.c: the largest memory per GRES *)

Lemma MAX_spec (a b : Z) : MAX a b = Z.max a b.
Proof. unfold MAX. destruct (Z.gtb_spec a b); lia. Qed.

Lemma MIN_spec (a b : Z) : MIN a b = Z.min a b.
Proof. unfold MIN. destruct (Z.ltb_spec a b); lia. Qed.

Lemma job_requests_In (l : list gres_state_t) (ds : list gres_job_state_t) :
  job_requests l = Some ds ->
  forall d, In d ds <-> exists g, In g l /\ gres_data g = Some d.
Proof.
  revert ds. induction l as [|g rest IH]; intros ds E d.
  - inversion E; subst. simpl. split; [tauto|intros (g & [] & _)].
  - simpl in E. destruct (gres_data g) as [d0|] eqn:Eg; [|discriminate].
    destruct (job_requests rest) as [ds0|]; [|discriminate].
    inversion E; subst ds. simpl. rewrite (IH ds0 eq_refl d). split.
    + intros [->|(g' & Hin & Hd)]; [exists g; auto|exists g'; auto].
    + intros (g' & [->|Hin] & Hd); [left; congruence|right; eauto].
Qed.

Lemma job_requests_None (l : list gres_state_t) :
  job_requests l = None <-> exists g, In g l /\ gres_data g = None.
Proof.
  induction l as [|g rest IH]; simpl.
  - split; [discriminate|intros (g & [] & _)].
  - destruct (gres_data g) as [d0|] eqn:Eg.
    + destruct (job_requests rest) as [ds0|].
      * split; [discriminate|].
        intros (g' & [->|Hin] & Hd); [congruence|].
        assert (X : Some ds0 = None) by (apply (proj2 IH); eauto).
        discriminate X.
      * split; [|reflexivity]. intros _.
        destruct (proj1 IH eq_refl) as (g' & Hin & Hd). eauto.
    + split; [|reflexivity]. intros _. exists g. auto.
Qed.

Lemma gres_select_util_job_mem_max_loop_spec (l : list gres_state_t) :
  forall (ds : list gres_job_state_t) (acc : Z),
    job_requests l = Some ds ->
    gres_select_util_job_mem_max_loop l acc =
      Some (fold_left (fun m d => Z.max m (effective_mem_per_gres d)) ds acc).
Proof.
  induction l as [|g rest IH]; intros ds acc E.
  - inversion E; subst. reflexivity.
  - simpl in E. simpl. destruct (gres_data g) as [d0|]; [|discriminate].
    destruct (job_requests rest) as [ds0|] eqn:Er; [|discriminate].
    inversion E; subst ds. simpl. rewrite (IH ds0 _ eq_refl).
    rewrite MAX_spec. unfold effective_mem_per_gres.
    destruct (mem_per_gres d0 =? 0); reflexivity.
Qed.

Lemma gres_select_util_job_mem_max_loop_None (l : list gres_state_t) :
  forall acc, job_requests l = None ->
              gres_select_util_job_mem_max_loop l acc = None.
Proof.
  induction l as [|g rest IH]; intros acc E; [discriminate|].
  simpl in E. simpl. destruct (gres_data g) as [d0|]; [|reflexivity].
  destruct (job_requests rest) as [ds0|]; [discriminate|].
  apply IH. reflexivity.
Qed.

Lemma fold_max_spec {A : Type} (f : A -> Z) (ds : list A) :
  forall acc,
    let m := fold_left (fun m d => Z.max m (f d)) ds acc in
    acc <= m /\ (forall d, In d ds -> f d <= m) /\
    (m = acc \/ exists d, In d ds /\ f d = m).
Proof.
  induction ds as [|d ds IH]; intros acc; cbv zeta.
  - simpl. repeat split; [lia|tauto|auto].
  - simpl. destruct (IH (Z.max acc (f d))) as (H1 & H2 & H3).
    repeat split.
    + lia.
    + intros d' [->|Hin]; [lia|auto].
    + destruct H3 as [H3|(d' & Hin & Hd)]; [|right; eauto].
      destruct (Z.max_spec acc (f d)) as [[_ E]|[_ E]].
      * right. exists d. split; [auto|lia].
      * left. lia.
Qed.

(** X1. [gres_select_util_job_mem_max] answers 0 for a NULL list; for a
    list all of whose elements have data it answers a value that is at
    least the memory per GRES in effect of every request (the job's own
    value, else the default) and that is 0 or the value of one of them;
    and it has no answer when an element has NULL data, which it
    dereferences. *)
Theorem gres_select_util_job_mem_max_is_max (l : list gres_state_t) :
  gres_select_util_job_mem_max None = Some 0 /\
  (forall ds, job_requests l = Some ds ->
     exists m,
       gres_select_util_job_mem_max (Some l) = Some m /\
       0 <= m /\
       (forall d, In d ds -> effective_mem_per_gres d <= m) /\
       (m = 0 \/ exists d, In d ds /\ effective_mem_per_gres d = m)) /\
  ((exists g, In g l /\ gres_data g = None) ->
   gres_select_util_job_mem_max (Some l) = None).
Proof.
  split; [reflexivity|]. split.
  - intros ds E. eexists. split.
    + simpl. apply gres_select_util_job_mem_max_loop_spec. exact E.
    + apply (fold_max_spec effective_mem_per_gres ds 0).
  - intros Hn. simpl. apply gres_select_util_job_mem_max_loop_None.
    apply job_requests_None. exact Hn.
Qed.

(** ** gres_select_util.c: the task limit of a node *)

Lemma uint32_small (z : Z) : 0 <= z < 2 ^ 32 -> uint32 z = z.
Proof. intros Hz. unfold uint32. apply Z.mod_small. exact Hz. Qed.

Lemma gres_select_util_get_task_limit_loop_spec (l : list sock_gres_t) :
  forall acc,
    0 <= acc < 2 ^ 32 ->
    Forall sock_gres_valid l ->
    exists m,
      gres_select_util_get_task_limit_loop l acc = Some m /\
      0 <= m <= acc /\
      (forall sg limit, In sg l -> tasks_that_fit sg limit -> m <= limit) /\
      (m = acc \/ exists sg, In sg l /\ tasks_that_fit sg m).
Proof.
  induction l as [|sg rest IH]; intros acc Hacc Hl.
  - exists acc. simpl. repeat split; [lia|lia| |auto].
    intros sg limit [].
  - inversion Hl as [|? ? (specs & Es & Ht & Hp) Hrest]; subst.
    simpl. rewrite Es.
    destruct (gres_per_task specs =? 0) eqn:Ez.
    + apply Z.eqb_eq in Ez.
      destruct (IH acc Hacc Hrest) as (m & E & Hm & Hub & Hatt).
      exists m. repeat split; try (exact E || lia).
      * intros sg' limit [->|Hin] Hfit; [|eauto].
        destruct Hfit as (specs' & Es' & Hne & _). congruence.
      * destruct Hatt as [Hatt|(sg' & Hin & Hfit)]; [auto|].
        right. exists sg'. split; [right; exact Hin|exact Hfit].
    + apply Z.eqb_neq in Ez.
      assert (Hq : 0 <= total_cnt sg / gres_per_task specs)
        by (apply Z.div_pos; lia).
      rewrite MIN_spec.
      set (q := total_cnt sg / gres_per_task specs) in *.
      rewrite uint32_small by lia.
      destruct (IH (Z.min acc q) ltac:(lia) Hrest)
        as (m & E & Hm & Hub & Hatt).
      exists m. repeat split; try (exact E || lia).
      * intros sg' limit [->|Hin] Hfit; [|eauto].
        destruct Hfit as (specs' & Es' & _ & ->).
        assert (specs' = specs) by congruence. subst specs'.
        fold q. lia.
      * destruct Hatt as [Hatt|(sg' & Hin & Hfit)].
        -- destruct (Z.min_spec acc q) as [[_ Em]|[_ Em]]; [left; lia|].
           right. exists sg. split; [left; reflexivity|].
           exists specs. repeat split; [exact Es|exact Ez|lia].
        -- right. exists sg'. split; [right; exact Hin|exact Hfit].
Qed.

(** X2. With [NO_VAL] a 32-bit value, [gres_select_util_get_task_limit]
    on valid per-socket records answers a limit between 0 and [NO_VAL]
    that is at most [total_cnt / gres_per_task] for every record whose job
    asks for GRES per task, and that is [NO_VAL] or that quotient for one
    of them; records without GRES per task are skipped, so nothing is
    divided by zero, and without any such record the answer is [NO_VAL]. *)
Theorem gres_select_util_get_task_limit_is_min (l : list sock_gres_t) :
  0 <= NO_VAL < 2 ^ 32 ->
  Forall sock_gres_valid l ->
  exists m,
    gres_select_util_get_task_limit l = Some m /\
    0 <= m <= NO_VAL /\
    (forall sg limit, In sg l -> tasks_that_fit sg limit -> m <= limit) /\
    (m = NO_VAL \/ exists sg, In sg l /\ tasks_that_fit sg m) /\
    ((forall sg limit, In sg l -> ~ tasks_that_fit sg limit) -> m = NO_VAL).
Proof.
  intros Hnv Hl. unfold gres_select_util_get_task_limit.
  rewrite uint32_small by exact Hnv.
  destruct (gres_select_util_get_task_limit_loop_spec l NO_VAL Hnv Hl)
    as (m & E & Hm & Hub & Hatt).
  exists m. repeat split; try (exact E || lia || assumption).
  intros Hnone. destruct Hatt as [Hatt|(sg & Hin & Hfit)]; [exact Hatt|].
  exfalso. exact (Hnone sg m Hin Hfit).
Qed.

(** ** gres_select_util.c: the CPUs a job's GRES need *)

Lemma max_need_spec (need : gres_job_state_t -> option Z)
    (ds : list gres_job_state_t) :
  forall acc,
    acc <= max_need need ds acc /\
    (forall d c, In d ds -> need d = Some c -> c <= max_need need ds acc) /\
    (max_need need ds acc = acc \/
     exists d, In d ds /\ need d = Some (max_need need ds acc)).
Proof.
  unfold max_need.
  induction ds as [|d ds IH]; intros acc.
  - simpl. repeat split; [lia| |auto]. intros d c [].
  - simpl.
    destruct (need d) as [c0|] eqn:En.
    + destruct (IH (Z.max acc c0)) as (H1 & H2 & H3).
      repeat split.
      * lia.
      * intros d' c [->|Hin] Hc; [|eauto].
        assert (c = c0) by congruence. lia.
      * destruct H3 as [H3|(d' & Hin & Hd)]; [|right; eauto].
        destruct (Z.max_spec acc c0) as [[_ E]|[_ E]].
        -- right. exists d. split; [auto|]. rewrite H3, E. exact En.
        -- left. lia.
    + destruct (IH acc) as (H1 & H2 & H3).
      repeat split.
      * exact H1.
      * intros d' c [->|Hin] Hc; [congruence|eauto].
      * destruct H3 as [H3|(d' & Hin & Hd)]; [auto|right; eauto].
Qed.

Lemma max_need_cons (need : gres_job_state_t -> option Z)
    (d : gres_job_state_t) (ds : list gres_job_state_t) (acc : Z) :
  max_need need (d :: ds) acc =
    max_need need ds (match need d with
                      | Some c => Z.max acc c
                      | None => acc
                      end).
Proof. reflexivity. Qed.

Lemma uint64_mul_l (a b : Z) : uint64 (uint64 a * b) = uint64 (a * b).
Proof. unfold uint64. apply Z.mul_mod_idemp_l. lia. Qed.

Lemma uint64_mul_r (a b : Z) : uint64 (a * uint64 b) = uint64 (a * b).
Proof. unfold uint64. apply Z.mul_mod_idemp_r. lia. Qed.

Lemma int32_uint64_small (z : Z) :
  0 <= z < 2 ^ 31 -> int32 (uint64 z) = z.
Proof.
  intros Hz. unfold int32, uint64.
  rewrite (Z.mod_small z) by lia.
  rewrite Z.mod_small by lia. lia.
Qed.

(** The product the loops compute, [cpus * total] through 64 bits and then
    as an [int], is the product itself when that fits an [int]. *)
Lemma int32_product_small (c t : Z) :
  0 <= c * t < 2 ^ 31 -> int32 (uint64 (c * uint64 t)) = c * t.
Proof.
  intros H1. rewrite uint64_mul_r. apply int32_uint64_small. exact H1.
Qed.

Lemma effective_cpus_per_gres_eq (d : gres_job_state_t) :
  (if negb (cpus_per_gres d =? 0) then cpus_per_gres d
   else def_cpus_per_gres d) = effective_cpus_per_gres d.
Proof.
  unfold effective_cpus_per_gres. destruct (cpus_per_gres d =? 0);
    reflexivity.
Qed.

Lemma gres_select_util_job_min_cpus_loop_spec
    (node_count sockets_per_node task_count : Z) (l : list gres_state_t) :
  forall (ds : list gres_job_state_t) (acc : Z),
    job_requests l = Some ds ->
    needs_fit_int
      (job_cpus_needed node_count sockets_per_node task_count) ds ->
    gres_select_util_job_min_cpus_loop node_count sockets_per_node
      task_count l acc =
      Some (max_need
              (job_cpus_needed node_count sockets_per_node task_count)
              ds acc).
Proof.
  induction l as [|g rest IH]; intros ds acc E Hfit.
  - inversion E; subst. reflexivity.
  - simpl in E. simpl. destruct (gres_data g) as [d|]; [|discriminate].
    destruct (job_requests rest) as [ds0|] eqn:Er; [|discriminate].
    inversion E; subst ds. clear E.
    assert (Hrest : forall acc',
              gres_select_util_job_min_cpus_loop node_count
                sockets_per_node task_count rest acc' =
              Some (max_need
                      (job_cpus_needed node_count sockets_per_node
                                       task_count) ds0 acc')).
    { intros acc'. apply IH; [reflexivity|].
      intros d' c Hin. apply Hfit. right. exact Hin. }
    pose proof (fun c => Hfit d c (or_introl eq_refl)) as Hd.
    rewrite max_need_cons, effective_cpus_per_gres_eq.
    revert Hd. unfold job_cpus_needed, job_total_gres.
    destruct (effective_cpus_per_gres d =? 0); intros Hd; [apply Hrest|].
    destruct (negb (gres_per_job d =? 0)).
    { rewrite Hrest, MAX_spec, int32_uint64_small
        by (apply Hd; reflexivity). reflexivity. }
    destruct (negb (gres_per_node d =? 0)).
    { rewrite Hrest, MAX_spec, int32_product_small
        by (apply Hd; reflexivity). reflexivity. }
    destruct (negb (gres_per_socket d =? 0)).
    { rewrite Hrest, MAX_spec, uint64_mul_l, int32_product_small
        by (apply Hd; reflexivity). reflexivity. }
    destruct (negb (gres_per_task d =? 0)).
    { rewrite Hrest, MAX_spec, int32_product_small
        by (apply Hd; reflexivity). reflexivity. }
    apply Hrest.
Qed.

Lemma max_need_largest (need : gres_job_state_t -> option Z)
    (ds : list gres_job_state_t) :
  largest_need need ds (max_need need ds 0).
Proof.
  destruct (max_need_spec need ds 0) as (H1 & H2 & H3).
  repeat split; assumption.
Qed.

Lemma list_count_nil {A : Type} (l : list A) :
  (list_count l =? 0) = true -> l = [].
Proof.
  unfold list_count. destruct l as [|a l]; [reflexivity|].
  intros E. apply Z.eqb_eq in E.
  change (List.length (a :: l)) with (S (List.length l)) in E. lia.
Qed.

(** X3.  [gres_select_util_job_min_cpus]: for a list whose elements all
    carry a request, and as long as every product of CPUs per GRES and GRES
    count fits an [int], the result is the largest number of CPUs a
    request needs over the whole job, counting its GRES per job, else per
    node times the nodes, else per socket times nodes and sockets, else per
    task times the tasks; it is zero when no request binds CPUs and counts
    GRES. *)
Theorem gres_select_util_job_min_cpus_is_max
    (node_count sockets_per_node task_count : Z) (l : list gres_state_t)
    (ds : list gres_job_state_t) :
  job_requests l = Some ds ->
  needs_fit_int (job_cpus_needed node_count sockets_per_node task_count) ds ->
  exists m,
    gres_select_util_job_min_cpus node_count sockets_per_node task_count
      (Some l) = Some m /\
    largest_need (job_cpus_needed node_count sockets_per_node task_count)
      ds m.
Proof.
  intros E Hfit.
  exists (max_need (job_cpus_needed node_count sockets_per_node task_count)
            ds 0).
  split; [|apply max_need_largest].
  unfold gres_select_util_job_min_cpus.
  destruct (list_count l =? 0) eqn:Ec.
  - apply list_count_nil in Ec. subst l. inversion E; subst. reflexivity.
  - apply gres_select_util_job_min_cpus_loop_spec; assumption.
Qed.

Lemma gres_select_util_job_min_cpu_node_loop_spec
    (sockets_per_node tasks_per_node : Z) (l : list gres_state_t) :
  forall (ds : list gres_job_state_t) (acc : Z),
    job_requests l = Some ds ->
    needs_fit_int (node_cpus_needed sockets_per_node tasks_per_node) ds ->
    gres_select_util_job_min_cpu_node_loop sockets_per_node tasks_per_node
      l acc =
      Some (max_need (node_cpus_needed sockets_per_node tasks_per_node)
              ds acc).
Proof.
  induction l as [|g rest IH]; intros ds acc E Hfit.
  - inversion E; subst. reflexivity.
  - simpl in E. simpl. destruct (gres_data g) as [d|]; [|discriminate].
    destruct (job_requests rest) as [ds0|] eqn:Er; [|discriminate].
    inversion E; subst ds. clear E.
    assert (Hrest : forall acc',
              gres_select_util_job_min_cpu_node_loop sockets_per_node
                tasks_per_node rest acc' =
              Some (max_need
                      (node_cpus_needed sockets_per_node tasks_per_node)
                      ds0 acc')).
    { intros acc'. apply IH; [reflexivity|].
      intros d' c Hin. apply Hfit. right. exact Hin. }
    pose proof (fun c => Hfit d c (or_introl eq_refl)) as Hd.
    rewrite max_need_cons, effective_cpus_per_gres_eq.
    revert Hd. unfold node_cpus_needed, node_total_gres.
    destruct (effective_cpus_per_gres d =? 0); intros Hd; [apply Hrest|].
    rewrite Hrest, MAX_spec. f_equal. f_equal. f_equal.
    destruct (negb (gres_per_node d =? 0)).
    { apply int32_uint64_small, Hd. reflexivity. }
    destruct (negb (gres_per_socket d =? 0)).
    { apply int32_product_small, Hd. reflexivity. }
    destruct (negb (gres_per_task d =? 0)).
    { apply int32_product_small, Hd. reflexivity. }
    apply int32_uint64_small, Hd. reflexivity.
Qed.

(** X4.  [gres_select_util_job_min_cpu_node]: under the same conditions
    the result is the largest number of CPUs a request needs on one node,
    its CPUs per GRES in effect times its GRES per node, else per socket
    times the sockets, else per task times the tasks of a node, else times
    one: a request that binds CPUs counts even without any GRES count. *)
Theorem gres_select_util_job_min_cpu_node_is_max
    (sockets_per_node tasks_per_node : Z) (l : list gres_state_t)
    (ds : list gres_job_state_t) :
  job_requests l = Some ds ->
  needs_fit_int (node_cpus_needed sockets_per_node tasks_per_node) ds ->
  exists m,
    gres_select_util_job_min_cpu_node sockets_per_node tasks_per_node
      (Some l) = Some m /\
    largest_need (node_cpus_needed sockets_per_node tasks_per_node) ds m /\
    (forall d, In d ds ->
       gres_per_node d = 0 -> gres_per_socket d = 0 -> gres_per_task d = 0 ->
       effective_cpus_per_gres d <= m).
Proof.
  intros E Hfit.
  exists (max_need (node_cpus_needed sockets_per_node tasks_per_node) ds 0).
  pose proof (max_need_largest
                (node_cpus_needed sockets_per_node tasks_per_node) ds) as HL.
  split; [|split; [exact HL|]].
  - unfold gres_select_util_job_min_cpu_node.
    destruct (list_count l =? 0) eqn:Ec.
    + apply list_count_nil in Ec. subst l. inversion E; subst. reflexivity.
    + apply gres_select_util_job_min_cpu_node_loop_spec; assumption.
  - intros d Hin Hn Hs Ht.
    destruct HL as (H0 & Hmax & _).
    destruct (effective_cpus_per_gres d =? 0) eqn:Ez.
    + apply Z.eqb_eq in Ez. lia.
    + apply (Hmax d); [exact Hin|].
      unfold node_cpus_needed, node_total_gres.
      rewrite Ez, Hn, Hs, Ht. simpl. f_equal. lia.
Qed.

(** ** gres_select_util.c: the tasks a job's GRES need *)

Lemma max_need_ge (need : gres_job_state_t -> option Z)
    (ds : list gres_job_state_t) (acc : Z) :
  acc <= max_need need ds acc.
Proof. apply max_need_spec. Qed.

Lemma gres_select_util_job_min_tasks_loop_spec
    (node_count sockets_per_node ntasks_per_tres id : Z)
    (l : list gres_state_t) :
  forall (ds : list gres_job_state_t) (acc : Z) (errors : nat),
    job_requests (selected id l) = Some ds ->
    needs_fit_int
      (job_tasks_needed node_count sockets_per_node ntasks_per_tres) ds ->
    0 <= acc ->
    gres_select_util_job_min_tasks_loop node_count sockets_per_node
      ntasks_per_tres id l acc errors =
      Some (max_need
              (job_tasks_needed node_count sockets_per_node ntasks_per_tres)
              ds acc,
            (errors + List.length (filter per_task_only ds))%nat).
Proof.
  induction l as [|g rest IH]; intros ds acc errors E Hfit Hacc.
  - inversion E; subst. simpl. rewrite Nat.add_0_r. reflexivity.
  - simpl in E. simpl.
    replace (negb (id =? 0) && negb (id =? plugin_id g))
      with (negb ((id =? 0) || (id =? plugin_id g)))
      by apply negb_orb.
    destruct ((id =? 0) || (id =? plugin_id g)); simpl negb; cbv iota.
    2:{ apply IH; assumption. }
    simpl in E. destruct (gres_data g) as [d|]; [|discriminate].
    destruct (job_requests (selected id rest)) as [ds0|] eqn:Er;
      [|discriminate].
    inversion E; subst ds. clear E.
    assert (Hrest : forall acc' errors', 0 <= acc' ->
              gres_select_util_job_min_tasks_loop node_count
                sockets_per_node ntasks_per_tres id rest acc' errors' =
              Some (max_need
                      (job_tasks_needed node_count sockets_per_node
                                        ntasks_per_tres) ds0 acc',
                    (errors' + List.length (filter per_task_only ds0))%nat)).
    { intros acc' errors' Hacc'. apply IH; [reflexivity| |exact Hacc'].
      intros d' c Hin. apply Hfit. right. exact Hin. }
    pose proof (fun c => Hfit d c (or_introl eq_refl)) as Hd.
    rewrite max_need_cons. simpl filter.
    revert Hd. unfold job_tasks_needed, per_task_only.
    destruct (gres_per_job d =? 0); simpl negb; cbv iota; intros Hd.
    2:{ rewrite int32_uint64_small by (apply Hd; reflexivity).
        rewrite MAX_spec. simpl andb. apply Hrest. lia. }
    destruct (gres_per_node d =? 0); simpl negb; cbv iota.
    2:{ rewrite int32_product_small by (apply Hd; reflexivity).
        rewrite MAX_spec. simpl andb. apply Hrest. lia. }
    destruct (gres_per_socket d =? 0); simpl negb; cbv iota.
    2:{ rewrite uint64_mul_l, int32_product_small
          by (apply Hd; reflexivity).
        rewrite MAX_spec. simpl andb. apply Hrest. lia. }
    destruct (gres_per_task d =? 0); simpl negb; simpl andb; cbv iota.
    { apply Hrest. exact Hacc. }
    rewrite Z.mul_0_r. change (int32 (uint64 0)) with 0.
    rewrite MAX_spec, Z.max_l by lia.
    rewrite Hrest by exact Hacc. simpl List.length.
    rewrite Nat.add_succ_r. reflexivity.
Qed.

(** X5.  [gres_select_util_job_min_tasks], called with a number of tasks
    per GRES: the list is filtered by the plugin id of the name, and only
    the elements let through are dereferenced; as long as every product
    fits an [int], the result is the largest number of tasks a request
    needs, the tasks per GRES times its GRES per job, else per node, else
    per socket; a request that counts per task only adds nothing and costs
    one call of [error]. *)
Theorem gres_select_util_job_min_tasks_is_max
    (NO_VAL16 : Z) (gres_build_id : string -> Z)
    (node_count sockets_per_node ntasks_per_tres : Z)
    (gres_name : option string) (l : list gres_state_t)
    (ds : list gres_job_state_t) :
  ntasks_per_tres <> 0 -> ntasks_per_tres <> NO_VAL16 ->
  job_requests (selected (filter_id gres_build_id gres_name) l) = Some ds ->
  needs_fit_int
    (job_tasks_needed node_count sockets_per_node ntasks_per_tres) ds ->
  exists m,
    gres_select_util_job_min_tasks NO_VAL16 gres_build_id node_count
      sockets_per_node ntasks_per_tres gres_name (Some l) =
      Some (m, List.length (filter per_task_only ds)) /\
    largest_need
      (job_tasks_needed node_count sockets_per_node ntasks_per_tres) ds m.
Proof.
  intros Hn Hv E Hfit.
  exists (max_need
            (job_tasks_needed node_count sockets_per_node ntasks_per_tres)
            ds 0).
  split; [|apply max_need_largest].
  unfold gres_select_util_job_min_tasks.
  apply Z.eqb_neq in Hn, Hv. rewrite Hn, Hv. simpl orb. cbv iota.
  destruct (list_count l =? 0) eqn:Ec.
  - apply list_count_nil in Ec. subst l. inversion E; subst. reflexivity.
  - assert (Eid : match gres_name with
                  | Some nm =>
                      if negb (String.eqb nm "")
                      then uint32 (gres_build_id nm) else 0
                  | None => 0
                  end = filter_id gres_build_id gres_name).
    { unfold filter_id. destruct gres_name as [nm|]; [|reflexivity].
      destruct (String.eqb nm ""); reflexivity. }
    rewrite Eid.
    rewrite (gres_select_util_job_min_tasks_loop_spec _ _ _ _ l ds 0 O E Hfit)
      by lia.
    reflexivity.
Qed.

Lemma not_negative_min_cpus_loop
    (node_count sockets_per_node task_count : Z) (l : list gres_state_t) :
  forall acc, 0 <= acc ->
    not_negative (gres_select_util_job_min_cpus_loop node_count
                    sockets_per_node task_count l acc).
Proof.
  induction l as [|g rest IH]; intros acc Hacc; simpl; [exact Hacc|].
  destruct (gres_data g) as [d|]; [|exact I].
  repeat match goal with
         | |- context [if ?b then _ else _] => destruct b
         end;
    apply IH; rewrite ?MAX_spec; lia.
Qed.

Lemma not_negative_min_cpu_node_loop
    (sockets_per_node tasks_per_node : Z) (l : list gres_state_t) :
  forall acc, 0 <= acc ->
    not_negative (gres_select_util_job_min_cpu_node_loop sockets_per_node
                    tasks_per_node l acc).
Proof.
  induction l as [|g rest IH]; intros acc Hacc; simpl; [exact Hacc|].
  destruct (gres_data g) as [d|]; [|exact I].
  match goal with
  | |- context [if ?b =? 0 then _ else _] => destruct (b =? 0)
  end;
    apply IH; rewrite ?MAX_spec; lia.
Qed.

Lemma not_negative_min_tasks_loop
    (node_count sockets_per_node ntasks_per_tres id : Z)
    (l : list gres_state_t) :
  forall acc errors, 0 <= acc ->
    not_negative
      (option_map fst
         (gres_select_util_job_min_tasks_loop node_count sockets_per_node
            ntasks_per_tres id l acc errors)).
Proof.
  induction l as [|g rest IH]; intros acc errors Hacc; simpl; [exact Hacc|].
  destruct (negb (id =? 0) && negb (id =? plugin_id g));
    [apply IH; exact Hacc|].
  destruct (gres_data g) as [d|]; [|exact I].
  repeat match goal with
         | |- context [if ?b then _ else _] => destruct b
         end;
    apply IH; rewrite ?MAX_spec; lia.
Qed.

(** X6.  The three minima are computed as [int]s from 64-bit products, so
    a product can come out wrong or negative; whatever the list and the
    counts, a result that is returned is never negative, because each
    maximum starts from zero. *)
Theorem gres_select_util_job_min_never_negative
    (NO_VAL16 : Z) (gres_build_id : string -> Z)
    (node_count sockets_per_node task_count tasks_per_node ntasks_per_tres : Z)
    (gres_name : option string) (job_gres_list : option (list gres_state_t)) :
  not_negative
    (gres_select_util_job_min_cpus node_count sockets_per_node task_count
       job_gres_list) /\
  not_negative
    (gres_select_util_job_min_cpu_node sockets_per_node tasks_per_node
       job_gres_list) /\
  not_negative
    (option_map fst
       (gres_select_util_job_min_tasks NO_VAL16 gres_build_id node_count
          sockets_per_node ntasks_per_tres gres_name job_gres_list)).
Proof.
  unfold gres_select_util_job_min_cpus, gres_select_util_job_min_cpu_node,
    gres_select_util_job_min_tasks.
  destruct job_gres_list as [l|].
  - repeat split.
    + destruct (list_count l =? 0); [simpl; lia|].
      apply not_negative_min_cpus_loop. lia.
    + destruct (list_count l =? 0); [simpl; lia|].
      apply not_negative_min_cpu_node_loop. lia.
    + destruct ((ntasks_per_tres =? 0) || (ntasks_per_tres =? NO_VAL16));
        [simpl; lia|].
      destruct (list_count l =? 0); [simpl; lia|].
      apply not_negative_min_tasks_loop. lia.
  - repeat split; try (simpl; lia).
    destruct ((ntasks_per_tres =? 0) || (ntasks_per_tres =? NO_VAL16));
      simpl; lia.
Qed.

(** ** gres_select_util.c: tres-per-task and the defaults *)

(** X7.  [gres_select_util_job_tres_per_task] stops at the first request
    with a count per task: the elements after it are not looked at, not
    even one without data; a list of requests without any count per task
    gives false, and so does no list. *)
Theorem gres_select_util_job_tres_per_task_first
    (pre post : list gres_state_t) (ps : list gres_job_state_t) :
  job_requests pre = Some ps ->
  forallb (fun d => negb (has_per_task d)) ps = true ->
  gres_select_util_job_tres_per_task (Some pre) = Some false /\
  gres_select_util_job_tres_per_task None = Some false /\
  (forall g d, gres_data g = Some d -> has_per_task d = true ->
     gres_select_util_job_tres_per_task (Some (pre ++ g :: post)) =
       Some true) /\
  (forall g, gres_data g = None ->
     gres_select_util_job_tres_per_task (Some (pre ++ g :: post)) = None).
Proof.
  unfold gres_select_util_job_tres_per_task, has_per_task.
  revert ps. induction pre as [|p pre IH]; intros ps E Hall.
  - simpl. split; [reflexivity|split; [reflexivity|split]].
    + intros g d Hg Hd. rewrite Hg, Hd. reflexivity.
    + intros g Hg. rewrite Hg. reflexivity.
  - simpl in E. destruct (gres_data p) as [d0|] eqn:Ep; [|discriminate].
    destruct (job_requests pre) as [ps0|] eqn:Er; [|discriminate].
    inversion E; subst ps. clear E.
    simpl in Hall. apply andb_true_iff in Hall. destruct Hall as [H0 Hall].
    rewrite negb_involutive in H0.
    destruct (IH ps0 eq_refl Hall) as (I1 & _ & I3 & I4).
    simpl. rewrite Ep, H0. simpl negb. cbv iota.
    split; [exact I1|split; [reflexivity|split; assumption]].
Qed.

Lemma tres_after_cons (own : gres_job_state_t -> Z) (v : Z)
    (d : gres_job_state_t) (ds : list gres_job_state_t) (s : option string) :
  tres_after own v ds
    (if own d =? 0
     then (if negb (v =? 0) then Some (gpu_tres_string v) else None)
     else s) =
  tres_after own v (d :: ds) s.
Proof.
  unfold tres_after. simpl existsb.
  destruct (own d =? 0); simpl orb; [|reflexivity].
  destruct (existsb (fun d0 => own d0 =? 0) ds); reflexivity.
Qed.

Lemma gres_select_util_job_set_defs_loop_spec (id cpu_per_gpu mem_per_gpu : Z)
    (l : list gres_state_t) :
  forall (c m : option string) (t : Z),
    gres_select_util_job_set_defs_loop id cpu_per_gpu mem_per_gpu l c m t =
      (map (with_defs id cpu_per_gpu mem_per_gpu) l,
       tres_after cpus_per_gres cpu_per_gpu (requests_of id l) c,
       tres_after mem_per_gres mem_per_gpu (requests_of id l) m,
       cpus_per_task_after cpu_per_gpu (requests_of id l) t).
Proof.
  induction l as [|g rest IH]; intros c m t; [reflexivity|].
  simpl. unfold with_defs at 1.
  destruct (plugin_id g =? id); simpl negb; cbv iota.
  2:{ rewrite IH. reflexivity. }
  destruct (gres_data g) as [d|].
  2:{ rewrite IH. reflexivity. }
  rewrite IH. simpl app.
  change (cpus_per_gres (set_def_per_gres d cpu_per_gpu mem_per_gpu))
    with (cpus_per_gres d).
  change (mem_per_gres (set_def_per_gres d cpu_per_gpu mem_per_gpu))
    with (mem_per_gres d).
  change (gres_per_task (set_def_per_gres d cpu_per_gpu mem_per_gpu))
    with (gres_per_task d).
  rewrite (tres_after_cons cpus_per_gres), (tres_after_cons mem_per_gres).
  reflexivity.
Qed.

Lemma set_defs_name_ok_run (gres_name : string) :
  set_defs_name_ok gres_name ->
  negb NDEBUG && negb (String.eqb gres_name "gpu") = false.
Proof.
  intros [Hn| ->]; [rewrite Hn; reflexivity|].
  rewrite String.eqb_refl. apply andb_false_r.
Qed.

(** X8.  [gres_select_util_job_set_defs] with a name that passes its
    assertion: every request of the plugin of that name gets the two
    defaults, the CPUs cut to 16 bits, and nothing else in the list
    changes: elements of other plugins and elements without data stay as
    they are, in the same order.  Each displayed string is replaced, by
    the new default or by nothing when the default is zero, exactly when
    a request of the plugin has no value of its own.  Without a list
    nothing changes; in a debug build another name stops the program. *)
Theorem gres_select_util_job_set_defs_result
    (gres_build_id : string -> Z) (gres_name : string)
    (cpu_per_gpu mem_per_gpu : Z) (l : list gres_state_t)
    (cpus_per_tres mem_per_tres : option string) (cpus_per_task : Z) :
  (set_defs_name_ok gres_name ->
   (exists t,
      gres_select_util_job_set_defs gres_build_id (Some l) gres_name
        cpu_per_gpu mem_per_gpu cpus_per_tres mem_per_tres cpus_per_task =
      Some (Some (map (with_defs (gres_build_id gres_name) cpu_per_gpu
                         mem_per_gpu) l),
            tres_after cpus_per_gres cpu_per_gpu
              (requests_of (gres_build_id gres_name) l) cpus_per_tres,
            tres_after mem_per_gres mem_per_gpu
              (requests_of (gres_build_id gres_name) l) mem_per_tres,
            t)) /\
   gres_select_util_job_set_defs gres_build_id None gres_name
     cpu_per_gpu mem_per_gpu cpus_per_tres mem_per_tres cpus_per_task =
     Some (None, cpus_per_tres, mem_per_tres, cpus_per_task)) /\
  (NDEBUG = false -> gres_name <> "gpu"%string ->
   forall job_gres_list,
     gres_select_util_job_set_defs gres_build_id job_gres_list gres_name
       cpu_per_gpu mem_per_gpu cpus_per_tres mem_per_tres cpus_per_task =
     None).
Proof.
  unfold gres_select_util_job_set_defs. split.
  - intros Hok. rewrite (set_defs_name_ok_run _ Hok). split; [|reflexivity].
    rewrite gres_select_util_job_set_defs_loop_spec. eexists. reflexivity.
  - intros Hn Hg job_gres_list. rewrite Hn.
    apply String.eqb_neq in Hg. rewrite Hg. reflexivity.
Qed.

Lemma cpus_per_task_after_max (cpu_per_gpu : Z) (ds : list gres_job_state_t) :
  forall t,
    0 <= t < 2 ^ 16 ->
    (forall d c, In d ds -> task_cpus_needed cpu_per_gpu d = Some c ->
       0 <= c < 2 ^ 16) ->
    cpus_per_task_after cpu_per_gpu ds t =
      max_need (task_cpus_needed cpu_per_gpu) ds t.
Proof.
  unfold cpus_per_task_after.
  induction ds as [|d ds IH]; intros t Ht Hfit; [reflexivity|].
  rewrite max_need_cons. simpl fold_left.
  pose proof (fun c => Hfit d c (or_introl eq_refl)) as Hd.
  revert Hd. unfold task_cpus_needed at 1 3.
  destruct (negb (cpu_per_gpu =? 0) && negb (gres_per_task d =? 0));
    intros Hd.
  - specialize (Hd _ eq_refl).
    unfold uint64. rewrite (Z.mod_small (gres_per_task d * cpu_per_gpu))
      by lia.
    rewrite MAX_spec. unfold uint16. rewrite Z.mod_small by lia.
    apply IH; [lia|]. intros d' c Hin. apply Hfit. right. exact Hin.
  - apply IH; [exact Ht|]. intros d' c Hin. apply Hfit. right. exact Hin.
Qed.

(** X9.  [gres_select_util_job_set_defs] and [*cpus_per_task]: as long as
    the CPUs per task and every product of a count per task and the CPUs
    per GPU fit 16 bits, the CPUs per task are never lowered and end as
    the largest of their old value and the products of the requests of
    the plugin. *)
Theorem gres_select_util_job_set_defs_cpus_per_task
    (gres_build_id : string -> Z) (gres_name : string)
    (cpu_per_gpu mem_per_gpu : Z) (l : list gres_state_t)
    (cpus_per_tres mem_per_tres : option string) (cpus_per_task : Z) :
  set_defs_name_ok gres_name ->
  0 <= cpus_per_task < 2 ^ 16 ->
  (forall d c, In d (requests_of (gres_build_id gres_name) l) ->
     task_cpus_needed cpu_per_gpu d = Some c -> 0 <= c < 2 ^ 16) ->
  exists l' c' m' t,
    gres_select_util_job_set_defs gres_build_id (Some l) gres_name
      cpu_per_gpu mem_per_gpu cpus_per_tres mem_per_tres cpus_per_task =
      Some (l', c', m', t) /\
    cpus_per_task <= t /\
    (forall d c, In d (requests_of (gres_build_id gres_name) l) ->
       task_cpus_needed cpu_per_gpu d = Some c -> c <= t) /\
    (t = cpus_per_task \/
     exists d, In d (requests_of (gres_build_id gres_name) l) /\
               task_cpus_needed cpu_per_gpu d = Some t).
Proof.
  intros Hok Ht Hfit.
  unfold gres_select_util_job_set_defs.
  rewrite (set_defs_name_ok_run _ Hok).
  rewrite gres_select_util_job_set_defs_loop_spec.
  rewrite (cpus_per_task_after_max _ _ _ Ht Hfit).
  do 4 eexists. split; [reflexivity|].
  apply max_need_spec.
Qed.

(** X10.  The other side of the 16 bits: for a list of one request of the
    plugin whose product of count per task and CPUs per GPU does not fit
    16 bits, [*cpus_per_task] ends as the low 16 bits of the product,
    whatever it was before, so it can be lowered. *)
Theorem gres_select_util_job_set_defs_cpus_per_task_wraps
    (gres_build_id : string -> Z) (gres_name : string)
    (cpu_per_gpu mem_per_gpu : Z) (g : gres_state_t) (d : gres_job_state_t)
    (cpus_per_tres mem_per_tres : option string) (cpus_per_task : Z) :
  set_defs_name_ok gres_name ->
  plugin_id g = gres_build_id gres_name ->
  gres_data g = Some d ->
  0 <= cpus_per_task < 2 ^ 16 ->
  2 ^ 16 <= gres_per_task d * cpu_per_gpu < 2 ^ 64 ->
  exists l' c' m',
    gres_select_util_job_set_defs gres_build_id (Some [g]) gres_name
      cpu_per_gpu mem_per_gpu cpus_per_tres mem_per_tres cpus_per_task =
      Some (l', c', m', (gres_per_task d * cpu_per_gpu) mod 2 ^ 16).
Proof.
  intros Hok Hid Hg Ht Hp.
  unfold gres_select_util_job_set_defs.
  rewrite (set_defs_name_ok_run _ Hok).
  rewrite gres_select_util_job_set_defs_loop_spec.
  do 3 eexists. f_equal. f_equal.
  unfold requests_of. simpl flat_map.
  rewrite Hid, Z.eqb_refl, Hg. simpl app.
  unfold cpus_per_task_after. simpl fold_left.
  assert (Hc : (cpu_per_gpu =? 0) = false) by (apply Z.eqb_neq; nia).
  assert (Hpt : (gres_per_task d =? 0) = false) by (apply Z.eqb_neq; nia).
  rewrite Hc, Hpt. simpl.
  unfold uint64. rewrite Z.mod_small by lia.
  rewrite MAX_spec, Z.max_r by lia. reflexivity.
Qed.

(** ** add_connection *)

Lemma on_return_fstat (fd : Z) (w : world) (Q : Z * stat_t -> world -> Prop) :
  (forall r e st, os_fstat (trace w) fd = (r, e, st) ->
                  Q (r, st) (after_syscall (ev_fstat fd r) r e w)) ->
  on_return (fstat fd) w Q.
Proof.
  intros HQ a w' E. rewrite fstat_run in E. inversion E; subst.
  apply HQ. destruct (os_fstat (trace w) fd) as [[r e] st]. reflexivity.
Qed.

Lemma on_return_set_mgr (m : mgr_t) (w : world) (Q : unit -> world -> Prop) :
  Q tt {| mgr := m; sig := sig w; slurm_conf := slurm_conf w;
          errno := errno w; trace := trace w |} ->
  on_return (set_mgr m) w Q.
Proof. intros HQ a w' E. inversion E; subst. exact HQ. Qed.

Lemma ev_is_fstat_of_add_connection (in_fd out_fd : Z) (keep_alive : bool)
    (e : event) :
  ev_is_fstat_of in_fd out_fd e = true ->
  ev_is_add_connection in_fd out_fd keep_alive e = true.
Proof. destruct e; simpl; intros H; (exact H || discriminate H). Qed.

Lemma add_connection_post_error (t : conmgr_con_type_t)
    (source : option conmgr_fd_t) (in_fd out_fd : Z) (ev : conmgr_events_t)
    (listen : bool) (unix_socket_path : option string) (new_arg_ : Z)
    (w w' : world) :
  frame (ev_is_fstat_of in_fd out_fd) w w' ->
  add_connection_post t source in_fd out_fd ev listen unix_socket_path
    new_arg_ w SLURM_ERROR w'.
Proof.
  intros (Hm & Hs & Hc & evs & Ht & He).
  split; [exact Hs|split; [exact Hc|]].
  exists evs. split; [exact Ht|split].
  - rewrite forallb_forall in *. intros e Hin.
    apply ev_is_fstat_of_add_connection. auto.
  - left. auto.
Qed.

Lemma on_return_add_connection (t : conmgr_con_type_t)
    (source : option conmgr_fd_t) (in_fd out_fd : Z) (ev : conmgr_events_t)
    (addr : option slurm_addr_t) (addrlen : Z) (listen : bool)
    (unix_socket_path : option string) (new_arg_ : Z) (w : world) :
  on_return
    (add_connection t source in_fd out_fd ev addr addrlen listen
       unix_socket_path new_arg_) w
    (add_connection_post t source in_fd out_fd ev listen unix_socket_path
       new_arg_ w).
Proof.
  unfold add_connection. cbv zeta.
  apply on_return_bind.
  apply on_return_weaken
    with (Q := fun _ w1 => frame (ev_is_fstat_of in_fd out_fd) w w1).
  { destruct (0 <=? in_fd).
    - apply on_return_fstat. intros r e st _.
      apply frame_after_syscall; [|apply frame_refl].
      simpl. rewrite Z.eqb_refl. reflexivity.
    - step. apply frame_refl. }
  intros in_st w1 F1.
  destruct (negb (fst in_st =? 0)) eqn:E1.
  { step. step. step. apply add_connection_post_error.
    apply frame_logged; [reflexivity|exact F1]. }
  apply on_return_bind.
  apply on_return_weaken
    with (Q := fun _ w2 => frame (ev_is_fstat_of in_fd out_fd) w w2).
  { destruct (0 <=? out_fd).
    - apply on_return_fstat. intros r e st _.
      apply frame_after_syscall; [|exact F1].
      simpl. rewrite Z.eqb_refl, orb_true_r. reflexivity.
    - step. exact F1. }
  intros out_st w2 F2.
  destruct (negb (fst out_st =? 0)) eqn:E2.
  { step. step. step. apply add_connection_post_error.
    apply frame_logged; [reflexivity|exact F2]. }
  set (socket_ := (0 <=? in_fd) && S_ISSOCK _ || (0 <=? out_fd) && S_ISSOCK _).
  clearbody socket_.
  set (P := ev_is_add_connection in_fd out_fd
              (negb listen && negb (is_some unix_socket_path))).
  assert (F2' : frame P w w2).
  { apply (frame_weaken (ev_is_fstat_of in_fd out_fd)); [|exact F2].
    intros e. apply ev_is_fstat_of_add_connection. }
  assert (Hka : negb (is_some unix_socket_path) && socket_ && negb listen
                = true ->
                negb listen && negb (is_some unix_socket_path) = true).
  { destruct (is_some unix_socket_path), socket_, listen;
      simpl; intros H; (exact H || reflexivity). }
  assert (Hin : P (ev_fd_set_nonblocking in_fd) = true /\
                P (ev_fd_set_nonblocking out_fd) = true /\
                (negb listen && negb (is_some unix_socket_path) = true ->
                 P (ev_net_set_keep_alive in_fd) = true /\
                 P (ev_net_set_keep_alive out_fd) = true)).
  { unfold P. simpl. rewrite !Z.eqb_refl, !orb_true_r. simpl.
    repeat split; try reflexivity; rewrite H; reflexivity. }
  destruct Hin as (Hnb_in & Hnb_out & Hkeep).
  apply on_return_bind.
  apply on_return_weaken with (Q := fun _ w3 => frame P w w3).
  { destruct (0 <=? in_fd); unfold when; [|step; exact F2'].
    step.
    destruct (negb (is_some unix_socket_path) && socket_ && negb listen)
      eqn:Ek.
    - unfold net_set_keep_alive, fd_set_nonblocking. step. step.
      apply frame_emit; [exact Hnb_in|].
      apply frame_emit; [apply Hkeep, Hka; reflexivity|exact F2'].
    - unfold fd_set_nonblocking. step. step.
      apply frame_emit; [exact Hnb_in|exact F2']. }
  intros u3 w3 F3.
  apply on_return_bind.
  apply on_return_weaken with (Q := fun _ w4 => frame P w w4).
  { destruct (negb (in_fd =? out_fd) && (0 <=? out_fd)); unfold when;
      [|step; exact F3].
    unfold fd_set_nonblocking. step. step.
    destruct (negb (is_some unix_socket_path) && socket_ && negb listen)
      eqn:Ek.
    - unfold net_set_keep_alive. step.
      apply frame_emit; [apply Hkeep, Hka; reflexivity|].
      apply frame_emit; [exact Hnb_out|exact F3].
    - step. apply frame_emit; [exact Hnb_out|exact F3]. }
  intros u4 w4 F4.
  apply on_return_bind.
  apply on_return_weaken with (Q := fun _ w5 => w5 = w4).
  { steps; reflexivity. }
  intros u5 w5 ->.
  apply on_return_bind.
  apply on_return_weaken with (Q := fun _ w6 => w6 = w4).
  { steps; reflexivity. }
  intros u6 w6 ->.
  apply on_return_bind.
  apply on_return_weaken with (Q := fun _ w7 => w7 = w4).
  { unfold _set_connection_name. steps; reflexivity. }
  intros nm w7 ->.
  apply on_return_bind.
  apply on_return_weaken with (Q := fun _ w8 => w8 = w4).
  { unfold _check_con_type. destruct NDEBUG; [step; reflexivity|].
    destruct t; steps; reflexivity. }
  intros u8 w8 ->.
  match goal with
  | |- context [list_append_connections ?c] => set (con := c)
  end.
  assert (Hnew : new_connection t source in_fd out_fd ev listen
                   unix_socket_path new_arg_ con).
  { unfold new_connection, con. simpl.
    repeat (split; [reflexivity|]).
    split; [symmetry; apply Z.ltb_antisym|].
    repeat (split; [reflexivity|]).
    destruct listen; [split; reflexivity|].
    split; [|reflexivity]. eexists. repeat split; reflexivity. }
  assert (Hl : is_listen con = listen) by reflexivity.
  clearbody con.
  pose proof (frame_logged P LOG_FLAG_CONMGR "add_connection"
                "new connection" w w4 eq_refl F4) as F5.
  unfold list_append_listen_conns, list_append_connections.
  step. step. step.
  set (wl := logged LOG_FLAG_CONMGR "add_connection" "new connection" w4)
    in *.
  clearbody wl.
  destruct F5 as (Hm & Hs & Hc & evs & Ht & He).
  destruct listen;
    repeat (first [step | apply on_return_set_mgr]);
    (split; [exact Hs|split; [exact Hc|]];
     exists (ev_event_signal_watch_sleep :: ev_pollctl_interrupt :: evs);
     simpl; split; [rewrite Ht; reflexivity|];
     split; [exact He|];
     right; split; [reflexivity|];
     exists con; split; [|exact Hnew];
     unfold registered; simpl; rewrite Hm; repeat split).
Qed.




Lemma returns_add_connection (t : conmgr_con_type_t)
    (source : option conmgr_fd_t) (in_fd out_fd : Z) (ev : conmgr_events_t)
    (addr : option slurm_addr_t) (addrlen : Z) (listen : bool)
    (unix_socket_path : option string) (new_arg_ : Z) (w : world) :
  NDEBUG = true \/
    add_connection_asserts t out_fd ev listen unix_socket_path ->
  returns
    (add_connection t source in_fd out_fd ev addr addrlen listen
       unix_socket_path new_arg_) w (fun _ _ => True).
Proof.
  intros Hok.
  unfold add_connection. cbv zeta.
  apply returns_bind.
  apply returns_weaken with (Q := fun _ _ => True).
  { destruct (0 <=? in_fd); [apply returns_fstat; intros|step]; exact I. }
  intros in_st w1 _.
  destruct (negb (fst in_st =? 0)); [steps; exact I|].
  apply returns_bind.
  apply returns_weaken with (Q := fun _ _ => True).
  { destruct (0 <=? out_fd); [apply returns_fstat; intros|step]; exact I. }
  intros out_st w2 _.
  destruct (negb (fst out_st =? 0)); [steps; exact I|].
  set (socket_ := (0 <=? in_fd) && S_ISSOCK _ || (0 <=? out_fd) && S_ISSOCK _).
  clearbody socket_.
  apply returns_bind.
  apply returns_weaken with (Q := fun _ _ => True); [steps; exact I|].
  intros u3 w3 _.
  apply returns_bind.
  apply returns_weaken with (Q := fun _ _ => True); [steps; exact I|].
  intros u4 w4 _.
  apply returns_bind.
  apply returns_weaken with (Q := fun _ _ => True).
  { destruct Hok as [Hn|(Hp & _)].
    - destruct (is_some unix_socket_path); unfold when; steps; exact I.
    - rewrite Hp. simpl. step. exact I. }
  intros u5 w5 _.
  apply returns_bind.
  apply returns_weaken with (Q := fun _ _ => True).
  { destruct Hok as [Hn|(Hp & _)].
    - rewrite Hn. simpl. step. exact I.
    - rewrite Hp.
      destruct (negb NDEBUG); unfold when; [|step; exact I].
      destruct source as [s|]; [destruct (unix_socket s)|]; step; exact I. }
  intros u6 w6 _.
  apply returns_bind.
  apply returns_weaken with (Q := fun _ _ => True).
  { unfold _set_connection_name. steps; exact I. }
  intros nm w7 _.
  apply returns_bind.
  apply returns_weaken with (Q := fun _ _ => True).
  { unfold _check_con_type. destruct NDEBUG eqn:En; [step; exact I|].
    destruct Hok as [Hn|(_ & Hcb & _)]; [discriminate Hn|].
    destruct t; simpl in Hcb; try discriminate Hcb; simpl events;
      step; exact I. }
  intros u8 w8 _.
  unfold list_append_listen_conns, list_append_connections.
  step. step. step.
  apply returns_weaken with (Q := fun _ _ => True).
  2:{ intros u9 w9 _. steps. exact I. }
  destruct listen.
  - assert (Ho : NDEBUG = true \/ (out_fd <=? 0) = true).
    { destruct Hok as [Hn|(_ & _ & Hl)]; [left; exact Hn|right].
      apply Z.leb_le. apply Hl. reflexivity. }
    simpl output_fd. step. step. step. step.
    apply returns_set_mgr. exact I.
  - step. step. apply returns_set_mgr. exact I.
Qed.

(** The run of [add_connection] from start to end. *)
Lemma add_connection_run (t : conmgr_con_type_t)
    (source : option conmgr_fd_t) (in_fd out_fd : Z) (ev : conmgr_events_t)
    (addr : option slurm_addr_t) (addrlen : Z) (listen : bool)
    (unix_socket_path : option string) (new_arg_ : Z) (w : world) :
  NDEBUG = true \/
    add_connection_asserts t out_fd ev listen unix_socket_path ->
  returns
    (add_connection t source in_fd out_fd ev addr addrlen listen
       unix_socket_path new_arg_) w
    (add_connection_post t source in_fd out_fd ev listen unix_socket_path
       new_arg_ w).
Proof.
  intros Hok.
  eapply returns_weaken.
  - apply returns_on_return;
      [apply returns_add_connection; exact Hok
      |apply on_return_add_connection].
  - intros rc w' [_ H]. exact H.
Qed.

(** X11.  [add_connection], in a release build or when its assertions
    hold: it returns, and either it gave up with [SLURM_ERROR] and left
    the registry as it was, or it returned [SLURM_SUCCESS] and appended
    exactly one connection, to the listeners when [is_listen] and to the
    connections otherwise; the other list is untouched.  The connection
    has the descriptors, type, callbacks and argument of the call, polls
    nothing yet, is at end of input exactly when it has no input
    descriptor, inherits the unix socket path of its source when it is
    given none, and has buffers exactly when it does not listen. *)
Theorem add_connection_registers (t : conmgr_con_type_t)
    (source : option conmgr_fd_t) (in_fd out_fd : Z) (ev : conmgr_events_t)
    (addr : option slurm_addr_t) (addrlen : Z) (listen : bool)
    (unix_socket_path : option string) (new_arg_ : Z) (w : world) :
  NDEBUG = true \/
    add_connection_asserts t out_fd ev listen unix_socket_path ->
  exists rc w',
    add_connection t source in_fd out_fd ev addr addrlen listen
      unix_socket_path new_arg_ w = Ret rc w' /\
    ((rc = SLURM_ERROR /\ mgr w' = mgr w) \/
     (rc = SLURM_SUCCESS /\
      exists con,
        registered listen con (mgr w) (mgr w') /\
        new_connection t source in_fd out_fd ev listen unix_socket_path
          new_arg_ con)).
Proof.
  intros Hok.
  destruct (add_connection_run t source in_fd out_fd ev addr addrlen listen
              unix_socket_path new_arg_ w Hok)
    as (rc & w' & E & _ & _ & evs & _ & _ & H).
  exists rc, w'. split; [exact E|].
  destruct H as [(Hrc & Hm & _)|H]; [left; split; assumption|right; exact H].
Qed.

(** X12.  What [add_connection] does outside the registry, in a release
    build or when its assertions hold: it leaves the signal bridge and
    the configuration alone and makes no call on a descriptor other than
    its two; it asks for keep-alive only when it is called for a
    connection that does not listen and without unix socket path, the
    path a connection inherits from its source playing no part; and when
    it gives up it has only called [fstat]: no descriptor was made
    non-blocking and the watch loop was not woken. *)
Theorem add_connection_calls (t : conmgr_con_type_t)
    (source : option conmgr_fd_t) (in_fd out_fd : Z) (ev : conmgr_events_t)
    (addr : option slurm_addr_t) (addrlen : Z) (listen : bool)
    (unix_socket_path : option string) (new_arg_ : Z) (w : world) :
  NDEBUG = true \/
    add_connection_asserts t out_fd ev listen unix_socket_path ->
  exists rc w' evs,
    add_connection t source in_fd out_fd ev addr addrlen listen
      unix_socket_path new_arg_ w = Ret rc w' /\
    sig w' = sig w /\ slurm_conf w' = slurm_conf w /\
    trace w' = evs ++ trace w /\
    forallb (ev_is_add_connection in_fd out_fd
               (negb listen && negb (is_some unix_socket_path))) evs = true /\
    (rc <> SLURM_SUCCESS ->
     forallb (ev_is_fstat_of in_fd out_fd) evs = true).
Proof.
  intros Hok.
  destruct (add_connection_run t source in_fd out_fd ev addr addrlen listen
              unix_socket_path new_arg_ w Hok)
    as (rc & w' & E & Hs & Hc & evs & Ht & He & H).
  exists rc, w', evs. repeat (split; [assumption|]).
  intros Hrc. destruct H as [(_ & _ & Hf)|(Hrc' & _)]; [exact Hf|].
  contradiction.
Qed.

(** ** conmgr_create_connect_socket *)

(** [add_connection] gives up only when [fstat] failed on one of its
    descriptors. *)
Lemma on_return_add_connection_error (t : conmgr_con_type_t)
    (source : option conmgr_fd_t) (in_fd out_fd : Z) (ev : conmgr_events_t)
    (addr : option slurm_addr_t) (addrlen : Z) (listen : bool)
    (unix_socket_path : option string) (new_arg_ : Z) (w : world) :
  on_return
    (add_connection t source in_fd out_fd ev addr addrlen listen
       unix_socket_path new_arg_) w
    (fun rc _ =>
       rc = SLURM_SUCCESS \/
       exists tr fd, (fd = in_fd \/ fd = out_fd) /\
                     fst (fst (os_fstat tr fd)) <> 0).
Proof.
  unfold add_connection. cbv zeta.
  apply on_return_bind.
  apply on_return_weaken
    with (Q := fun in_st _ =>
                 fst in_st = 0 \/
                 exists tr fd, (fd = in_fd \/ fd = out_fd) /\
                               fst (fst (os_fstat tr fd)) <> 0).
  { destruct (0 <=? in_fd).
    - apply on_return_fstat. intros r e st E. simpl.
      destruct (Z.eq_dec r 0) as [Hr|Hr]; [left; exact Hr|right].
      exists (trace w), in_fd. split; [left; reflexivity|].
      rewrite E. exact Hr.
    - step. left. reflexivity. }
  intros in_st w1 H1.
  destruct (negb (fst in_st =? 0)) eqn:E1.
  { apply negb_true_iff, Z.eqb_neq in E1.
    destruct H1 as [H1|H1]; [contradiction|].
    steps. right. exact H1. }
  apply on_return_bind.
  apply on_return_weaken
    with (Q := fun out_st _ =>
                 fst out_st = 0 \/
                 exists tr fd, (fd = in_fd \/ fd = out_fd) /\
                               fst (fst (os_fstat tr fd)) <> 0).
  { destruct (0 <=? out_fd).
    - apply on_return_fstat. intros r e st E. simpl.
      destruct (Z.eq_dec r 0) as [Hr|Hr]; [left; exact Hr|right].
      exists (trace w1), out_fd. split; [right; reflexivity|].
      rewrite E. exact Hr.
    - step. left. reflexivity. }
  intros out_st w2 H2.
  destruct (negb (fst out_st =? 0)) eqn:E2.
  { apply negb_true_iff, Z.eqb_neq in E2.
    destruct H2 as [H2|H2]; [contradiction|].
    steps. right. exact H2. }
  repeat (apply on_return_bind; apply on_return_any; intros ? ?).
  step. left. reflexivity.
Qed.

(** Up to the first [connect]: the socket is created and made
    non-blocking. *)
Lemma conmgr_create_connect_socket_start (fuel : nat)
    (t : conmgr_con_type_t) (addr : slurm_addr_t) (addrlen : Z)
    (ev : conmgr_events_t) (arg_ : Z) (w : world) :
  family_supported addr = true ->
  0 <= fst (os_socket (trace w) (ss_family addr)) ->
  conmgr_create_connect_socket fuel t addr addrlen ev arg_ w =
    match conmgr_create_connect_socket_again fuel
            (fst (os_socket (trace w) (ss_family addr))) addr
            (connect_started (ss_family addr)
               (fst (os_socket (trace w) (ss_family addr)))
               (snd (os_socket (trace w) (ss_family addr))) w) with
    | Ret (Some rc) w' => Ret rc w'
    | Ret None w' =>
        add_connection t None (fst (os_socket (trace w) (ss_family addr)))
          (fst (os_socket (trace w) (ss_family addr))) ev (Some addr)
          addrlen false None arg_ w'
    | Fatal w' => Fatal w'
    | Spin w' => Spin w'
    end.
Proof.
  intros Hs Hfd.
  assert (E : conmgr_create_connect_socket fuel t addr addrlen ev arg_ w =
              bind (socket (ss_family addr))
                (fun fd =>
                   if fd <? 0 then
                     bind get_errno
                       (fun rc =>
                          bind (log_flag LOG_FLAG_NET
                                  "conmgr_create_connect_socket"
                                  "socket() failed")
                               (fun _ => ret rc))
                   else
                     bind (fd_set_nonblocking fd)
                       (fun _ =>
                          bind (log_flag LOG_FLAG_CONMGR
                                  "conmgr_create_connect_socket"
                                  "attempting to connect() new socket")
                            (fun _ =>
                               bind (conmgr_create_connect_socket_again
                                       fuel fd addr)
                                 (fun r =>
                                    match r with
                                    | Some rc => ret rc
                                    | None =>
                                        add_connection t None fd fd ev
                                          (Some addr) addrlen false None
                                          arg_
                                    end)))) w).
  { unfold conmgr_create_connect_socket, family_supported in *.
    destruct (ss_family addr); try discriminate Hs; reflexivity. }
  rewrite E. unfold socket.
  rewrite (bind_Ret _ _ _ _ _ (syscall_run _ _ w)).
  apply Z.ltb_ge in Hfd. rewrite Hfd.
  unfold fd_set_nonblocking, bind at 1, emit.
  rewrite (bind_Ret _ _ _ _ _ (log_flag_run _ _ _ _)).
  unfold bind, ret, connect_started, after_event.
  destruct (conmgr_create_connect_socket_again _ _ _ _) as [[rc|] w'|w'|w'];
    reflexivity.
Qed.

Lemma connect_started_mgr (family : sa_family_t) (fd e : Z) (w : world) :
  mgr (connect_started family fd e w) = mgr w.
Proof. unfold connect_started. rewrite logged_mgr. reflexivity. Qed.

(** C7 (amended).  [conmgr_create_connect_socket] returns [EAFNOSUPPORT]
    for an address that is neither IPv4, IPv6 nor unix, and then does
    nothing else.  For the three families it creates a socket; when that
    fails it logs that and returns the error of [socket].  Otherwise, in a
    release build or with the registry initialized, it calls [connect],
    again after every call that was interrupted while no shutdown is
    requested, and the first other answer decides.  Success, and a failure
    with EINPROGRESS, EAGAIN or EWOULDBLOCK, go on to [add_connection]
    with the socket as both descriptors, which, in a release build or
    when the callback of the type is there, registers the connection and
    returns success unless its [fstat] fails: then it returns
    [SLURM_ERROR] and the registry is as before.  An interrupted call
    while shutdown is requested is logged, closes the socket and returns
    success.  Any other error is logged, closes the socket and is
    returned. *)
Theorem conmgr_create_connect_socket_outcome (fuel k : nat)
    (t : conmgr_con_type_t) (addr : slurm_addr_t) (addrlen : Z)
    (ev : conmgr_events_t) (arg_ : Z) (w : world) :
  let fd := fst (os_socket (trace w) (ss_family addr)) in
  let w0 := connect_started (ss_family addr) fd
              (snd (os_socket (trace w) (ss_family addr))) w in
  let r := fst (nth_connect_answer fd addr w0 k) in
  let e := snd (nth_connect_answer fd addr w0 k) in
  let w1 := connect_answered fd addr w0 k in
  (family_supported addr = false ->
   conmgr_create_connect_socket fuel t addr addrlen ev arg_ w
   = Ret EAFNOSUPPORT w) /\
  (family_supported addr = true -> fd < 0 ->
   conmgr_create_connect_socket fuel t addr addrlen ev arg_ w
   = Ret (snd (os_socket (trace w) (ss_family addr)))
         (logged LOG_FLAG_NET "conmgr_create_connect_socket"
            "socket() failed"
            (after_syscall (ev_socket (ss_family addr) fd) fd
               (snd (os_socket (trace w) (ss_family addr))) w))) /\
  (family_supported addr = true -> 0 <= fd ->
   NDEBUG = true \/ initialized (mgr w) = true ->
   (forall i, (i < k)%nat ->
              nth_connect_answer fd addr w0 i = (-1, EINTR)) ->
   ((0 < k)%nat -> shutdown_requested (mgr w) = false) ->
   (k < fuel)%nat ->
   mgr w1 = mgr w /\
   (r = 0 \/ (r = -1 /\ errno_connect_pending e) ->
    conmgr_create_connect_socket fuel t addr addrlen ev arg_ w
    = add_connection t None fd fd ev (Some addr) addrlen false None arg_ w1
    /\
    (NDEBUG = true \/ has_callback_for ev t = true ->
     exists rc w',
       conmgr_create_connect_socket fuel t addr addrlen ev arg_ w
       = Ret rc w' /\
       ((rc = SLURM_SUCCESS /\
         exists con,
           registered false con (mgr w) (mgr w') /\
           new_connection t None fd fd ev false None arg_ con) \/
        (rc = SLURM_ERROR /\ mgr w' = mgr w /\
         exists tr, fst (fst (os_fstat tr fd)) <> 0)))) /\
   (r = -1 -> e = EINTR -> shutdown_requested (mgr w) = true ->
    conmgr_create_connect_socket fuel t addr addrlen ev arg_ w
    = Ret SLURM_SUCCESS
          (after_event (ev_fd_close fd)
             (logged LOG_FLAG_CONMGR "conmgr_create_connect_socket"
                "connect() interrupted during shutdown. Closing connection."
                w1))) /\
   (r = -1 -> e <> EINTR -> ~ errno_connect_pending e ->
    conmgr_create_connect_socket fuel t addr addrlen ev arg_ w
    = Ret e
          (after_event (ev_fd_close fd)
             (logged LOG_FLAG_NET "conmgr_create_connect_socket"
                "connect() failed" w1)))).
Proof.
  cbv zeta.
  set (fd := fst (os_socket (trace w) (ss_family addr))).
  set (e0 := snd (os_socket (trace w) (ss_family addr))).
  set (w0 := connect_started (ss_family addr) fd e0 w).
  split; [|split].
  - intros Hs. unfold conmgr_create_connect_socket, family_supported in *.
    destruct (ss_family addr); try discriminate Hs; reflexivity.
  - intros Hs Hfd.
    unfold conmgr_create_connect_socket, family_supported in *.
    apply Z.ltb_lt in Hfd.
    destruct (ss_family addr) eqn:Ef; try discriminate Hs;
      unfold socket;
      rewrite (bind_Ret _ _ _ _ _ (syscall_run _ _ w));
      fold fd e0; rewrite Hfd;
      unfold bind at 1, get_errno;
      rewrite (bind_Ret _ _ _ _ _ (log_flag_run _ _ _ _));
      unfold ret, after_syscall; simpl errno; rewrite Hfd; reflexivity.
  - intros Hs Hfd Hinit Hans Hstop Hfuel.
    rewrite (conmgr_create_connect_socket_start fuel t addr addrlen ev arg_
               w Hs Hfd).
    fold fd e0 w0.
    set (wk := Nat.iter k (connect_interrupted fd addr) w0).
    assert (Hm0 : mgr w0 = mgr w) by apply connect_started_mgr.
    assert (Hk : conmgr_create_connect_socket_again fuel fd addr w0 =
                 conmgr_create_connect_socket_again (fuel - k) fd addr wk /\
                 mgr wk = mgr w0).
    { destruct k as [|k'].
      - rewrite Nat.sub_0_r. split; reflexivity.
      - replace fuel with (S k' + (fuel - S k'))%nat at 1 by lia.
        apply conmgr_create_connect_socket_again_retries.
        + rewrite Hm0. exact Hinit.
        + rewrite Hm0. apply Hstop. lia.
        + exact Hans. }
    destruct Hk as [Ek Hmk]. rewrite Ek.
    destruct (fuel - k)%nat as [|f] eqn:Ef; [lia|].
    rewrite conmgr_create_connect_socket_again_step
      by (rewrite Hmk, Hm0; exact Hinit).
    cbv zeta.
    change (os_connect (trace wk) fd addr)
      with (nth_connect_answer fd addr w0 k).
    fold (connect_answered fd addr w0 k).
    set (r := fst (nth_connect_answer fd addr w0 k)).
    set (e := snd (nth_connect_answer fd addr w0 k)).
    set (w1 := connect_answered fd addr w0 k).
    change (after_syscall (ev_connect fd addr r) r e wk) with w1.
    assert (Hm1 : mgr w1 = mgr w).
    { unfold w1, connect_answered. simpl. fold wk. congruence. }
    assert (Herr : r = -1 -> errno w1 = e).
    { intros Hr. unfold w1, connect_answered, after_syscall. simpl.
      fold r e. rewrite Hr. reflexivity. }
    pose proof errnos_neq as N.
    split; [exact Hm1|]. split; [|split].
    + intros Hcase.
      assert (Enone : (if r =? 0 then Ret None w1
                       else if errno w1 =? EINTR then
                         if shutdown_requested (mgr wk) then
                           Ret (Some SLURM_SUCCESS)
                             (after_event (ev_fd_close fd)
                                (logged LOG_FLAG_CONMGR
                                   "conmgr_create_connect_socket"
                                   "connect() interrupted during shutdown. Closing connection."
                                   w1))
                         else
                           conmgr_create_connect_socket_again f fd addr
                             (logged LOG_FLAG_CONMGR
                                "conmgr_create_connect_socket"
                                "connect() interrupted. Retrying." w1)
                       else if negb (errno w1 =? EINPROGRESS)
                               && negb (errno w1 =? EAGAIN)
                               && negb (errno w1 =? EWOULDBLOCK) then
                         Ret (Some (errno w1))
                           (after_event (ev_fd_close fd)
                              (logged LOG_FLAG_NET
                                 "conmgr_create_connect_socket"
                                 "connect() failed" w1))
                       else Ret None w1) = Ret None w1).
      { destruct Hcase as [Hr|[Hr Hp]].
        - rewrite Hr. reflexivity.
        - rewrite Hr. change (-1 =? 0) with false. cbv iota.
          rewrite (Herr Hr).
          assert (Hne : (e =? EINTR) = false).
          { apply Z.eqb_neq. unfold errno_connect_pending in Hp.
            intuition congruence. }
          rewrite Hne.
          assert (Hpend : negb (e =? EINPROGRESS) && negb (e =? EAGAIN)
                          && negb (e =? EWOULDBLOCK) = false).
          { destruct Hp as [-> | [-> | ->]]; rewrite Z.eqb_refl; simpl;
              repeat rewrite andb_false_r; reflexivity. }
          rewrite Hpend. reflexivity. }
      rewrite Enone. split; [reflexivity|].
      intros Hcb.
      assert (Hok : NDEBUG = true \/
                    add_connection_asserts t fd ev false None).
      { destruct Hcb as [Hn|Hcb]; [left; exact Hn|right].
        split; [reflexivity|split; [exact Hcb|discriminate]]. }
      destruct (add_connection_run t None fd fd ev (Some addr) addrlen false
                  None arg_ w1 Hok)
        as (rc & w' & E & _ & _ & evs & _ & _ & H).
      exists rc, w'. split; [exact E|].
      destruct H as [(Hrc & Hm & _)|(Hrc & con & Hreg & Hnew)].
      * right. split; [exact Hrc|]. split; [congruence|].
        destruct (on_return_add_connection_error t None fd fd ev (Some addr)
                    addrlen false None arg_ w1 rc w' E)
          as [Hsucc|(tr & fd' & Hfd' & Hfail)].
        -- rewrite Hsucc in Hrc. discriminate Hrc.
        -- exists tr. destruct Hfd' as [-> | ->]; exact Hfail.
      * left. split; [exact Hrc|]. exists con.
        split; [rewrite <- Hm1; exact Hreg|exact Hnew].
    + intros Hr He Hsd.
      rewrite Hr. change (-1 =? 0) with false. cbv iota.
      rewrite (Herr Hr), He, Z.eqb_refl, Hmk, Hm0, Hsd. reflexivity.
    + intros Hr He Hp.
      rewrite Hr. change (-1 =? 0) with false. cbv iota.
      rewrite (Herr Hr).
      apply Z.eqb_neq in He. rewrite He.
      assert (Hpend : negb (e =? EINPROGRESS) && negb (e =? EAGAIN)
                      && negb (e =? EWOULDBLOCK) = true).
      { unfold errno_connect_pending in Hp.
        repeat rewrite andb_true_iff. repeat split;
          apply negb_true_iff, Z.eqb_neq; intros Heq; apply Hp; auto. }
      rewrite Hpend. reflexivity.
Qed.

(** ** con_find_by_fd *)

Context {OC : os_calls_t}.

Lemma list_find_first_app {A : Type} (l1 l2 : list A) (f : A -> Z) :
  list_find_first (l1 ++ l2) f =
    match list_find_first l1 f with
    | Some x => Some x
    | None => list_find_first l2 f
    end.
Proof.
  induction l1 as [|x l1 IH]; [reflexivity|].
  simpl. destruct (negb (f x =? 0)); [reflexivity|exact IH].
Qed.

Lemma list_find_first_Some {A : Type} (l : list A) (f : A -> Z) (x : A) :
  list_find_first l f = Some x ->
  exists pre post, l = pre ++ x :: post /\ f x <> 0 /\
                   forall y, In y pre -> f y = 0.
Proof.
  induction l as [|y l IH]; [discriminate|].
  simpl. destruct (f y =? 0) eqn:Ey; simpl.
  - intros E. destruct (IH E) as (pre & post & -> & Hx & Hpre).
    exists (y :: pre), post. split; [reflexivity|split; [exact Hx|]].
    intros z [<-|Hz]; [apply Z.eqb_eq; exact Ey|auto].
  - intros E. inversion E; subst y.
    exists [], l. split; [reflexivity|split].
    + apply Z.eqb_neq. exact Ey.
    + intros z [].
Qed.

Lemma list_find_first_None {A : Type} (l : list A) (f : A -> Z) :
  list_find_first l f = None <-> forall y, In y l -> f y = 0.
Proof.
  induction l as [|y l IH]; simpl.
  - split; [intros _ z []|reflexivity].
  - destruct (f y =? 0) eqn:Ey; simpl.
    + rewrite IH. apply Z.eqb_eq in Ey. split.
      * intros H z [<-|Hz]; auto.
      * intros H z Hz. apply H. right. exact Hz.
    + apply Z.eqb_neq in Ey. split; [discriminate|].
      intros H. exfalso. apply Ey, H. left. reflexivity.
Qed.

Lemma _find_by_fd_uses (x : conmgr_fd_t) (fd : Z) :
  (_find_by_fd x fd <> 0 <-> uses_fd fd x) /\
  (_find_by_fd x fd = 0 <-> ~ uses_fd fd x).
Proof.
  unfold _find_by_fd, uses_fd, bool_to_int.
  destruct (Z.eqb_spec (input_fd x) fd), (Z.eqb_spec (output_fd x) fd);
    simpl; split; split; intros; try tauto; try lia; try discriminate.
Qed.

(** X13.  [con_find_by_fd] never fails and changes nothing; it returns
    the first tracked connection, connections before listeners and each
    list in its order, that has the descriptor as input or as output, and
    NULL exactly when no tracked connection has it.  Nothing treats a
    negative descriptor apart: asked for -1 it returns the first
    connection one side of which is closed or absent. *)
Theorem con_find_by_fd_first (fd : Z) (w : world) :
  exists r,
    con_find_by_fd fd w = Ret r w /\
    (r = None <-> forall con, In con (tracked (mgr w)) -> ~ uses_fd fd con) /\
    (forall con, r = Some con ->
       uses_fd fd con /\
       exists pre post,
         tracked (mgr w) = pre ++ con :: post /\
         forall c, In c pre -> ~ uses_fd fd c).
Proof.
  exists (list_find_first (tracked (mgr w)) (fun x => _find_by_fd x fd)).
  split; [|split].
  - unfold con_find_by_fd, tracked, bind, get_mgr, ret.
    rewrite list_find_first_app.
    destruct (list_find_first (connections (mgr w)) _); [reflexivity|].
    destruct (list_find_first (listen_conns (mgr w)) _); reflexivity.
  - rewrite list_find_first_None. split.
    + intros H con Hin. apply _find_by_fd_uses. apply H. exact Hin.
    + intros H con Hin. apply _find_by_fd_uses. apply H. exact Hin.
  - intros con E.
    destruct (list_find_first_Some _ _ _ E) as (pre & post & Hl & Hx & Hpre).
    split; [apply _find_by_fd_uses; exact Hx|].
    exists pre, post. split; [exact Hl|].
    intros c Hc. apply _find_by_fd_uses. apply Hpre. exact Hc.
Qed.

(** ** _deferred_close_fd *)

(** X14.  [_deferred_close_fd] on a connection with the right magic is
    [close_con], whether work is active or not: with work active it goes
    through [conmgr_queue_close_fd], which closes at once in that case.
    So the deferred close never queues itself again, and for a connection
    whose input descriptor is -1 or valid a run that returns leaves the
    input descriptor at -1. *)
Theorem _deferred_close_fd_closes (con : conmgr_fd_t) (w : world) :
  NDEBUG = true \/ magic con = MAGIC_CON_MGR_FD ->
  input_fd con = -1 \/ 0 <= input_fd con ->
  _deferred_close_fd con w = close_con true con w /\
  forall con' w',
    _deferred_close_fd con w = Ret con' w' ->
    input_fd con' = -1 /\
    queued_work (trace w') = queued_work (trace w).
Proof.
  intros Hm Hfd.
  assert (E : _deferred_close_fd con w = close_con true con w).
  { unfold _deferred_close_fd, conmgr_queue_close_fd.
    destruct (work_active con); [|reflexivity].
    simpl negb. cbv iota.
    rewrite (bind_Ret _ _ w w tt); [reflexivity|].
    apply xassert_true. destruct Hm as [Hn|Hm]; [left; exact Hn|right].
    apply Z.eqb_eq. exact Hm. }
  split; [exact E|].
  intros con' w' R. rewrite E in R.
  split.
  - apply (on_return_close_con true con w Hfd con' w' R).
  - apply frame_queued_work.
    apply (frame_weaken ev_is_close_con).
    + intros []; simpl; intros H; (reflexivity || discriminate H).
    + exact (frame_close_con true con w con' w' R).
Qed.

(** ** _match_socket_address *)

Lemma list_eqb_eq (l1 l2 : list Z) : list_eqb l1 l2 = true <-> l1 = l2.
Proof.
  revert l2. induction l1 as [|x l1 IH]; intros [|y l2]; simpl;
    try (split; [discriminate|discriminate]); [tauto|].
  rewrite andb_true_iff, Z.eqb_eq, IH. split.
  - intros [-> ->]. reflexivity.
  - intros E. inversion E. auto.
Qed.

(** X15.  [_match_socket_address] on a listener with the right magic:
    addresses of different families never match; within IPv4, IPv6 and
    unix sockets the answer is 1 exactly when port and address (and scope
    for IPv6) or the paths are equal, and 0 otherwise, the IPv6 flow
    information being ignored; two addresses of one and the same other
    family, such as two zeroed addresses, abort the program. *)
Theorem _match_socket_address_same_endpoint (x : conmgr_fd_t)
    (key : slurm_addr_t) (w : world) :
  NDEBUG = true \/ magic x = MAGIC_CON_MGR_FD ->
  (ss_family key <> ss_family (address x) ->
   _match_socket_address x key w = Ret 0 w) /\
  (family_supported key = true ->
   exists r,
     _match_socket_address x key w = Ret r w /\ (r = 0 \/ r = 1) /\
     (r = 1 <-> same_endpoint key (address x))) /\
  (ss_family key = ss_family (address x) -> family_supported key = false ->
   _match_socket_address x key w = Fatal w).
Proof.
  intros Hm.
  assert (Hx : xassert (magic x =? MAGIC_CON_MGR_FD) w = Ret tt w).
  { apply xassert_true. destruct Hm as [Hn|Hm]; [left; exact Hn|right].
    apply Z.eqb_eq. exact Hm. }
  unfold _match_socket_address.
  rewrite (bind_Ret _ _ w w tt Hx).
  unfold family_supported.
  split; [|split].
  - intros Hf.
    destruct key, (address x); simpl in *; try congruence; try reflexivity.
    destruct (Z.eqb_spec n n0); [congruence|reflexivity].
  - intros Hs.
    destruct key as [|p1 a1|p1 f1 a1 s1|path1|n1]; simpl in Hs;
      try discriminate Hs;
      destruct (address x) as [|p2 a2|p2 f2 a2 s2|path2|n2]; simpl;
      try (exists 0; split; [reflexivity|split; [left; reflexivity|]];
           split; [discriminate|intros []]).
    + destruct (Z.eqb_spec p1 p2); simpl.
      2:{ exists 0. split; [reflexivity|split; [left; reflexivity|]].
          split; [discriminate|intros [? _]; contradiction]. }
      destruct (Z.eqb_spec a1 a2); simpl.
      * exists 1. split; [reflexivity|split; [right; reflexivity|]].
        split; auto.
      * exists 0. split; [reflexivity|split; [left; reflexivity|]].
        split; [discriminate|intros [_ ?]; contradiction].
    + destruct (Z.eqb_spec p1 p2); simpl.
      2:{ exists 0. split; [reflexivity|split; [left; reflexivity|]].
          split; [discriminate|intros [? _]; contradiction]. }
      destruct (Z.eqb_spec s1 s2); simpl.
      2:{ exists 0. split; [reflexivity|split; [left; reflexivity|]].
          split; [discriminate|intros (_ & _ & ?); contradiction]. }
      destruct (list_eqb a1 a2) eqn:Ea; simpl.
      * apply list_eqb_eq in Ea.
        exists 1. split; [reflexivity|split; [right; reflexivity|]].
        split; auto.
      * exists 0. split; [reflexivity|split; [left; reflexivity|]].
        split; [discriminate|intros (_ & Ha & _)].
        apply list_eqb_eq in Ha. congruence.
    + destruct (String.eqb_spec path1 path2); simpl.
      * exists 1. split; [reflexivity|split; [right; reflexivity|]].
        split; auto.
      * exists 0. split; [reflexivity|split; [left; reflexivity|]].
        split; [discriminate|intros ?; contradiction].
  - intros Hf Hs.
    destruct key, (address x); simpl in *; try discriminate;
      try reflexivity.
    inversion Hf; subst. rewrite Z.eqb_refl. reflexivity.
Qed.

(** ** _atfork_child *)

(** X16.  After [_atfork_child] the child ignores every signal: the
    handler returns without a call to [write], whatever the signal, and
    whatever the state of the parent was.  All registrations are gone. *)
Theorem _atfork_child_ignores_signals (fuel : nat) (signo : Z) (w : world) :
  exists w',
    _atfork_child w = Ret tt w' /\
    _signal_handler fuel signo w' = Ret tt w' /\
    trace w' = trace w /\ mgr w' = mgr w /\
    signal_fd (sig w') = -1 /\ signal_con (sig w') = None /\
    signal_handlers (sig w') = [] /\ signal_work (sig w') = [].
Proof.
  eexists. split; [reflexivity|].
  repeat split.
Qed.

(** ** close_all_connections *)

Lemma on_return_and {A : Type} (m : M A) (w : world)
    (Q1 Q2 : A -> world -> Prop) :
  on_return m w Q1 -> on_return m w Q2 ->
  on_return m w (fun a w' => Q1 a w' /\ Q2 a w').
Proof. intros H1 H2 a w' E. split; [exact (H1 a w' E)|exact (H2 a w' E)]. Qed.

Lemma on_return_close_con_keeps (locked : bool) (c : conmgr_fd_t)
    (w : world) :
  on_return (close_con locked c) w (fun c' _ => closed_from c c').
Proof.
  unfold close_con.
  destruct (input_fd c <? 0) eqn:El.
  - apply Z.ltb_lt in El. steps. unfold closed_from. repeat split. exact El.
  - step. step. step.
    apply on_return_any. intros u w1. step.
    apply on_return_con_set_polling. intros c1 w2 (Ec & _).
    step.
    apply on_return_any. intros u' w3. steps.
    rewrite Ec. unfold closed_from. simpl in_buf.
    destruct (in_buf c); simpl; repeat split; lia.
Qed.

Lemma on_return_list_for_each_close (l : list conmgr_fd_t) :
  forall w,
    on_return (list_for_each l _close_con_for_each) w
      (fun l' w' => Forall2 closed_from l l' /\ frame ev_is_close_con w w').
Proof.
  induction l as [|x l IH]; intros w; simpl.
  - step. split; [constructor|apply frame_refl].
  - unfold _close_con_for_each at 1.
    step. step.
    eapply on_return_weaken.
    { apply on_return_and;
        [apply on_return_close_con_keeps|apply frame_close_con]. }
    intros c' w1 [Hc Hf]. cbv beta.
    step. simpl. step.
    eapply on_return_weaken; [apply IH|].
    intros l' w2 [Hl Hf2]. cbv beta. step.
    split; [constructor; assumption|].
    apply (frame_trans _ _ w1); assumption.
Qed.

Lemma returns_list_for_each_close (l : list conmgr_fd_t) :
  Forall close_con_ok l ->
  forall w,
    returns (list_for_each l _close_con_for_each) w (fun _ _ => True).
Proof.
  induction 1 as [|x l Hx Hl IH]; intros w; simpl.
  - step. exact I.
  - unfold _close_con_for_each at 1.
    step. step.
    eapply returns_weaken; [apply (returns_close_con true x w Hx)|].
    intros c' w1 _. cbv beta.
    step. simpl. step.
    eapply returns_weaken; [apply IH|].
    intros l' w2 _. cbv beta. step. exact I.
Qed.

Lemma on_return_close_all_connections (w : world) :
  on_return close_all_connections w
    (fun _ w' =>
       Forall2 closed_from (connections (mgr w)) (connections (mgr w')) /\
       Forall2 closed_from (listen_conns (mgr w)) (listen_conns (mgr w')) /\
       initialized (mgr w') = initialized (mgr w) /\
       shutdown_requested (mgr w') = shutdown_requested (mgr w) /\
       sig w' = sig w /\ slurm_conf w' = slurm_conf w /\
       queued_work (trace w') = queued_work (trace w)).
Proof.
  unfold close_all_connections.
  step. step. step.
  eapply on_return_weaken; [apply on_return_list_for_each_close|].
  intros cs w1 [Hcs F1]. cbv beta.
  step. step. step.
  apply on_return_set_mgr.
  step. step. simpl mgr. simpl listen_conns.
  step.
  eapply on_return_weaken; [apply on_return_list_for_each_close|].
  intros ls w2 [Hls F2]. cbv beta.
  step. step.
  apply on_return_set_mgr.
  destruct F1 as (M1 & S1 & C1 & e1 & T1 & A1).
  destruct F2 as (M2 & S2 & C2 & e2 & T2 & A2).
  simpl in *.
  rewrite M1 in Hls.
  repeat split.
  - rewrite M2. simpl. exact Hcs.
  - exact Hls.
  - rewrite M2. simpl. rewrite M1. reflexivity.
  - rewrite M2. simpl. rewrite M1. reflexivity.
  - congruence.
  - congruence.
  - rewrite T2. simpl. rewrite T1.
    assert (Hq : forall evs tr,
              forallb ev_is_close_con evs = true ->
              queued_work (evs ++ tr) = queued_work tr).
    { induction evs as [|e evs IHe]; intros tr Ha; [reflexivity|].
      simpl in Ha. apply andb_true_iff in Ha. destruct Ha as [He Ha].
      destruct e; simpl in *; try discriminate; auto. }
    rewrite (Hq e2), (Hq e1); auto.
Qed.

(** X17.  [close_all_connections], when no assertion of [close_con]
    fails on a tracked connection: it returns, and afterwards no tracked
    connection or listener has an input descriptor; both lists keep
    their elements and order, and each connection keeps its name, type,
    output descriptor, pending output and work; no work is queued and the
    flags of the registry are untouched. *)
Theorem close_all_connections_closes_all (w : world) :
  Forall close_con_ok (tracked (mgr w)) ->
  exists w',
    close_all_connections w = Ret tt w' /\
    Forall2 closed_from (connections (mgr w)) (connections (mgr w')) /\
    Forall2 closed_from (listen_conns (mgr w)) (listen_conns (mgr w')) /\
    initialized (mgr w') = initialized (mgr w) /\
    shutdown_requested (mgr w') = shutdown_requested (mgr w) /\
    sig w' = sig w /\ slurm_conf w' = slurm_conf w /\
    queued_work (trace w') = queued_work (trace w).
Proof.
  intros Hok. unfold tracked in Hok. apply Forall_app in Hok.
  destruct Hok as [Hc Hl].
  assert (R : returns close_all_connections w (fun _ _ => True)).
  { unfold close_all_connections.
    step. step. step.
    eapply returns_weaken;
      [apply (returns_on_return _ _ _ _
                (returns_list_for_each_close _ Hc w)
                (on_return_list_for_each_close _ w))|].
    intros cs w1 (_ & _ & F1). cbv beta.
    step. step. step.
    apply returns_set_mgr.
    step. step. simpl mgr. simpl listen_conns.
    step.
    destruct F1 as (M1 & _). rewrite M1.
    eapply returns_weaken; [apply (returns_list_for_each_close _ Hl)|].
    intros ls w2 _. cbv beta.
    step. step. apply returns_set_mgr. exact I. }
  destruct R as ([] & w' & E & _).
  exists w'. split; [exact E|].
  exact (on_return_close_all_connections w tt w' E).
Qed.

(** ** con_close_on_poll_error *)

(** X18.  [con_close_on_poll_error] closes the input of the connection
    whatever the kernel answers about the socket error, and whether the
    connection is a socket or not: when no assertion of [close_con]
    fails it returns, the connection has no input descriptor afterwards
    and keeps its identity and its output side, the registry is untouched
    and no work is queued. *)
Theorem con_close_on_poll_error_closes (con : conmgr_fd_t) (fd : Z)
    (w : world) :
  close_con_ok con ->
  exists con' w',
    con_close_on_poll_error con fd w = Ret con' w' /\
    closed_from con con' /\
    mgr w' = mgr w /\ sig w' = sig w /\
    queued_work (trace w') = queued_work (trace w).
Proof.
  intros Hok.
  assert (Hpre : returns
            (if is_socket con
             then
               bind get_trace (fun tr =>
                 let '(rc, err) := os_fd_get_socket_error tr fd in
                 if negb (rc =? 0)
                 then error "con_close_on_poll_error"
                            "error while getting socket error"
                 else if negb (err =? 0)
                 then error "con_close_on_poll_error"
                            "socket error encountered while polling"
                 else ret tt)
             else ret tt) w
            (fun _ w1 => frame ev_is_log w w1)).
  { destruct (is_socket con); [|step; apply frame_refl].
    step. step.
    destruct (os_fd_get_socket_error (trace w) fd) as [rc err].
    destruct (negb (rc =? 0)); [step; frame_solve|].
    destruct (negb (err =? 0)); step; frame_solve. }
  assert (R : returns (con_close_on_poll_error con fd) w
                (fun con' w' =>
                   closed_from con con' /\
                   frame (fun e => negb (ev_is_add_work e)) w w')).
  { unfold con_close_on_poll_error. step.
    eapply returns_weaken; [exact Hpre|].
    intros u w1 F1. cbv beta.
    eapply returns_weaken.
    { eapply returns_on_return; [apply returns_close_con; exact Hok|].
      apply on_return_and;
        [apply on_return_close_con_keeps|apply frame_close_con]. }
    intros con' w' (_ & Hc & F2). cbv beta. split; [exact Hc|].
    apply (frame_trans _ _ w1).
    - apply (frame_weaken ev_is_log); [|exact F1].
      intros []; simpl; intros H; (reflexivity || discriminate H).
    - apply (frame_weaken ev_is_close_con); [|exact F2].
      intros []; simpl; intros H; (reflexivity || discriminate H). }
  destruct R as (con' & w' & E & Hc & F).
  exists con', w'. split; [exact E|split; [exact Hc|]].
  pose proof (frame_queued_work _ _ F) as Hq.
  destruct F as (Hm & Hs & _). auto.
Qed.

(** ** _receive_fd *)

Lemma returns__receive_fd (status : conmgr_work_status_t) (src : conmgr_fd_t)
    (args : receive_fd_args_t) (w : world) :
  _receive_fd_ok src args ->
  returns (_receive_fd status src args) w
    (fun con' w' =>
       sig w' = sig w /\ slurm_conf w' = slurm_conf w /\
       (can_not_receive status src -> con' = src /\ frame ev_is_log w w') /\
       (~ can_not_receive status src ->
        os_receive_fd_over_socket (trace w) (input_fd src) < 0 ->
        closed_from src con' /\ mgr w' = mgr w) /\
       (~ can_not_receive status src ->
        0 <= os_receive_fd_over_socket (trace w) (input_fd src) ->
        con' = src /\
        (mgr w' = mgr w \/
         exists con,
           registered false con (mgr w) (mgr w') /\
           new_connection (rfa_type args) None
             (os_receive_fd_over_socket (trace w) (input_fd src))
             (os_receive_fd_over_socket (trace w) (input_fd src))
             (rfa_events args) false None (rfa_arg args) con))).
Proof.
  intros Hok. unfold _receive_fd.
  assert (H1 : NDEBUG = true \/ (rfa_magic args =? MAGIC_RECEIVE_FD) = true).
  { destruct Hok as [Hn|(Hm & _)]; [left; exact Hn|right].
    apply Z.eqb_eq. exact Hm. }
  assert (H2 : NDEBUG = true \/ (magic src =? MAGIC_CON_MGR_FD) = true).
  { destruct Hok as [Hn|(_ & Hm & _)]; [left; exact Hn|right].
    apply Z.eqb_eq. exact Hm. }
  assert (Hquiet : forall msg,
            can_not_receive status src ->
            returns
              (bind (log_flag LOG_FLAG_CONMGR "_receive_fd" msg)
                    (fun _ => ret src)) w
              (fun con' w' =>
                 sig w' = sig w /\ slurm_conf w' = slurm_conf w /\
                 (can_not_receive status src ->
                  con' = src /\ frame ev_is_log w w') /\
                 (~ can_not_receive status src ->
                  os_receive_fd_over_socket (trace w) (input_fd src) < 0 ->
                  closed_from src con' /\ mgr w' = mgr w) /\
                 (~ can_not_receive status src ->
                  0 <= os_receive_fd_over_socket (trace w) (input_fd src) ->
                  con' = src /\
                  (mgr w' = mgr w \/
                   exists con,
                     registered false con (mgr w) (mgr w') /\
                     new_connection (rfa_type args) None
                       (os_receive_fd_over_socket (trace w) (input_fd src))
                       (os_receive_fd_over_socket (trace w) (input_fd src))
                       (rfa_events args) false None (rfa_arg args) con)))).
  { intros msg Hc. step. step. step.
    assert (F : frame ev_is_log w (logged LOG_FLAG_CONMGR "_receive_fd" msg w))
      by frame_solve.
    destruct F as (Fm & Fs & Fc & Fe).
    split; [exact Fs|split; [exact Fc|]].
    split; [intros _; split; [reflexivity|]|split; intros Hn; contradiction].
    repeat split; assumption. }
  step. step. step. step.
  destruct status.
  2:{ apply Hquiet. left. reflexivity. }
  destruct (read_eof src) eqn:Eeof.
  { apply Hquiet. right. left. exact Eeof. }
  destruct (input_fd src <? 0) eqn:Elt.
  { apply Hquiet. right. right. apply Z.ltb_lt. exact Elt. }
  apply Z.ltb_ge in Elt.
  assert (Hcan : ~ can_not_receive CONMGR_WORK_STATUS_RUN src).
  { intros [H|[H|H]]; [discriminate H|congruence|lia]. }
  step. step.
  destruct (os_receive_fd_over_socket (trace w) (input_fd src) <? 0) eqn:Efd.
  - apply Z.ltb_lt in Efd. step. step.
    eapply returns_weaken.
    { eapply returns_on_return.
      - apply returns_close_con.
        destruct Hok as [Hn|(_ & _ & Hc & _)];
          [left; exact Hn|right; exact Hc].
      - apply on_return_and;
          [apply on_return_close_con_keeps|apply frame_close_con]. }
    intros con' w' (_ & Hc & F). cbv beta.
    assert (F0 : frame ev_is_close_con w w').
    { apply (frame_trans _ _
               (logged LOG_FLAG_CONMGR "_receive_fd"
                  "Unable to receive new file descriptor on input_fd" w));
        [frame_solve|exact F]. }
    destruct F0 as (Fm & Fs & Fc & _).
    split; [exact Fs|split; [exact Fc|]].
    split; [intros Hn; contradiction|].
    split; [intros _ _; split; assumption|].
    intros _ Hge. lia.
  - apply Z.ltb_ge in Efd. step.
    eapply returns_weaken.
    { apply add_connection_run.
      destruct Hok as [Hn|(_ & _ & _ & Hcb)]; [left; exact Hn|right].
      split; [reflexivity|split; [exact Hcb|discriminate]]. }
    intros rc w' (Hs & Hc & evs & _ & _ & H). cbv beta. step.
    split; [exact Hs|split; [exact Hc|]].
    split; [intros Hn; contradiction|].
    split; [intros _ Hlt; lia|].
    intros _ _. split; [reflexivity|].
    destruct H as [(_ & Hm & _)|(_ & con & Hreg & Hnew)];
      [left; exact Hm|right].
    exists con. split; assumption.
Qed.

(** X19.  [_receive_fd], when none of its assertions fails, returns.
    When the work was cancelled, the source is at end of input or it has
    no input descriptor, it leaves everything as it was, a trace apart.
    When the reception fails the source is closed and the registry is
    untouched.  When a descriptor arrives the source is left alone and
    the descriptor becomes both sides of at most one new connection,
    appended to the connections and never to the listeners, with the
    type, callbacks and argument that were queued. *)
Theorem _receive_fd_outcome (status : conmgr_work_status_t)
    (src : conmgr_fd_t) (args : receive_fd_args_t) (w : world) :
  _receive_fd_ok src args ->
  exists con' w',
    _receive_fd status src args w = Ret con' w' /\
    sig w' = sig w /\ slurm_conf w' = slurm_conf w /\
    (can_not_receive status src -> con' = src /\ frame ev_is_log w w') /\
    (~ can_not_receive status src ->
     os_receive_fd_over_socket (trace w) (input_fd src) < 0 ->
     closed_from src con' /\ mgr w' = mgr w) /\
    (~ can_not_receive status src ->
     0 <= os_receive_fd_over_socket (trace w) (input_fd src) ->
     con' = src /\
     (mgr w' = mgr w \/
      exists con,
        registered false con (mgr w) (mgr w') /\
        new_connection (rfa_type args) None
          (os_receive_fd_over_socket (trace w) (input_fd src))
          (os_receive_fd_over_socket (trace w) (input_fd src))
          (rfa_events args) false None (rfa_arg args) con)).
Proof.
  intros Hok.
  destruct (returns__receive_fd status src args w Hok)
    as (con' & w' & E & H).
  exists con', w'. split; [exact E|exact H].
Qed.

(** ** signal.c: the registration of handlers *)

Lemma array_prefix_all (s : signal_mgr_t) :
  handlers_ok s ->
  array_prefix (signal_handler_count s) (signal_handlers s)
  = signal_handlers s.
Proof.
  intros [Hc _]. unfold array_prefix. rewrite Hc, Nat2Z.id.
  apply firstn_all.
Qed.

Lemma existsb_eqb_In (l : list Z) (z : Z) :
  existsb (fun h => h =? z) l = true <-> In z l.
Proof.
  rewrite existsb_exists. split.
  - intros (x & Hin & E). apply Z.eqb_eq in E. subst. exact Hin.
  - intros Hin. exists z. split; [exact Hin|apply Z.eqb_refl].
Qed.

Lemma _register_signal_handler_eq (signal : Z) (w : world) :
  handlers_ok (sig w) ->
  _register_signal_handler signal w =
    if existsb (fun h => h =? signal) (signal_handlers (sig w)) then Ret tt w
    else if os_sigaction (trace w) signal =? 0 then
      Ret tt
        {| mgr := mgr w;
           sig := set_signal_handlers (sig w)
                    (signal_handlers (sig w) ++ [signal])
                    (signal_handler_count (sig w) + 1);
           slurm_conf := slurm_conf w;
           errno := errno w;
           trace := trace (logged LOG_FLAG_CONMGR "_register_signal_handler"
                             "installed signal handler" w) |}
    else Fatal w.
Proof.
  intros Hok.
  unfold _register_signal_handler, bind, get_sig, get_trace, ret, fatal.
  rewrite (array_prefix_all _ Hok).
  destruct (existsb (fun h => h =? signal) (signal_handlers (sig w)));
    [reflexivity|].
  destruct (os_sigaction (trace w) signal =? 0); simpl; [|reflexivity].
  rewrite log_flag_run. unfold set_sig, logged.
  destruct (log_enabled LOG_FLAG_CONMGR (slurm_conf w)); reflexivity.
Qed.

Lemma handlers_ok_append (s : signal_mgr_t) (signal : Z) :
  handlers_ok s -> ~ In signal (signal_handlers s) ->
  handlers_ok (set_signal_handlers s (signal_handlers s ++ [signal])
                 (signal_handler_count s + 1)).
Proof.
  intros [Hc Hd] Hnot. split; simpl.
  - rewrite Hc, length_app. simpl. lia.
  - apply NoDup_app; [exact Hd|repeat constructor; intros []|].
    intros x Hx [<-|[]]. contradiction.
Qed.

(** X20.  [_register_signal_handler] on a consistent table: for a signal
    that has a handler the call returns and changes nothing, whatever
    [sigaction] would answer; a new signal is appended once [sigaction]
    accepted the handler, and the table stays consistent, so no signal
    ever has two handlers; when [sigaction] refuses a new signal, the
    program stops.  Nothing else of the signal bridge and nothing of the
    registry changes. *)
Theorem _register_signal_handler_once (signal : Z) (w : world) :
  handlers_ok (sig w) ->
  (In signal (signal_handlers (sig w)) ->
   _register_signal_handler signal w = Ret tt w) /\
  (~ In signal (signal_handlers (sig w)) ->
   os_sigaction (trace w) signal = 0 ->
   exists w',
     _register_signal_handler signal w = Ret tt w' /\
     signal_handlers (sig w') = signal_handlers (sig w) ++ [signal] /\
     handlers_ok (sig w') /\
     only_handlers_changed (sig w) (sig w') /\
     mgr w' = mgr w /\ slurm_conf w' = slurm_conf w) /\
  (~ In signal (signal_handlers (sig w)) ->
   os_sigaction (trace w) signal <> 0 ->
   _register_signal_handler signal w = Fatal w).
Proof.
  intros Hok.
  rewrite (_register_signal_handler_eq signal w Hok).
  destruct (existsb (fun h => h =? signal) (signal_handlers (sig w)))
    eqn:Ein.
  - apply existsb_eqb_In in Ein.
    split; [reflexivity|split; intros Hn; contradiction].
  - split; [intros Hin; apply existsb_eqb_In in Hin; congruence|].
    split; intros Hnot Hs.
    + rewrite Hs. simpl. eexists. split; [reflexivity|]. simpl.
      split; [reflexivity|].
      split; [apply handlers_ok_append; assumption|].
      repeat split.
    + apply Z.eqb_neq in Hs. rewrite Hs. reflexivity.
Qed.

Lemma _register_signal_handler_run (signal : Z) (w : world) :
  sigaction_succeeds ->
  handlers_ok (sig w) ->
  exists w',
    _register_signal_handler signal w = Ret tt w' /\
    handlers_ok (sig w') /\
    (forall s, In s (signal_handlers (sig w')) <->
               In s (signal_handlers (sig w)) \/ s = signal) /\
    only_handlers_changed (sig w) (sig w') /\
    mgr w' = mgr w /\ slurm_conf w' = slurm_conf w.
Proof.
  intros Hsig Hok.
  rewrite (_register_signal_handler_eq signal w Hok).
  destruct (existsb (fun h => h =? signal) (signal_handlers (sig w)))
    eqn:Ein.
  - apply existsb_eqb_In in Ein.
    exists w. split; [reflexivity|split; [exact Hok|]].
    split; [|repeat split].
    intros s. split; [auto|intros [H| ->]; assumption].
  - assert (Hnot : ~ In signal (signal_handlers (sig w))).
    { intros Hin. apply existsb_eqb_In in Hin. congruence. }
    rewrite Hsig. simpl. eexists. split; [reflexivity|]. simpl.
    split; [apply handlers_ok_append; assumption|].
    split; [|repeat split].
    intros s. rewrite in_app_iff. simpl. intuition.
Qed.

Lemma _init_signal_handler_loop_run (work : list Z) :
  sigaction_succeeds ->
  forall w,
    handlers_ok (sig w) ->
    exists w',
      _init_signal_handler_loop work w = Ret tt w' /\
      handlers_ok (sig w') /\
      (forall s, In s (signal_handlers (sig w')) <->
                 In s (signal_handlers (sig w)) \/ In s work) /\
      only_handlers_changed (sig w) (sig w') /\
      mgr w' = mgr w /\ slurm_conf w' = slurm_conf w.
Proof.
  intros Hsig.
  induction work as [|n work IH]; intros w Hok; simpl.
  - exists w. split; [reflexivity|split; [exact Hok|]].
    split; [intros s; tauto|repeat split].
  - destruct (_register_signal_handler_run n w Hsig Hok)
      as (w1 & E1 & Hok1 & Hin1 & Hch1 & Hm1 & Hc1).
    destruct (IH w1 Hok1) as (w2 & E2 & Hok2 & Hin2 & Hch2 & Hm2 & Hc2).
    exists w2. rewrite (bind_Ret _ _ _ _ _ E1).
    split; [exact E2|split; [exact Hok2|]].
    split.
    { intros s. rewrite Hin2, Hin1. intuition. }
    split.
    { destruct Hch1 as (A1 & A2 & A3 & A4 & A5).
      destruct Hch2 as (B1 & B2 & B3 & B4 & B5).
      repeat split; congruence. }
    split; congruence.
Qed.

(** X21.  [_on_connection] of the signal bridge, with a [sigaction] that
    accepts every handler.  Started without handlers, it installs a
    handler for each signal some registered work waits for, one per
    signal however many works wait for it, and notes the connection.
    Started with handlers in place, it installs nothing, not even for
    works registered since: it only notes the connection. *)
Theorem _on_connection_registers (con : conmgr_fd_t) (w : world) :
  sigaction_succeeds ->
  signal_work_count (sig w)
  = Z.of_nat (List.length (signal_work (sig w))) ->
  handlers_ok (sig w) ->
  exists w',
    _on_connection con w = Ret tt w' /\
    handlers_ok (sig w') /\
    signal_con (sig w') = Some con /\
    signal_fd (sig w') = signal_fd (sig w) /\
    signal_work (sig w') = signal_work (sig w) /\
    mgr w' = mgr w /\
    (signal_handlers (sig w) = [] ->
     forall s, In s (signal_handlers (sig w')) <->
               In s (signal_work (sig w))) /\
    (signal_handlers (sig w) <> [] ->
     signal_handlers (sig w') = signal_handlers (sig w)).
Proof.
  intros Hsig Hcount Hok.
  unfold _on_connection, _init_signal_handler.
  assert (Hpre : array_prefix (signal_work_count (sig w))
                   (signal_work (sig w)) = signal_work (sig w)).
  { unfold array_prefix. rewrite Hcount, Nat2Z.id. apply firstn_all. }
  destruct (signal_handlers (sig w)) as [|h hs] eqn:Eh.
  - destruct (_init_signal_handler_loop_run (signal_work (sig w)) Hsig w Hok)
      as (w1 & E1 & Hok1 & Hin1 & (A1 & A2 & A3 & A4 & A5) & Hm1 & Hc1).
    eexists. split.
    { unfold bind at 1. unfold bind at 1. unfold get_sig at 1.
      rewrite Eh, Hpre, E1. reflexivity. }
    simpl. split; [exact Hok1|].
    repeat (split; [assumption || reflexivity|]).
    split; [|intros Hne; contradiction].
    intros _ s. rewrite Hin1, Eh. simpl. tauto.
  - eexists. split.
    { unfold bind at 1. unfold bind at 1. unfold get_sig at 1.
      rewrite Eh. reflexivity. }
    simpl. rewrite Eh.
    split; [exact Hok|].
    repeat (split; [reflexivity|]).
    split; [discriminate|reflexivity].
Qed.

(** ** _is_listening *)

Lemma _match_socket_address_eq (x : conmgr_fd_t) (key : slurm_addr_t)
    (w : world) :
  NDEBUG = true \/ magic x = MAGIC_CON_MGR_FD ->
  _match_socket_address x key w =
    match endpoint_match key (address x) with
    | Some b => Ret (bool_to_int b) w
    | None => Fatal w
    end.
Proof.
  intros Hm.
  assert (Hx : xassert (magic x =? MAGIC_CON_MGR_FD) w = Ret tt w).
  { apply xassert_true. destruct Hm as [Hn|Hm]; [left; exact Hn|right].
    apply Z.eqb_eq. exact Hm. }
  unfold _match_socket_address, endpoint_match.
  rewrite (bind_Ret _ _ w w tt Hx).
  destruct (negb (sa_family_eqb (ss_family key) (ss_family (address x))));
    [reflexivity|].
  destruct key as [|p1 a1|p1 f1 a1 s1|path1|n1],
           (address x) as [|p2 a2|p2 f2 a2 s2|path2|n2];
    try reflexivity.
  - destruct (p1 =? p2); reflexivity.
  - destruct (p1 =? p2); [|reflexivity].
    destruct (s1 =? s2); reflexivity.
Qed.

Lemma endpoint_match_same (a b : slurm_addr_t) :
  endpoint_match a b = Some true <-> same_endpoint a b.
Proof.
  unfold endpoint_match, same_endpoint.
  destruct a as [|p1 a1|p1 f1 a1 s1|path1|n1],
           b as [|p2 a2|p2 f2 a2 s2|path2|n2];
    simpl; try (split; [discriminate|intros []]).
  - destruct (Z.eqb_spec p1 p2), (Z.eqb_spec a1 a2); simpl;
      split; try discriminate; try tauto; intros [? ?]; contradiction.
  - destruct (Z.eqb_spec p1 p2), (Z.eqb_spec s1 s2); simpl;
      try (split; [discriminate|intros (? & ? & ?); contradiction]).
    destruct (list_eqb a1 a2) eqn:Ea.
    + apply list_eqb_eq in Ea. tauto.
    + split; [discriminate|intros (_ & Ha & _)].
      apply list_eqb_eq in Ha. congruence.
  - destruct (String.eqb_spec path1 path2);
      split; try discriminate; try tauto; intros ?; contradiction.
  - destruct (n1 =? n2); simpl; split; try discriminate; intros [].
Qed.

Lemma endpoint_match_supported (a b : slurm_addr_t) :
  family_supported a = true -> endpoint_match a b <> None.
Proof.
  unfold endpoint_match, family_supported.
  destruct a, b; simpl; intros H; try discriminate H; discriminate.
Qed.

Lemma list_find_first_ro_verdicts (key : slurm_addr_t) (w : world)
    (l : list conmgr_fd_t) :
  (forall x, In x l -> NDEBUG = true \/ magic x = MAGIC_CON_MGR_FD) ->
  (forall x, In x l -> endpoint_match key (address x) <> None) ->
  exists r,
    list_find_first_ro l (fun x => _match_socket_address x key) w = Ret r w /\
    (r <> None <-> exists x, In x l /\ endpoint_match key (address x)
                                      = Some true).
Proof.
  induction l as [|x l IH]; intros Hm Hv; simpl.
  - exists None. split; [reflexivity|].
    split; [intros H; contradiction|intros (x & [] & _)].
  - unfold bind at 1.
    rewrite (_match_socket_address_eq x key w (Hm x (or_introl eq_refl))).
    destruct (endpoint_match key (address x)) as [[|]|] eqn:Ex.
    + exists (Some x). split; [reflexivity|].
      split; [|discriminate]. intros _. exists x. split; [left; reflexivity|].
      exact Ex.
    + destruct IH as (r & E & Hr).
      { intros y Hy. apply Hm. right. exact Hy. }
      { intros y Hy. apply Hv. right. exact Hy. }
      exists r. split; [exact E|].
      rewrite Hr. split.
      * intros (y & Hy & Ey). exists y. split; [right; exact Hy|exact Ey].
      * intros (y & [<-|Hy] & Ey); [congruence|].
        exists y. split; assumption.
    + exfalso. apply (Hv x); [left; reflexivity|exact Ex].
Qed.

Lemma list_find_first_ro_no_verdict (key : slurm_addr_t) (w : world)
    (pre post : list conmgr_fd_t) (x : conmgr_fd_t) :
  (forall y, In y (pre ++ x :: post) ->
             NDEBUG = true \/ magic y = MAGIC_CON_MGR_FD) ->
  (forall y, In y pre -> endpoint_match key (address y) = Some false) ->
  endpoint_match key (address x) = None ->
  list_find_first_ro (pre ++ x :: post)
    (fun x => _match_socket_address x key) w = Fatal w.
Proof.
  induction pre as [|y pre IH]; intros Hm Hpre Hx; simpl.
  - unfold bind at 1.
    rewrite (_match_socket_address_eq x key w (Hm x (or_introl eq_refl))).
    rewrite Hx. reflexivity.
  - unfold bind at 1.
    rewrite (_match_socket_address_eq y key w (Hm y (or_introl eq_refl))).
    rewrite (Hpre y (or_introl eq_refl)). simpl.
    apply IH; [|intros z Hz; apply Hpre; right; exact Hz|exact Hx].
    intros z Hz. apply Hm. right. exact Hz.
Qed.

Lemma sa_family_eqb_eq (a b : sa_family_t) :
  sa_family_eqb a b = true <-> a = b.
Proof.
  destruct a, b; simpl; split; intros H;
    try reflexivity; try discriminate H.
  - apply Z.eqb_eq in H. subst. reflexivity.
  - inversion H. apply Z.eqb_refl.
Qed.

Lemma endpoint_match_unsupported (a b : slurm_addr_t) :
  family_supported a = false ->
  (ss_family b <> ss_family a -> endpoint_match a b = Some false) /\
  (ss_family b = ss_family a -> endpoint_match a b = None).
Proof.
  intros Hs. unfold endpoint_match.
  destruct (sa_family_eqb (ss_family a) (ss_family b)) eqn:E; simpl.
  - apply sa_family_eqb_eq in E. split; [intros Hne; congruence|].
    intros _. destruct a, b; try discriminate Hs; try discriminate E;
      reflexivity.
  - split; [reflexivity|]. intros He.
    assert (Et : sa_family_eqb (ss_family a) (ss_family b) = true)
      by (apply sa_family_eqb_eq; congruence).
    congruence.
Qed.

(** The first listener with an address of the family. *)
Lemma first_of_family (f : sa_family_t) (l : list conmgr_fd_t) :
  (exists x, In x l /\ ss_family (address x) = f) ->
  exists pre y post,
    l = pre ++ y :: post /\ ss_family (address y) = f /\
    forall z, In z pre -> ss_family (address z) <> f.
Proof.
  intros (x & Hx & Hf). revert Hx.
  induction l as [|y l IH]; intros Hx; [destruct Hx|].
  destruct (sa_family_eqb (ss_family (address y)) f) eqn:Ey.
  - exists [], y, l. split; [reflexivity|].
    split; [apply sa_family_eqb_eq; exact Ey|intros z []].
  - assert (Hne : ss_family (address y) <> f).
    { intros Heq. apply sa_family_eqb_eq in Heq. congruence. }
    destruct Hx as [->|Hx]; [contradiction|].
    destruct (IH Hx) as (pre & y' & post & -> & Hy' & Hpre).
    exists (y :: pre), y', post. split; [reflexivity|].
    split; [exact Hy'|].
    intros z [<-|Hz]; [exact Hne|auto].
Qed.

Lemma substring_whole (s : string) (m : nat) :
  (String.length s <= m)%nat -> String.substring 0 m s = s.
Proof.
  revert m. induction s as [|c s IH]; intros m Hm.
  - destruct m; reflexivity.
  - destruct m as [|m]; simpl in Hm; [lia|].
    simpl. f_equal. apply IH. lia.
Qed.

Lemma field_prefix_whole (width n v : Z) :
  0 < width -> width <= n -> field_prefix width n v = v.
Proof.
  intros Hw Hn. unfold field_prefix.
  destruct (Z.leb_spec n 0); [lia|].
  destruct (Z.leb_spec width n); [reflexivity|lia].
Qed.

(** A copy of the bytes that hold the fields is the address. *)
Lemma memcpy_slurm_addr_t_whole (a : slurm_addr_t) (n : Z) :
  sockaddr_len a <= n -> memcpy_slurm_addr_t a n = a.
Proof.
  intros Hn. unfold memcpy_slurm_addr_t.
  destruct a as [|port ad|port flow ad scope|path|f];
    cbv beta iota delta [sockaddr_len] in Hn.
  - destruct (n <=? 0); reflexivity.
  - destruct (Z.leb_spec n 0); [lia|].
    rewrite !field_prefix_whole by lia. reflexivity.
  - destruct (Z.leb_spec n 0); [lia|].
    rewrite !field_prefix_whole by lia.
    unfold bytes_prefix.
    destruct (Z.leb_spec (n - 8) 0); [lia|].
    destruct (Z.leb_spec 16 (n - 8)); [reflexivity|lia].
  - destruct (Z.leb_spec n 0); [lia|].
    unfold string_prefix. rewrite substring_whole by lia. reflexivity.
  - destruct (Z.leb_spec n 0); [lia|].
    destruct (Z.eqb_spec n 1); [lia|reflexivity].
Qed.

(** A copy of the two bytes of the family, or of more, keeps the family. *)
Lemma memcpy_slurm_addr_t_family (a : slurm_addr_t) (n : Z) :
  2 <= n -> ss_family (memcpy_slurm_addr_t a n) = ss_family a.
Proof.
  intros Hn. unfold memcpy_slurm_addr_t.
  destruct (Z.leb_spec n 0); [lia|].
  destruct a; try reflexivity.
  destruct (Z.eqb_spec n 1); [lia|reflexivity].
Qed.

Lemma _is_listening_eq (addr : slurm_addr_t) (addrlen : Z) (w : world) :
  _is_listening addr addrlen w =
    match list_find_first_ro (listen_conns (mgr w))
            (fun x => _match_socket_address x
                        (memcpy_slurm_addr_t addr addrlen)) w with
    | Ret r w' => Ret (is_some r) w'
    | Fatal w' => Fatal w'
    | Spin w' => Spin w'
    end.
Proof.
  unfold _is_listening. unfold bind at 1. unfold get_mgr at 1.
  unfold bind.
  destruct (list_find_first_ro _ _ w); reflexivity.
Qed.

(** X22.  [_is_listening] with listeners of the right magic looks for the
    address that [memcpy] leaves in zeroed storage: the first [addrlen]
    bytes of the address given.  When that copy is an IPv4, IPv6 or unix
    address it answers, and answers true exactly when some listener has
    the same endpoint as the copy.  When the copy is of another family,
    as zeroed storage is, it answers false when no listener has an
    address of that family, and the program stops as soon as some
    listener has one, as a listener registered without address or on a
    descriptor that is no socket has.  A copy of no bytes leaves zeroed
    storage; a copy of the bytes that hold the fields of the address, or
    of more, is the address itself; a copy of the two bytes of the family,
    or of more, keeps the family, while the fields that are not copied
    are zero. *)
Theorem _is_listening_same_endpoint (addr : slurm_addr_t) (addrlen : Z)
    (w : world) :
  listeners_ok (mgr w) ->
  (family_supported (memcpy_slurm_addr_t addr addrlen) = true ->
   exists b,
     _is_listening addr addrlen w = Ret b w /\
     (b = true <->
      exists x, In x (listen_conns (mgr w)) /\
                same_endpoint (memcpy_slurm_addr_t addr addrlen)
                              (address x))) /\
  (family_supported (memcpy_slurm_addr_t addr addrlen) = false ->
   (forall x, In x (listen_conns (mgr w)) ->
              ss_family (address x)
              <> ss_family (memcpy_slurm_addr_t addr addrlen)) ->
   _is_listening addr addrlen w = Ret false w) /\
  (family_supported (memcpy_slurm_addr_t addr addrlen) = false ->
   (exists x, In x (listen_conns (mgr w)) /\
              ss_family (address x)
              = ss_family (memcpy_slurm_addr_t addr addrlen)) ->
   _is_listening addr addrlen w = Fatal w) /\
  (addrlen <= 0 -> memcpy_slurm_addr_t addr addrlen = sockaddr_unspec) /\
  (sockaddr_len addr <= addrlen ->
   memcpy_slurm_addr_t addr addrlen = addr) /\
  (2 <= addrlen ->
   ss_family (memcpy_slurm_addr_t addr addrlen) = ss_family addr /\
   (forall port a, addr = sockaddr_in port a -> addrlen < 3 ->
                   memcpy_slurm_addr_t addr addrlen = sockaddr_in 0 0)).
Proof.
  intros Hok.
  assert (Hm : forall x, In x (listen_conns (mgr w)) ->
                         NDEBUG = true \/ magic x = MAGIC_CON_MGR_FD).
  { intros x Hx. destruct Hok as [Hn|Hall]; [left; exact Hn|right; auto]. }
  rewrite _is_listening_eq.
  set (key := memcpy_slurm_addr_t addr addrlen).
  split; [|split; [|split; [|split; [|split]]]].
  - intros Hs.
    destruct (list_find_first_ro_verdicts key w (listen_conns (mgr w)) Hm)
      as (r & E & Hr).
    { intros x _. apply endpoint_match_supported. exact Hs. }
    exists (is_some r). split; [rewrite E; reflexivity|].
    transitivity (r <> None).
    { destruct r; simpl; split; try discriminate; try reflexivity;
        intros H; contradiction. }
    rewrite Hr. split; intros (x & Hx & Ex); exists x; (split; [exact Hx|]);
      apply endpoint_match_same; exact Ex.
  - intros Hs Hall.
    destruct (list_find_first_ro_verdicts key w (listen_conns (mgr w)) Hm)
      as (r & E & Hr).
    { intros x Hx.
      rewrite (proj1 (endpoint_match_unsupported key _ Hs) (Hall x Hx)).
      discriminate. }
    rewrite E.
    destruct r as [x|]; [|reflexivity].
    exfalso. destruct (proj1 Hr) as (y & Hy & Ey); [discriminate|].
    rewrite (proj1 (endpoint_match_unsupported key _ Hs) (Hall y Hy)) in Ey.
    discriminate Ey.
  - intros Hs Hex.
    destruct (first_of_family (ss_family key) (listen_conns (mgr w)) Hex)
      as (pre & y & post & El & Hy & Hpre).
    rewrite El in Hm |- *.
    rewrite (list_find_first_ro_no_verdict key w pre post y Hm).
    + reflexivity.
    + intros z Hz. apply (endpoint_match_unsupported key _ Hs).
      apply Hpre. exact Hz.
    + apply (endpoint_match_unsupported key _ Hs). exact Hy.
  - intros Hlen. unfold key, memcpy_slurm_addr_t.
    destruct (Z.leb_spec addrlen 0); [reflexivity|lia].
  - intros Hlen. apply memcpy_slurm_addr_t_whole. exact Hlen.
  - intros Hlen. split; [apply memcpy_slurm_addr_t_family; exact Hlen|].
    intros port a -> Hshort. unfold key, memcpy_slurm_addr_t, field_prefix.
    destruct (Z.leb_spec addrlen 0); [lia|].
    destruct (Z.leb_spec (addrlen - 2) 0); [|lia].
    destruct (Z.leb_spec (addrlen - 4) 0); [reflexivity|lia].
Qed.

(** ** conmgr_create_listen_socket *)

Lemma same_endpoint_supported (a b : slurm_addr_t) :
  same_endpoint a b -> family_supported a = true.
Proof. destruct a, b; simpl; intros H; (reflexivity || destruct H). Qed.

Lemma _is_listening_duplicate (addr : slurm_addr_t) (addrlen : Z)
    (w : world) :
  listeners_ok (mgr w) ->
  (exists x, In x (listen_conns (mgr w)) /\
             same_endpoint (memcpy_slurm_addr_t addr addrlen) (address x)) ->
  _is_listening addr addrlen w = Ret true w.
Proof.
  intros Hok (x & Hx & Hsame).
  assert (Hm : forall y, In y (listen_conns (mgr w)) ->
                         NDEBUG = true \/ magic y = MAGIC_CON_MGR_FD).
  { intros y Hy. destruct Hok as [Hn|Hall]; [left; exact Hn|right; auto]. }
  rewrite _is_listening_eq.
  destruct (list_find_first_ro_verdicts (memcpy_slurm_addr_t addr addrlen) w
              (listen_conns (mgr w)) Hm) as (r & E & Hr).
  { intros y _. apply endpoint_match_supported.
    apply (same_endpoint_supported _ _ Hsame). }
  rewrite E.
  destruct r as [y|]; [reflexivity|].
  exfalso. apply (proj2 Hr); [|reflexivity].
  exists x. split; [exact Hx|]. apply endpoint_match_same. exact Hsame.
Qed.

(** A duplicate is passed over: the loop goes on with the next address,
    one trace later. *)
Lemma conmgr_create_listen_socket_loop_duplicate (t : conmgr_con_type_t)
    (ev : conmgr_events_t) (arg_ : Z) (a : addrinfo) (rest : list addrinfo)
    (w : world) :
  listeners_ok (mgr w) -> listens_on (mgr w) a ->
  conmgr_create_listen_socket_loop t ev arg_ (a :: rest) SLURM_SUCCESS w =
    conmgr_create_listen_socket_loop t ev arg_ rest SLURM_SUCCESS
      (after_event ev_duplicate w).
Proof.
  intros Hok Hdup. simpl conmgr_create_listen_socket_loop.
  change (negb (SLURM_SUCCESS =? 0)) with false. cbv iota.
  rewrite (bind_Ret _ _ _ _ _ (_is_listening_duplicate _ _ w Hok Hdup)).
  reflexivity.
Qed.

Lemma conmgr_create_listen_socket_loop_duplicates (t : conmgr_con_type_t)
    (ev : conmgr_events_t) (arg_ : Z) (l : list addrinfo) :
  forall w,
    listeners_ok (mgr w) ->
    (forall a, In a l -> listens_on (mgr w) a) ->
    exists w',
      conmgr_create_listen_socket_loop t ev arg_ l SLURM_SUCCESS w
      = Ret SLURM_SUCCESS w' /\
      mgr w' = mgr w /\ sig w' = sig w /\ slurm_conf w' = slurm_conf w /\
      trace w' = repeat ev_duplicate (List.length l) ++ trace w.
Proof.
  induction l as [|a l IH]; intros w Hok Hall.
  - exists w. repeat split; reflexivity.
  - rewrite conmgr_create_listen_socket_loop_duplicate;
      [|exact Hok|apply Hall; left; reflexivity].
    destruct (IH (after_event ev_duplicate w)) as (w' & E & Hm & Hs & Hc & Ht).
    + exact Hok.
    + intros b Hb. apply Hall. right. exact Hb.
    + exists w'. split; [exact E|].
      split; [exact Hm|]. split; [exact Hs|]. split; [exact Hc|].
      rewrite Ht. simpl trace. apply repeat_app_cons.
Qed.

(** A request for a local-domain socket is not checked against the
    listeners: when it succeeds, a listener was added. *)
Lemma on_return_conmgr_create_listen_socket_unix (t : conmgr_con_type_t)
    (listen_on unixsock0 : string) (ev : conmgr_events_t) (arg_ : Z)
    (w : world) :
  xstrstr listen_on UNIX_PREFIX = Some unixsock0 ->
  on_return (conmgr_create_listen_socket t listen_on ev arg_) w
    (fun rc w' =>
       (rc = SLURM_SUCCESS ->
        exists con,
          registered true con (mgr w) (mgr w') /\
          is_listen con = true /\
          unix_socket con =
            Some (String.substring (String.length UNIX_PREFIX)
                    (String.length unixsock0 - String.length UNIX_PREFIX)
                    unixsock0)) /\
       (rc <> SLURM_SUCCESS -> mgr w' = mgr w)).
Proof.
  intros Hpre. unfold conmgr_create_listen_socket. rewrite Hpre.
  cbv zeta.
  set (path := String.substring (String.length UNIX_PREFIX)
                 (String.length unixsock0 - String.length UNIX_PREFIX)
                 unixsock0).
  assert (Hkeep : forall (A B : Type) (m : M A) (k : A -> M B) (w0 : world)
                         (Q : B -> world -> Prop),
            mgr w0 = mgr w ->
            on_return m w0 (fun _ w1 => mgr w1 = mgr w0) ->
            (forall a w1, mgr w1 = mgr w -> on_return (k a) w1 Q) ->
            on_return (bind m k) w0 Q).
  { intros A B m k w0 Q H0 Hm Hk. apply on_return_bind.
    eapply on_return_weaken; [exact Hm|].
    intros a w1 H1. cbv beta in H1. apply Hk. congruence. }
  apply Hkeep; [reflexivity|steps; reflexivity|].
  intros fd w1 H1.
  destruct (fd <? 0); [step|].
  destruct (String.eqb path ""); [step|].
  destruct (negb (sa_family_eqb
                    (ss_family (os_sockaddr_from_unix_path path)) AF_UNIX));
    [step|].
  apply Hkeep; [exact H1|step; apply logged_mgr|].
  intros u2 w2 H2.
  apply Hkeep; [exact H2|steps; reflexivity|].
  intros r3 w3 H3.
  apply Hkeep; [exact H3|steps; reflexivity|].
  intros e4 w4 H4.
  apply Hkeep; [exact H4|steps; reflexivity|].
  intros u5 w5 H5.
  apply Hkeep; [exact H5|steps; reflexivity|].
  intros rc6 w6 H6.
  destruct (negb (rc6 =? 0)); [step|].
  apply Hkeep; [exact H6|steps; reflexivity|].
  intros u7 w7 H7.
  apply Hkeep; [exact H7|steps; reflexivity|].
  intros rc8 w8 H8.
  destruct (rc8 <? 0); [step|].
  unfold conmgr_process_fd_unix_listen.
  eapply on_return_weaken; [apply on_return_add_connection|].
  intros rc w' (_ & _ & evs & _ & _ & H). cbv beta.
  destruct H as [(Hrc & Hm & _)|(Hrc & con & Hreg & Hnew)].
  - split; [intros Hs; rewrite Hs in Hrc; discriminate Hrc|].
    intros _. congruence.
  - split; [|intros Hn; contradiction].
    intros _. exists con. split; [rewrite <- H8; exact Hreg|].
    destruct Hnew as (_ & _ & _ & _ & _ & Hl & Hrest).
    split; [exact Hl|].
    do 11 (destruct Hrest as (_ & Hrest)).
    destruct Hrest as (Hu & _). exact Hu.
Qed.

(** C6 (amended).  [conmgr_create_listen_socket] checks only a request
    for a host and port against the listeners, in a release build or in a
    registry whose listeners have the right magic.  The address of a
    resolved entry is its first [ai_addrlen] bytes, which is the whole
    address when [ai_addrlen] covers its fields.  Each resolved address
    that names the endpoint of a listener (IPv4 by address and port, IPv6
    by address, port and scope, unix by path) is passed over with one
    verbose trace and nothing else: no socket is made and the loop goes on
    with the next address.  So a request that parses and resolves and all
    of whose resolved addresses are listened on already returns success,
    and leaves the registry as it was: after the calls that parse and
    resolve it, it only leaves one such trace per address.  A request
    with the prefix of a local-domain socket is not checked against the
    listeners: when it returns success it has added a listener for its
    path, whatever the listeners were, and otherwise it leaves the
    registry as it was. *)
Theorem conmgr_create_listen_socket_duplicate (t : conmgr_con_type_t)
    (listen_on : string) (ev : conmgr_events_t) (arg_ : Z) (w : world)
    (parsed_hp : parsed_host_port_t) :
  listeners_ok (mgr w) ->
  (forall a rest,
     listens_on (mgr w) a ->
     conmgr_create_listen_socket_loop t ev arg_ (a :: rest) SLURM_SUCCESS w =
       conmgr_create_listen_socket_loop t ev arg_ rest SLURM_SUCCESS
         (after_event ev_duplicate w)) /\
  (forall a x,
     sockaddr_len (ai_addr a) <= ai_addrlen a ->
     In x (listen_conns (mgr w)) ->
     same_endpoint (ai_addr a) (address x) ->
     listens_on (mgr w) a) /\
  (xstrstr listen_on UNIX_PREFIX = None ->
   os_parse (trace w) listen_on = Some parsed_hp ->
   let addrlist :=
     os_xgetaddrinfo (ev_parse listen_on :: trace w) (host parsed_hp)
       (port parsed_hp) in
   addrlist <> [] ->
   (forall a, In a addrlist -> listens_on (mgr w) a) ->
   exists w',
     conmgr_create_listen_socket t listen_on ev arg_ w
     = Ret SLURM_SUCCESS w' /\
     mgr w' = mgr w /\ sig w' = sig w /\ slurm_conf w' = slurm_conf w /\
     trace w' =
       ev_free_parse
         :: repeat ev_duplicate (List.length addrlist)
         ++ ev_xgetaddrinfo (host parsed_hp) (port parsed_hp)
         :: ev_parse listen_on :: trace w) /\
  (forall unixsock0 rc w',
     xstrstr listen_on UNIX_PREFIX = Some unixsock0 ->
     conmgr_create_listen_socket t listen_on ev arg_ w = Ret rc w' ->
     (rc = SLURM_SUCCESS ->
      exists con,
        registered true con (mgr w) (mgr w') /\
        is_listen con = true /\
        unix_socket con =
          Some (String.substring (String.length UNIX_PREFIX)
                  (String.length unixsock0 - String.length UNIX_PREFIX)
                  unixsock0)) /\
     (rc <> SLURM_SUCCESS -> mgr w' = mgr w)).
Proof.
  intros Hok. split; [|split; [|split]].
  - intros a rest Hdup.
    apply conmgr_create_listen_socket_loop_duplicate; assumption.
  - intros a x Hlen Hx Hsame. exists x. split; [exact Hx|].
    rewrite (memcpy_slurm_addr_t_whole _ _ Hlen). exact Hsame.
  - intros Hpre Hparse addrlist Hne Hall.
    unfold conmgr_create_listen_socket. rewrite Hpre.
    set (w1 := after_event (ev_parse listen_on) w).
    set (w2 := after_event
                 (ev_xgetaddrinfo (host parsed_hp) (port parsed_hp)) w1).
    assert (Ep : callbacks_parse listen_on w = Ret (Some parsed_hp) w1).
    { unfold callbacks_parse, bind, get_trace, emit, ret.
      rewrite Hparse. reflexivity. }
    assert (Eg : xgetaddrinfo (host parsed_hp) (port parsed_hp) w1
                 = Ret addrlist w2) by reflexivity.
    rewrite (bind_Ret _ _ _ _ _ Ep), (bind_Ret _ _ _ _ _ Eg).
    destruct (conmgr_create_listen_socket_loop_duplicates t ev arg_ addrlist
                w2 Hok Hall) as (w' & E & Hm & Hs & Hc & Ht).
    clearbody addrlist.
    destruct addrlist as [|a l]; [contradiction|].
    rewrite (bind_Ret _ _ _ _ _ E).
    eexists. split; [reflexivity|].
    simpl. rewrite Ht. repeat split; assumption.
  - intros unixsock0 rc w' Hpre E.
    exact (on_return_elim _ _ _ _ _
             (on_return_conmgr_create_listen_socket_unix t listen_on
                unixsock0 ev arg_ w Hpre) E).
Qed.

(** ** conmgr_process_fd and conmgr_process_fd_listen *)

(** X23.  The two wrappers of [add_connection] without unix socket path,
    in a release build or when the callback of the type is there.
    [conmgr_process_fd] never touches the listeners: on success it
    appends to the connections one connection with the two descriptors
    and with buffers.  [conmgr_process_fd_listen] never touches the
    connections: on success it appends to the listeners one listener
    with the descriptor as input, no output descriptor and no buffers,
    and it never asks for keep-alive.  A wrapper that fails leaves both
    lists alone. *)
Theorem conmgr_process_fd_registers (t : conmgr_con_type_t)
    (in_fd out_fd fd : Z) (ev : conmgr_events_t)
    (addr : option slurm_addr_t) (addrlen arg_ : Z) (w : world) :
  NDEBUG = true \/ has_callback_for ev t = true ->
  (exists rc w',
     conmgr_process_fd t in_fd out_fd ev addr addrlen arg_ w = Ret rc w' /\
     listen_conns (mgr w') = listen_conns (mgr w) /\
     (rc <> SLURM_SUCCESS -> connections (mgr w') = connections (mgr w)) /\
     (rc = SLURM_SUCCESS ->
      exists con,
        connections (mgr w') = connections (mgr w) ++ [con] /\
        is_listen con = false /\
        input_fd con = in_fd /\ output_fd con = out_fd /\
        in_buf con <> None /\ out con = Some [])) /\
  (exists rc w' evs,
     conmgr_process_fd_listen fd t ev addr addrlen arg_ w = Ret rc w' /\
     connections (mgr w') = connections (mgr w) /\
     (rc <> SLURM_SUCCESS -> listen_conns (mgr w') = listen_conns (mgr w)) /\
     (rc = SLURM_SUCCESS ->
      exists con,
        listen_conns (mgr w') = listen_conns (mgr w) ++ [con] /\
        is_listen con = true /\
        input_fd con = fd /\ output_fd con = -1 /\
        in_buf con = None /\ out con = None) /\
     trace w' = evs ++ trace w /\
     forallb (ev_is_add_connection fd (-1) false) evs = true).
Proof.
  intros Hok. split.
  - unfold conmgr_process_fd.
    destruct (add_connection_run t None in_fd out_fd ev addr addrlen false
                None arg_ w) as (rc & w' & E & _ & _ & evs & _ & _ & H).
    { destruct Hok as [Hn|Hcb]; [left; exact Hn|right].
      split; [reflexivity|split; [exact Hcb|discriminate]]. }
    exists rc, w'. split; [exact E|].
    destruct H as [(Hrc & Hm & _)|(Hrc & con & Hreg & Hnew)].
    + rewrite Hm. split; [reflexivity|split; [reflexivity|]].
      intros Hs. rewrite Hs in Hrc. discriminate Hrc.
    + destruct Hreg as (_ & _ & Hc & Hl).
      split; [exact Hl|split; [intros Hn; contradiction|]].
      intros _. exists con. split; [exact Hc|].
      unfold new_connection in Hnew.
      destruct Hnew as (_ & Hi & Ho & _ & _ & Hli & Hrest).
      repeat (split; [assumption|]).
      do 12 (destruct Hrest as (_ & Hrest)).
      destruct Hrest as ((b & Hb & _) & Hout).
      split; [rewrite Hb; discriminate|exact Hout].
  - unfold conmgr_process_fd_listen.
    destruct (add_connection_run t None fd (-1) ev addr addrlen true
                None arg_ w) as (rc & w' & E & _ & _ & evs & Ht & He & H).
    { destruct Hok as [Hn|Hcb]; [left; exact Hn|right].
      split; [reflexivity|split; [exact Hcb|intros _; lia]]. }
    exists rc, w', evs. split; [exact E|].
    assert (Hev : forallb (ev_is_add_connection fd (-1) false) evs = true)
      by exact He.
    destruct H as [(Hrc & Hm & _)|(Hrc & con & Hreg & Hnew)].
    + rewrite Hm. split; [reflexivity|split; [reflexivity|]].
      split; [|split; assumption].
      intros Hs. rewrite Hs in Hrc. discriminate Hrc.
    + destruct Hreg as (_ & _ & Hc & Hl).
      split; [exact Hc|split; [intros Hn; contradiction|]].
      split; [|split; assumption].
      intros _. exists con. split; [exact Hl|].
      unfold new_connection in Hnew.
      destruct Hnew as (_ & Hi & Ho & _ & _ & Hli & Hrest).
      repeat (split; [assumption|]).
      do 12 (destruct Hrest as (_ & Hrest)).
      exact Hrest.
Qed.

(** ** gres_select_util.c: memory limits from GRES *)

Lemma bit_ffs_from_spec (b : list bool) :
  forall i, 0 <= i ->
    (bit_ffs_from b i = -1 /\ forall j, nth j b false = false) \/
    (i <= bit_ffs_from b i < i + Z.of_nat (List.length b) /\
     nth (Z.to_nat (bit_ffs_from b i - i)) b false = true /\
     forall j, (j < Z.to_nat (bit_ffs_from b i - i))%nat ->
               nth j b false = false).
Proof.
  induction b as [|x b IH]; intros i Hi; simpl bit_ffs_from.
  - left. split; [reflexivity|]. intros [|j]; reflexivity.
  - destruct x.
    + right. rewrite Z.sub_diag. simpl.
      split; [lia|split; [reflexivity|intros j Hj; lia]].
    + destruct (IH (i + 1)) as [[E Hall]|(Hr & Hset & Hbefore)]; [lia| |].
      * left. split; [exact E|]. intros [|j]; [reflexivity|apply Hall].
      * right.
        replace (Z.to_nat (bit_ffs_from b (i + 1) - i))
          with (S (Z.to_nat (bit_ffs_from b (i + 1) - (i + 1)))) by lia.
        split; [simpl List.length; lia|].
        split; [exact Hset|].
        intros [|j] Hj; [reflexivity|]. apply Hbefore. lia.
Qed.

Lemma bit_fls_from_spec (b : list bool) :
  forall i last, 0 <= i -> last < i ->
    (bit_fls_from b i last = last /\ forall j, nth j b false = false) \/
    (i <= bit_fls_from b i last < i + Z.of_nat (List.length b) /\
     forall j, (Z.to_nat (bit_fls_from b i last - i) < j)%nat ->
               nth j b false = false).
Proof.
  induction b as [|x b IH]; intros i last Hi Hl; simpl bit_fls_from.
  - left. split; [reflexivity|]. intros [|j]; reflexivity.
  - destruct x.
    + right.
      destruct (IH (i + 1) i) as [[E Hall]|(Hr & Hafter)]; [lia|lia| |].
      * rewrite E, Z.sub_diag. simpl.
        split; [lia|]. intros [|j] Hj; [lia|apply Hall].
      * split; [simpl List.length; lia|].
        intros [|j] Hj; [lia|]. apply Hafter. lia.
    + destruct (IH (i + 1) last) as [[E Hall]|(Hr & Hafter)]; [lia|lia| |].
      * left. split; [exact E|]. intros [|j]; [reflexivity|apply Hall].
      * right. split; [simpl List.length; lia|].
        intros [|j] Hj; [lia|]. apply Hafter. lia.
Qed.

Lemma filter_none {A : Type} (f : A -> bool) (l : list A) :
  (forall x, In x l -> f x = false) -> filter f l = [].
Proof.
  induction l as [|x l IH]; intros H; [reflexivity|].
  simpl. rewrite (H x (or_introl eq_refl)). apply IH.
  intros y Hy. apply H. right. exact Hy.
Qed.

(** The bits between the first and the last set bit are all the set
    bits. *)
Lemma job_nodes_range (bitmap : list bool) :
  0 <= bit_ffs bitmap ->
  filter (bit_test bitmap)
    (seq (Z.to_nat (bit_ffs bitmap))
         (Z.to_nat (bit_fls bitmap - bit_ffs bitmap + 1)))
  = job_nodes bitmap.
Proof.
  intros Hf. unfold job_nodes, bit_ffs, bit_fls in *.
  destruct (bit_ffs_from_spec bitmap 0 ltac:(lia))
    as [[E _]|(Hr & Hset & Hbefore)]; [lia|].
  destruct (bit_fls_from_spec bitmap 0 (-1) ltac:(lia) ltac:(lia))
    as [[E Hall]|(Hl & Hafter)].
  { rewrite Hall in Hset. discriminate Hset. }
  rewrite Z.sub_0_r in *.
  set (lo := bit_ffs_from bitmap 0) in *.
  set (hi := bit_fls_from bitmap 0 (-1)) in *.
  assert (Hle : lo <= hi).
  { destruct (Z_le_gt_dec lo hi) as [H|H]; [exact H|].
    rewrite Hafter in Hset by lia. discriminate Hset. }
  replace (List.length bitmap)
    with (Z.to_nat lo
          + (Z.to_nat (hi - lo + 1)
             + (List.length bitmap - Z.to_nat lo - Z.to_nat (hi - lo + 1))))%nat
    by lia.
  rewrite !seq_app, !filter_app. simpl Nat.add.
  rewrite (filter_none _ (seq 0 (Z.to_nat lo))).
  2:{ intros x Hx. apply in_seq in Hx. apply Hbefore. lia. }
  rewrite (filter_none _ (seq (Z.to_nat lo + Z.to_nat (hi - lo + 1)) _)).
  2:{ intros x Hx. apply in_seq in Hx. apply Hafter. lia. }
  rewrite app_nil_r. reflexivity.
Qed.

Lemma array_set_spec (l : list Z) :
  forall n v old,
    nth_error l n = Some old ->
    exists l',
      array_set l n v = Some l' /\ List.length l' = List.length l /\
      forall k, nth_error l' k = if (k =? n)%nat then Some v
                                 else nth_error l k.
Proof.
  induction l as [|x l IH]; intros [|n] v old E; simpl in E;
    try discriminate E.
  - exists (v :: l). split; [reflexivity|split; [reflexivity|]].
    intros [|k]; reflexivity.
  - destruct (IH n v old E) as (l' & E' & Hlen & Hnth).
    exists (x :: l'). simpl. rewrite E'.
    split; [reflexivity|split; [simpl; lia|]].
    intros [|k]; [reflexivity|]. simpl. apply Hnth.
Qed.

Lemma gres_select_util_job_mem_set_nodes_spec
    (tbl : list node_record_t) (g : gres_state_t) (d : gres_job_state_t)
    (m : Z) (first_set : bool) (bitmap : list bool) (whole : Z)
    (cnt : list Z) :
  whole <> 1 ->
  gres_cnt_node_select d = Some cnt ->
  forall (idxs : list nat) (p : nat) (mem : list Z),
    (forall i, In i (filter (bit_test bitmap) idxs) ->
               nth_error cnt i <> None) ->
    (p + List.length (filter (bit_test bitmap) idxs)
     <= List.length mem)%nat ->
    exists mem',
      gres_select_util_job_mem_set_nodes tbl g d m first_set bitmap whole
        idxs (Z.of_nat p - 1) mem = Some mem' /\
      List.length mem' = List.length mem /\
      forall k,
        nth_error mem' k =
          if (p <=? k)%nat then
            match nth_error (filter (bit_test bitmap) idxs) (k - p),
                  nth_error mem k with
            | Some i, Some old =>
                Some (memory_entry first_set m (nth i cnt 0) old)
            | _, _ => nth_error mem k
            end
          else nth_error mem k.
Proof.
  intros Hw Hc.
  apply Z.eqb_neq in Hw.
  induction idxs as [|i idxs IH]; intros p mem Hcov Hlen.
  - exists mem. split; [reflexivity|split; [reflexivity|]].
    intros k. destruct (p <=? k)%nat; [|reflexivity].
    destruct (k - p)%nat; simpl; destruct (nth_error mem k); reflexivity.
  - simpl gres_select_util_job_mem_set_nodes.
    simpl filter in Hcov, Hlen |- *.
    destruct (bit_test bitmap i) eqn:Eb; simpl negb; cbv iota.
    2:{ apply IH; assumption. }
    rewrite Hw, Hc.
    destruct (nth_error cnt i) as [c|] eqn:Ec.
    2:{ exfalso. apply (Hcov i); [left; reflexivity|exact Ec]. }
    replace (Z.to_nat (Z.of_nat p - 1 + 1)) with p by lia.
    simpl List.length in Hlen.
    destruct (nth_error mem p) as [old|] eqn:Eo.
    2:{ apply nth_error_None in Eo. lia. }
    destruct (array_set_spec mem p
                (if first_set then uint64 (m * c)
                 else uint64 (old + uint64 (m * c))) old Eo)
      as (mem1 & E1 & Hlen1 & Hnth1).
    rewrite E1.
    replace (Z.of_nat p - 1 + 1) with (Z.of_nat (S p) - 1) by lia.
    destruct (IH (S p) mem1) as (mem' & E' & Hlen' & Hnth').
    { intros j Hj. apply Hcov. right. exact Hj. }
    { rewrite Hlen1. lia. }
    exists mem'. split; [exact E'|split; [congruence|]].
    intros k. rewrite Hnth'.
    destruct (Nat.leb_spec (S p) k) as [Hk|Hk].
    + rewrite Hnth1.
      destruct (Nat.eqb_spec k p) as [->|Hne]; [lia|].
      destruct (Nat.leb_spec p k) as [Hk'|Hk']; [|lia].
      replace (k - p)%nat with (S (k - S p)) by lia. reflexivity.
    + rewrite Hnth1.
      destruct (Nat.eqb_spec k p) as [->|Hne].
      * rewrite Nat.leb_refl, Nat.sub_diag. simpl. rewrite Eo.
        unfold memory_entry. rewrite (nth_error_nth _ _ _ Ec). reflexivity.
      * destruct (Nat.leb_spec p k) as [Hk'|Hk']; [lia|reflexivity].
Qed.

Lemma effective_mem_per_gres_eq (d : gres_job_state_t) :
  (if negb (mem_per_gres d =? 0) then mem_per_gres d
   else def_mem_per_gres d) = effective_mem_per_gres d.
Proof.
  unfold effective_mem_per_gres. destruct (mem_per_gres d =? 0); reflexivity.
Qed.

Lemma counts_memory_eq (d : gres_job_state_t) :
  (effective_mem_per_gres d =? 0)
  || negb (is_some (gres_cnt_node_select d)) = negb (counts_memory d).
Proof.
  unfold counts_memory.
  destruct (effective_mem_per_gres d =? 0),
           (is_some (gres_cnt_node_select d)); reflexivity.
Qed.

Lemma uint64_add (a b : Z) : uint64 (uint64 a + uint64 b) = uint64 (a + b).
Proof. unfold uint64. symmetry. apply Zplus_mod. Qed.

Lemma nth_nth_error (l : list Z) (i : nat) :
  nth i l 0 = match nth_error l i with Some c => c | None => 0 end.
Proof.
  revert i. induction l as [|x l IH]; intros [|i]; simpl; auto.
Qed.

Lemma job_nodes_first (bitmap : list bool) :
  (job_nodes bitmap = [] -> bit_ffs bitmap = -1) /\
  (job_nodes bitmap <> [] -> 0 <= bit_ffs bitmap).
Proof.
  unfold bit_ffs.
  destruct (bit_ffs_from_spec bitmap 0 ltac:(lia))
    as [[E Hall]|(Hr & Hset & _)].
  - split; [intros _; exact E|]. intros Hne. exfalso. apply Hne.
    apply filter_none. intros x _. apply Hall.
  - split; [|intros _; lia]. intros Hnil. exfalso.
    rewrite Z.sub_0_r in Hset.
    assert (Hin : In (Z.to_nat (bit_ffs_from bitmap 0)) (job_nodes bitmap)).
    { apply filter_In. split; [apply in_seq; lia|exact Hset]. }
    rewrite Hnil in Hin. destruct Hin.
Qed.

Lemma gres_select_util_job_mem_set_loop_spec (tbl : list node_record_t)
    (bitmap : list bool) (whole : Z) :
  whole <> 1 -> 0 <= bit_ffs bitmap ->
  forall (l : list gres_state_t) (ds : list gres_job_state_t),
    job_requests l = Some ds ->
    selection_covers bitmap ds ->
    forall (rc : bool) (mem : list Z) (acc : nat -> Z),
      (List.length (job_nodes bitmap) <= List.length mem)%nat ->
      (rc = false -> forall i, acc i = 0) ->
      (rc = true ->
       forall k i, nth_error (job_nodes bitmap) k = Some i ->
                   nth_error mem k = Some (uint64 (acc i))) ->
      exists mem',
        gres_select_util_job_mem_set_loop tbl l bitmap whole
          (bit_ffs bitmap) (bit_fls bitmap) rc (negb rc) mem
          = Some (rc || existsb counts_memory ds, mem') /\
        List.length mem' = List.length mem /\
        (existsb counts_memory ds = false -> mem' = mem) /\
        (rc || existsb counts_memory ds = true ->
         forall k i, nth_error (job_nodes bitmap) k = Some i ->
                     nth_error mem' k
                     = Some (uint64 (memory_on_node ds i (acc i)))) /\
        (forall k, (List.length (job_nodes bitmap) <= k)%nat ->
                   nth_error mem' k = nth_error mem k).
Proof.
  intros Hw Hf.
  induction l as [|g l IH]; intros ds E Hcov rc mem acc Hlen Hzero Hacc.
  - inversion E; subst ds. simpl. rewrite orb_false_r.
    exists mem. repeat split; auto.
  - simpl in E. destruct (gres_data g) as [d|] eqn:Eg; [|discriminate].
    destruct (job_requests l) as [ds0|] eqn:Er; [|discriminate].
    inversion E; subst ds. clear E.
    assert (Hcov0 : selection_covers bitmap ds0).
    { intros d' i Hd'. apply Hcov. right. exact Hd'. }
    simpl gres_select_util_job_mem_set_loop. rewrite Eg.
    rewrite effective_mem_per_gres_eq, counts_memory_eq.
    simpl existsb. unfold memory_on_node. simpl fold_left.
    fold (memory_on_node ds0).
    destruct (counts_memory d) eqn:Ec; simpl negb; cbv iota.
    2:{ simpl orb. apply IH; auto. }
    assert (Hsel : exists cnt, gres_cnt_node_select d = Some cnt).
    { unfold counts_memory in Ec. apply andb_true_iff in Ec.
      destruct Ec as [_ Ec].
      destruct (gres_cnt_node_select d) as [cnt|]; [eauto|discriminate]. }
    destruct Hsel as (cnt & Hsel).
    destruct (gres_select_util_job_mem_set_nodes_spec tbl g d
                (effective_mem_per_gres d) (negb rc) bitmap whole cnt Hw Hsel
                (seq (Z.to_nat (bit_ffs bitmap))
                     (Z.to_nat (bit_fls bitmap - bit_ffs bitmap + 1)))
                O mem) as (mem1 & E1 & Hlen1 & Hnth1).
    { rewrite (job_nodes_range bitmap Hf). intros i Hi.
      pose proof (Hcov d i (or_introl eq_refl) Ec Hi) as Hg.
      unfold gres_on_node in Hg. rewrite Hsel in Hg. exact Hg. }
    { rewrite (job_nodes_range bitmap Hf). simpl. exact Hlen. }
    rewrite (job_nodes_range bitmap Hf) in Hnth1.
    change (Z.of_nat 0 - 1) with (-1) in E1. rewrite E1.
    assert (Hgn : forall i,
              match gres_on_node d i with Some c => c | None => 0 end
              = nth i cnt 0).
    { intros i. unfold gres_on_node. rewrite Hsel.
      symmetry. apply nth_nth_error. }
    destruct (IH ds0 eq_refl Hcov0 true mem1
                (fun i => acc i + effective_mem_per_gres d * nth i cnt 0))
      as (mem' & E' & Hlen' & _ & Hsum & Hrest).
    { rewrite Hlen1. exact Hlen. }
    { discriminate. }
    { intros _ k i Hk. rewrite Hnth1. simpl Nat.leb. cbv iota.
      rewrite Nat.sub_0_r, Hk.
      assert (Hlt : (k < List.length mem)%nat).
      { assert (k < List.length (job_nodes bitmap))%nat; [|lia].
        apply nth_error_Some. rewrite Hk. discriminate. }
      destruct (nth_error mem k) as [old|] eqn:Eo.
      2:{ apply nth_error_None in Eo. lia. }
      f_equal. unfold memory_entry.
      destruct rc; simpl negb; cbv iota.
      - pose proof (Hacc eq_refl k i Hk) as Ho. rewrite Eo in Ho.
        inversion Ho; subst old. apply uint64_add.
      - rewrite (Hzero eq_refl i). reflexivity. }
    simpl negb in E'. simpl orb in E'.
    exists mem'. rewrite orb_true_r.
    split; [exact E'|split; [congruence|]].
    split; [discriminate|].
    split.
    + intros _ k i Hk. rewrite (Hsum eq_refl k i Hk), Hgn. reflexivity.
    + intros k Hk. rewrite (Hrest k Hk), Hnth1. simpl Nat.leb. cbv iota.
      rewrite Nat.sub_0_r.
      destruct (nth_error (job_nodes bitmap) k) eqn:En; [|reflexivity].
      assert (k < List.length (job_nodes bitmap))%nat; [|lia].
      apply nth_error_Some. rewrite En. discriminate.
Qed.

(** X24.  [gres_select_util_job_mem_set] for a job that is not allocated
    whole nodes, whose list holds requests only and whose selected GRES
    are known on each of its nodes, the memory array having an entry per
    node: the result tells whether some request has a memory per GRES in
    effect and a selection; in that case the entry of each node of the
    job becomes the sum, over the requests that count, of the memory per
    GRES times the GRES selected on the node, in 64 bits, whatever the
    entry held before; otherwise the array is as it was.  Entries beyond
    the nodes of the job are never written. *)
Theorem gres_select_util_job_mem_set_sums (tbl : list node_record_t)
    (l : list gres_state_t) (ds : list gres_job_state_t)
    (job_res : job_resources_t) :
  whole_node job_res <> 1 ->
  job_requests l = Some ds ->
  job_nodes (node_bitmap job_res) <> [] ->
  selection_covers (node_bitmap job_res) ds ->
  (List.length (job_nodes (node_bitmap job_res))
   <= List.length (memory_allocated job_res))%nat ->
  exists mem',
    gres_select_util_job_mem_set tbl (Some l) job_res
    = Some (existsb counts_memory ds, mem') /\
    List.length mem' = List.length (memory_allocated job_res) /\
    (existsb counts_memory ds = false -> mem' = memory_allocated job_res) /\
    (existsb counts_memory ds = true ->
     forall k i, nth_error (job_nodes (node_bitmap job_res)) k = Some i ->
                 nth_error mem' k = Some (uint64 (memory_on_node ds i 0))) /\
    (forall k, (List.length (job_nodes (node_bitmap job_res)) <= k)%nat ->
               nth_error mem' k = nth_error (memory_allocated job_res) k).
Proof.
  intros Hw E Hne Hcov Hlen.
  pose proof (proj2 (job_nodes_first (node_bitmap job_res)) Hne) as Hf.
  unfold gres_select_util_job_mem_set.
  destruct (bit_ffs (node_bitmap job_res) <? 0) eqn:Elt.
  { apply Z.ltb_lt in Elt. lia. }
  destruct (gres_select_util_job_mem_set_loop_spec tbl (node_bitmap job_res)
              (whole_node job_res) Hw Hf l ds E Hcov false
              (memory_allocated job_res) (fun _ => 0) Hlen)
    as (mem' & E' & H1 & H2 & H3 & H4).
  - reflexivity.
  - discriminate.
  - exists mem'. simpl in E', H3.
    split; [exact E'|split; [exact H1|split; [exact H2|]]].
    split; [exact H3|exact H4].
Qed.

Lemma gres_select_util_job_mem_set_loop_None (tbl : list node_record_t)
    (bitmap : list bool) (whole i_first i_last : Z) (l : list gres_state_t) :
  (exists g, In g l /\ gres_data g = None) ->
  forall rc first_set mem,
    gres_select_util_job_mem_set_loop tbl l bitmap whole i_first i_last
      rc first_set mem = None.
Proof.
  induction l as [|g l IH]; intros (g0 & Hin & Hg0) rc first_set mem;
    [destruct Hin|].
  simpl. destruct (gres_data g) as [d|] eqn:Eg; [|reflexivity].
  assert (Hex : exists g1, In g1 l /\ gres_data g1 = None).
  { destruct Hin as [->|Hin]; [congruence|eauto]. }
  destruct (_ || _); [apply IH; exact Hex|].
  destruct (gres_select_util_job_mem_set_nodes _ _ _ _ _ _ _ _ _ _);
    [apply IH; exact Hex|reflexivity].
Qed.

(** X25.  Where [gres_select_util_job_mem_set] does nothing or has no
    result: without a list, and for a job without nodes whatever the
    list holds, it answers false and leaves the memory array alone; for
    a job with a node, a list with an element without data has no
    result, wherever the element stands. *)
Theorem gres_select_util_job_mem_set_edges (tbl : list node_record_t)
    (job_res : job_resources_t) :
  gres_select_util_job_mem_set tbl None job_res
  = Some (false, memory_allocated job_res) /\
  (job_nodes (node_bitmap job_res) = [] ->
   forall l, gres_select_util_job_mem_set tbl (Some l) job_res
             = Some (false, memory_allocated job_res)) /\
  (job_nodes (node_bitmap job_res) <> [] ->
   forall l, (exists g, In g l /\ gres_data g = None) ->
             gres_select_util_job_mem_set tbl (Some l) job_res = None).
Proof.
  split; [reflexivity|]. split.
  - intros Hnil l. unfold gres_select_util_job_mem_set.
    rewrite (proj1 (job_nodes_first _) Hnil). reflexivity.
  - intros Hne l Hex. unfold gres_select_util_job_mem_set.
    pose proof (proj2 (job_nodes_first _) Hne) as Hf.
    apply Z.ltb_ge in Hf. rewrite Hf.
    apply gres_select_util_job_mem_set_loop_None. exact Hex.
Qed.

(** ** The polling fields and the poll controller *)

Lemma on_return__set_fd_polling_linked (fd : Z) (old new : pollctl_fd_type_t)
    (nm caller : string) (w : world) :
  old = PCTL_TYPE_UNSUPPORTED \/ new <> PCTL_TYPE_UNSUPPORTED ->
  fd_linked (trace w) fd = polls old ->
  on_return (_set_fd_polling fd old new nm caller) w
    (fun r w' =>
       fd_linked (trace w') fd = polls r /\
       (forall fd', fd' <> fd ->
                    fd_linked (trace w') fd' = fd_linked (trace w) fd') /\
       (r = new \/ r = PCTL_TYPE_UNSUPPORTED)).
Proof.
  intros Hnew Hl.
  assert (Hother : forall f fd', fd' <> fd -> f = fd -> (f =? fd') = false).
  { intros f fd' Hne ->. apply Z.eqb_neq. congruence. }
  unfold _set_fd_polling, pollctl_link_fd, pollctl_unlink_fd,
    pollctl_relink_fd.
  destruct (pollctl_fd_type_eqb old PCTL_TYPE_UNSUPPORTED) eqn:Eu.
  { step. apply pollctl_fd_type_eqb_eq in Eu. subst old.
    split; [exact Hl|split; [reflexivity|right; reflexivity]]. }
  destruct Hnew as [Hnew|Hnew].
  { subst old. discriminate Eu. }
  destruct (pollctl_fd_type_eqb old new) eqn:Eon.
  { step. apply pollctl_fd_type_eqb_eq in Eon. subst new.
    split; [exact Hl|split; [reflexivity|left; reflexivity]]. }
  destruct (pollctl_fd_type_eqb new PCTL_TYPE_NONE) eqn:En.
  { apply pollctl_fd_type_eqb_eq in En. subst new.
    destruct (pollctl_fd_type_eqb old PCTL_TYPE_NONE) eqn:Eo.
    { apply pollctl_fd_type_eqb_eq in Eo. subst old. discriminate Eon. }
    simpl negb. unfold when. repeat step. simpl.
    rewrite Z.eqb_refl.
    split; [reflexivity|split; [|left; reflexivity]].
    intros fd' Hne. rewrite (Hother fd fd' Hne eq_refl). reflexivity. }
  destruct (pollctl_fd_type_eqb old PCTL_TYPE_NONE) eqn:Eo; simpl negb;
    cbv iota.
  2:{ repeat step. simpl.
      split; [|split; [reflexivity|left; reflexivity]].
      rewrite Hl. unfold polls. rewrite Eo, Eu, En. simpl.
      apply pollctl_fd_type_eqb_neq in Hnew. rewrite Hnew. reflexivity. }
  repeat step.
  destruct (os_pollctl_link_fd (trace w) fd new =? 0) eqn:Erc.
  - step. simpl. rewrite Z.eqb_refl, Erc.
    split; [|split; [|left; reflexivity]].
    + unfold polls. rewrite En. simpl.
      apply pollctl_fd_type_eqb_neq in Hnew. rewrite Hnew. reflexivity.
    + intros fd' Hne. rewrite (Hother fd fd' Hne eq_refl). reflexivity.
  - destruct (os_pollctl_link_fd (trace w) fd new =? EPERM); [|step].
    step. simpl. rewrite Z.eqb_refl, Erc.
    split; [reflexivity|split; [|right; reflexivity]].
    intros fd' Hne. rewrite (Hother fd fd' Hne eq_refl). reflexivity.
Qed.

(** X26.  [_set_fd_polling] keeps the polling field in step with the
    poll controller.  If the descriptor is registered exactly when the old
    field says so, and the request is not for unsupported, then after a
    run that returns the descriptor is registered exactly when the field
    returned says so: it is linked only when it was not registered,
    unlinked or relinked only when it was, and a refused link (EPERM)
    leaves it unregistered and unsupported.  No other descriptor is
    touched.  The run returns unless a link fails with another error. *)
Theorem _set_fd_polling_in_step (fd : Z) (old new : pollctl_fd_type_t)
    (nm caller : string) (w : world) :
  new <> PCTL_TYPE_UNSUPPORTED ->
  fd_linked (trace w) fd = polls old ->
  (forall r w',
     _set_fd_polling fd old new nm caller w = Ret r w' ->
     fd_linked (trace w') fd = polls r /\
     (forall fd', fd' <> fd ->
                  fd_linked (trace w') fd' = fd_linked (trace w) fd') /\
     (r = new \/ r = PCTL_TYPE_UNSUPPORTED)) /\
  (polls old = true \/ new = PCTL_TYPE_NONE \/
   os_pollctl_link_fd (trace w) fd new = 0 \/
   os_pollctl_link_fd (trace w) fd new = EPERM ->
   exists r w', _set_fd_polling fd old new nm caller w = Ret r w').
Proof.
  intros Hnew Hl. split.
  - exact (on_return__set_fd_polling_linked fd old new nm caller w
             (or_intror Hnew) Hl).
  - intros Hcase.
    unfold _set_fd_polling, pollctl_link_fd, pollctl_unlink_fd,
      pollctl_relink_fd.
    destruct (pollctl_fd_type_eqb old PCTL_TYPE_UNSUPPORTED) eqn:Eu;
      [eexists; eexists; reflexivity|].
    destruct (pollctl_fd_type_eqb old new); [eexists; eexists; reflexivity|].
    destruct (pollctl_fd_type_eqb new PCTL_TYPE_NONE) eqn:En.
    { destruct (negb (pollctl_fd_type_eqb old PCTL_TYPE_NONE));
        eexists; eexists; reflexivity. }
    destruct (pollctl_fd_type_eqb old PCTL_TYPE_NONE) eqn:Eo; simpl negb;
      cbv iota; [|eexists; eexists; reflexivity].
    destruct Hcase as [Hp|[Hn|[H0|Hp]]].
    + unfold polls in Hp. rewrite Eo in Hp. discriminate Hp.
    + subst new. discriminate En.
    + unfold bind, get_trace, emit, ret.
      change (negb true) with false. cbv beta iota zeta. rewrite H0.
      eexists; eexists; reflexivity.
    + unfold bind, get_trace, emit, ret.
      change (negb true) with false. cbv beta iota zeta. rewrite Hp.
      destruct (EPERM =? 0); [eexists; eexists; reflexivity|].
      rewrite Z.eqb_refl. eexists; eexists; reflexivity.
Qed.

Lemma fd_linked_logged (lvl : log_level_t) (func msg : string) (w : world)
    (fd : Z) :
  fd_linked (trace (logged lvl func msg w)) fd = fd_linked (trace w) fd.
Proof.
  unfold logged. destruct (log_enabled lvl (slurm_conf w)); reflexivity.
Qed.

Lemma on_return_con_set_polling_linked (c : conmgr_fd_t)
    (t : pollctl_fd_type_t) (caller : string) (w : world) :
  pctl_type_requestable t = true ->
  0 <= input_fd c \/ 0 <= output_fd c ->
  polling_consistent c (trace w) ->
  on_return (con_set_polling c t caller) w
    (fun c' w' =>
       polling_consistent c' (trace w') /\
       input_fd c' = input_fd c /\ output_fd c' = output_fd c /\
       forall fd', fd' <> input_fd c -> fd' <> output_fd c ->
                   fd_linked (trace w') fd' = fd_linked (trace w) fd').
Proof.
  intros Ht Hfd [Hin Hout].
  unfold con_set_polling, _validate_pctl_type.
  repeat step.
  apply on_return_weaken
    with (Q := fun types w1 =>
                 w1 = w /\ fst types <> PCTL_TYPE_UNSUPPORTED /\
                 snd types <> PCTL_TYPE_UNSUPPORTED).
  { unfold con_set_polling_switch.
    destruct t; try discriminate Ht;
      destruct (input_fd c =? output_fd c); steps;
      (split; [reflexivity|split; discriminate]). }
  intros types w1 (-> & Hf & Hs). cbv beta.
  step. step.
  set (wl := logged LOG_FLAG_CONMGR "con_set_polling" "polling" w).
  assert (Hlog : forall fd, fd_linked (trace wl) fd = fd_linked (trace w) fd)
    by (intros; apply fd_linked_logged).
  clearbody wl.
  assert (Hi : polling_input_fd c = PCTL_TYPE_UNSUPPORTED \/
               (if pollctl_fd_type_eqb (polling_input_fd c)
                     PCTL_TYPE_UNSUPPORTED
                then PCTL_TYPE_UNSUPPORTED else fst types)
               <> PCTL_TYPE_UNSUPPORTED).
  { destruct (pollctl_fd_type_eqb (polling_input_fd c)
                PCTL_TYPE_UNSUPPORTED) eqn:E; [left|right; exact Hf].
    apply pollctl_fd_type_eqb_eq. exact E. }
  assert (Ho : polling_output_fd c = PCTL_TYPE_UNSUPPORTED \/
               (if pollctl_fd_type_eqb (polling_output_fd c)
                     PCTL_TYPE_UNSUPPORTED
                then PCTL_TYPE_UNSUPPORTED else snd types)
               <> PCTL_TYPE_UNSUPPORTED).
  { destruct (pollctl_fd_type_eqb (polling_output_fd c)
                PCTL_TYPE_UNSUPPORTED) eqn:E; [left|right; exact Hs].
    apply pollctl_fd_type_eqb_eq. exact E. }
  destruct (input_fd c =? output_fd c) eqn:Esame.
  - apply Z.eqb_eq in Esame.
    assert (Hge : 0 <= input_fd c) by lia.
    step. step. step.
    eapply on_return_weaken.
    { apply on_return__set_fd_polling_linked; [exact Hi|].
      rewrite Hlog. apply Hin. exact Hge. }
    intros r w' (Hl & Hoth & _). cbv beta. step.
    split; [split|].
    + intros _. simpl. exact Hl.
    + simpl. intros _ Hne. contradiction.
    + split; [reflexivity|split; [reflexivity|]].
      intros fd' Hn1 _. rewrite Hoth by exact Hn1. apply Hlog.
  - apply Z.eqb_neq in Esame.
    step.
    apply on_return_weaken
      with (Q := fun c1 w1 =>
                   input_fd c1 = input_fd c /\ output_fd c1 = output_fd c /\
                   polling_output_fd c1 = polling_output_fd c /\
                   name c1 = name c /\
                   (0 <= input_fd c ->
                    fd_linked (trace w1) (input_fd c)
                    = polls (polling_input_fd c1)) /\
                   forall fd', fd' <> input_fd c ->
                               fd_linked (trace w1) fd'
                               = fd_linked (trace w) fd').
    { destruct (0 <=? input_fd c) eqn:Ege.
      - apply Z.leb_le in Ege. step.
        eapply on_return_weaken.
        { apply on_return__set_fd_polling_linked; [exact Hi|].
          rewrite Hlog. apply Hin. exact Ege. }
        intros r w' (Hl & Hoth & _). cbv beta. step. simpl.
        repeat (split; [reflexivity|]).
        split; [intros _; exact Hl|].
        intros fd' Hn1. rewrite Hoth by exact Hn1. apply Hlog.
      - apply Z.leb_gt in Ege. step.
        repeat (split; [reflexivity|]).
        split; [intros Hn0; lia|]. intros fd' _. apply Hlog. }
    intros c1 w1 (E1 & E2 & E3 & E4 & Hl1 & Hoth1). cbv beta.
    rewrite E3.
    destruct (0 <=? output_fd c) eqn:Ege.
    + apply Z.leb_le in Ege. step.
      eapply on_return_weaken.
      { apply on_return__set_fd_polling_linked; [exact Ho|].
        rewrite Hoth1 by congruence. apply Hout; assumption. }
      intros r w' (Hl & Hoth & _). cbv beta. step.
      split; [split|].
      * simpl. rewrite E1. intros Hge.
        rewrite Hoth by congruence. apply Hl1. exact Hge.
      * simpl. rewrite E2. intros _ _. exact Hl.
      * simpl. split; [exact E1|split; [exact E2|]].
        intros fd' Hn1 Hn2. rewrite Hoth by exact Hn2. apply Hoth1. exact Hn1.
    + apply Z.leb_gt in Ege. step.
      split; [split|].
      * rewrite E1. exact Hl1.
      * rewrite E2. intros Hn0; lia.
      * split; [exact E1|split; [exact E2|]].
        intros fd' Hn1 _. apply Hoth1. exact Hn1.
Qed.

(** X27.  [con_set_polling] keeps a connection in step with the poll
    controller: if each side that has a descriptor is registered exactly
    when its polling field says so, the same holds after a run that
    returns, for every kind a caller may ask for; the descriptors of the
    connection are as before and no other descriptor is registered or
    dropped.  With a poll controller that accepts every registration and
    no side unsupported, the run returns when its assertions hold. *)
Theorem con_set_polling_in_step (c : conmgr_fd_t) (t : pollctl_fd_type_t)
    (caller : string) (w : world) :
  pctl_type_requestable t = true ->
  0 <= input_fd c \/ 0 <= output_fd c ->
  polling_consistent c (trace w) ->
  (forall c' w',
     con_set_polling c t caller w = Ret c' w' ->
     polling_consistent c' (trace w') /\
     input_fd c' = input_fd c /\ output_fd c' = output_fd c /\
     forall fd', fd' <> input_fd c -> fd' <> output_fd c ->
                 fd_linked (trace w') fd' = fd_linked (trace w) fd') /\
  (NDEBUG = true \/ con_set_polling_asserts c t = true ->
   polling_input_fd c <> PCTL_TYPE_UNSUPPORTED ->
   polling_output_fd c <> PCTL_TYPE_UNSUPPORTED ->
   (forall tr fd k, os_pollctl_link_fd tr fd k = 0) ->
   exists c' w', con_set_polling c t caller w = Ret c' w').
Proof.
  intros Ht Hfd Hc. split.
  - exact (on_return_con_set_polling_linked c t caller w Ht Hfd Hc).
  - intros Hok Hi Ho Hlink.
    apply (returns_total _ _ (fun _ _ => True)).
    apply returns_con_set_polling; auto.
Qed.

(** ** The calls of close_con *)

Lemma ev_is_close_con_of_quiet (c : conmgr_fd_t) (e : event) :
  ev_is_log e || ev_is_pollctl e = true -> ev_is_close_con_of c e = true.
Proof. destruct e; simpl; intros H; (reflexivity || discriminate H). Qed.

Lemma on_return_close_con_calls (locked : bool) (c : conmgr_fd_t)
    (w : world) :
  on_return (close_con locked c) w
    (fun _ w' => frame (ev_is_close_con_of c) w w').
Proof.
  unfold close_con.
  destruct (input_fd c <? 0).
  { steps; frame_solve. }
  step. step. step.
  apply on_return_weaken
    with (Q := fun _ w' => frame (ev_is_close_con_of c) w w').
  { destruct (is_listen c) eqn:El; [|step; frame_solve].
    destruct (unix_socket c) as [p|] eqn:Eu; [|step; frame_solve].
    unfold unlink, error. apply on_return_bind.
    apply on_return_syscall. intros r e Ea.
    assert (F : frame (ev_is_close_con_of c) w
                  (after_syscall (ev_unlink p r) r e
                     (logged LOG_FLAG_CONMGR "close_con" "closing input" w))).
    { apply frame_after_syscall; [|frame_solve].
      simpl. rewrite El, Eu, String.eqb_refl. reflexivity. }
    destruct (r =? -1); unfold when; step; [|exact F].
    apply frame_emit; [reflexivity|exact F]. }
  intros u w1 F1. step.
  eapply on_return_weaken.
  { apply on_return_and;
      [apply frame_con_set_polling
      |apply on_return_con_set_polling with
         (Q := fun c1 _ => polling_update c c1); auto]. }
  intros c1 w2 (F2 & Ec & _). cbv beta.
  assert (F12 : frame (ev_is_close_con_of c) w w2).
  { apply (frame_trans _ _ w1); [exact F1|].
    apply (frame_weaken (fun e => ev_is_log e || ev_is_pollctl e));
      [apply ev_is_close_con_of_quiet|exact F2]. }
  clear F1 F2.
  step. rewrite Ec. simpl in_buf.
  destruct (in_buf c); simpl is_listen; simpl input_fd; simpl output_fd;
    simpl is_socket.
  all: destruct (is_listen c) eqn:El.
  all: try (destruct (negb (input_fd c =? output_fd c)) eqn:En;
            [|destruct (is_socket c) eqn:Es]).
  all: unfold close, shutdown_SHUT_RD, EVENT_SIGNAL_watch_sleep.
  all: repeat first
         [ step
         | match goal with
           | |- on_return (if ?b then _ else _) _ _ => destruct b
           end ].
  all: repeat first
         [ exact F12
         | apply frame_emit; [reflexivity|]
         | apply frame_logged; [reflexivity|]
         | apply frame_after_syscall;
             [simpl; rewrite ?Z.eqb_refl, ?El, ?En, ?Es;
              try (apply negb_false_iff in En; rewrite En);
              reflexivity|] ].
Qed.

(** X28.  The calls [close_con] makes, besides traces, the poll
    controller and the wake-up of the watch loop, on any run that
    returns: it unlinks only the path of a listening unix socket; it
    closes only its input descriptor, and only for a listener or when the
    output side has a descriptor of its own; it shuts down only the
    reading side of a socket that is not a listener and serves both
    sides; and a descriptor that serves both sides and is no socket gets
    no call at all.  So a descriptor that serves both sides is never
    closed by [close_con], and the output side stays as it was.  The run
    returns when the assertions of [close_con] hold. *)
Theorem close_con_calls (locked : bool) (c : conmgr_fd_t) (w : world) :
  (forall c' w',
     close_con locked c w = Ret c' w' ->
     frame (ev_is_close_con_of c) w w' /\ closed_from c c') /\
  (close_con_ok c -> exists c' w', close_con locked c w = Ret c' w').
Proof.
  split.
  - intros c' w' E. split.
    + exact (on_return_close_con_calls locked c w c' w' E).
    + exact (on_return_close_con_keeps locked c w c' w' E).
  - intros Hok. apply (returns_total _ _ (fun _ _ => True)).
    apply returns_close_con. exact Hok.
Qed.

Lemma gres_select_util_job_mem_set_whole_nodes_spec
    (tbl : list node_record_t) (g : gres_state_t) (d : gres_job_state_t)
    (m : Z) (first_set : bool) (bitmap : list bool) :
  forall (idxs : list nat) (p : nat) (mem : list Z),
    (forall i, In i (filter (bit_test bitmap) idxs) ->
               node_gres_avail tbl (plugin_id g) i <> None) ->
    (p + List.length (filter (bit_test bitmap) idxs)
     <= List.length mem)%nat ->
    exists mem',
      gres_select_util_job_mem_set_nodes tbl g d m first_set bitmap 1
        idxs (Z.of_nat p - 1) mem = Some mem' /\
      List.length mem' = List.length mem /\
      forall k,
        nth_error mem' k =
          if (p <=? k)%nat then
            match nth_error (filter (bit_test bitmap) idxs) (k - p),
                  nth_error mem k with
            | Some i, Some old =>
                Some (whole_node_entry tbl (plugin_id g) first_set m i old)
            | _, _ => nth_error mem k
            end
          else nth_error mem k.
Proof.
  induction idxs as [|i idxs IH]; intros p mem Hcov Hlen.
  - exists mem. split; [reflexivity|split; [reflexivity|]].
    intros k. destruct (p <=? k)%nat; [|reflexivity].
    destruct (k - p)%nat; simpl; destruct (nth_error mem k); reflexivity.
  - simpl gres_select_util_job_mem_set_nodes.
    simpl filter in Hcov, Hlen |- *.
    destruct (bit_test bitmap i) eqn:Eb; simpl negb; cbv iota.
    2:{ apply IH; assumption. }
    change (1 =? 1) with true. cbv iota.
    simpl List.length in Hlen.
    replace (Z.to_nat (Z.of_nat p - 1 + 1)) with p by lia.
    replace (Z.of_nat p - 1 + 1) with (Z.of_nat (S p) - 1) by lia.
    destruct (nth_error mem p) as [old|] eqn:Eo.
    2:{ apply nth_error_None in Eo. lia. }
    pose proof (Hcov i (or_introl eq_refl)) as Hi.
    assert (Hrest : forall mem1,
              List.length mem1 = List.length mem ->
              (forall k, nth_error mem1 k =
                         if (k =? p)%nat
                         then Some (whole_node_entry tbl (plugin_id g)
                                      first_set m i old)
                         else nth_error mem k) ->
              exists mem',
                gres_select_util_job_mem_set_nodes tbl g d m first_set
                  bitmap 1 idxs (Z.of_nat (S p) - 1) mem1 = Some mem' /\
                List.length mem' = List.length mem /\
                forall k,
                  nth_error mem' k =
                    if (p <=? k)%nat then
                      match nth_error (i :: filter (bit_test bitmap) idxs)
                              (k - p), nth_error mem k with
                      | Some i0, Some old0 =>
                          Some (whole_node_entry tbl (plugin_id g) first_set
                                  m i0 old0)
                      | _, _ => nth_error mem k
                      end
                    else nth_error mem k).
    { intros mem1 Hlen1 Hnth1.
      destruct (IH (S p) mem1) as (mem' & E' & Hlen' & Hnth').
      { intros j Hj. apply Hcov. right. exact Hj. }
      { rewrite Hlen1. lia. }
      exists mem'. split; [exact E'|split; [congruence|]].
      intros k. rewrite Hnth'.
      destruct (Nat.leb_spec (S p) k) as [Hk|Hk].
      + rewrite Hnth1.
        destruct (Nat.eqb_spec k p) as [->|Hne]; [lia|].
        destruct (Nat.leb_spec p k) as [Hk'|Hk']; [|lia].
        replace (k - p)%nat with (S (k - S p)) by lia. reflexivity.
      + rewrite Hnth1.
        destruct (Nat.eqb_spec k p) as [->|Hne].
        * rewrite Nat.leb_refl, Nat.sub_diag. simpl. rewrite Eo. reflexivity.
        * destruct (Nat.leb_spec p k) as [Hk'|Hk']; [lia|reflexivity]. }
    unfold whole_node_entry in Hrest. unfold node_gres_avail in Hi, Hrest.
    destruct (nth_error tbl i) as [node|]; [|contradiction].
    destruct (gres_list node) as [gl|]; [|contradiction].
    destruct (list_find_first gl (fun x => gres_find_id x (plugin_id g)))
      as [ng|].
    + destruct (node_gres_data ng) as [st|]; [|contradiction].
      destruct (array_set_spec mem p
                  (if first_set then uint64 (m * gres_cnt_avail st)
                   else uint64 (old + uint64 (m * gres_cnt_avail st)))
                  old Eo) as (mem1 & E1 & Hlen1 & Hnth1).
      rewrite E1. apply Hrest; [exact Hlen1|exact Hnth1].
    + apply Hrest; [reflexivity|].
      intros k. destruct (Nat.eqb_spec k p) as [->|Hne];
        [exact Eo|reflexivity].
Qed.

(** X29.  [gres_select_util_job_mem_set] for a job allocated whole nodes
    and a list of one request that counts, the node table being readable
    at the nodes of the job: the answer is true; the entry of a node that
    has the plugin of the request becomes the memory per GRES times the
    GRES the node has available, in 64 bits; the entry of a node that
    does not have the plugin is not written and keeps what it held
    before the call. *)
Theorem gres_select_util_job_mem_set_whole_node (tbl : list node_record_t)
    (g : gres_state_t) (d : gres_job_state_t) (job_res : job_resources_t) :
  whole_node job_res = 1 ->
  gres_data g = Some d ->
  counts_memory d = true ->
  job_nodes (node_bitmap job_res) <> [] ->
  (forall i, In i (job_nodes (node_bitmap job_res)) ->
             node_gres_avail tbl (plugin_id g) i <> None) ->
  (List.length (job_nodes (node_bitmap job_res))
   <= List.length (memory_allocated job_res))%nat ->
  exists mem',
    gres_select_util_job_mem_set tbl (Some [g]) job_res = Some (true, mem') /\
    List.length mem' = List.length (memory_allocated job_res) /\
    (forall k i old,
       nth_error (job_nodes (node_bitmap job_res)) k = Some i ->
       nth_error (memory_allocated job_res) k = Some old ->
       nth_error mem' k =
         Some (match node_gres_avail tbl (plugin_id g) i with
               | Some (Some avail) =>
                   uint64 (effective_mem_per_gres d * avail)
               | _ => old
               end)) /\
    (forall k, (List.length (job_nodes (node_bitmap job_res)) <= k)%nat ->
               nth_error mem' k = nth_error (memory_allocated job_res) k).
Proof.
  intros Hw Hg Hc Hne Htbl Hlen.
  pose proof (proj2 (job_nodes_first (node_bitmap job_res)) Hne) as Hf.
  unfold gres_select_util_job_mem_set.
  destruct (bit_ffs (node_bitmap job_res) <? 0) eqn:Elt.
  { apply Z.ltb_lt in Elt. lia. }
  simpl gres_select_util_job_mem_set_loop. rewrite Hg.
  rewrite effective_mem_per_gres_eq, counts_memory_eq, Hc, Hw.
  simpl negb. cbv iota.
  destruct (gres_select_util_job_mem_set_whole_nodes_spec tbl g d
              (effective_mem_per_gres d) true (node_bitmap job_res)
              (seq (Z.to_nat (bit_ffs (node_bitmap job_res)))
                   (Z.to_nat (bit_fls (node_bitmap job_res)
                              - bit_ffs (node_bitmap job_res) + 1)))
              O (memory_allocated job_res))
    as (mem' & E' & Hlen' & Hnth').
  { rewrite (job_nodes_range _ Hf). exact Htbl. }
  { rewrite (job_nodes_range _ Hf). simpl. exact Hlen. }
  rewrite (job_nodes_range _ Hf) in Hnth'.
  change (Z.of_nat 0 - 1) with (-1) in E'. rewrite E'.
  exists mem'. split; [reflexivity|split; [exact Hlen'|split]].
  - intros k i old Hk Ho. rewrite Hnth'. simpl Nat.leb. cbv iota.
    rewrite Nat.sub_0_r, Hk, Ho. unfold whole_node_entry, memory_entry.
    reflexivity.
  - intros k Hk. rewrite Hnth'. simpl Nat.leb. cbv iota.
    rewrite Nat.sub_0_r.
    destruct (nth_error (job_nodes (node_bitmap job_res)) k) eqn:En;
      [|reflexivity].
    assert (k < List.length (job_nodes (node_bitmap job_res)))%nat; [|lia].
    apply nth_error_Some. rewrite En. discriminate.
Qed.

(** ** add_connection, then con_find_by_fd *)

Lemma tracked_registered (listen : bool) (con : conmgr_fd_t) (m m' : mgr_t) :
  registered listen con m m' ->
  forall c, In c (tracked m') <-> In c (tracked m) \/ c = con.
Proof.
  intros (_ & _ & Hc & Hl) c. unfold tracked. rewrite Hc, Hl.
  destruct listen; rewrite !in_app_iff; simpl;
    (split; [intros H; decompose [or] H; subst; auto; contradiction
            |intros H; decompose [or] H; subst; auto]).
Qed.

(** X30.  A connection that [add_connection] registered is found by its
    descriptor: after a call with an input descriptor that returned
    [SLURM_SUCCESS], [con_find_by_fd] of that descriptor returns a
    tracked connection that uses it, and when no connection tracked
    before the call used the descriptor, it returns the new connection,
    with the descriptors, type, callbacks and argument of the call. *)
Theorem add_connection_then_find (t : conmgr_con_type_t)
    (source : option conmgr_fd_t) (in_fd out_fd : Z) (ev : conmgr_events_t)
    (addr : option slurm_addr_t) (addrlen : Z) (listen : bool)
    (unix_socket_path : option string) (new_arg_ : Z) (w w' : world) :
  add_connection t source in_fd out_fd ev addr addrlen listen
    unix_socket_path new_arg_ w = Ret SLURM_SUCCESS w' ->
  exists con,
    con_find_by_fd in_fd w' = Ret (Some con) w' /\
    uses_fd in_fd con /\ In con (tracked (mgr w')) /\
    ((forall c, In c (tracked (mgr w)) -> ~ uses_fd in_fd c) ->
     new_connection t source in_fd out_fd ev listen unix_socket_path
       new_arg_ con).
Proof.
  intros E.
  destruct (on_return_add_connection t source in_fd out_fd ev addr addrlen
              listen unix_socket_path new_arg_ w SLURM_SUCCESS w' E)
    as (_ & _ & evs & _ & _ & H).
  destruct H as [(Hrc & _)|(_ & con & Hreg & Hnew)]; [discriminate Hrc|].
  pose proof (tracked_registered listen con _ _ Hreg) as Htr.
  assert (Huse : uses_fd in_fd con).
  { left. apply Hnew. }
  assert (Hrun : con_find_by_fd in_fd w' =
                 Ret (list_find_first (tracked (mgr w'))
                        (fun x => _find_by_fd x in_fd)) w').
  { unfold con_find_by_fd, tracked, bind, get_mgr, ret.
    rewrite list_find_first_app.
    destruct (list_find_first (connections (mgr w')) _); [reflexivity|].
    destruct (list_find_first (listen_conns (mgr w')) _); reflexivity. }
  destruct (list_find_first (tracked (mgr w'))
              (fun x => _find_by_fd x in_fd)) as [c0|] eqn:Ef.
  - destruct (list_find_first_Some _ _ _ Ef)
      as (pre & post & Hl & Hx & Hpre).
    assert (Hin0 : In c0 (tracked (mgr w'))).
    { rewrite Hl. apply in_app_iff. right. left. reflexivity. }
    exists c0. split; [exact Hrun|].
    split; [apply _find_by_fd_uses; exact Hx|].
    split; [exact Hin0|].
    intros Hfresh.
    apply Htr in Hin0. destruct Hin0 as [Hold| ->]; [|exact Hnew].
    exfalso. apply (Hfresh c0 Hold). apply _find_by_fd_uses. exact Hx.
  - exfalso.
    pose proof (proj1 (list_find_first_None _ _) Ef con) as Hnone.
    assert (Hin : In con (tracked (mgr w'))) by (apply Htr; right; reflexivity).
    apply (proj2 (_find_by_fd_uses con in_fd)) in Hnone; [|].
    + contradiction.
    + exact Hin.
Qed.

End Properties.

(* ===================================================================== *)
(** * The statements at concrete connections                              *)
(* ===================================================================== *)

#[local] Existing Instance linux_debug.
#[local] Existing Instance friendly_os.

(** C10 at a RAW socket switched to RPC: the second call changes nothing. *)
Lemma fd_change_mode_idempotent_witness :
  (CON_TYPE_RPC = CON_TYPE_RAW \/ CON_TYPE_RPC = CON_TYPE_RPC) /\
  exists c1 w1,
    fd_change_mode socket_con CON_TYPE_RPC quiet_world
      = Ret (SLURM_SUCCESS, c1) w1 /\
    type c1 = CON_TYPE_RPC /\
    fd_change_mode c1 CON_TYPE_RPC w1
      = Ret (SLURM_SUCCESS, c1)
            (logged LOG_FLAG_CONMGR "fd_change_mode"
                    "ignoring unchanged type" w1).
Proof.
  split; [right; reflexivity|].
  eexists; eexists. split; [reflexivity|].
  destruct (fd_change_mode_idempotent socket_con CON_TYPE_RPC quiet_world
              (or_intror eq_refl)) as [_ Hsecond].
  destruct (Hsecond _ _ _ eq_refl) as (_ & Ht & _ & E).
  split; [exact Ht|exact E].
Defined.

(** C3 at a connected socket in a debug build. *)
Lemma close_con_idempotent_witness :
  (input_fd socket_con = -1 \/ 0 <= input_fd socket_con) /\
  exists c' w',
    close_con true socket_con quiet_world = Ret c' w' /\
    input_fd c' = -1 /\
    close_con false c' w'
      = Ret c' (logged LOG_FLAG_CONMGR "close_con"
                       "ignoring duplicate close request" w').
Proof.
  assert (Hfd : input_fd socket_con = -1 \/ 0 <= input_fd socket_con)
    by (right; simpl; lia).
  split; [exact Hfd|].
  destruct (close_con_idempotent true false socket_con quiet_world Hfd)
    as (Hret & Hclosed & _).
  destruct (Hret (or_intror eq_refl)) as (c' & w' & E).
  exists c', w'. split; [exact E|]. apply Hclosed. exact E.
Defined.

(** C4 as stated fails in three ways.  On the self-pipe connection, which
    has no output descriptor, [con_set_polling] asked for CONNECTED
    returns with the input side CONNECTED and the output side still NONE.
    On a descriptor pair whose input side is unsupported, asked for
    READ_WRITE, it returns with the input side still unsupported.  And on
    the self-pipe connection, asked for READ_ONLY under a poll controller
    that refuses the registration with EPERM, it returns with the input
    side unsupported. *)
Lemma con_set_polling_table_counterexample :
  (input_fd pipe_con <> output_fd pipe_con /\
   ~ (forall c' w',
        con_set_polling pipe_con PCTL_TYPE_CONNECTED "watch" quiet_world
          = Ret c' w' ->
        polling_input_fd c' = PCTL_TYPE_CONNECTED /\
        polling_output_fd c' = PCTL_TYPE_CONNECTED)) /\
  (input_fd file_con <> output_fd file_con /\
   ~ (forall c' w',
        con_set_polling file_con PCTL_TYPE_READ_WRITE "watch" quiet_world
          = Ret c' w' ->
        polling_input_fd c' = PCTL_TYPE_READ_ONLY /\
        polling_output_fd c' = PCTL_TYPE_WRITE_ONLY)) /\
  ~ (forall c' w',
       @con_set_polling linux_debug refusing_os pipe_con
         PCTL_TYPE_READ_ONLY "watch" quiet_world = Ret c' w' ->
       polling_input_fd c' = PCTL_TYPE_READ_ONLY).
Proof.
  split; [|split].
  - split; [discriminate|].
    intros Hclaim.
    destruct (Hclaim _ _ eq_refl) as [_ Hout].
    discriminate Hout.
  - split; [discriminate|].
    intros Hclaim.
    destruct (Hclaim _ _ eq_refl) as [Hin _].
    discriminate Hin.
  - intros Hclaim.
    pose proof (Hclaim _ _ eq_refl) as Hin.
    discriminate Hin.
Qed.

(** C4 (amended) at a connected socket asked for READ_WRITE, with a poll
    controller that accepts the registration. *)
Lemma con_set_polling_table_witness :
  exists c' w',
    con_set_polling socket_con PCTL_TYPE_READ_WRITE "watch" quiet_world
      = Ret c' w' /\
    polling_input_fd c' = PCTL_TYPE_READ_WRITE /\
    polling_output_fd c' = PCTL_TYPE_NONE.
Proof.
  destruct (con_set_polling_table socket_con PCTL_TYPE_READ_WRITE "watch"
              quiet_world) as [Hfollows Hreturns].
  destruct Hreturns as (c' & w' & E).
  - reflexivity.
  - right. reflexivity.
  - intros tr fd k. left. reflexivity.
  - exists c', w'. split; [exact E|].
    destruct (Hfollows c' w' E) as (evs & _ & _ & Hsame & _).
    destruct (Hsame eq_refl) as [[_ Hin] Hout].
    split; [|exact Hout].
    destruct Hin as [[Hin _]|(_ & _ & _ & _ & tr & Htr)];
      [discriminate|exact Hin|discriminate Htr].
Defined.

(** C5 at a connection whose input side is unsupported, asked for three
    kinds in a row. *)
Lemma unsupported_is_sticky_witness :
  exists c' w',
    con_set_polling_each
      [PCTL_TYPE_READ_WRITE; PCTL_TYPE_NONE; PCTL_TYPE_WRITE_ONLY]
      file_con "watch" quiet_world = Ret c' w' /\
    polling_input_fd c' = PCTL_TYPE_UNSUPPORTED.
Proof.
  eexists; eexists. split; [reflexivity|].
  refine (proj1 (unsupported_is_sticky
                   [PCTL_TYPE_READ_WRITE; PCTL_TYPE_NONE;
                    PCTL_TYPE_WRITE_ONLY]
                   file_con _ "watch" quiet_world _ _) _);
    reflexivity.
Defined.

(** C1 at a socket whose worker is running: the request closes the input
    at once and queues nothing. *)
Lemma conmgr_queue_close_fd_polarity_witness :
  work_active busy_socket_con = true /\
  exists c' w',
    conmgr_queue_close_fd busy_socket_con quiet_world = Ret c' w' /\
    input_fd c' = -1 /\
    queued_work (trace w') = [].
Proof.
  split; [reflexivity|].
  eexists; eexists. split; [vm_compute; reflexivity|].
  destruct (@conmgr_queue_close_fd_polarity linux_debug friendly_os
              busy_socket_con quiet_world (or_intror eq_refl))
    as (Hactive & _ & _).
  destruct (Hactive eq_refl) as [_ Hclosed].
  destruct (Hclosed _ _ eq_refl) as [Hfd Hq].
  split; [apply Hfd; simpl; lia|exact Hq].
Defined.

(** C2 as stated fails for [conmgr_queue_send_fd] in two ways.  Over a
    connection that has reached EOF but still has its output descriptor
    the request is accepted.  And over a socket that is open in both
    directions the request to send the descriptor -1 is rejected. *)
Lemma conmgr_queue_send_fd_counterexample :
  (read_eof half_closed_con = true /\
   ~ (forall rc c' w',
        conmgr_queue_send_fd half_closed_con 7 quiet_world
          = Ret (rc, c') w' ->
        rc <> SLURM_SUCCESS /\
        queued_work (trace w') = queued_work (trace quiet_world))) /\
  (is_socket socket_con = true /\ read_eof socket_con = false /\
   0 <= output_fd socket_con /\
   ~ (forall rc c' w',
        conmgr_queue_send_fd socket_con (-1) quiet_world
          = Ret (rc, c') w' ->
        rc = SLURM_SUCCESS)).
Proof.
  split.
  - split; [reflexivity|].
    intros Hclaim.
    destruct (Hclaim _ _ _ eq_refl) as [Hrc _].
    apply Hrc. reflexivity.
  - split; [reflexivity|]. split; [reflexivity|].
    split; [simpl; lia|].
    intros Hclaim.
    pose proof (Hclaim _ _ _ eq_refl) as Hrc.
    discriminate Hrc.
Qed.

(** C2 (amended) at the half-closed socket: receiving is rejected, sending
    descriptor 7 is accepted. *)
Lemma queue_fd_passing_checks_witness :
  exists rc_r w_r rc_s w_s,
    conmgr_queue_receive_fd half_closed_con CON_TYPE_RPC sample_events 0
      quiet_world = Ret (rc_r, half_closed_con) w_r /\
    conmgr_queue_send_fd half_closed_con 7 quiet_world
      = Ret (rc_s, half_closed_con) w_s /\
    rc_r <> SLURM_SUCCESS /\ queued_work (trace w_r) = [] /\
    rc_s = SLURM_SUCCESS /\
    queued_work (trace w_s) =
      [(name half_closed_con,
        work__send_fd {| sfa_magic := MAGIC_SEND_FD; sfa_fd := 7 |})].
Proof.
  destruct (queue_fd_passing_checks half_closed_con CON_TYPE_RPC
              sample_events 0 7 quiet_world)
    as (rc_r & w_r & rc_s & w_s & Er & Es & Hrej_r & _ & _ & Hacc_s).
  - right. split; [reflexivity|right; reflexivity].
  - exists rc_r, w_r, rc_s, w_s.
    destruct (Hrej_r (or_intror (or_introl eq_refl))) as (H1 & _ & H2).
    destruct Hacc_s as [H3 H4]; [simpl; lia|reflexivity|simpl; lia|].
    repeat split; assumption.
Defined.

(** C9 for descriptor 7 sent over the connected socket: the descriptor is
    transferred over the output descriptor and then closed. *)
Lemma _send_fd_always_closes_witness :
  exists w1,
    _send_fd CONMGR_WORK_STATUS_RUN socket_con
      {| sfa_magic := MAGIC_SEND_FD; sfa_fd := 7 |} quiet_world =
      Ret socket_con (after_event (ev_fd_close 7) w1) /\
    mgr w1 = mgr quiet_world /\
    In (ev_send_fd_over_socket 5 7) (trace w1).
Proof.
  destruct (_send_fd_always_closes CONMGR_WORK_STATUS_RUN socket_con
              {| sfa_magic := MAGIC_SEND_FD; sfa_fd := 7 |} quiet_world)
    as (w1 & E & Hf & _ & Hsent).
  - right. split; reflexivity.
  - exists w1. split; [exact E|]. split; [apply Hf|].
    apply Hsent; [reflexivity|simpl; lia].
Defined.

(** C8 for SIGTERM when the first two writes to the self-pipe on
    descriptor 11 fail with EAGAIN and the third one goes through. *)
Lemma _signal_handler_outcome_witness :
  exists w',
    @_signal_handler linux_debug (scripted_os 2 11 (4, 0) 0) 3 15
      (sample_world [] false 11) = Ret tt w' /\
    trace w' = [ev_write 11 15 4; ev_write 11 15 (-1); ev_write 11 15 (-1)].
Proof.
  destruct (@_signal_handler_outcome linux_debug (scripted_os 2 11 (4, 0) 0)
              15 (sample_world [] false 11) 2 3)
    as (_ & _ & Hopen).
  destruct Hopen as (Hwritten & _ & _).
  - simpl. lia.
  - intros i Hi.
    destruct i as [|[|i]]; [| |lia];
      (split; [reflexivity|right; left; reflexivity]).
  - lia.
  - destruct Hwritten as (w' & E & Ht); [reflexivity|].
    exists w'. split; [exact E|exact Ht].
Defined.

(** C7 as stated fails when [fstat] fails on the new socket: the call of
    [connect] is in progress, yet [SLURM_ERROR] is returned and no
    connection is registered. *)
Lemma conmgr_create_connect_socket_counterexample :
  family_supported (sockaddr_in 6817 2130706433) = true /\
  ~ (forall rc w',
       @conmgr_create_connect_socket linux_debug
         (dialing_os (-1, 9, {| S_ISSOCK := false |})) 1 CON_TYPE_RPC
         (sockaddr_in 6817 2130706433) 16 sample_events 0 quiet_world
       = Ret rc w' ->
       rc = SLURM_SUCCESS /\
       exists con, connections (mgr w') = [con]).
Proof.
  split; [reflexivity|].
  intros Hclaim.
  destruct (Hclaim _ _ eq_refl) as [Hrc _].
  discriminate Hrc.
Qed.

(** C7 for a call of [connect] that is interrupted once and is in
    progress at the second attempt: the socket on descriptor 7 is
    registered. *)
Lemma conmgr_create_connect_socket_outcome_witness :
  exists w' con,
    @conmgr_create_connect_socket linux_debug
      (scripted_os 1 4 (-1, 115) 0) 2 CON_TYPE_RPC
      (sockaddr_in 6817 2130706433) 16 sample_events 0 quiet_world
    = Ret SLURM_SUCCESS w' /\
    registered false con (mgr quiet_world) (mgr w') /\
    input_fd con = 7 /\ output_fd con = 7.
Proof.
  destruct (@conmgr_create_connect_socket_outcome linux_debug
              (scripted_os 1 4 (-1, 115) 0) 2 1 CON_TYPE_RPC
              (sockaddr_in 6817 2130706433) 16 sample_events 0 quiet_world)
    as (_ & _ & Hdial).
  destruct Hdial as (_ & Hpending & _).
  - reflexivity.
  - simpl. lia.
  - right. reflexivity.
  - intros i Hi. destruct i as [|i]; [reflexivity|lia].
  - intros _. reflexivity.
  - lia.
  - destruct Hpending as [_ Hreg].
    { right. split; [reflexivity|left; reflexivity]. }
    destruct (Hreg (or_intror eq_refl))
      as (rc & w' & E & [(Hrc & con & Hcon & Hnew)|(_ & _ & tr & Hfail)]).
    + subst rc. exists w', con. split; [exact E|]. split; [exact Hcon|].
      destruct Hnew as (_ & Hi & Ho & _). split; assumption.
    + exfalso. apply Hfail. reflexivity.
Defined.

(** C6 as stated fails for a local-domain socket and for a resolved
    entry that reports fewer bytes than its address has.  A request for
    unix:/tmp/x while a listener on /tmp/x exists is not passed over: it
    returns success with a second listener on that path and without the
    trace of a duplicate.  A request that resolves to 127.0.0.1:6817 with
    two bytes reported, while a listener on that endpoint exists, is
    compared as 0.0.0.0:0 and adds a second listener. *)
Lemma conmgr_create_listen_socket_counterexample :
  (same_endpoint (sockaddr_un "/tmp/x") (address unix_listener) /\
   exists w',
     @conmgr_create_listen_socket linux_debug friendly_os CON_TYPE_RPC
       "unix:/tmp/x" sample_events 0 (sample_world [unix_listener] false (-1))
     = Ret SLURM_SUCCESS w' /\
     map address (listen_conns (mgr w'))
     = [sockaddr_un "/tmp/x"; sockaddr_un "/tmp/x"] /\
     ~ In ev_duplicate (trace w')) /\
  (same_endpoint (sockaddr_in 6817 2130706433) (address inet_listener) /\
   exists w',
     @conmgr_create_listen_socket linux_debug (resolving_os 2) CON_TYPE_RPC
       "127.0.0.1:6817" sample_events 0
       (sample_world [inet_listener] false (-1))
     = Ret SLURM_SUCCESS w' /\
     map address (listen_conns (mgr w'))
     = [sockaddr_in 6817 2130706433; sockaddr_in 0 0] /\
     ~ In ev_duplicate (trace w')).
Proof.
  split.
  - split; [reflexivity|].
    eexists. split; [vm_compute; reflexivity|].
    split; [reflexivity|].
    intros Hin. simpl in Hin.
    repeat (destruct Hin as [Hin|Hin]; [discriminate Hin|]).
    exact Hin.
  - split; [split; reflexivity|].
    eexists. split; [vm_compute; reflexivity|].
    split; [reflexivity|].
    intros Hin. simpl in Hin.
    repeat (destruct Hin as [Hin|Hin]; [discriminate Hin|]).
    exact Hin.
Qed.

(** C6 in the registry with two listeners: a request that resolves to
    127.0.0.1:6817, where one of them listens, returns success, leaves
    the registry as it was and leaves the trace of one duplicate. *)
Lemma conmgr_create_listen_socket_duplicate_witness :
  @listeners_ok linux_debug (mgr crowded_world) /\
  exists w',
    @conmgr_create_listen_socket linux_debug friendly_os CON_TYPE_RPC
      "127.0.0.1:6817" sample_events 0 crowded_world
    = Ret SLURM_SUCCESS w' /\
    mgr w' = mgr crowded_world /\
    trace w' =
      [ev_free_parse; ev_duplicate;
       ev_xgetaddrinfo "127.0.0.1:6817" "6817"; ev_parse "127.0.0.1:6817"].
Proof.
  assert (Hok : @listeners_ok linux_debug (mgr crowded_world)).
  { right. intros x [<-|[<-|[]]]; reflexivity. }
  split; [exact Hok|].
  destruct (conmgr_create_listen_socket_duplicate (HD := linux_debug)
              (OS := friendly_os) CON_TYPE_RPC "127.0.0.1:6817" sample_events
              0 crowded_world {| host := "127.0.0.1:6817"; port := "6817" |}
              Hok)
    as (_ & Hwhole & Hall & _).
  destruct Hall as (w' & E & Hm & _ & _ & Ht).
  - reflexivity.
  - reflexivity.
  - discriminate.
  - intros a [<-|[]].
    apply (Hwhole _ inet_listener);
      [simpl; lia|left; reflexivity|split; reflexivity].
  - exists w'. split; [exact E|]. split; [exact Hm|]. exact Ht.
Defined.

(** ** gres_select_util.c at a job with two GPU requests *)

Ltac needs_at_samples :=
  let E := fresh "E" in
  intros ? ? [<-|[<-|[]]] E; vm_compute in E; inversion E; lia.

(** X2 on the sample node: eight GPUs at two per task limit it to four
    tasks. *)
Lemma gres_select_util_get_task_limit_is_min_witness :
  Forall sock_gres_valid sample_sock_gres_list /\
  exists m,
    gres_select_util_get_task_limit sample_sock_gres_list = Some m /\ m = 4.
Proof.
  assert (Hv : Forall sock_gres_valid sample_sock_gres_list).
  { repeat constructor; eexists; (split; [reflexivity|simpl; lia]). }
  split; [exact Hv|].
  destruct (gres_select_util_get_task_limit_is_min sample_sock_gres_list)
    as (m & Em & _); [vm_compute; split; [discriminate|reflexivity]|exact Hv|].
  exists m. split; [exact Em|].
  vm_compute in Em. inversion Em. reflexivity.
Defined.

(** X3 on the sample job with two nodes of two sockets and eight tasks:
    sixteen GPUs per task at four CPUs each need 64 CPUs. *)
Lemma gres_select_util_job_min_cpus_is_max_witness :
  job_requests sample_job_gres_list = Some [gpu_request; task_request] /\
  needs_fit_int (job_cpus_needed 2 2 8) [gpu_request; task_request] /\
  exists m,
    gres_select_util_job_min_cpus 2 2 8 (Some sample_job_gres_list) = Some m /\
    largest_need (job_cpus_needed 2 2 8) [gpu_request; task_request] m.
Proof.
  assert (Hfit : needs_fit_int (job_cpus_needed 2 2 8)
                   [gpu_request; task_request]) by needs_at_samples.
  split; [reflexivity|split; [exact Hfit|]].
  exact (gres_select_util_job_min_cpus_is_max 2 2 8 sample_job_gres_list
           [gpu_request; task_request] eq_refl Hfit).
Defined.

(** X4 on the sample job with two sockets and four tasks per node. *)
Lemma gres_select_util_job_min_cpu_node_is_max_witness :
  job_requests sample_job_gres_list = Some [gpu_request; task_request] /\
  needs_fit_int (node_cpus_needed 2 4) [gpu_request; task_request] /\
  exists m,
    gres_select_util_job_min_cpu_node 2 4 (Some sample_job_gres_list)
      = Some m /\
    largest_need (node_cpus_needed 2 4) [gpu_request; task_request] m /\
    (forall d, In d [gpu_request; task_request] ->
       gres_per_node d = 0 -> gres_per_socket d = 0 -> gres_per_task d = 0 ->
       effective_cpus_per_gres d <= m).
Proof.
  assert (Hfit : needs_fit_int (node_cpus_needed 2 4)
                   [gpu_request; task_request]) by needs_at_samples.
  split; [reflexivity|split; [exact Hfit|]].
  exact (gres_select_util_job_min_cpu_node_is_max 2 4 sample_job_gres_list
           [gpu_request; task_request] eq_refl Hfit).
Defined.

(** X5 on the sample job with three tasks per GPU, filtered on "gpu": the
    request per task is reported once and adds nothing. *)
Lemma gres_select_util_job_min_tasks_is_max_witness :
  job_requests
    (selected (filter_id sample_gres_build_id (Some "gpu"%string))
       sample_job_gres_list) = Some [gpu_request; task_request] /\
  needs_fit_int (job_tasks_needed 2 2 3) [gpu_request; task_request] /\
  exists m,
    gres_select_util_job_min_tasks 0xfffe sample_gres_build_id 2 2 3
      (Some "gpu"%string) (Some sample_job_gres_list) = Some (m, 1%nat) /\
    largest_need (job_tasks_needed 2 2 3) [gpu_request; task_request] m.
Proof.
  assert (Hfit : needs_fit_int (job_tasks_needed 2 2 3)
                   [gpu_request; task_request]) by needs_at_samples.
  split; [reflexivity|split; [exact Hfit|]].
  refine (gres_select_util_job_min_tasks_is_max 0xfffe sample_gres_build_id
            2 2 3 (Some "gpu"%string) sample_job_gres_list
            [gpu_request; task_request] _ _ eq_refl Hfit); lia.
Defined.

(** X7 on the sample job: the request per task is found before the
    element without data that follows it; when only that element follows
    the request per node, it is dereferenced. *)
Lemma gres_select_util_job_tres_per_task_first_witness :
  gres_select_util_job_tres_per_task
    (Some ([gpu_gres] ++ gpu_task_gres :: [empty_gres])) = Some true /\
  gres_select_util_job_tres_per_task
    (Some ([gpu_gres] ++ empty_gres :: [empty_gres])) = None.
Proof.
  destruct (gres_select_util_job_tres_per_task_first [gpu_gres] [empty_gres]
              [gpu_request] eq_refl eq_refl) as (_ & _ & Hfound & Hnull).
  split.
  - exact (Hfound gpu_task_gres task_request eq_refl eq_refl).
  - exact (Hnull empty_gres eq_refl).
Defined.

(** X9 on the sample job with a default of two CPUs per GPU and one CPU
    per task: two GPUs per task raise it to four. *)
Lemma gres_select_util_job_set_defs_cpus_per_task_witness :
  exists l' c' m',
    gres_select_util_job_set_defs sample_gres_build_id
      (Some sample_job_gres_list) "gpu" 2 1024 None None 1 =
      Some (l', c', m', 4).
Proof.
  destruct (gres_select_util_job_set_defs_cpus_per_task sample_gres_build_id
              "gpu" 2 1024 sample_job_gres_list None None 1)
    as (l' & c' & m' & t & E & _); [right; reflexivity|lia| |].
  - intros d c [<-|[<-|[]]] Ec; vm_compute in Ec; inversion Ec; lia.
  - exists l', c', m'. rewrite E. vm_compute in E. inversion E. reflexivity.
Defined.

(** X10 on the request of two GPUs per task with a default of 40000 CPUs
    per GPU: 20000 CPUs per task become 14464. *)
Lemma gres_select_util_job_set_defs_cpus_per_task_wraps_witness :
  exists l' c' m',
    gres_select_util_job_set_defs sample_gres_build_id (Some [gpu_task_gres])
      "gpu" 40000 1024 None None 20000 = Some (l', c', m', 14464).
Proof.
  exact (gres_select_util_job_set_defs_cpus_per_task_wraps
           sample_gres_build_id "gpu" 40000 1024 gpu_task_gres task_request
           None None 20000 (or_intror eq_refl) eq_refl eq_refl
           ltac:(lia) ltac:(simpl; lia)).
Defined.

(** ** add_connection at a connected socket *)

(** X11 for descriptor 5 as both sides of a raw connection: the
    connection is appended to the connections. *)
Lemma add_connection_registers_witness :
  add_connection_asserts CON_TYPE_RAW 5 sample_events false None /\
  exists w' con,
    add_connection CON_TYPE_RAW None 5 5 sample_events None 0 false None 0
      quiet_world = Ret SLURM_SUCCESS w' /\
    registered false con (mgr quiet_world) (mgr w') /\
    new_connection CON_TYPE_RAW None 5 5 sample_events false None 0 con.
Proof.
  assert (Hok : add_connection_asserts CON_TYPE_RAW 5 sample_events false
                  None).
  { split; [reflexivity|split; [reflexivity|discriminate]]. }
  split; [exact Hok|].
  destruct (add_connection_registers CON_TYPE_RAW None 5 5 sample_events
              None 0 false None 0 quiet_world (or_intror Hok))
    as (rc & w' & E & H).
  assert (Hrc : rc = SLURM_SUCCESS).
  { vm_compute in E. inversion E. reflexivity. }
  subst rc. destruct H as [(Hrc & _)|(_ & con & Hreg & Hnew)];
    [discriminate Hrc|].
  exists w', con. split; [exact E|split; assumption].
Defined.

(** X12 for a listener on descriptor 6: no keep-alive is asked for.  For
    a socket on descriptor 5 that comes from the listener on /tmp/x, and
    is given no path of its own, keep-alive is asked for although the
    connection registered has the path of the listener. *)
Lemma add_connection_calls_witness :
  add_connection_asserts CON_TYPE_RPC (-1) sample_events true None /\
  (exists rc w' evs,
     add_connection CON_TYPE_RPC None 6 (-1) sample_events None 0 true None 0
       quiet_world = Ret rc w' /\
     trace w' = evs ++ trace quiet_world /\
     forallb (ev_is_add_connection 6 (-1) false) evs = true) /\
  (exists w' evs con,
     add_connection CON_TYPE_RPC (Some unix_listener) 5 5 sample_events None
       0 false None 0 quiet_world = Ret SLURM_SUCCESS w' /\
     trace w' = evs ++ trace quiet_world /\
     forallb (ev_is_add_connection 5 5 true) evs = true /\
     In (ev_net_set_keep_alive 5) evs /\
     connections (mgr w') = [con] /\
     unix_socket con = unix_socket unix_listener).
Proof.
  assert (Hok : add_connection_asserts CON_TYPE_RPC (-1) sample_events true
                  None).
  { split; [reflexivity|split; [reflexivity|intros _; lia]]. }
  split; [exact Hok|]. split.
  - destruct (add_connection_calls CON_TYPE_RPC None 6 (-1) sample_events
                None 0 true None 0 quiet_world (or_intror Hok))
      as (rc & w' & evs & E & _ & _ & Ht & He & _).
    exists rc, w', evs. split; [exact E|split; [exact Ht|exact He]].
  - assert (Hok' : add_connection_asserts CON_TYPE_RPC 5 sample_events false
                     None).
    { split; [reflexivity|split; [reflexivity|intros Hl; discriminate Hl]]. }
    destruct (add_connection_calls CON_TYPE_RPC (Some unix_listener) 5 5
                sample_events None 0 false None 0 quiet_world
                (or_intror Hok'))
      as (rc & w' & evs & E & _ & _ & Ht & He & _).
    pose proof E as E'. vm_compute in E'.
    injection E' as Hrc Hw. subst rc.
    rewrite <- Hw in Ht. simpl in Ht. rewrite app_nil_r in Ht.
    exists w', evs. eexists.
    split; [exact E|]. split; [rewrite <- Hw, <- Ht; reflexivity|].
    split; [exact He|].
    split; [rewrite <- Ht; simpl; tauto|].
    rewrite <- Hw. split; reflexivity.
Defined.

(** ** The registry, the work callbacks and the signal handlers *)

#[local] Existing Instance friendly_calls.

(** X14 at a socket whose worker is running. *)
Lemma _deferred_close_fd_closes_witness :
  _deferred_close_fd busy_socket_con quiet_world
  = close_con true busy_socket_con quiet_world.
Proof.
  refine (proj1 (@_deferred_close_fd_closes linux_debug friendly_os
                   busy_socket_con quiet_world (or_intror eq_refl)
                   (or_intror _))).
  simpl. lia.
Defined.

(** X15 at the listener on 127.0.0.1:6817, asked for its own address. *)
Lemma _match_socket_address_same_endpoint_witness :
  _match_socket_address inet_listener (sockaddr_in 6817 2130706433)
    quiet_world = Ret 1 quiet_world.
Proof.
  destruct (@_match_socket_address_same_endpoint linux_debug
              inet_listener (sockaddr_in 6817 2130706433) quiet_world
              (or_intror eq_refl)) as (_ & Hsame & _).
  destruct (Hsame eq_refl) as (r & E & _ & Hr).
  rewrite E. f_equal. apply Hr. split; reflexivity.
Defined.

(** X17 at the crowded registry. *)
Lemma close_all_connections_closes_all_witness :
  Forall close_con_ok (tracked (mgr crowded_world)) /\
  exists w',
    close_all_connections crowded_world = Ret tt w' /\
    Forall2 closed_from (connections (mgr crowded_world))
      (connections (mgr w')) /\
    Forall2 closed_from (listen_conns (mgr crowded_world))
      (listen_conns (mgr w')).
Proof.
  assert (Hok : Forall close_con_ok (tracked (mgr crowded_world))).
  { repeat constructor; right; reflexivity. }
  split; [exact Hok|].
  destruct (close_all_connections_closes_all crowded_world Hok)
    as (w' & E & Hc & Hl & _).
  exists w'. split; [exact E|split; assumption].
Defined.

(** X18 at the open socket. *)
Lemma con_close_on_poll_error_closes_witness :
  close_con_ok socket_con /\
  exists con' w',
    con_close_on_poll_error socket_con 5 quiet_world = Ret con' w' /\
    closed_from socket_con con'.
Proof.
  assert (Hok : close_con_ok socket_con) by (right; reflexivity).
  split; [exact Hok|].
  destruct (con_close_on_poll_error_closes socket_con 5 quiet_world Hok)
    as (con' & w' & E & Hc & _).
  exists con', w'. split; assumption.
Defined.

(** X19 at the open socket, over which descriptor 9 arrives. *)
Lemma _receive_fd_outcome_witness :
  _receive_fd_ok socket_con sample_receive_fd_args /\
  exists w',
    _receive_fd CONMGR_WORK_STATUS_RUN socket_con sample_receive_fd_args
      quiet_world = Ret socket_con w'.
Proof.
  assert (Hok : _receive_fd_ok socket_con sample_receive_fd_args).
  { right. repeat split. }
  split; [exact Hok|].
  destruct (_receive_fd_outcome CONMGR_WORK_STATUS_RUN socket_con
              sample_receive_fd_args quiet_world Hok)
    as (con' & w' & E & _ & _ & _ & _ & Hgot).
  destruct Hgot as [-> _].
  - intros [H|[H|H]]; [discriminate H|discriminate H|simpl in H; lia].
  - simpl. lia.
  - exists w'. exact E.
Defined.

(** X20 at the crowded registry: signal 15 gets its handler. *)
Lemma _register_signal_handler_once_witness :
  handlers_ok (sig crowded_world) /\
  exists w',
    _register_signal_handler 15 crowded_world = Ret tt w' /\
    signal_handlers (sig w') = [15].
Proof.
  assert (Hok : handlers_ok (sig crowded_world)).
  { split; [reflexivity|constructor]. }
  split; [exact Hok|].
  destruct (_register_signal_handler_once 15 crowded_world Hok)
    as (_ & Hnew & _).
  destruct Hnew as (w' & E & Hh & _); [intros []|reflexivity|].
  exists w'. split; [exact E|exact Hh].
Defined.

(** X21 at the crowded registry: three works, two handlers. *)
Lemma _on_connection_registers_witness :
  sigaction_succeeds /\ handlers_ok (sig crowded_world) /\
  exists w',
    _on_connection socket_con crowded_world = Ret tt w' /\
    NoDup (signal_handlers (sig w')) /\
    (forall s, In s (signal_handlers (sig w')) <-> In s [15; 2; 15]).
Proof.
  assert (Hsig : sigaction_succeeds) by (intros tr s; reflexivity).
  assert (Hok : handlers_ok (sig crowded_world)).
  { split; [reflexivity|constructor]. }
  split; [exact Hsig|split; [exact Hok|]].
  destruct (_on_connection_registers socket_con crowded_world Hsig eq_refl
              Hok)
    as (w' & E & (_ & Hd) & _ & _ & _ & _ & Hall & _).
  exists w'. split; [exact E|split; [exact Hd|]].
  exact (Hall eq_refl).
Defined.

(** X22 at the crowded registry, asked for the address of its listener
    on 127.0.0.1:6817: the whole address is found, the family alone is
    not. *)
Lemma _is_listening_same_endpoint_witness :
  listeners_ok (mgr crowded_world) /\
  _is_listening (sockaddr_in 6817 2130706433) 16 crowded_world
  = Ret true crowded_world /\
  _is_listening (sockaddr_in 6817 2130706433) 2 crowded_world
  = Ret false crowded_world.
Proof.
  assert (Hok : listeners_ok (mgr crowded_world)).
  { right. intros x [<-|[<-|[]]]; reflexivity. }
  split; [exact Hok|]. split.
  - destruct (_is_listening_same_endpoint (sockaddr_in 6817 2130706433) 16
                crowded_world Hok) as (Hsame & _).
    destruct Hsame as (b & E & Hb); [reflexivity|].
    rewrite E. f_equal. apply Hb.
    exists inet_listener. split; [left; reflexivity|split; reflexivity].
  - destruct (_is_listening_same_endpoint (sockaddr_in 6817 2130706433) 2
                crowded_world Hok) as (Hsame & _).
    destruct Hsame as (b & E & Hb); [reflexivity|].
    rewrite E. f_equal.
    destruct b; [|reflexivity].
    destruct (proj1 Hb eq_refl) as (x & Hx & Hsame).
    destruct Hx as [<-|[<-|[]]]; simpl in Hsame.
    + destruct Hsame as [Hport _]. discriminate Hport.
    + destruct Hsame.
Defined.

(** X23 for descriptor 7 as a listener of RPC connections. *)
Lemma conmgr_process_fd_registers_witness :
  exists rc w' evs,
    conmgr_process_fd_listen 7 CON_TYPE_RPC sample_events None 0 0
      quiet_world = Ret rc w' /\
    connections (mgr w') = connections (mgr quiet_world) /\
    trace w' = evs ++ trace quiet_world /\
    forallb (ev_is_add_connection 7 (-1) false) evs = true.
Proof.
  destruct (@conmgr_process_fd_registers linux_debug friendly_os
              CON_TYPE_RPC 7 7 7 sample_events None 0 0 quiet_world
              (or_intror eq_refl))
    as (_ & rc & w' & evs & E & Hc & _ & _ & Ht & He).
  exists rc, w', evs. repeat (split; [assumption|]). exact He.
Defined.

(** X24 for the job on nodes 1 and 3: 2 x 1024 + 1 x 2048 MB on the
    first node of the job and 1 x 1024 + 3 x 2048 MB on the second; the
    third entry is not the job's and keeps its 7. *)
Lemma gres_select_util_job_mem_set_sums_witness :
  selection_covers (node_bitmap sample_job_res)
    [gpu_mem_request; tesla_mem_request] /\
  gres_select_util_job_mem_set [] (Some sample_mem_gres_list) sample_job_res
  = Some (true, [4096; 7168; 7]).
Proof.
  assert (Hcov : selection_covers (node_bitmap sample_job_res)
                   [gpu_mem_request; tesla_mem_request]).
  { intros d i [<-|[<-|[]]] _ [<-|[<-|[]]]; discriminate. }
  split; [exact Hcov|].
  destruct (gres_select_util_job_mem_set_sums [] sample_mem_gres_list
              [gpu_mem_request; tesla_mem_request] sample_job_res)
    as (mem' & E & _); [discriminate|reflexivity|discriminate|exact Hcov
                        |simpl; lia|].
  rewrite E. vm_compute in E. inversion E. reflexivity.
Defined.

(** X26 for descriptor 5, not polled so far, asked to be read. *)
Lemma _set_fd_polling_in_step_witness :
  exists r w',
    _set_fd_polling 5 PCTL_TYPE_NONE PCTL_TYPE_READ_ONLY "con" "watch"
      quiet_world = Ret r w' /\
    fd_linked (trace w') 5 = polls r.
Proof.
  destruct (@_set_fd_polling_in_step linux_debug friendly_os 5
              PCTL_TYPE_NONE PCTL_TYPE_READ_ONLY "con" "watch" quiet_world)
    as [Hinv Htot]; [discriminate|reflexivity|].
  destruct Htot as (r & w' & E); [right; right; left; reflexivity|].
  exists r, w'. split; [exact E|]. apply (Hinv r w' E).
Defined.

(** X27 for the half-closed socket, asked to write. *)
Lemma con_set_polling_in_step_witness :
  polling_consistent half_closed_con (trace quiet_world) /\
  exists c' w',
    con_set_polling half_closed_con PCTL_TYPE_WRITE_ONLY "watch" quiet_world
    = Ret c' w' /\
    polling_consistent c' (trace w').
Proof.
  assert (Hc : polling_consistent half_closed_con (trace quiet_world)).
  { split; [simpl; lia|reflexivity]. }
  split; [exact Hc|].
  destruct (@con_set_polling_in_step linux_debug friendly_os half_closed_con
              PCTL_TYPE_WRITE_ONLY "watch" quiet_world eq_refl)
    as [Hinv Htot]; [right; simpl; lia|exact Hc|].
  destruct Htot as (c' & w' & E);
    [right; reflexivity|discriminate|discriminate|reflexivity|].
  exists c', w'. split; [exact E|]. apply (Hinv c' w' E).
Defined.

(** X29 for the whole-node job: node 1 gets 4 x 1024 MB, node 3 has no
    GPU and keeps the 7 its entry held. *)
Lemma gres_select_util_job_mem_set_whole_node_witness :
  gres_select_util_job_mem_set sample_node_table
    (Some [{| plugin_id := gpu_plugin_id;
              gres_data := Some gpu_mem_request |}]) whole_job_res
  = Some (true, [4096; 7; 7]).
Proof.
  destruct (gres_select_util_job_mem_set_whole_node sample_node_table
              {| plugin_id := gpu_plugin_id;
                 gres_data := Some gpu_mem_request |}
              gpu_mem_request whole_job_res)
    as (mem' & E & _);
    [reflexivity|reflexivity|reflexivity|discriminate| |simpl; lia|].
  - intros i [<-|[<-|[]]]; discriminate.
  - rewrite E. vm_compute in E. inversion E. reflexivity.
Defined.

(** X30 for descriptor 5 added to an empty registry. *)
Lemma add_connection_then_find_witness :
  exists w' con,
    add_connection CON_TYPE_RAW None 5 5 sample_events None 0 false None 0
      quiet_world = Ret SLURM_SUCCESS w' /\
    con_find_by_fd 5 w' = Ret (Some con) w' /\
    new_connection CON_TYPE_RAW None 5 5 sample_events false None 0 con.
Proof.
  eexists.
  assert (E : add_connection CON_TYPE_RAW None 5 5 sample_events None 0
                false None 0 quiet_world = Ret SLURM_SUCCESS _)
    by (vm_compute; reflexivity).
  destruct (add_connection_then_find _ _ _ _ _ _ _ _ _ _ _ _ E)
    as (con & Ef & _ & _ & Hnew).
  exists con. split; [exact E|split; [exact Ef|]].
  apply Hnew. intros c [].
Defined.
